(* ===== verification/_CoqProject ===== *)
-Q . S2P
Prelude.v
GoMap.v
Json.v
Paths.v
Diff.v
DiffSound.v
Domain.v
Tenant.v
Config.v
Names.v
Alias.v
AliasSound.v
Repo.v
DiffValues.v
Plugin.v
Ingest.v
IngestSound.v
MemStore.v
Read.v
Consistency.v
Mapping.v
Mongo.v
MongoLaws.v
Paging.v
MongoMem.v
MongoSound.v
Numbers.v
Rules.v
RulesSound.v
RulesEngine.v
RuleDocs.v
Flow.v
Canonical.v
HashChain.v
Delivery.v
Pipeline.v
PipelineSound.v
AsyncMem.v
Queue.v
Worker.v
WorkerSound.v
Batch.v
BatchSound.v
JsonText.v
TimeText.v
JsonSound.v
Http.v
ServerIngest.v
ServerBatch.v
WireSound.v
TaskWire.v
TaskSound.v
JsonPatch.v
ServerRead.v
ServerFlow.v
ServerPaging.v
ServerRules.v
ServerAdmin.v
ServerSound.v
DeadLetters.v
DeadLetterSound.v
Ulid.v
RedisQueue.v
RedisSound.v
QueuePort.v
RedisMem.v
QueueContract.v
RedisStores.v
RedisStoresSound.v
Catalog.v
Router.v
Dispatch.v
DispatchSound.v
WriteFate.v
NetAddr.v
Ssrf.v
Instance.v
SystemRepo.v
App.v
AppSound.v
