(* ===== verification/Prelude.v ===== *)
(** * Letopis: verification library

    Letopis records the change history of entities.  A client sends a full state, a
    ready-made diff or a delete; the service computes what changed, appends an event to
    the entity's history, refreshes its current state, takes snapshots, evaluates rules
    and runs plugins.  Reads answer the history, the current state, and the state at any
    past version or time by replay.  This library models that program, file by file, as
    executable definitions, and proves what each part promises.

    ** How the parts fit

    - [internal/diff] computes and applies diffs ([Diff.v]); it is pure.
    - [internal/domain] holds the records and the replay of a history ([Domain.v]), the
      storage interfaces ([Repo.v]) and the collection configuration ([Config.v]).
    - [internal/tenant] resolves API keys to principals ([Tenant.v]); a context is the
      principal it carries.
    - [internal/service] is the use-case layer: synchronous writes ([Ingest.v]), fast-mode
      batches ([Batch.v]), reads ([Read.v]), the asynchronous front with tickets and
      receipts ([Pipeline.v]), rules ([RulesEngine.v]), activities and flows ([Flow.v]).
    - [internal/queue] and [internal/worker] carry accepted writes to the use-cases
      ([Queue.v] in memory, [RedisQueue.v] over Redis Streams, [TaskWire.v] for the
      envelope, [Worker.v], [Batch.v]); [internal/delivery] sends webhooks
      ([Delivery.v], [Dispatch.v]), with dead letters kept by [DeadLetters.v].
    - [internal/server] is the HTTP surface: the router and its guards ([Router.v]), and
      per resource the decoding of a request, the call and the rendering of the answer
      ([Http.v] and the [Server*.v] files, over the JSON texts of [JsonText.v]).
    - [internal/cli], [internal/config] and [internal/app] turn the arguments and a
      configuration into a running process ([Instance.v], [App.v]), with the extension
      registry of [pkg/ext] and the collectors of [internal/metrics].
    - [internal/plugin] hosts the hooks ([Plugin.v]) and has one built-in plugin, the hash
      chain ([HashChain.v], over the canonical encoding of [Canonical.v]).
    - [internal/storage/mongo] implements the interfaces ([Names.v], [Mapping.v],
      [Mongo.v], [RuleDocs.v], [Catalog.v], [SystemRepo.v]) over the MongoDB driver, and
      [internal/storage/redis] the ticket and receipt stores ([RedisStores.v]) over the
      commands of the server.

    A use-case is a function of a world [W] with type-class operations for what it calls
    ([EventRepository], [CurrentRepository], [SnapshotRepository],
    [CollectionRepository], [TicketStore], [IdempotencyStore], [RuleRepository] and so
    on), in state-passing style; its theorems assume the laws of these classes
    ([StoreLaws], [ConfigFrame], [TicketLaws], [IdempotencyLaws], [EventIDLaws],
    [BatchLaws]) and nothing about their implementation.  [MemStore.v] and [AsyncMem.v]
    are instances that satisfy the laws, and the runs of the witnesses evaluate there.
    The Mongo repositories are themselves verified against a class for the driver with
    its documented laws ([MongoLaws.v]), which [MongoMem.v] satisfies; the Redis queue and
    stores against the commands of the server with theirs ([StreamLaws], [KVLaws]), which
    [RedisMem.v] and the memory at the end of [RedisStoresSound.v] satisfy.  A command may fail before or after it was
    executed.  Both queues are instances of one port, a record of operations with a class
    of laws over an abstract queue ([QueuePort.v]).  An HTTP handler is a function from a request and a world to a response and
    a world, over a class for the service it calls.

    ** Conventions

    Go's [(T, error)] is [res err T]; errors are the constructors of [Domain.err] (the
    sentinels and error types the code distinguishes), everything else is [ErrInternal].
    JSON values are [Json.json], with Go's [float64], [int] and [int64] kept apart;
    floats are [SpecFloat] values; a Go map with string keys is a sorted association list
    ([GoMap.v]); a nil map or slice is [None] where the code tells it from an empty one.
    A time is a count of nanoseconds from January 1 of year 1, 0 being the zero time.
    Machine integers are [Z], wrapped by [wrap64] where they can overflow.  Clocks, fresh
    identifiers and jitter are arguments.  Loops over maps run in key order where the
    order does not matter and over any permutation where it does ([Queue.qstep]).
    Logging is left out; metrics are optional callbacks.

    ** The files

    Values and diffs.
    - [Prelude.v]: results, machine integers, string functions and lemmas.
    - [GoMap.v], [Json.v], [Numbers.v]: maps, JSON values, [strconv] on numbers.
    - [Paths.v], [Diff.v]: diff paths and the diff engine; [DiffSound.v]: Apply inverts
      Diff in index and in keyed mode, the exact keys where it does not, and when a diff
      is empty.  [DiffValues.v]: every value in a diff comes from its inputs.
    - [Alias.v], [AliasSound.v]: Apply on an explicit heap with slice capacities, the
      refinement by the value-level Apply, and how applying a change list can alter it.

    The core.
    - [Domain.v]: events and replay; a snapshot plus the tail replays like the genesis.
    - [Tenant.v]: hashing, key resolution, scopes, collection masks, tenant
      databases.  [Config.v]: validation, defaults, the configuration cache, the admin
      service.
    - [Repo.v]: the storage interfaces with their laws.  [Plugin.v]: the plugin host.
    - [Ingest.v], [IngestSound.v], [Read.v], [Consistency.v]: a write keeps versions
      gap-free and the current state and snapshots equal to the replay; reads at a
      version or time equal a replay; the writes that break this.
    - [Batch.v], [BatchSound.v]: the same guarantee for a fast-mode batch, and what a
      refused insert leaves behind.  [Batch.v] ends with publishers, pumps and batch loops
      of one process as a step relation: where every accepted fast write is, shutdown
      included.

    The asynchronous side.
    - [Pipeline.v], [PipelineSound.v]: dispatch, receipts, tickets, batch acceptance.
    - [Queue.v]: sharding and the memory queue as a step relation; order and
      at-least-once.  [RedisQueue.v], [RedisSound.v]: the same contract for Redis Streams
      with any number of processes and failing commands.  [QueuePort.v], [QueueContract.v]: the port of both, its contract suite from
      [queuetest], the laws of a queue, and that both backends are lawful and pass.
    - [RedisStores.v], [RedisStoresSound.v]: tickets and reservations in Redis; the life of
      a ticket, at most one winner of a reservation under any interleaving.
    - [TaskWire.v], [TaskSound.v]: the task envelope; what the worker decodes is the task
      that was accepted.
    - [Worker.v], [WorkerSound.v]: settlement of a delivery, redelivery, three runs that
      end badly.
    - [WriteFate.v]: API processes and workers over one Redis as a step
      relation, with failures and crashes; every accepted durable write is in its stream
      or was ended by the answer of the ingester.
    - [Delivery.v]: webhook attempts, retries, the dead-letter path, backoff.
      [Dispatch.v], [DispatchSound.v]: the delivery task on the queue, base64 included;
      the dispatchers over the Redis
      queue as a step relation with processes that die; where every delivery is.
    - [NetAddr.v]: the parsing of addresses and CIDR texts and the address
      classes of packages net and netip, and their meaning as blocks of leading bits.
      [Ssrf.v]: the SSRF guard; its verdict is the policy read as blocks,
      and what a guarded request can reach.
    - [DeadLetters.v], [DeadLetterSound.v]: webhook bodies, dead letters, redelivery.

    The HTTP surface.
    - [JsonText.v], [JsonSound.v], [TimeText.v], [WireSound.v]: the JSON and
      RFC 3339 parsers, printers and struct decoders of the Go library as far as the code
      uses them, and that printing then parsing gives the value back.
    - [Http.v]: requests, responses, authentication.  [ServerIngest.v], [ServerBatch.v],
      [ServerRead.v], [JsonPatch.v], [ServerFlow.v], [ServerRules.v], [ServerAdmin.v]: the
      handlers.  [ServerSound.v]: which requests reach a write, and what an answer
      guarantees about the stored data; [ServerPaging.v]: a client that follows the
      cursors reads the listing.
    - [Router.v]: the route table, the readiness probe, and that nothing is answered
      behind the back of a key.
    - [Catalog.v]: the listing of the collections.  What [ServerAdmin.v] shows of a
      configuration can be sent back and shows the same.

    The instance.
    - [Instance.v]: the configuration file, its validation, the queues built from it,
      the depth sampler, the collectors and what the samplers publish.  [App.v]: [Run] as a program that opens, starts and defers.
      The commands and flags are there too.  [AppSound.v]: a process closes what it opened,
      comes to wait exactly when what it needs is there, and then every queue it publishes
      to is consumed, in it or by the workers on the same streams.
    - [Ulid.v]: server-issued identifiers.

    Rules and plugins.
    - [Rules.v], [RulesSound.v]: the compiler of conditions against their meaning.
    - [RulesEngine.v]: the cached engine, the admin service and the invalidation message.
    - [RuleDocs.v]: the rule repository and its documents.
    - [Canonical.v], [HashChain.v]: canonical bytes, their injectivity,
      the chain.

    Storage.
    - [Names.v]: physical names and the connection manager.  [Mapping.v]: documents.
      [Flow.v]: activities, the assembly of a flow and its paging.  [SystemRepo.v]: the
      audit log.
      [Mongo.v], [MongoLaws.v], [MongoSound.v], [Paging.v]: the repositories; concurrent
      appends as a step relation, cursor paging.

    ** Bounds and fuel

    The replay, diff, compiler and scanner recursions are structural.  The append loop of
    the event repository has the sixteen attempts the code has.  [Delivery.settle] takes
    fuel for the attempts of one task, and [delivery_settles] shows that the attempt cap
    is enough.  [FormatFloat.shortest] tries 17 digits, enough for any float64.  The JSON
    parser takes twice the length of the text plus one, and [parse_fuel_enough] shows that
    more changes nothing.  [redeliverAll] takes fuel for its pages: [redeliver_all] gives
    the number that suffices when letters can be deleted, and shows that none does when
    they cannot.  [Reserve] has the three attempts of the code.

    ** Not modelled

    The sockets of the HTTP and gRPC servers and their draining on shutdown, the gRPC
    server beyond its construction and the readiness it reports, and generated code: they
    hold no logic of the program.  The end of the loops a process waits for is a parameter
    of [Run].  Log lines, and the texts of usage and start-up errors, are left out; metric
    values that are floats are a parameter.  The path matching of [chi], the YAML decoder,
    the name resolver, and the MongoDB and Redis servers are parameters with their
    documented behaviour.  A subscription's pump reads one message ahead of its consumer;
    in the queue ports it reads when the consumer receives, and [Batch.v] has the
    message in the pump's hand at its end as a step of its own.  A time in the envelope is
    written in UTC, where the code keeps the offset of the client; both denote the same
    instant.  In [redis_ticket_life] a Mark is one step, although it is two commands.
    A receiver of a webhook is an outcome of the world; redirects and the pooling of
    connections are not looked at.
*)

From stdpp Require Import base list strings gmap.
From Stdlib Require Import ZArith Lia Ascii DecimalString DecimalPos.

(** ** Results: Go's [(T, error)] pairs as a sum *)

Inductive res (E A : Type) : Type :=
| Ok (a : A)
| Err (e : E).
Arguments Ok {E A} a.
Arguments Err {E A} e.

Declare Scope go_scope.
Delimit Scope go_scope with go.

Notation "x <- c ; k" :=
  (match c with Ok x => k | Err e => Err e end)
  (at level 60, c at next level, right associativity) : go_scope.

(** ** Machine integers *)

(** The value of a Go [int]/[int64] after wrap-around. *)
Definition wrap64 (z : Z) : Z := (z + 2 ^ 63) mod 2 ^ 64 - 2 ^ 63.

Lemma wrap64_id (z : Z) : (- 2 ^ 63 <= z < 2 ^ 63)%Z -> wrap64 z = z.
Proof. intros H. unfold wrap64. rewrite Z.mod_small; lia. Qed.

Lemma wrap64_range (z : Z) : (- 2 ^ 63 <= wrap64 z < 2 ^ 63)%Z.
Proof. unfold wrap64. pose proof (Z.mod_pos_bound (z + 2 ^ 63) (2 ^ 64)). lia. Qed.

(** ** Strings: byte sequences with Go's [strings] operations *)

Definition str_eqb (s t : string) : bool := String.eqb s t.

Lemma str_eqb_eq (s t : string) : str_eqb s t = true <-> s = t.
Proof. apply String.eqb_eq. Qed.

Lemma str_eqb_refl (s : string) : str_eqb s s = true.
Proof. apply String.eqb_refl. Qed.

Lemma str_eqb_neq (s t : string) : str_eqb s t = false <-> s <> t.
Proof. apply String.eqb_neq. Qed.

(** Does the byte occur in the string? *)
Fixpoint has_byte (c : ascii) (s : string) : bool :=
  match s with
  | EmptyString => false
  | String d s' => if Ascii.eqb c d then true else has_byte c s'
  end.

(** [strings.Split(s, sep)] for a one-byte separator: never empty. *)
Fixpoint split_on (c : ascii) (s : string) : list string :=
  match s with
  | EmptyString => [EmptyString]
  | String d s' =>
      if Ascii.eqb c d then EmptyString :: split_on c s'
      else match split_on c s' with
           | [] => [String d EmptyString]
           | w :: ws => String d w :: ws
           end
  end.

(** [strings.Cut(s, sep)] for a one-byte separator. *)
Fixpoint cut (c : ascii) (s : string) : option (string * string) :=
  match s with
  | EmptyString => None
  | String d s' =>
      if Ascii.eqb c d then Some (EmptyString, s')
      else match cut c s' with
           | Some (x, y) => Some (String d x, y)
           | None => None
           end
  end.

(** [strings.TrimSuffix(s, c)] for a one-byte suffix. *)
Fixpoint trim_suffix1 (c : ascii) (s : string) : string :=
  match s with
  | EmptyString => EmptyString
  | String d EmptyString => if Ascii.eqb c d then EmptyString else s
  | String d s' => String d (trim_suffix1 c s')
  end.

(** [strings.HasPrefix]. *)
Fixpoint has_prefix (p s : string) : bool :=
  match p, s with
  | EmptyString, _ => true
  | String c p', String d s' => if Ascii.eqb c d then has_prefix p' s' else false
  | String _ _, EmptyString => false
  end.

(** [strings.Contains]. *)
Fixpoint contains (sub s : string) : bool :=
  has_prefix sub s || match s with EmptyString => false | String _ s' => contains sub s' end.

(** [strings.TrimPrefix]. *)
Fixpoint drop_prefix (p s : string) : option string :=
  match p, s with
  | EmptyString, _ => Some s
  | String c p', String d s' => if Ascii.eqb c d then drop_prefix p' s' else None
  | String _ _, EmptyString => None
  end.

(** [strings.ReplaceAll(s, old, new)] for a one-byte [old]. *)
Fixpoint replace_all (c : ascii) (new s : string) : string :=
  match s with
  | EmptyString => EmptyString
  | String d s' =>
      if Ascii.eqb c d then new +:+ replace_all c new s'
      else String d (replace_all c new s')
  end.

Definition is_digit (c : ascii) : bool :=
  let n := N_of_ascii c in (48 <=? n)%N && (n <=? 57)%N.

Fixpoint all_bytes (f : ascii -> bool) (s : string) : bool :=
  match s with
  | EmptyString => true
  | String d s' => f d && all_bytes f s'
  end.

(** [strconv.Itoa] / [strconv.FormatInt(_, 10)]. *)
Definition itoa (z : Z) : string := NilZero.string_of_int (Z.to_int z).

(** ** Lemmas on strings *)

Lemma app_nil_r_str (s : string) : s +:+ "" = s.
Proof. induction s as [|c s IH]; cbn; [done|]. unfold String.append in *. by rewrite IH. Qed.

Lemma app_assoc_str (s t u : string) : (s +:+ t) +:+ u = s +:+ (t +:+ u).
Proof.
  induction s as [|c s IH]; [done|]. change (String c ((s +:+ t) +:+ u) = String c (s +:+ (t +:+ u))).
  by rewrite IH.
Qed.

Lemma app_nil_l_str (s : string) : "" +:+ s = s.
Proof. done. Qed.

Lemma app_cons_str (c : ascii) (s t : string) : String c s +:+ t = String c (s +:+ t).
Proof. done. Qed.

Lemma length_app_str (s t : string) : String.length (s +:+ t) = String.length s + String.length t.
Proof. induction s as [|c s IH]; [done|]. rewrite app_cons_str. cbn. by rewrite IH. Qed.

Lemma all_bytes_app (f : ascii -> bool) (s t : string) :
  all_bytes f (s +:+ t) = all_bytes f s && all_bytes f t.
Proof.
  induction s as [|c s IH]; [done|]. rewrite app_cons_str. cbn. rewrite IH. by rewrite andb_assoc.
Qed.

Lemma app_str_inj_r (s s' t : string) : s +:+ t = s' +:+ t -> s = s'.
Proof.
  revert s'. induction s as [|c s IH]; intros [|c' s'] H; [done| | |].
  1,2: apply (f_equal String.length) in H; rewrite !length_app_str in H; cbn in H; lia.
  rewrite !app_cons_str in H. injection H as -> H. f_equal. auto.
Qed.

Lemma has_byte_app (c : ascii) (s t : string) :
  has_byte c (s +:+ t) = has_byte c s || has_byte c t.
Proof.
  induction s as [|d s IH]; [done|]. rewrite app_cons_str. cbn.
  destruct (Ascii.eqb c d); [done|]. apply IH.
Qed.

Lemma split_on_not_nil (c : ascii) (s : string) : split_on c s <> [].
Proof.
  destruct s as [|d s]; cbn; [done|]. destruct (Ascii.eqb c d); [done|].
  by destruct (split_on c s).
Qed.

Lemma split_on_none (c : ascii) (s : string) : has_byte c s = false -> split_on c s = [s].
Proof.
  induction s as [|d s IH]; [done|]. cbn. destruct (Ascii.eqb c d); [done|].
  intros H. by rewrite IH.
Qed.

(** Appending a separator and a separator-free word adds one field. *)
Lemma split_on_snoc (c : ascii) (s w : string) :
  has_byte c w = false ->
  split_on c (s +:+ String c w) = split_on c s ++ [w].
Proof.
  intros Hw. induction s as [|d s IH].
  - rewrite app_nil_l_str. cbn. rewrite Ascii.eqb_refl. by rewrite split_on_none.
  - rewrite app_cons_str. cbn. destruct (Ascii.eqb c d); [by rewrite IH|].
    rewrite IH. pose proof (split_on_not_nil c s) as Hn. by destruct (split_on c s).
Qed.

(** Appending separator-free bytes extends the last field only. *)
Lemma split_on_extend (c : ascii) (s w : string) :
  has_byte c w = false ->
  exists ini lst, split_on c s = ini ++ [lst] /\ split_on c (s +:+ w) = ini ++ [lst +:+ w].
Proof.
  intros Hw. induction s as [|d s (ini & lst & E1 & E2)].
  - exists [], "". rewrite app_nil_l_str. by rewrite (split_on_none c w).
  - rewrite app_cons_str. cbn. destruct (Ascii.eqb c d).
    + exists ("" :: ini), lst. by rewrite E1, E2.
    + destruct ini as [|w0 ini]; cbn in *.
      * exists [], (String d lst). by rewrite E1, E2.
      * exists (String d w0 :: ini), lst. by rewrite E1, E2.
Qed.

Lemma cut_none (c : ascii) (s : string) : has_byte c s = false -> cut c s = None.
Proof.
  induction s as [|d s IH]; [done|]. cbn. destruct (Ascii.eqb c d); [done|].
  intros H. by rewrite IH.
Qed.

Lemma cut_app (c : ascii) (s t : string) :
  has_byte c s = false -> cut c (s +:+ String c t) = Some (s, t).
Proof.
  induction s as [|d s IH]; [rewrite app_nil_l_str; cbn; by rewrite Ascii.eqb_refl|].
  rewrite app_cons_str. cbn. destruct (Ascii.eqb c d); [done|]. intros H. by rewrite IH.
Qed.

Lemma trim_suffix1_snoc (c : ascii) (s : string) :
  trim_suffix1 c (s +:+ String c "") = s.
Proof.
  induction s as [|d s IH]; [rewrite app_nil_l_str; cbn; by rewrite Ascii.eqb_refl|].
  rewrite app_cons_str. cbn. rewrite IH. by destruct s.
Qed.

(** *** Byte-wise string order, as used by [sort.Strings] *)

Definition str_ltb (s t : string) : bool := negb (String.leb t s).

Lemma leb_trans_str (s t u : string) :
  String.leb s t = true -> String.leb t u = true -> String.leb s u = true.
Proof.
  intros H1 H2. apply Is_true_true.
  apply (transitivity (R := String.le) (y := t)); apply Is_true_true; done.
Qed.

Lemma leb_refl_str (s : string) : String.leb s s = true.
Proof. by destruct (String.leb_total s s). Qed.

Lemma str_ltb_irrefl (s : string) : str_ltb s s = false.
Proof. unfold str_ltb. by rewrite leb_refl_str. Qed.

Lemma str_ltb_leb (s t : string) : str_ltb s t = true -> String.leb s t = true.
Proof.
  unfold str_ltb. destruct (String.leb_total s t) as [H|H]; [done|]. by rewrite H.
Qed.

Lemma str_ltb_trans (s t u : string) :
  str_ltb s t = true -> str_ltb t u = true -> str_ltb s u = true.
Proof.
  intros H1 H2. pose proof (str_ltb_leb _ _ H1). unfold str_ltb in *.
  destruct (String.leb u s) eqn:E; [|done].
  by rewrite (leb_trans_str u s t) in H2.
Qed.

Lemma str_ltb_antisym (s t : string) :
  str_ltb s t = false -> str_ltb t s = false -> s = t.
Proof.
  unfold str_ltb. intros H1%negb_false_iff H2%negb_false_iff.
  by apply String.leb_antisym.
Qed.

Lemma str_ltb_neq (s t : string) : str_ltb s t = true -> s <> t.
Proof. intros H ->. by rewrite str_ltb_irrefl in H. Qed.

Lemma drop_prefix_app (p s : string) : drop_prefix p (p +:+ s) = Some s.
Proof. induction p as [|c p IH]; [done|]. rewrite app_cons_str. cbn. by rewrite Ascii.eqb_refl. Qed.

Lemma drop_prefix_inv p x k : drop_prefix p x = Some k -> x = p +:+ k.
Proof.
  revert x. induction p as [|c p IH]; intros x; [cbn; by intros [= ->]|]. destruct x as [|d x]; [done|]. cbn.
  destruct (Ascii.eqb c d) eqn:E; [|done]. apply Ascii.eqb_eq in E as ->. intros Hx%IH. by subst.
Qed.

Lemma str_ltb_asym (s t : string) : str_ltb s t = true -> str_ltb t s = false.
Proof.
  intros H. destruct (str_ltb t s) eqn:E; [|done].
  pose proof (str_ltb_trans _ _ _ H E) as C. by rewrite str_ltb_irrefl in C.
Qed.

Definition str_lt (s t : string) : Prop := str_ltb s t = true.

(** Trichotomy as a case-analysis principle. *)
Inductive str_cmp (s t : string) : Prop :=
| str_cmp_lt (H : str_ltb s t = true) (N : str_eqb s t = false) (A : str_ltb t s = false)
| str_cmp_eq (E : s = t)
| str_cmp_gt (H : str_ltb t s = true) (N : str_eqb s t = false) (A : str_ltb s t = false).

Lemma str_cmp_spec (s t : string) : str_cmp s t.
Proof.
  destruct (str_ltb s t) eqn:E1; [|destruct (str_ltb t s) eqn:E2].
  - apply str_cmp_lt; [done| |by apply str_ltb_asym].
    apply str_eqb_neq. by apply str_ltb_neq.
  - apply str_cmp_gt; [done| |done].
    apply str_eqb_neq. intros <-. by rewrite str_ltb_irrefl in E2.
  - apply str_cmp_eq. by apply str_ltb_antisym.
Qed.

(** ** Lists *)

Lemma nodup_map_inj {A B : Type} (g : A -> B) (l : list A) x y : NoDup (map g l) -> x ∈ l -> y ∈ l -> g x = g y -> x = y.
Proof.
  induction l as [|z l IH]; intros Hnd Hx Hy E; [by apply not_elem_of_nil in Hx|].
  cbn in Hnd. apply NoDup_cons in Hnd as [Hz Hnd]. rewrite list_elem_of_In, in_map_iff in Hz.
  apply elem_of_cons in Hx as [->|Hx], Hy as [->|Hy]; [done| | |by apply IH].
  - destruct Hz. exists y. rewrite <- list_elem_of_In. done.
  - destruct Hz. exists x. rewrite <- list_elem_of_In. done.
Qed.

Lemma in_take {A : Type} (n : nat) (l : list A) (x : A) : In x (take n l) -> In x l.
Proof. intros Hx. rewrite <- (take_drop n l). apply in_app_iff. by left. Qed.

(** A text is determined by what precedes and follows the last separator. *)
Lemma last_sep (c : ascii) (a b x y : string) : has_byte c x = false -> has_byte c y = false ->
  a +:+ String c x = b +:+ String c y -> a = b /\ x = y.
Proof.
  intros Hx Hy. revert b. induction a as [|e a IH]; intros [|d b] E; cbn in E.
  - split; [done|]. by injection E.
  - injection E as <- ->. rewrite has_byte_app in Hx. cbn in Hx. by rewrite Ascii.eqb_refl, orb_true_r in Hx.
  - injection E as -> <-. rewrite has_byte_app in Hy. cbn in Hy. by rewrite Ascii.eqb_refl, orb_true_r in Hy.
  - injection E as -> E. by destruct (IH b E) as [-> ->].
Qed.

Lemma app_str_inj_l (p s t : string) : p +:+ s = p +:+ t -> s = t.
Proof. induction p as [|c p IH]; [done|]. rewrite !app_cons_str. intros [= E]. by apply IH. Qed.

Lemma Forall2_impl_In {A B : Type} (P Q : A -> B -> Prop) (l : list A) (l' : list B) :
  Forall2 P l l' -> (forall x y, In x l -> In y l' -> P x y -> Q x y) -> Forall2 Q l l'.
Proof.
  induction 1 as [|x y l l' Hxy _ IH]; intros HPQ; constructor; [by apply HPQ; [left|left|]|].
  apply IH. intros x' y' Hx' Hy'. by apply HPQ; right.
Qed.
