(* ===== verification/GoMap.v ===== *)
(** * Go maps with string keys

    A Go [map[string]V] is an association list kept in strictly increasing
    key order, so that two maps with the same entries are equal (Go's map has
    no observable order: the program iterates it only into a sort, a copy or
    an encoder that sorts).  [mget]/[mset]/[mdel] are [m[k]], [m[k] = v] and
    [delete(m, k)]; [msorted] is the representation invariant; [mext] is
    extensionality. *)

From stdpp Require Import base list strings.
From Stdlib Require Import Sorting.Sorted Permutation.
From S2P Require Import Prelude.

Section GoMap.
Context {V : Type}.
Implicit Types (m : list (string * V)) (k : string) (v : V).

Fixpoint mget k m : option V :=
  match m with
  | [] => None
  | (k', v) :: m' => if str_eqb k k' then Some v else mget k m'
  end.

Fixpoint mset k v m : list (string * V) :=
  match m with
  | [] => [(k, v)]
  | (k', v') :: m' =>
      if str_ltb k k' then (k, v) :: m
      else if str_eqb k k' then (k, v) :: m'
      else (k', v') :: mset k v m'
  end.

Fixpoint mdel k m : list (string * V) :=
  match m with
  | [] => []
  | (k', v') :: m' => if str_eqb k k' then m' else (k', v') :: mdel k m'
  end.

Definition mkeys m : list string := map fst m.

(** The keys strictly increase. *)
Definition msorted m : Prop := StronglySorted str_lt (mkeys m).

Lemma msorted_nil : msorted [].
Proof. constructor. Qed.

Lemma msorted_cons k v m :
  msorted ((k, v) :: m) <-> msorted m /\ Forall (fun e => str_lt k (fst e)) m.
Proof.
  unfold msorted, mkeys. cbn. split.
  - intros H. apply StronglySorted_inv in H as [H1 H2]. split; [done|].
    by rewrite List.Forall_map in H2.
  - intros [H1 H2]. constructor; [done|]. by apply List.Forall_map.
Qed.

Lemma mget_None_lt k m : Forall (fun e => str_lt k (fst e)) m -> mget k m = None.
Proof.
  induction 1 as [|[k' v'] m H _ IH]; cbn; [done|].
  unfold str_lt in H; cbn in H. apply str_ltb_neq, str_eqb_neq in H. by rewrite H.
Qed.

Lemma mget_mset_eq k v m : mget k (mset k v m) = Some v.
Proof.
  induction m as [|[k' v'] m IH]; cbn; [by rewrite str_eqb_refl|].
  destruct (str_cmp_spec k k') as [H N A| -> |H N A]; cbn.
  - rewrite H. cbn. by rewrite str_eqb_refl.
  - rewrite str_ltb_irrefl, str_eqb_refl. cbn. by rewrite str_eqb_refl.
  - rewrite A, N. cbn. by rewrite N.
Qed.

Lemma mget_mset_ne k k' v m : k <> k' -> mget k' (mset k v m) = mget k' m.
Proof.
  intros Hne. assert (str_eqb k' k = false) as Hk by (by apply str_eqb_neq).
  induction m as [|[k1 v1] m IH]; cbn; [by rewrite Hk|].
  destruct (str_ltb k k1); cbn; [by rewrite Hk|].
  destruct (str_eqb k k1) eqn:E; cbn.
  - apply str_eqb_eq in E as <-. by rewrite Hk.
  - by rewrite IH.
Qed.

Lemma mget_mdel_ne k k' m : k <> k' -> mget k' (mdel k m) = mget k' m.
Proof.
  intros Hne. induction m as [|[k1 v1] m IH]; cbn; [done|].
  destruct (str_eqb k k1) eqn:E; cbn; [|by rewrite IH].
  apply str_eqb_eq in E as <-.
  assert (str_eqb k' k = false) as -> by (by apply str_eqb_neq). done.
Qed.

Lemma mget_mdel_eq k m : msorted m -> mget k (mdel k m) = None.
Proof.
  induction m as [|[k1 v1] m IH]; intros Hs; [done|].
  apply msorted_cons in Hs as [Hs Hlt]. cbn.
  destruct (str_eqb k k1) eqn:E; cbn; [|rewrite E; auto].
  apply str_eqb_eq in E as <-. by apply mget_None_lt.
Qed.

Lemma Forall_mset (P : string * V -> Prop) k v m :
  P (k, v) -> Forall P m -> Forall P (mset k v m).
Proof.
  intros Hk. induction 1 as [|[k1 v1] m H1 Hm IH]; cbn; [by constructor|].
  destruct (str_ltb k k1); [by repeat constructor|].
  destruct (str_eqb k k1); by constructor.
Qed.

Lemma Forall_mdel (P : string * V -> Prop) k m : Forall P m -> Forall P (mdel k m).
Proof.
  induction 1 as [|[k1 v1] m H1 Hm IH]; cbn; [by constructor|].
  destruct (str_eqb k k1); [done|by constructor].
Qed.

Lemma msorted_mset k v m : msorted m -> msorted (mset k v m).
Proof.
  induction m as [|[k1 v1] m IH]; intros Hs; cbn.
  - apply msorted_cons. split; [apply msorted_nil|constructor].
  - apply msorted_cons in Hs as [Hs Hlt].
    destruct (str_cmp_spec k k1) as [H N A| -> |H N A].
    + rewrite H. apply msorted_cons. split; [by apply msorted_cons|].
      constructor; [done|]. eapply Forall_impl; [exact Hlt|].
      intros e He. by apply (str_ltb_trans _ k1).
    + rewrite str_ltb_irrefl, str_eqb_refl. by apply msorted_cons.
    + rewrite A, N. apply msorted_cons. split; [auto|]. by apply Forall_mset.
Qed.

Lemma msorted_mdel k m : msorted m -> msorted (mdel k m).
Proof.
  induction m as [|[k1 v1] m IH]; intros Hs; [done|]. cbn.
  apply msorted_cons in Hs as [Hs Hlt].
  destruct (str_eqb k k1); [done|].
  apply msorted_cons. split; [auto|]. by apply Forall_mdel.
Qed.

Lemma mget_in k v m : mget k m = Some v -> In (k, v) m.
Proof.
  induction m as [|[k1 v1] m IH]; cbn; [done|].
  destruct (str_eqb k k1) eqn:E; [|auto].
  apply str_eqb_eq in E as <-. intros [= <-]. by left.
Qed.

Lemma mget_key k m : mget k m <> None <-> In k (mkeys m).
Proof.
  induction m as [|[k1 v1] m IH]; cbn; [done|].
  destruct (str_eqb k k1) eqn:E.
  - apply str_eqb_eq in E as ->. naive_solver.
  - apply str_eqb_neq in E. naive_solver.
Qed.

(** Extensionality. *)
Lemma mext m1 m2 :
  msorted m1 -> msorted m2 -> (forall k, mget k m1 = mget k m2) -> m1 = m2.
Proof.
  revert m2. induction m1 as [|[k1 v1] m1 IH]; intros [|[k2 v2] m2] H1 H2 Hx; [done| | |].
  - specialize (Hx k2). cbn in Hx. by rewrite str_eqb_refl in Hx.
  - specialize (Hx k1). cbn in Hx. by rewrite str_eqb_refl in Hx.
  - apply msorted_cons in H1 as [H1 L1], H2 as [H2 L2].
    destruct (str_cmp_spec k1 k2) as [H N A| <- |H N A].
    + specialize (Hx k1). cbn in Hx. rewrite str_eqb_refl, N in Hx.
      rewrite mget_None_lt in Hx; [done|]. eapply Forall_impl; [exact L2|].
      intros e He. by apply (str_ltb_trans _ k2).
    + pose proof (Hx k1) as E. cbn in E. rewrite str_eqb_refl in E.
      injection E as <-. f_equal. apply IH; [done..|]. intros k.
      specialize (Hx k). cbn in Hx. destruct (str_eqb k k1) eqn:E; [|done].
      apply str_eqb_eq in E as ->. by rewrite !mget_None_lt.
    + specialize (Hx k2). cbn in Hx.
      assert (str_eqb k2 k1 = false) as Hn by (by apply str_eqb_neq, str_ltb_neq).
      rewrite str_eqb_refl, Hn in Hx.
      rewrite mget_None_lt in Hx; [done|]. eapply Forall_impl; [exact L1|].
      intros e He. by apply (str_ltb_trans _ k1).
Qed.

Lemma mset_id k v m : msorted m -> mget k m = Some v -> mset k v m = m.
Proof.
  intros Hs Hg. apply mext; [by apply msorted_mset|done|]. intros k'.
  destruct (decide (k = k')) as [<-|Hne]; [by rewrite mget_mset_eq|by apply mget_mset_ne].
Qed.

Lemma mset_mset k v v' m : msorted m -> mset k v (mset k v' m) = mset k v m.
Proof.
  intros Hs. apply mext; [by repeat apply msorted_mset|by apply msorted_mset|]. intros k'.
  destruct (decide (k = k')) as [<-|Hne]; [by rewrite !mget_mset_eq|].
  by rewrite !mget_mset_ne.
Qed.

End GoMap.

(** ** [sort.Strings]: the sorted permutation, by insertion *)

Fixpoint insert_str (s : string) (l : list string) : list string :=
  match l with
  | [] => [s]
  | t :: l' => if String.leb s t then s :: l else t :: insert_str s l'
  end.

Definition sort_strings (l : list string) : list string := foldr insert_str [] l.

Lemma insert_str_perm (s : string) (l : list string) : Permutation (insert_str s l) (s :: l).
Proof.
  induction l as [|t l IH]; cbn; [done|].
  destruct (String.leb s t); [done|].
  etrans; [apply perm_skip, IH|apply perm_swap].
Qed.

Lemma sort_strings_perm (l : list string) : Permutation (sort_strings l) l.
Proof.
  induction l as [|s l IH]; cbn; [done|].
  etrans; [apply insert_str_perm|by apply perm_skip].
Qed.

Create HintDb gomap.
#[export] Hint Resolve msorted_nil msorted_mset msorted_mdel mget_mset_eq : gomap.
