(* ===== verification/Json.v ===== *)
(** * JSON values as [encoding/json] yields them

    The value space of [map[string]any], [[]any], [string], [float64], [int],
    [int64], [bool] and [nil] the diff package works on (internal/diff), with
    [reflect.DeepEqual] restricted to it ([jsonEqual]), the shortest decimal
    form of a float64 ([strconv.FormatFloat(f, 'g', -1, 64)]) and the scalar
    key form [keyValString]. *)

From stdpp Require Import base list strings.
From Stdlib Require Import ZArith Lia.
From Corelib Require Import SpecFloat.
From S2P Require Import Prelude GoMap.

(** ** float64

    An IEEE 754 binary64 datum: sign, mantissa below 2^53 and exponent. *)
Abbreviation float64 := spec_float.

(** Go's [==] on float64: the two zeros are equal, NaN differs from itself. *)
Definition float_eqb (x y : float64) : bool := SFeqb x y.

Module FormatFloat.

(** An exact non-negative dyadic [n * 2^e], compared and scaled as a fraction. *)
Definition num_den (n e : Z) : Z * Z :=
  if (0 <=? e)%Z then (n * 2 ^ e, 1)%Z else (n, 2 ^ (- e))%Z.

(** Number of decimal digits of [n / d] before the point: the least [k] (from
    [k0] upwards) with [n < d * 10^k]; negative for small values. *)
Fixpoint find_dp (fuel : nat) (k n d : Z) : Z :=
  match fuel with
  | O => k
  | S f =>
      let below := if (0 <=? k)%Z then (n <? d * 10 ^ k)%Z else (n * 10 ^ (- k) <? d)%Z in
      if below then k else find_dp f (k + 1) n d
  end.

(** Digit strings of [n / (d * 10^(dp - k))]: floor, and the exact remainder. *)
Definition scaled (n d dp : Z) (k : Z) : Z * Z * Z :=
  let s := (dp - k)%Z in
  let '(n', d') := if (0 <=? s)%Z then (n, d * 10 ^ s)%Z else (n * 10 ^ (- s), d)%Z in
  (n' / d', n' mod d', d')%Z.

(** Is the decimal [q * 10^(dp - k)] inside the rounding interval of the float
    [m * 2^e]?  The interval is closed when the mantissa is even; below a power
    of two the lower half-gap is a quarter. *)
Definition inside (m e q s : Z) : bool :=
  let lowgap := if ((m =? 2 ^ 52) && (-1074 <? e))%Z then 1%Z else 2%Z in
  (* compare 4 * q * 10^s with (4m - lowgap) * 2^e and (4m + 2) * 2^e *)
  let '(qn, qd) := if (0 <=? s)%Z then (4 * q * 10 ^ s, 1)%Z else (4 * q, 10 ^ (- s))%Z in
  let '(en, ed) := if (0 <=? e)%Z then (2 ^ e, 1)%Z else (1, 2 ^ (- e))%Z in
  let v := (qn * ed)%Z in
  let lo := ((4 * m - lowgap) * en * qd)%Z in
  let hi := ((4 * m + 2) * en * qd)%Z in
  if Z.even m then (lo <=? v)%Z && (v <=? hi)%Z else (lo <? v)%Z && (v <? hi)%Z.

(** The shortest digits that read back as [m * 2^e]: the first length at which
    rounding down or up stays inside the interval, nearest when both do (ties
    to even). *)
Fixpoint shortest (fuel : nat) (k : Z) (m e n d dp : Z) : Z * Z :=
  match fuel with
  | O => (0, k)%Z
  | S f =>
      let '(q, r, d') := scaled n d dp k in
      let s := (dp - k)%Z in
      let okdown := inside m e q s in
      let okup := inside m e (q + 1) s in
      let up := ((d' <? 2 * r) || ((2 * r =? d') && Z.odd q))%Z in
      if okdown && okup then (if up then (q + 1)%Z else q, k)
      else if okdown then (q, k)
      else if okup then ((q + 1)%Z, k)
      else shortest f (k + 1) m e n d dp
  end.

Fixpoint zeros (n : nat) : string :=
  match n with O => "" | S n' => "0" +:+ zeros n' end.

Fixpoint strip_zeros (fuel : nat) (q : Z) : Z :=
  match fuel with
  | O => q
  | S f => if ((0 <? q) && (q mod 10 =? 0))%Z then strip_zeros f (q / 10) else q
  end.

Definition take_str (n : nat) (s : string) : string := String.substring 0 n s.
Definition drop_str (n : nat) (s : string) : string := String.substring n (String.length s - n) s.

(** Exponent form: at least two exponent digits. *)
Definition fmt_e (ds : string) (exp : Z) : string :=
  let frac := drop_str 1 ds in
  let mant := if str_eqb frac "" then ds else take_str 1 ds +:+ "." +:+ frac in
  let ae := itoa (Z.abs exp) in
  mant +:+ (if (exp <? 0)%Z then "e-" else "e+")
       +:+ (if (Z.abs exp <? 10)%Z then "0" else "") +:+ ae.

(** Positional form. *)
Definition fmt_f (ds : string) (dp : Z) : string :=
  let nd := Z.of_nat (String.length ds) in
  if (dp <=? 0)%Z then "0." +:+ zeros (Z.to_nat (- dp)) +:+ ds
  else if (nd <=? dp)%Z then ds +:+ zeros (Z.to_nat (dp - nd))
  else take_str (Z.to_nat dp) ds +:+ "." +:+ drop_str (Z.to_nat dp) ds.

(** [%g] with the shortest precision: exponent form for decimal exponents below
    -4 and from 6 up (strconv uses precision 6 for this decision). *)
Definition format_pos (m e : Z) : string :=
  let '(n, d) := num_den m e in
  let dp := find_dp 640 (-324) n d in
  let '(q, k) := shortest 18 1 m e n d dp in
  (* a round-up may carry into one more digit *)
  let dp' := if (10 ^ k <=? q)%Z then (dp + 1)%Z else dp in
  let ds := itoa (strip_zeros 20 q) in
  let exp := (dp' - 1)%Z in
  if ((exp <? -4) || (6 <=? exp))%Z then fmt_e ds exp else fmt_f ds dp'.

End FormatFloat.

(** [strconv.FormatFloat(f, 'g', -1, 64)]. *)
Definition format_float (f : float64) : string :=
  match f with
  | S754_zero s => if s then "-0" else "0"
  | S754_infinity s => if s then "-Inf" else "+Inf"
  | S754_nan => "NaN"
  | S754_finite s m e => (if s then "-" else "") +:+ FormatFloat.format_pos (Zpos m) e
  end.

(** ** Values *)

Inductive json : Type :=
| JNull
| JBool (b : bool)
| JNum (f : float64)
| JInt (z : Z)      (* a Go int   *)
| JInt64 (z : Z)    (* a Go int64 *)
| JStr (s : string)
| JArr (l : list json)
| JObj (m : list (string * json)).

(** Induction through the nested lists. *)
Section JsonInd.
Context (P : json -> Prop).
Context (Hnull : P JNull) (Hbool : forall b, P (JBool b)) (Hnum : forall f, P (JNum f)).
Context (Hint : forall z, P (JInt z)) (Hint64 : forall z, P (JInt64 z)) (Hstr : forall s, P (JStr s)).
Context (Harr : forall l, Forall P l -> P (JArr l)).
Context (Hobj : forall m, Forall (fun e => P (snd e)) m -> P (JObj m)).

Fixpoint json_ind' (j : json) : P j :=
  match j with
  | JNull => Hnull
  | JBool b => Hbool b
  | JNum f => Hnum f
  | JInt z => Hint z
  | JInt64 z => Hint64 z
  | JStr s => Hstr s
  | JArr l =>
      Harr l ((fix go (l : list json) : Forall P l :=
                 match l with
                 | [] => Forall_nil_2 P
                 | x :: l' => Forall_cons_2 P x l' (json_ind' x) (go l')
                 end) l)
  | JObj m =>
      Hobj m ((fix go (m : list (string * json)) : Forall (fun e => P (snd e)) m :=
                 match m with
                 | [] => Forall_nil_2 _
                 | e :: m' => Forall_cons_2 _ e m' (json_ind' (snd e)) (go m')
                 end) m)
  end.
End JsonInd.

(** [reflect.DeepEqual] on this value space: same dynamic type, element-wise on
    slices, entry-wise on maps (whose keys are sorted here). *)
Fixpoint jsonEqual (a b : json) {struct a} : bool :=
  match a, b with
  | JNull, JNull => true
  | JBool x, JBool y => Bool.eqb x y
  | JNum x, JNum y => float_eqb x y
  | JInt x, JInt y => Z.eqb x y
  | JInt64 x, JInt64 y => Z.eqb x y
  | JStr x, JStr y => str_eqb x y
  | JArr l1, JArr l2 =>
      (fix go (l1 l2 : list json) : bool :=
         match l1, l2 with
         | [], [] => true
         | x :: l1', y :: l2' => jsonEqual x y && go l1' l2'
         | _, _ => false
         end) l1 l2
  | JObj m1, JObj m2 =>
      (fix go (m1 m2 : list (string * json)) : bool :=
         match m1, m2 with
         | [], [] => true
         | (k1, x) :: m1', (k2, y) :: m2' => str_eqb k1 k2 && jsonEqual x y && go m1' m2'
         | _, _ => false
         end) m1 m2
  | _, _ => false
  end.

(** A copy whose containers are fresh; on values it is the identity, which is
    what [deepCopy_id] records. *)
Fixpoint deepCopy (v : json) : json :=
  match v with
  | JObj t => JObj (map (fun e => (fst e, deepCopy (snd e))) t)
  | JArr t => JArr (map deepCopy t)
  | _ => v
  end.

Definition is_obj (v : json) : bool := match v with JObj _ => true | _ => false end.
Definition is_arr (v : json) : bool := match v with JArr _ => true | _ => false end.

(** Renders a scalar key value to its path form; [None] for non-scalars. *)
Definition keyValString (v : option json) : option string :=
  match v with
  | Some (JStr t) => Some t
  | Some (JBool t) => Some (if t then "true" else "false")
  | Some (JNum t) => Some (format_float t)
  | Some (JInt t) => Some (itoa t)
  | Some (JInt64 t) => Some (itoa t)
  | _ => None
  end.

(** ** Well-formed values

    The invariant of every value [encoding/json] builds: map keys distinct
    (sorted here), numbers finite (JSON has no NaN or infinity), slice lengths
    within [int]. *)

Definition float_finite (f : float64) : bool :=
  match f with S754_zero _ | S754_finite _ _ _ => true | _ => false end.

Fixpoint msortedb {V : Type} (m : list (string * V)) : bool :=
  match m with
  | [] => true
  | (k, _) :: m' => forallb (fun e => str_ltb k (fst e)) m' && msortedb m'
  end.

Fixpoint wf_json (j : json) : bool :=
  match j with
  | JNum f => float_finite f
  | JArr l => (Z.of_nat (length l) <? 2 ^ 63)%Z && forallb wf_json l
  | JObj m => msortedb m && forallb (fun e => wf_json (snd e)) m
  | _ => true
  end.

Lemma msortedb_spec {V : Type} (m : list (string * V)) : msortedb m = true <-> msorted m.
Proof.
  induction m as [|[k v] m IH]; cbn; [split; [intros _; apply msorted_nil|done]|].
  rewrite msorted_cons, andb_true_iff, IH, forallb_forall, List.Forall_forall.
  unfold str_lt. naive_solver.
Qed.

(** The two lists of fixpoint bodies, as [Forall2]. *)
Lemma jsonEqual_arr (l1 l2 : list json) :
  jsonEqual (JArr l1) (JArr l2) = true <-> Forall2 (fun x y => jsonEqual x y = true) l1 l2.
Proof.
  revert l2. induction l1 as [|x l1 IH]; intros [|y l2]; cbn.
  1: by split. 1,2: split; [done|]; by inversion 1.
  rewrite andb_true_iff, Forall2_cons. by rewrite <- IH.
Qed.

Lemma jsonEqual_obj (m1 m2 : list (string * json)) :
  jsonEqual (JObj m1) (JObj m2) = true <->
  Forall2 (fun x y => fst x = fst y /\ jsonEqual (snd x) (snd y) = true) m1 m2.
Proof.
  revert m2. induction m1 as [|[k x] m1 IH]; intros [|[k' y] m2]; cbn.
  1: by split. 1,2: split; [done|]; by inversion 1.
  rewrite !andb_true_iff, Forall2_cons, str_eqb_eq. cbn. by rewrite <- IH.
Qed.

Lemma float_eqb_refl (f : float64) : float_finite f = true -> float_eqb f f = true.
Proof.
  destruct f as [s| | |s m e]; try done. intros _. unfold float_eqb, SFeqb, SFcompare.
  destruct s; rewrite Z.compare_refl, Pos.compare_cont_refl; done.
Qed.

(** DeepEqual is reflexive on well-formed values. *)
Lemma jsonEqual_refl (j : json) : wf_json j = true -> jsonEqual j j = true.
Proof.
  induction j as [|b|f|z|z|s|l IH|m IH] using json_ind'; intros Hwf; try done.
  - by destruct b.
  - by apply float_eqb_refl.
  - apply Z.eqb_refl.
  - apply Z.eqb_refl.
  - apply str_eqb_refl.
  - apply jsonEqual_arr. cbn in Hwf. apply andb_true_iff in Hwf as [_ Hwf].
    rewrite forallb_forall in Hwf. apply Forall2_same_length_lookup_2; [done|].
    intros i x y Hx Hy. simplify_eq. rewrite Forall_lookup in IH.
    eapply IH; [done|]. apply Hwf. apply list_elem_of_In. by eapply list_elem_of_lookup_2.
  - apply jsonEqual_obj. cbn in Hwf. apply andb_true_iff in Hwf as [_ Hwf].
    rewrite forallb_forall in Hwf. apply Forall2_same_length_lookup_2; [done|].
    intros i x y Hx Hy. simplify_eq. split; [done|]. rewrite Forall_lookup in IH.
    eapply (IH i); [done|]. apply Hwf. apply list_elem_of_In. by eapply list_elem_of_lookup_2.
Qed.

Lemma deepCopy_id (j : json) : deepCopy j = j.
Proof.
  induction j as [|b|f|z|z|s|l IH|m IH] using json_ind'; cbn; try done; f_equal.
  - induction IH as [|x l Hx _ IH]; cbn; [done|]. by rewrite Hx, IH.
  - induction IH as [|[k x] m Hx _ IH]; cbn in *; [done|]. by rewrite Hx, IH.
Qed.
