(* ===== verification/Paths.v ===== *)
(** * Diff paths (internal/diff: childPath, indexPath, keyedPath, parsePath)

    Dot-notation paths are strings; [parsePath] turns one into navigation
    segments.  The second half shows that the paths the diff engine prints are
    parsed back to the segments they were printed from ([path_repr]), under the
    conditions on names that dot-notation needs ([key_ok], [sel_ok]). *)

From stdpp Require Import base list strings.
From Stdlib Require Import ZArith Lia Ascii DecimalString DecimalPos DecimalZ.
From S2P Require Import Prelude GoMap Json.

Open Scope char_scope.
Definition dot : ascii := "."%char.
Definition lbrack : ascii := "["%char.
Definition rbrack : ascii := "]"%char.
Definition eqsign : ascii := "="%char.
Close Scope char_scope.

(** The typed errors of the package; the wrapping text is not modelled. *)
Inductive diffErr :=
| ErrPathNotFound
| ErrTypeMismatch
| ErrUnknownOp
| ErrKeyedPathNotExportable.

#[export] Instance diffErr_eq_dec : EqDecision diffErr.
Proof. solve_decision. Defined.

(** ** Printing *)

Definition childPath (path key : string) : string :=
  if str_eqb path "" then key else path +:+ "." +:+ key.

Definition indexPath (path : string) (i : nat) : string := childPath path (itoa (Z.of_nat i)).

Definition keyedPath (path keyField keyVal : string) : string :=
  path +:+ "[" +:+ keyField +:+ "=" +:+ keyVal +:+ "]".

(** ** Parsing *)

Inductive pathSeg :=
| segKey (name : string)
| segIndex (index : Z)
| segKeyed (keyField keyVal : string).

#[export] Instance pathSeg_eq_dec : EqDecision pathSeg.
Proof. solve_decision. Defined.

Fixpoint atoi_loop (n : Z) (s : string) : option Z :=
  match s with
  | EmptyString => Some n
  | String r s' =>
      if is_digit r
      then atoi_loop (wrap64 (n * 10 + (Z.of_N (N_of_ascii r) - 48))) s'
      else None
  end.

Definition atoiIndex (s : string) : option Z :=
  match s with
  | EmptyString => None
  | _ => atoi_loop 0 s
  end.

Definition keyOrIndex (seg : string) : pathSeg :=
  match atoiIndex seg with
  | Some i => segIndex i
  | None => segKey seg
  end.

(** One dot-separated field: a bracket selector expands to the array's key
    segment (when named) followed by a keyed segment. *)
Definition parseRaw (raw : string) : res diffErr (list pathSeg) :=
  match cut lbrack raw with
  | Some (name, sel) =>
      match cut eqsign (trim_suffix1 rbrack sel) with
      | Some (field, val) =>
          Ok ((if str_eqb name "" then [] else [keyOrIndex name]) ++ [segKeyed field val])
      | None => Err ErrPathNotFound
      end
  | None => Ok [keyOrIndex raw]
  end.

Fixpoint parseRaws (raws : list string) : res diffErr (list pathSeg) :=
  match raws with
  | [] => Ok []
  | raw :: raws' =>
      (segs <- parseRaw raw; rest <- parseRaws raws'; Ok (segs ++ rest))%go
  end.

Definition parsePath (path : string) : res diffErr (list pathSeg) :=
  if str_eqb path "" then Ok [] else parseRaws (split_on dot path).

(** ** Names that dot-notation can carry *)

(** An object key: not empty, no dot, no opening bracket, not a number. *)
Definition key_ok (k : string) : bool :=
  negb (str_eqb k "") && negb (has_byte dot k) && negb (has_byte lbrack k)
  && negb (all_bytes is_digit k).

(** A keyed selector: the field has neither '.' nor '=', the value no '.'. *)
Definition sel_ok (f v : string) : bool :=
  negb (has_byte dot f) && negb (has_byte eqsign f) && negb (has_byte dot v).

(** ** Lemmas *)

Lemma atoi_loop_none (n : Z) (s : string) : all_bytes is_digit s = false -> atoi_loop n s = None.
Proof.
  revert n. induction s as [|c s IH]; intros n; cbn; [done|].
  destruct (is_digit c); cbn; [apply IH|done].
Qed.

Lemma keyOrIndex_key (k : string) : key_ok k = true -> keyOrIndex k = segKey k.
Proof.
  unfold key_ok, keyOrIndex, atoiIndex. rewrite !andb_true_iff, !negb_true_iff.
  intros [_ H]. destruct k; [done|]. by rewrite atoi_loop_none.
Qed.

Lemma of_uint_acc_ge (d : Decimal.uint) (acc : positive) :
  (Zpos acc <= Zpos (Pos.of_uint_acc d acc))%Z.
Proof.
  revert acc. induction d; intros acc; cbn [Pos.of_uint_acc]; [lia|..];
    (etrans; [|apply IHd]); lia.
Qed.

(** The decimal printer and the index parser agree. *)
Lemma atoi_loop_uint (d : Decimal.uint) (acc : positive) :
  (Zpos (Pos.of_uint_acc d acc) < 2 ^ 63)%Z ->
  atoi_loop (Zpos acc) (NilEmpty.string_of_uint d) = Some (Zpos (Pos.of_uint_acc d acc)).
Proof.
  revert acc. induction d; intros acc Hlt; cbn [NilEmpty.string_of_uint Pos.of_uint_acc] in *;
    [done|..];
    cbn [atoi_loop]; match goal with |- context [is_digit ?c] => change (is_digit c) with true end;
    cbv iota;
    match goal with |- context [Pos.of_uint_acc d ?a] =>
      pose proof (of_uint_acc_ge d a) as Hge; rewrite <- (IHd a) by done end;
    f_equal; cbn [N_of_ascii]; rewrite wrap64_id; cbn; lia.
Qed.

Lemma atoi_loop_uint0 (d : Decimal.uint) :
  (Z.of_N (Pos.of_uint d) < 2 ^ 63)%Z ->
  atoi_loop 0 (NilEmpty.string_of_uint d) = Some (Z.of_N (Pos.of_uint d)).
Proof.
  induction d; intros Hlt; cbn [NilEmpty.string_of_uint Pos.of_uint] in *; [done|..];
    cbn [atoi_loop]; match goal with |- context [is_digit ?c] => change (is_digit c) with true end;
    cbv iota; match goal with |- context [wrap64 ?e] => change (wrap64 e) with e end;
    [by apply IHd|..]; by apply atoi_loop_uint.
Qed.

Lemma uint_digits (d : Decimal.uint) : all_bytes is_digit (NilEmpty.string_of_uint d) = true.
Proof. induction d; cbn [NilEmpty.string_of_uint all_bytes]; [done|..]; by rewrite IHd. Qed.

Lemma no_byte_of_digits (c : ascii) (s : string) :
  is_digit c = false -> all_bytes is_digit s = true -> has_byte c s = false.
Proof.
  intros Hc. induction s as [|d s IH]; cbn; [done|]. intros [Hd Hs]%andb_true_iff.
  destruct (Ascii.eqb c d) eqn:E; [|auto]. apply Ascii.eqb_eq in E as ->. congruence.
Qed.

Lemma itoa_no_byte (c : ascii) (z : Z) : is_digit c = false -> Ascii.eqb c "-" = false -> has_byte c (itoa z) = false.
Proof.
  intros Hc Hm. unfold itoa. assert (forall d, has_byte c (NilZero.string_of_uint d) = false) as Hu.
  { intros d. unfold NilZero.string_of_uint. destruct d; apply no_byte_of_digits; try done; apply uint_digits. }
  destruct (Z.to_int z) as [d|d]; [apply Hu|]. cbn [NilZero.string_of_int has_byte]. rewrite Hm. apply Hu.
Qed.

Lemma itoa_inj (a b : Z) : itoa a = itoa b -> a = b.
Proof.
  unfold itoa. intros E.
  assert (forall z, NilZero.int_of_string (NilZero.string_of_int (Z.to_int z)) = Some (Z.to_int z)) as Hi.
  { intros z. assert (Z.to_int z <> Decimal.Pos Decimal.Nil /\ Z.to_int z <> Decimal.Neg Decimal.Nil) as [H1 H2].
    - destruct z as [|p|p]; cbn; split; try done; intros [= Hp]; apply (f_equal Pos.of_uint) in Hp; rewrite DecimalPos.Unsigned.of_to in Hp; discriminate Hp.
    - by apply NilZero.isi. }
  pose proof (Hi a) as Ha. rewrite E, Hi in Ha. injection Ha as Ha.
  rewrite <- (DecimalZ.of_to a), <- (DecimalZ.of_to b). by rewrite Ha.
Qed.

(** The decimal form of an index: nonempty digits that parse back to it. *)
Lemma itoa_index (i : nat) :
  (Z.of_nat i < 2 ^ 63)%Z ->
  let s := itoa (Z.of_nat i) in
  s <> "" /\ all_bytes is_digit s = true /\ atoiIndex s = Some (Z.of_nat i).
Proof.
  intros Hi. destruct i as [|i]; [done|].
  set (p := Pos.of_succ_nat i). change (Z.of_nat (S i)) with (Zpos p) in *.
  pose proof (Unsigned.to_uint_nonnil p) as Hnil. pose proof (Unsigned.of_to p) as Hof.
  assert (itoa (Zpos p) = NilEmpty.string_of_uint (Pos.to_uint p)) as ->
    by (unfold itoa; cbn; by destruct (Pos.to_uint p)).
  assert (NilEmpty.string_of_uint (Pos.to_uint p) <> "") as Hne by (by destruct (Pos.to_uint p)).
  split; [done|]. split; [apply uint_digits|].
  unfold atoiIndex. destruct (NilEmpty.string_of_uint (Pos.to_uint p)) eqn:E; [done|].
  rewrite <- E, atoi_loop_uint0; rewrite Hof; cbn; [done|lia].
Qed.

(** ** Printed paths and the segments they denote *)

Lemma parseRaws_app (r1 r2 : list string) (s1 s2 : list pathSeg) :
  parseRaws r1 = Ok s1 -> parseRaws r2 = Ok s2 -> parseRaws (r1 ++ r2) = Ok (s1 ++ s2).
Proof.
  revert s1. induction r1 as [|raw r1 IH]; cbn; intros s1 H1 H2; [by injection H1 as <-|].
  destruct (parseRaw raw) as [segs|e]; [|done].
  destruct (parseRaws r1) as [rest|e]; [|done]. injection H1 as <-.
  by rewrite (IH rest), app_assoc.
Qed.

(** [path_repr p segs]: [p] is the printed form of [segs]; [flat] says that the
    last field carries no selector, so a selector may still be appended. *)
Record path_repr (p : string) (segs : list pathSeg) (flat : bool) : Prop := {
  pr_parse : parsePath p = Ok segs;
  pr_empty : p = "" -> segs = [];
  pr_flat : flat = true -> p = "" \/
    exists ini lst s1, split_on dot p = ini ++ [lst] /\ has_byte lbrack lst = false /\
      lst <> "" /\ parseRaws ini = Ok s1;
}.

Lemma path_repr_root : path_repr "" [] true.
Proof. split; [done|done|by left]. Qed.

Lemma parse_nonempty (p : string) : p <> "" -> parsePath p = parseRaws (split_on dot p).
Proof. intros H. unfold parsePath. by apply str_eqb_neq in H as ->. Qed.

Lemma childPath_nonempty (p w : string) : w <> "" -> childPath p w <> "".
Proof.
  intros Hw. unfold childPath. destruct (str_eqb p "") eqn:E; [done|].
  destruct p; [done|]. rewrite app_cons_str. done.
Qed.

(** Appending a plain field. *)
Lemma path_repr_child (p w : string) (segs : list pathSeg) (fl : bool) (sg : pathSeg) :
  path_repr p segs fl -> w <> "" -> has_byte dot w = false -> has_byte lbrack w = false ->
  keyOrIndex w = sg ->
  path_repr (childPath p w) (segs ++ [sg]) true.
Proof.
  intros [Hp He _] Hw Hdot Hbr Hsg.
  assert (parseRaws [w] = Ok [sg]) as H1.
  { cbn. unfold parseRaw. rewrite cut_none by done. by rewrite Hsg. }
  pose proof (childPath_nonempty p w Hw) as Hne.
  assert (exists ini s1, split_on dot (childPath p w) = ini ++ [w] /\ parseRaws ini = Ok s1 /\
            segs = s1) as (ini & s1 & Hs & Hi & ->).
  { unfold childPath in *. destruct (str_eqb p "") eqn:E.
    - apply str_eqb_eq in E as ->. exists [], []. rewrite split_on_none by done. auto.
    - apply str_eqb_neq in E. rewrite parse_nonempty in Hp by done.
      exists (split_on dot p), segs. split; [|done].
      change ("." +:+ w) with (String dot w). by apply split_on_snoc. }
  split; [|done|].
  - rewrite parse_nonempty by done. rewrite Hs. by apply parseRaws_app.
  - intros _. right. by exists ini, w, s1.
Qed.

Lemma path_repr_key (p k : string) (segs : list pathSeg) (fl : bool) :
  path_repr p segs fl -> key_ok k = true -> path_repr (childPath p k) (segs ++ [segKey k]) true.
Proof.
  intros Hp Hk. pose proof (keyOrIndex_key k Hk) as Hs.
  unfold key_ok in Hk. rewrite !andb_true_iff, !negb_true_iff in Hk.
  destruct Hk as [[[Hne Hdot] Hbr] _]. apply str_eqb_neq in Hne.
  by eapply path_repr_child.
Qed.

Lemma path_repr_index (p : string) (i : nat) (segs : list pathSeg) (fl : bool) :
  path_repr p segs fl -> (Z.of_nat i < 2 ^ 63)%Z ->
  path_repr (indexPath p i) (segs ++ [segIndex (Z.of_nat i)]) true.
Proof.
  intros Hp Hi. destruct (itoa_index i Hi) as (Hne & Hd & Ha).
  eapply path_repr_child; [done|done|by apply no_byte_of_digits..|].
  unfold keyOrIndex. by rewrite Ha.
Qed.

Definition selector (f v : string) : string := "[" +:+ f +:+ "=" +:+ v +:+ "]".

Lemma selector_no_dot (f v : string) : sel_ok f v = true -> has_byte dot (selector f v) = false.
Proof.
  unfold sel_ok, selector. rewrite !andb_true_iff, !negb_true_iff. intros [[Hf _] Hv].
  rewrite !has_byte_app, Hf, Hv. done.
Qed.

Lemma parseRaw_selector (lst f v : string) :
  has_byte lbrack lst = false -> sel_ok f v = true ->
  parseRaw (lst +:+ selector f v) =
    Ok ((if str_eqb lst "" then [] else [keyOrIndex lst]) ++ [segKeyed f v]).
Proof.
  intros Hl Hs. unfold sel_ok in Hs. rewrite !andb_true_iff, !negb_true_iff in Hs.
  destruct Hs as [[_ Hf] _]. unfold parseRaw, selector.
  change ("[" +:+ f +:+ "=" +:+ v +:+ "]") with (String lbrack (f +:+ "=" +:+ v +:+ "]")).
  rewrite cut_app by done.
  replace (f +:+ "=" +:+ v +:+ "]") with ((f +:+ String eqsign v) +:+ String rbrack "").
  2: { rewrite app_assoc_str. done. }
  by rewrite trim_suffix1_snoc, cut_app.
Qed.

Lemma app_str_nonempty_l (s t : string) : s <> "" -> s +:+ t <> "".
Proof. by destruct s. Qed.

(** Appending a selector to the array's own path. *)
Lemma path_repr_keyed (p f v : string) (segs : list pathSeg) :
  path_repr p segs true -> sel_ok f v = true ->
  path_repr (keyedPath p f v) (segs ++ [segKeyed f v]) false.
Proof.
  intros [Hp He Hfl] Hs. change (keyedPath p f v) with (p +:+ selector f v).
  pose proof (selector_no_dot f v Hs) as Hd.
  assert (p +:+ selector f v <> "") as Hne by (by destruct p).
  split; [|done|done]. rewrite parse_nonempty by done.
  destruct (Hfl eq_refl) as [-> |(ini & lst & s1 & Hsp & Hbr & Hlst & Hi)].
  - rewrite (He eq_refl), app_nil_l_str, split_on_none by done.
    cbn [parseRaws]. rewrite <- (app_nil_l_str (selector f v)).
    by rewrite parseRaw_selector.
  - destruct (split_on_extend dot p (selector f v) Hd) as (ini' & lst' & E1 & E2).
    rewrite Hsp in E1. apply app_inj_tail in E1 as [<- <-]. rewrite E2.
    assert (p <> "") as Hpn by (intros ->; by destruct ini as [|? [|]]; simplify_eq/=).
    rewrite parse_nonempty, Hsp in Hp by done.
    pose proof (parseRaw_selector lst f v Hbr Hs) as Hr.
    apply str_eqb_neq in Hlst. rewrite Hlst in Hr.
    assert (parseRaws [lst] = Ok [keyOrIndex lst]) as Hk
      by (cbn; unfold parseRaw; by rewrite cut_none).
    pose proof (parseRaws_app _ _ _ _ Hi Hk) as Hall. rewrite Hp in Hall. injection Hall as ->.
    rewrite <- app_assoc. apply parseRaws_app; [done|]. cbn [parseRaws]. by rewrite Hr.
Qed.
