(* ===== verification/Diff.v ===== *)
(** * The diff engine (internal/diff/diff.go, apply.go)

    [Diff] walks two JSON values and emits the edits that turn the first into
    the second; [Apply] replays edits on a value.  Both are written as in the
    source: string paths, sorted key union, index mode with ascending additions
    and descending removals, keyed mode with its fallback, and one error value
    per failing branch.  Go's append-to-[out] accumulators are returned lists.

    [diffValue] recurses on its first argument; the loops over a map or a slice
    receive each child together with the recursive call on it ([node]). *)

From stdpp Require Import base list strings.
From Stdlib Require Import ZArith Lia Ascii.
From S2P Require Import Prelude GoMap Json Paths.

(** ** Data *)

(** The kind of a single change; any other string a client sends is [OpOther]. *)
Inductive Op := OpAdd | OpChange | OpRemove | OpOther (s : string).

#[export] Instance Op_eq_dec : EqDecision Op.
Proof. solve_decision. Defined.

(** The text of a kind. *)
Definition opText (o : Op) : string :=
  match o with OpAdd => "add" | OpChange => "change" | OpRemove => "remove" | OpOther s => s end.

Record Change := mkChange { Path : string; ChOp : Op; Old : json; New : json }.

Record Options := mkOptions { ArrayKeys : list (string * string) }.

(** A child with the recursive call on it. *)
Abbreviation node := (json * (string -> json -> list Change))%type.

(** ** Diff *)

Fixpoint add_unseen (seen keys : list string) : list string :=
  match keys with
  | [] => seen
  | k :: keys' => add_unseen (if existsb (str_eqb k) seen then seen else seen ++ [k]) keys'
  end.

Definition sortedUnion {V W : Type} (a : list (string * V)) (b : list (string * W)) : list string :=
  sort_strings (add_unseen (add_unseen [] (mkeys a)) (mkeys b)).

Fixpoint keyable_loop (seen : list string) (arr : list json) (keyField : string) : bool :=
  match arr with
  | [] => true
  | JObj m :: arr' =>
      match keyValString (mget keyField m) with
      | Some ks => if existsb (str_eqb ks) seen then false
                   else keyable_loop (ks :: seen) arr' keyField
      | None => false
      end
  | _ :: _ => false
  end.

Definition keyable (arr : list json) (keyField : string) : bool := keyable_loop [] arr keyField.

(** [ks, _ := keyValString(el.(map[string]any)[keyField])] *)
Definition elKey (keyField : string) (el : json) : string :=
  match el with
  | JObj m => default "" (keyValString (mget keyField m))
  | _ => ""
  end.

(** The loop body of [diffMap] for one key. *)
Definition diffMapKey (path : string) (a : list (string * node)) (b : list (string * json)) (k : string) : list Change :=
  let cp := childPath path k in
  match mget k a, mget k b with
  | Some (_, diffChild), Some bv => diffChild cp bv
  | None, Some bv => [mkChange cp OpAdd JNull bv]
  | Some (av, _), None => [mkChange cp OpRemove av JNull]
  | None, None => [mkChange cp OpRemove JNull JNull]
  end.

Definition diffMap (path : string) (a : list (string * node)) (b : list (string * json)) : list Change :=
  flat_map (diffMapKey path a b) (sortedUnion a b).

Fixpoint diffCommon (path : string) (i : nat) (a : list node) (b : list json) : list Change :=
  match a, b with
  | (_, diffChild) :: a', bv :: b' => diffChild (indexPath path i) bv ++ diffCommon path (S i) a' b'
  | _, _ => []
  end.

Fixpoint addsFrom (path : string) (i : nat) (b : list json) : list Change :=
  match b with
  | [] => []
  | bv :: b' => mkChange (indexPath path i) OpAdd JNull bv :: addsFrom path (S i) b'
  end.

Fixpoint removesFrom (path : string) (i : nat) (a : list json) : list Change :=
  match a with
  | [] => []
  | av :: a' => removesFrom path (S i) a' ++ [mkChange (indexPath path i) OpRemove av JNull]
  end.

Definition diffIndexArray (path : string) (a : list node) (b : list json) : list Change :=
  let n := Nat.min (length a) (length b) in
  diffCommon path 0 a b ++ addsFrom path n (drop n b) ++ removesFrom path n (map fst (drop n a)).

(** The two loop bodies of [diffKeyedArray]. *)
Definition diffKeyedOld (path keyField : string) (bByKey : list (string * json)) (n : node) : list Change :=
  let ks := elKey keyField (fst n) in
  let kp := keyedPath path keyField ks in
  match mget ks bByKey with
  | Some bel => (snd n) kp bel
  | None => [mkChange kp OpRemove (fst n) JNull]
  end.

Definition diffKeyedNew (path keyField : string) (aKeys : list string) (el : json) : list Change :=
  let ks := elKey keyField el in
  if existsb (str_eqb ks) aKeys then []
  else [mkChange (keyedPath path keyField ks) OpAdd JNull el].

Definition diffKeyedArray (path keyField : string) (a : list node) (b : list json) : list Change :=
  let bByKey := fold_left (fun m el => mset (elKey keyField el) el m) b [] in
  let aKeys := map (fun n => elKey keyField (fst n)) a in
  flat_map (diffKeyedOld path keyField bByKey) a ++ flat_map (diffKeyedNew path keyField aKeys) b.

Fixpoint diffValue (opts : Options) (a : json) {struct a} : string -> json -> list Change :=
  fun path b =>
  if jsonEqual a b then [] else
  match a, b with
  | JObj am, JObj bm =>
      diffMap path (map (fun e => (fst e, (snd e, diffValue opts (snd e)))) am) bm
  | JArr aa, JArr ba =>
      let nodes := map (fun x => (x, diffValue opts x)) aa in
      match mget path (ArrayKeys opts) with
      | Some kf => if keyable aa kf && keyable ba kf
                   then diffKeyedArray path kf nodes ba
                   else diffIndexArray path nodes ba
      | None => diffIndexArray path nodes ba
      end
  | _, _ => [mkChange path OpChange a b]
  end.

Definition Diff (a b : json) (opts : Options) : list Change := diffValue opts a "" b.

(** ** Apply *)

Fixpoint indexOfKey_from (j : nat) (arr : list json) (keyField keyVal : string) : option nat :=
  match arr with
  | [] => None
  | el :: arr' =>
      let hit := match el with
                 | JObj m => match keyValString (mget keyField m) with
                             | Some ks => str_eqb ks keyVal
                             | None => false
                             end
                 | _ => false
                 end in
      if hit then Some j else indexOfKey_from (S j) arr' keyField keyVal
  end.

(** [None] is the source's -1. *)
Definition indexOfKey (arr : list json) (keyField keyVal : string) : option nat :=
  indexOfKey_from 0 arr keyField keyVal.

(** The edit of a slice at a checked position. *)
Definition insertAt (i : nat) (v : json) (arr : list json) : list json := take i arr ++ v :: drop i arr.
Definition removeAt (i : nat) (arr : list json) : list json := take i arr ++ drop (S i) arr.

(** [i >= 0 && i < n], with the position as a [nat]. *)
Definition inRange (i : Z) (n : nat) : option nat :=
  if ((0 <=? i) && (i <? Z.of_nat n))%Z then Some (Z.to_nat i) else None.

Fixpoint applyStep (nd : json) (segs : list pathSeg) (ch : Change) {struct segs} : res diffErr json :=
  match segs with
  | [] => Err ErrPathNotFound
  | s :: segs' =>
      let last := match segs' with [] => true | _ => false end in
      match s with
      | segKey name =>
          match nd with
          | JObj m =>
              if last then
                match ChOp ch with
                | OpAdd | OpChange => Ok (JObj (mset name (New ch) m))
                | OpRemove =>
                    match mget name m with
                    | None => Err ErrPathNotFound
                    | Some _ => Ok (JObj (mdel name m))
                    end
                | OpOther _ => Err ErrUnknownOp
                end
              else
                match mget name m with
                | None => Err ErrPathNotFound
                | Some child => (nv <- applyStep child segs' ch; Ok (JObj (mset name nv m)))%go
                end
          | _ => Err ErrTypeMismatch
          end
      | segIndex i =>
          match nd with
          | JArr arr =>
              if last then
                match ChOp ch with
                | OpAdd =>
                    match inRange i (S (length arr)) with
                    | None => Err ErrPathNotFound
                    | Some n => Ok (JArr (insertAt n (New ch) arr))
                    end
                | OpChange =>
                    match inRange i (length arr) with
                    | None => Err ErrPathNotFound
                    | Some n => Ok (JArr (<[n := New ch]> arr))
                    end
                | OpRemove =>
                    match inRange i (length arr) with
                    | None => Err ErrPathNotFound
                    | Some n => Ok (JArr (removeAt n arr))
                    end
                | OpOther _ => Err ErrUnknownOp
                end
              else
                match inRange i (length arr) with
                | None => Err ErrPathNotFound
                | Some n =>
                    match arr !! n with
                    | None => Err ErrPathNotFound
                    | Some child => (nv <- applyStep child segs' ch; Ok (JArr (<[n := nv]> arr)))%go
                    end
                end
          | _ => Err ErrTypeMismatch
          end
      | segKeyed keyField keyVal =>
          match nd with
          | JArr arr =>
              let idx := indexOfKey arr keyField keyVal in
              if last then
                match ChOp ch with
                | OpAdd => Ok (JArr (arr ++ [New ch]))
                | OpChange =>
                    match idx with
                    | None => Err ErrPathNotFound
                    | Some n => Ok (JArr (<[n := New ch]> arr))
                    end
                | OpRemove =>
                    match idx with
                    | None => Err ErrPathNotFound
                    | Some n => Ok (JArr (removeAt n arr))
                    end
                | OpOther _ => Err ErrUnknownOp
                end
              else
                match idx with
                | None => Err ErrPathNotFound
                | Some n =>
                    match arr !! n with
                    | None => Err ErrPathNotFound
                    | Some child => (nv <- applyStep child segs' ch; Ok (JArr (<[n := nv]> arr)))%go
                    end
                end
          | _ => Err ErrTypeMismatch
          end
      end
  end.

(** One iteration of [Apply]'s loop, on parsed segments. *)
Definition applySegs (result : json) (segs : list pathSeg) (ch : Change) : res diffErr json :=
  match segs with
  | [] => match ChOp ch with
          | OpChange => Ok (New ch)
          | _ => Err ErrUnknownOp
          end
  | _ => applyStep result segs ch
  end.

Fixpoint applyLoop (result : json) (changes : list Change) : res diffErr json :=
  match changes with
  | [] => Ok result
  | ch :: changes' =>
      (segs <- parsePath (Path ch); r <- applySegs result segs ch; applyLoop r changes')%go
  end.

Definition Apply (state : json) (changes : list Change) : res diffErr json :=
  applyLoop (deepCopy state) changes.

Create HintDb diff.
