(* ===== verification/DiffSound.v ===== *)
(** * Apply inverts Diff

    [merge] is the reference semantics of "diff then apply": the value [Apply]
    must reach from [a] with [Diff a b].  The main lemma [diffValue_runs] shows
    that it does, by induction on [a]: every emitted change is replayed at the
    position its path denotes ([runs]).  [merge] is then compared with [b]:
    DeepEqual when no array is diffed in keyed mode, equal up to the order of
    keyed arrays otherwise. *)

From stdpp Require Import base list strings.
From Stdlib Require Import ZArith Lia Ascii Permutation.
From Corelib Require Import SpecFloat.
From S2P Require Import Prelude GoMap Json Paths Diff.

(** ** Reference result *)

Abbreviation mnode := (json * (string -> json -> json))%type.

Definition byKey (keyField : string) (b : list json) : list (string * json) :=
  fold_left (fun m el => mset (elKey keyField el) el m) b [].

Fixpoint mergeCommon (path : string) (i : nat) (a : list mnode) (b : list json) : list json :=
  match a, b with
  | (_, mergeChild) :: a', bv :: b' => mergeChild (indexPath path i) bv :: mergeCommon path (S i) a' b'
  | _, _ => []
  end.

Definition mergeKeyed (path kf : string) (a : list mnode) (b : list json) : list json :=
  let aKeys := map (fun n => elKey kf (fst n)) a in
  flat_map (fun n =>
    match mget (elKey kf (fst n)) (byKey kf b) with
    | Some bel => [snd n (keyedPath path kf (elKey kf (fst n))) bel]
    | None => []
    end) a ++
  List.filter (fun el => negb (existsb (str_eqb (elKey kf el)) aKeys)) b.

Definition mergeIndex (path : string) (a : list mnode) (b : list json) : list json :=
  mergeCommon path 0 a b ++ drop (length a) b.

Definition mergeMap (path : string) (a : list (string * mnode)) (b : list (string * json)) : list (string * json) :=
  map (fun e => (fst e, match mget (fst e) a with
                        | Some (_, mergeChild) => mergeChild (childPath path (fst e)) (snd e)
                        | None => snd e
                        end)) b.

Fixpoint merge (opts : Options) (a : json) {struct a} : string -> json -> json :=
  fun path b =>
  if jsonEqual a b then a else
  match a, b with
  | JObj am, JObj bm => JObj (mergeMap path (map (fun e => (fst e, (snd e, merge opts (snd e)))) am) bm)
  | JArr aa, JArr ba =>
      let nodes := map (fun x => (x, merge opts x)) aa in
      match mget path (ArrayKeys opts) with
      | Some kf => if keyable aa kf && keyable ba kf
                   then JArr (mergeKeyed path kf nodes ba) else JArr (mergeIndex path nodes ba)
      | None => JArr (mergeIndex path nodes ba)
      end
  | _, _ => b
  end.

(** ** Names a diff can address

    Every object key is a valid path field, and every key value of an element
    of an array that could be keyed is a valid selector. *)

Definition elKeyO (kf : string) (el : json) : option string :=
  match el with JObj m => keyValString (mget kf m) | _ => None end.

Definition sels_ok (kfs : list string) (el : json) : bool :=
  forallb (fun kf => match elKeyO kf el with Some ks => sel_ok kf ks | None => true end) kfs.

Fixpoint names_ok (kfs : list string) (j : json) : bool :=
  match j with
  | JArr l => forallb (fun x => sels_ok kfs x && names_ok kfs x) l
  | JObj m => forallb (fun e => key_ok (fst e) && names_ok kfs (snd e)) m
  | _ => true
  end.

Definition keyFields (opts : Options) : list string := map snd (ArrayKeys opts).

(** ** Replaying a change list below a prefix *)

Inductive runs (I : json -> Prop) (pre : list pathSeg) : json -> list Change -> json -> Prop :=
| runs_nil x : I x -> runs I pre x [] x
| runs_cons x y z ch chs rel :
    I x -> parsePath (Path ch) = Ok (pre ++ rel) -> applySegs x rel ch = Ok y ->
    runs I pre y chs z -> runs I pre x (ch :: chs) z.

Lemma runs_start (I : json -> Prop) pre x chs y : runs I pre x chs y -> I x.
Proof. by destruct 1. Qed.

Lemma runs_end (I : json -> Prop) pre x chs y : runs I pre x chs y -> I y.
Proof. by induction 1. Qed.

Lemma runs_app (I : json -> Prop) pre x y z c1 c2 :
  runs I pre x c1 y -> runs I pre y c2 z -> runs I pre x (c1 ++ c2) z.
Proof. induction 1 as [|x y' y ch chs rel Hx Hp Ha _ IH]; intros H2; cbn; [done|]. econstructor; eauto. Qed.

Lemma runs_weaken (I J : json -> Prop) pre x chs y :
  (forall z, I z -> J z) -> runs I pre x chs y -> runs J pre x chs y.
Proof. intros HIJ. induction 1; econstructor; eauto. Qed.

Lemma runs_one (I : json -> Prop) pre rel x y ch :
  I x -> I y -> parsePath (Path ch) = Ok (pre ++ rel) -> applySegs x rel ch = Ok y ->
  runs I pre x [ch] y.
Proof. intros. econstructor; eauto. by constructor. Qed.

(** A run from the root is what [Apply] computes. *)
Lemma runs_apply (I : json -> Prop) x chs y : runs I [] x chs y -> applyLoop x chs = Ok y.
Proof.
  induction 1 as [x|x y z ch chs rel _ Hp Ha _ IH]; cbn; [done|]. rewrite Hp. cbn. by rewrite Ha.
Qed.

(** *** Moving a run under one path segment *)

Definition child (nd : json) (s : pathSeg) : option json :=
  match s, nd with
  | segKey k, JObj m => mget k m
  | segIndex i, JArr l => match inRange i (length l) with Some n => l !! n | None => None end
  | segKeyed f v, JArr l => match indexOfKey l f v with Some n => l !! n | None => None end
  | _, _ => None
  end.

Definition setChild (nd : json) (s : pathSeg) (y : json) : json :=
  match s, nd with
  | segKey k, JObj m => JObj (mset k y m)
  | segIndex i, JArr l => JArr (<[Z.to_nat i := y]> l)
  | segKeyed f v, JArr l =>
      match indexOfKey l f v with Some n => JArr (<[n := y]> l) | None => nd end
  | _, _ => nd
  end.

Lemma applySegs_under (nd x y : json) (s : pathSeg) (rel : list pathSeg) (ch : Change) :
  child nd s = Some x -> applySegs x rel ch = Ok y ->
  applySegs nd (s :: rel) ch = Ok (setChild nd s y).
Proof.
  intros Hc Ha. destruct rel as [|s' rel]; cbn in Ha.
  - destruct (ChOp ch) eqn:Eop; try done. injection Ha as <-.
    destruct s as [k|i|f v], nd as [| | | | | |l|m]; try done; cbn in *; rewrite ?Eop; try done.
    + unfold inRange in *. destruct ((0 <=? i)%Z && (i <? Z.of_nat (length l))%Z); done.
    + by destruct (indexOfKey l f v).
  - destruct s as [k|i|f v], nd as [| | | | | |l|m]; try done; cbn [child setChild] in *;
      cbn [applySegs]; cbn [applyStep].
    + rewrite Hc. cbn [applySegs] in Ha. cbn [applyStep] in Ha. by rewrite Ha.
    + unfold inRange in *. destruct ((0 <=? i)%Z && (i <? Z.of_nat (length l))%Z); [|done].
      rewrite Hc. cbn [applyStep] in Ha. by rewrite Ha.
    + destruct (indexOfKey l f v); [|done]. rewrite Hc. cbn [applyStep] in Ha. by rewrite Ha.
Qed.

(** [f z] is the parent with [z] in the slot that [s] selects. *)
Lemma runs_under (I J : json -> Prop) (f : json -> json) pre s x chs y :
  (forall z, I z -> J (f z) /\ child (f z) s = Some z) ->
  (forall z z', I z -> setChild (f z) s z' = f z') ->
  runs I (pre ++ [s]) x chs y -> runs J pre (f x) chs (f y).
Proof.
  intros Hf Hs. induction 1 as [x Hx|x y z ch chs rel Hx Hp Ha Hr IH].
  - constructor. by apply Hf.
  - destruct (Hf x Hx) as [HJ Hc].
    apply (runs_cons _ _ _ (f y) _ _ _ (s :: rel)); [done| | |exact IH].
    + by rewrite Hp, <- app_assoc.
    + rewrite (applySegs_under _ x y) by done. by rewrite Hs.
Qed.

(** ** The key of an element survives the edits of the element *)

Definition Iinv (a b z : json) : Prop :=
  (forall ks, keyValString (Some a) = Some ks -> keyValString (Some b) = Some ks ->
     keyValString (Some z) = Some ks) /\
  (forall kf ks, elKeyO kf a = Some ks -> elKeyO kf b = Some ks -> elKeyO kf z = Some ks).

Lemma Iinv_self (a b : json) : Iinv a b a.
Proof. split; auto. Qed.

Lemma Iinv_other (a b : json) : Iinv a b b.
Proof. split; auto. Qed.

Lemma Iinv_arr (l : list json) (b z : json) : Iinv (JArr l) b z.
Proof. split; done. Qed.

(** ** Generic facts about the loops' lists *)

Lemma mget_map {V W : Type} (f : V -> W) (k : string) (m : list (string * V)) :
  mget k (map (fun e => (fst e, f (snd e))) m) = f <$> mget k m.
Proof. induction m as [|[k' v] m IH]; cbn; [done|]. by destruct (str_eqb k k'). Qed.

Lemma mkeys_map {V W : Type} (f : string * V -> W) (m : list (string * V)) :
  mkeys (map (fun e => (fst e, f e)) m) = mkeys m.
Proof. unfold mkeys. rewrite List.map_map. done. Qed.

Lemma existsb_str (k : string) (l : list string) : existsb (str_eqb k) l = true <-> In k l.
Proof.
  rewrite existsb_exists. split.
  - intros (x & Hx & E). apply str_eqb_eq in E as ->. done.
  - intros H. exists k. by rewrite str_eqb_refl.
Qed.

Lemma existsb_str_false (k : string) (l : list string) : existsb (str_eqb k) l = false <-> ~ In k l.
Proof. rewrite <- existsb_str. by destruct (existsb (str_eqb k) l). Qed.

Lemma add_unseen_spec (seen keys : list string) :
  NoDup seen ->
  NoDup (add_unseen seen keys) /\ forall k, In k (add_unseen seen keys) <-> In k seen \/ In k keys.
Proof.
  revert seen. induction keys as [|k keys IH]; intros seen Hn; cbn; [naive_solver|].
  destruct (existsb (str_eqb k) seen) eqn:E.
  - apply existsb_str in E. destruct (IH seen Hn) as [H1 H2]. split; [done|].
    intros k'. rewrite H2. naive_solver.
  - apply existsb_str_false in E. destruct (IH (seen ++ [k])) as [H1 H2].
    { apply NoDup_app. split; [done|]. split; [|apply NoDup_singleton].
      intros x Hx Hk. apply list_elem_of_singleton in Hk as ->. by apply list_elem_of_In in Hx. }
    split; [done|]. intros k'. rewrite H2, in_app_iff. cbn. naive_solver.
Qed.

(** The union of the keys, each once. *)
Lemma sortedUnion_spec {V W : Type} (a : list (string * V)) (b : list (string * W)) :
  NoDup (sortedUnion a b) /\
  forall k, In k (sortedUnion a b) <-> In k (mkeys a) \/ In k (mkeys b).
Proof.
  unfold sortedUnion. destruct (add_unseen_spec [] (mkeys a)) as [H1 H2]; [constructor|].
  destruct (add_unseen_spec _ (mkeys b) H1) as [H3 H4].
  pose proof (sort_strings_perm (add_unseen (add_unseen [] (mkeys a)) (mkeys b))) as Hp.
  split; [by rewrite Hp|]. intros k. split.
  - intros H. apply (Permutation_in _ Hp), H4 in H. rewrite H2 in H. naive_solver.
  - intros H. apply (Permutation_in _ (Permutation_sym Hp)), H4. rewrite H2. naive_solver.
Qed.

(** What the induction hypothesis says of one child. *)
Definition sound_at (opts : Options) (a : json) : Prop :=
  forall pre path fl b,
    wf_json a = true -> wf_json b = true ->
    names_ok (keyFields opts) a = true -> names_ok (keyFields opts) b = true ->
    path_repr path pre fl -> (is_arr a = true -> fl = true) ->
    runs (Iinv a b) pre a (diffValue opts a path b) (merge opts a path b).

(** ** Objects *)

Section ObjCase.
Context (opts : Options) (am bm : list (string * json)) (pre : list pathSeg) (path : string) (fl : bool).
Context (Hpath : path_repr path pre fl).
Context (Ham : msorted am) (Hbm : msorted bm).
Context (IH : forall k av bv, mget k am = Some av -> mget k bm = Some bv ->
           runs (Iinv av bv) (pre ++ [segKey k]) av
             (diffValue opts av (childPath path k) bv) (merge opts av (childPath path k) bv)).
Context (Hka : forall k av, mget k am = Some av -> key_ok k = true).
Context (Hkb : forall k bv, mget k bm = Some bv -> key_ok k = true).

Definition slot_ok (m : list (string * json)) : Prop :=
  forall k ks, keyValString (mget k am) = Some ks -> keyValString (mget k bm) = Some ks ->
    keyValString (mget k m) = Some ks.

Lemma slot_ok_inv (m : list (string * json)) : slot_ok m -> Iinv (JObj am) (JObj bm) (JObj m).
Proof. intros H. split; [done|]. intros kf ks. apply H. Qed.

Definition final_slot (k : string) : option json :=
  match mget k am, mget k bm with
  | Some av, Some bv => Some (merge opts av (childPath path k) bv)
  | None, v => v
  | Some _, None => None
  end.

Let anodes := map (fun e => (fst e, (snd e, diffValue opts (snd e)))) am.

Lemma mget_anodes (k : string) : mget k anodes = (fun x => (x, diffValue opts x)) <$> mget k am.
Proof. apply (mget_map (fun x => (x, diffValue opts x))). Qed.

Lemma slot_ok_mset (m : list (string * json)) (k : string) (z : json) :
  slot_ok m ->
  (forall av bv, mget k am = Some av -> mget k bm = Some bv -> Iinv av bv z) ->
  slot_ok (mset k z m).
Proof.
  intros Hm Hz k' ks Ha Hb. destruct (decide (k = k')) as [<-|Hne].
  - rewrite mget_mset_eq. destruct (mget k am) as [av|], (mget k bm) as [bv|]; try done.
    by apply (Hz av bv).
  - rewrite mget_mset_ne by done. auto.
Qed.

Lemma slot_ok_mdel (m : list (string * json)) (k : string) :
  slot_ok m -> mget k bm = None -> slot_ok (mdel k m).
Proof.
  intros Hm Hk k' ks Ha Hb. destruct (decide (k = k')) as [<-|Hne].
  - by rewrite Hk in Hb.
  - rewrite mget_mdel_ne by done. auto.
Qed.

(** One key of the union. *)
Lemma diffMapKey_runs (m : list (string * json)) (k : string) :
  msorted m -> slot_ok m -> mget k m = mget k am -> mget k am <> None \/ mget k bm <> None ->
  exists m', msorted m' /\ slot_ok m' /\
    mget k m' = final_slot k /\ (forall k', k' <> k -> mget k' m' = mget k' m) /\
    runs (Iinv (JObj am) (JObj bm)) pre (JObj m) (diffMapKey path anodes bm k) (JObj m').
Proof.
  intros Hm Hs Hk Hin. unfold diffMapKey, final_slot. rewrite mget_anodes.
  destruct (mget k am) as [av|] eqn:Ea, (mget k bm) as [bv|] eqn:Eb; cbn.
  - pose proof (IH k av bv Ea Eb) as Hr.
    assert (forall z, Iinv av bv z -> slot_ok (mset k z m)) as Hsz.
    { intros z Hz. apply slot_ok_mset; [done|]. intros; by simplify_eq. }
    exists (mset k (merge opts av (childPath path k) bv) m).
    split; [by apply msorted_mset|]. split; [by apply Hsz, (runs_end _ _ _ _ _ Hr)|].
    split; [apply mget_mset_eq|]. split; [intros k' Hne; by apply mget_mset_ne|].
    rewrite <- (mset_id k av m) at 1 by done.
    apply (runs_under (Iinv av bv) _ (fun z => JObj (mset k z m)) _ (segKey k)); [| |done].
    + intros z Hz. split; [by apply slot_ok_inv, Hsz|]. apply mget_mset_eq.
    + intros z z' _. cbn. by rewrite mset_mset.
  - exists (mdel k m). split; [by apply msorted_mdel|]. split; [by apply slot_ok_mdel|].
    split; [by apply mget_mdel_eq|]. split; [intros k' Hne; by apply mget_mdel_ne|].
    apply (runs_one _ _ [segKey k]); [by apply slot_ok_inv|by apply slot_ok_inv, slot_ok_mdel| |].
    + apply (path_repr_key _ k _ _ Hpath (Hka _ _ Ea)).
    + cbn. by rewrite Hk.
  - exists (mset k bv m). assert (slot_ok (mset k bv m)) as Hs'.
    { apply slot_ok_mset; [done|]. intros av ? ?; congruence. }
    split; [by apply msorted_mset|]. split; [done|]. split; [apply mget_mset_eq|].
    split; [intros k' Hne; by apply mget_mset_ne|].
    apply (runs_one _ _ [segKey k]); [by apply slot_ok_inv..| |done].
    apply (path_repr_key _ k _ _ Hpath (Hkb _ _ Eb)).
  - naive_solver.
Qed.

(** All keys, each once. *)
Lemma diffMap_loop (ks : list string) (m : list (string * json)) :
  NoDup ks -> msorted m -> slot_ok m ->
  (forall k, In k ks -> mget k m = mget k am /\ (mget k am <> None \/ mget k bm <> None)) ->
  exists m', msorted m' /\
    (forall k, (In k ks -> mget k m' = final_slot k) /\ (~ In k ks -> mget k m' = mget k m)) /\
    runs (Iinv (JObj am) (JObj bm)) pre (JObj m) (flat_map (diffMapKey path anodes bm) ks) (JObj m').
Proof.
  revert m. induction ks as [|k ks IHks]; intros m Hnd Hm Hs Hks; cbn.
  - exists m. split; [done|]. split; [naive_solver|]. constructor. by apply slot_ok_inv.
  - apply NoDup_cons in Hnd as [Hk Hnd]. rewrite list_elem_of_In in Hk.
    destruct (Hks k) as [Hmk Hin]; [by left|].
    destruct (diffMapKey_runs m k Hm Hs Hmk Hin) as (m1 & Hm1 & Hs1 & Hf & Hother & Hr1).
    destruct (IHks m1 Hnd Hm1 Hs1) as (m' & Hm' & Hg & Hr2).
    { intros k' Hk'. assert (k' <> k) by naive_solver. rewrite Hother by done. apply Hks. by right. }
    exists m'. split; [done|]. split; [|by eapply runs_app].
    intros k'. destruct (Hg k') as [Hg1 Hg2]. split.
    + intros [<-|Hk']; [|auto]. by rewrite Hg2.
    + intros Hn. rewrite Hg2, Hother by naive_solver. done.
Qed.

Lemma mergeMap_get (b : list (string * json)) (k : string) :
  mget k (mergeMap path (map (fun e => (fst e, (snd e, merge opts (snd e)))) am) b) =
  match mget k b with
  | Some bv => Some (match mget k am with
                     | Some av => merge opts av (childPath path k) bv
                     | None => bv
                     end)
  | None => None
  end.
Proof.
  unfold mergeMap. set (mn := map _ am).
  assert (mget k mn = (fun x => (x, merge opts x)) <$> mget k am) as Hmn
    by apply (mget_map (fun x => (x, merge opts x))).
  induction b as [|[k' bv] b IHb]; cbn; [done|].
  destruct (str_eqb k k') eqn:E; [|apply IHb].
  apply str_eqb_eq in E as <-. rewrite Hmn. by destruct (mget k am).
Qed.

Lemma mergeMap_sorted (a : list (string * mnode)) : msorted (mergeMap path a bm).
Proof. unfold msorted, mergeMap. rewrite mkeys_map. apply Hbm. Qed.

Lemma diffMap_runs :
  runs (Iinv (JObj am) (JObj bm)) pre (JObj am) (diffMap path anodes bm)
    (JObj (mergeMap path (map (fun e => (fst e, (snd e, merge opts (snd e)))) am) bm)).
Proof.
  destruct (sortedUnion_spec anodes bm) as [Hnd Hin].
  assert (mkeys anodes = mkeys am) as Hk by apply mkeys_map.
  destruct (diffMap_loop (sortedUnion anodes bm) am) as (m' & Hm' & Hg & Hr); [done|done|by intros ?? ?| |].
  { intros k Hk'. split; [done|]. apply Hin in Hk'. rewrite Hk in Hk'.
    by destruct Hk' as [?%mget_key|?%mget_key]; [left|right]. }
  replace (mergeMap _ _ bm) with m'; [done|].
  apply mext; [done|apply mergeMap_sorted|]. intros k. rewrite mergeMap_get.
  destruct (Hg k) as [Hg1 Hg2].
  destruct (decide (k ∈ sortedUnion anodes bm)) as [Hi|Hi]; rewrite list_elem_of_In in Hi.
  - rewrite Hg1 by done. unfold final_slot. by destruct (mget k am), (mget k bm).
  - rewrite Hg2 by done. rewrite Hin, Hk in Hi.
    assert (mget k am = None) as -> by (destruct (mget k am) eqn:E; [|done]; exfalso; apply Hi; left; by apply mget_key; rewrite E).
    assert (mget k bm = None) as -> by (destruct (mget k bm) eqn:E; [|done]; exfalso; apply Hi; right; by apply mget_key; rewrite E).
    done.
Qed.

End ObjCase.

(** ** Arrays compared by position *)

Lemma inRange_ok (i n : nat) : i < n -> inRange (Z.of_nat i) n = Some i.
Proof.
  intros H. unfold inRange.
  assert ((0 <=? Z.of_nat i)%Z && (Z.of_nat i <? Z.of_nat n)%Z = true) as -> by (apply andb_true_iff; lia).
  by rewrite Nat2Z.id.
Qed.

Lemma insert_middle (l1 l2 : list json) (x y : json) :
  <[length l1 := y]> (l1 ++ x :: l2) = l1 ++ y :: l2.
Proof. rewrite insert_app_r_alt by lia. by rewrite Nat.sub_diag. Qed.

Lemma lookup_middle (l1 l2 : list json) (x : json) : (l1 ++ x :: l2) !! length l1 = Some x.
Proof. rewrite lookup_app_r by lia. by rewrite Nat.sub_diag. Qed.

Section ArrCase.
Context (opts : Options) (pre : list pathSeg) (path : string) (fl : bool).
Context (Hpath : path_repr path pre fl).

Let anode (x : json) : node := (x, diffValue opts x).
Let mnode_of (x : json) : mnode := (x, merge opts x).

Definition index_ok (a b : list json) : Prop :=
  Forall (fun x => forall p i b, path_repr p (pre ++ [segIndex (Z.of_nat i)]) true ->
            wf_json b = true -> names_ok (keyFields opts) b = true ->
            runs (Iinv x b) (pre ++ [segIndex (Z.of_nat i)]) x (diffValue opts x p b) (merge opts x p b)) a /\
  Forall (fun y => wf_json y = true /\ names_ok (keyFields opts) y = true) b.

(** The common prefix, element by element. *)
Lemma diffCommon_runs (J : json -> Prop) (done a b : list json) :
  (forall l, J (JArr l)) -> index_ok a b -> (Z.of_nat (length done + length a) < 2 ^ 63)%Z ->
  runs J pre (JArr (done ++ a)) (diffCommon path (length done) (map anode a) b)
    (JArr (done ++ mergeCommon path (length done) (map mnode_of a) b ++ drop (length b) a)).
Proof.
  intros HJ. revert done b. induction a as [|x a IHa]; intros done b [Ha Hb] Hlen; cbn.
  { rewrite drop_nil. by constructor. }
  destruct b as [|y b]; cbn; [by constructor|].
  apply Forall_cons in Ha as [Hx Ha]. apply Forall_cons in Hb as [[Hwy Hny] Hb]. cbn in Hlen.
  assert (path_repr (indexPath path (length done)) (pre ++ [segIndex (Z.of_nat (length done))]) true) as Hp
    by (eapply path_repr_index; [done|lia]).
  eapply runs_app.
  - apply (runs_under (Iinv x y) J (fun z => JArr (done ++ z :: a)) pre (segIndex (Z.of_nat (length done)))).
    3: by apply Hx.
    + intros z _. split; [done|]. cbn. rewrite inRange_ok by (rewrite length_app; cbn; lia).
      apply lookup_middle.
    + intros z z' _. cbn. rewrite Nat2Z.id. by rewrite insert_middle.
  - specialize (IHa (done ++ [merge opts x (indexPath path (length done)) y]) b).
    rewrite length_app in IHa. cbn in IHa. rewrite Nat.add_1_r, <- !app_assoc in IHa. apply IHa; [by split|lia].
Qed.

(** Additions at the end, ascending. *)
Lemma addsFrom_runs (J : json -> Prop) (done b : list json) :
  (forall l, J (JArr l)) -> (Z.of_nat (length done + length b) < 2 ^ 63)%Z ->
  runs J pre (JArr done) (addsFrom path (length done) b) (JArr (done ++ b)).
Proof.
  intros HJ. revert done. induction b as [|y b IHb]; intros done Hlen; cbn in *.
  { rewrite app_nil_r. by constructor. }
  eapply (runs_cons _ _ _ (JArr (done ++ [y])) _ _ _ [segIndex (Z.of_nat (length done))]); [done| | |].
  - cbn. apply (path_repr_index path (length done) pre fl Hpath). lia.
  - cbn. rewrite inRange_ok by lia. unfold insertAt. by rewrite take_ge, drop_ge by lia.
  - specialize (IHb (done ++ [y])). rewrite length_app in IHb. cbn in IHb.
    rewrite Nat.add_1_r, <- app_assoc in IHb. apply IHb. lia.
Qed.

(** Removals from the end, descending. *)
Lemma removesFrom_runs (J : json -> Prop) (done a : list json) :
  (forall l, J (JArr l)) -> (Z.of_nat (length done + length a) < 2 ^ 63)%Z ->
  runs J pre (JArr (done ++ a)) (removesFrom path (length done) a) (JArr done).
Proof.
  intros HJ. revert done. induction a as [|x a IHa]; intros done Hlen; cbn in *.
  { rewrite app_nil_r. by constructor. }
  eapply (runs_app _ _ _ (JArr (done ++ [x]))).
  - specialize (IHa (done ++ [x])). rewrite length_app in IHa. cbn in IHa.
    rewrite Nat.add_1_r, <- app_assoc in IHa. apply IHa. lia.
  - apply (runs_one _ _ [segIndex (Z.of_nat (length done))]); [done|done| |].
    + apply (path_repr_index path (length done) pre fl Hpath). lia.
    + cbn. rewrite inRange_ok by (rewrite length_app; cbn; lia). unfold removeAt.
      rewrite take_app_length, drop_ge by (rewrite length_app; cbn; lia). by rewrite app_nil_r.
Qed.

Lemma diffIndexArray_runs (J : json -> Prop) (a b : list json) :
  (forall l, J (JArr l)) -> index_ok a b ->
  (Z.of_nat (length a) < 2 ^ 63)%Z -> (Z.of_nat (length b) < 2 ^ 63)%Z ->
  runs J pre (JArr a) (diffIndexArray path (map anode a) b) (JArr (mergeIndex path (map mnode_of a) b)).
Proof.
  intros HJ Hok Ha Hb. unfold diffIndexArray, mergeIndex. rewrite !length_map.
  pose proof (diffCommon_runs J [] a b HJ Hok ltac:(cbn; lia)) as H1. cbn in H1.
  set (common := mergeCommon path 0 (map mnode_of a) b) in *.
  assert (length common = Nat.min (length a) (length b)) as Hc.
  { unfold common. generalize 0. clear. revert b. induction a as [|x a IH]; intros [|y b] n; cbn; auto. }
  assert (map fst (drop (Nat.min (length a) (length b)) (map anode a)) = drop (length b) a) as ->.
  { rewrite <- skipn_map, List.map_map. cbn. rewrite map_id.
    destruct (Nat.le_gt_cases (length a) (length b)); [rewrite !drop_ge by lia; done|].
    by rewrite Nat.min_r by lia. }
  eapply runs_app; [exact H1|].
  destruct (Nat.le_gt_cases (length a) (length b)) as [Hle|Hgt].
  - rewrite Nat.min_l in * by lia. rewrite (drop_ge a) by lia. cbn. rewrite !app_nil_r.
    rewrite <- Hc at 1. apply addsFrom_runs; [done|]. rewrite length_drop. lia.
  - rewrite Nat.min_r in * by lia. rewrite (drop_ge b (length b)), (drop_ge b (length a)) by lia.
    cbn. rewrite app_nil_r. rewrite <- Hc at 2. apply removesFrom_runs; [done|].
    rewrite length_drop. lia.
Qed.

End ArrCase.

(** ** Arrays matched by key *)

Lemma keyable_loop_spec (seen : list string) (arr : list json) (kf : string) :
  keyable_loop seen arr kf = true ->
  Forall (fun el => elKeyO kf el = Some (elKey kf el)) arr /\
  NoDup (map (elKey kf) arr) /\ (forall k, In k seen -> ~ In k (map (elKey kf) arr)).
Proof.
  revert seen. induction arr as [|el arr IH]; intros seen H; cbn in *.
  { split; [constructor|]. split; [constructor|naive_solver]. }
  destruct el as [| | | | | | |m]; try done.
  destruct (keyValString (mget kf m)) as [ks|] eqn:E; [|done].
  destruct (existsb (str_eqb ks) seen) eqn:Es; [done|]. apply existsb_str_false in Es.
  apply IH in H as (H1 & H2 & H3). cbn. rewrite E. cbn.
  assert (~ In ks (map (elKey kf) arr)) as Hks by (apply H3; by left).
  split; [constructor; [|done]; cbn; by rewrite E|]. split.
  - constructor; [by rewrite list_elem_of_In|done].
  - intros k Hk [<-|Hk']; [done|]. eapply H3; [|done]. by right.
Qed.

Lemma keyable_spec (arr : list json) (kf : string) :
  keyable arr kf = true ->
  Forall (fun el => elKeyO kf el = Some (elKey kf el)) arr /\ NoDup (map (elKey kf) arr).
Proof. intros H. apply keyable_loop_spec in H as (H1 & H2 & _). done. Qed.

Lemma byKey_fold (kf ks : string) (b : list json) (m0 : list (string * json)) :
  NoDup (map (elKey kf) b) ->
  mget ks (fold_left (fun m el => mset (elKey kf el) el m) b m0) =
  match List.find (fun el => str_eqb ks (elKey kf el)) b with
  | Some el => Some el
  | None => mget ks m0
  end.
Proof.
  revert m0. induction b as [|el b IH]; intros m0 Hnd; cbn; [done|].
  apply NoDup_cons in Hnd as [Hni Hnd]. rewrite list_elem_of_In in Hni. rewrite IH by done.
  destruct (str_eqb ks (elKey kf el)) eqn:E.
  - apply str_eqb_eq in E as ->. rewrite mget_mset_eq.
    destruct (List.find _ b) as [el'|] eqn:Ef; [|done].
    apply List.find_some in Ef as [Hin Heq]. apply str_eqb_eq in Heq. exfalso. apply Hni.
    rewrite Heq. by apply in_map.
  - apply str_eqb_neq in E. by rewrite mget_mset_ne by congruence.
Qed.

Lemma byKey_Some (kf ks : string) (b : list json) (el : json) :
  NoDup (map (elKey kf) b) -> mget ks (byKey kf b) = Some el -> In el b /\ elKey kf el = ks.
Proof.
  intros Hnd. unfold byKey. rewrite byKey_fold by done.
  destruct (List.find _ b) as [el'|] eqn:Ef; [|done]. intros [= <-].
  apply List.find_some in Ef as [Hin Heq]. apply str_eqb_eq in Heq. done.
Qed.

Lemma indexOfKey_from_spec (j : nat) (l1 l2 : list json) (x : json) (kf ks : string) :
  Forall (fun z => elKeyO kf z <> Some ks) l1 -> elKeyO kf x = Some ks ->
  indexOfKey_from j (l1 ++ x :: l2) kf ks = Some (j + length l1).
Proof.
  intros H1 Hx. revert j. induction H1 as [|z l1 Hz _ IH]; intros j; cbn.
  - destruct x as [| | | | | | |m]; try done. cbn in Hx. rewrite Hx, str_eqb_refl. f_equal. lia.
  - rewrite IH. replace (S j + length l1) with (j + S (length l1)) by lia.
    destruct z as [| | | | | | |m]; try done. cbn in Hz.
    destruct (keyValString (mget kf m)) as [k|]; [|done].
    assert (str_eqb k ks = false) as -> by (apply str_eqb_neq; congruence). done.
Qed.

Section KeyedCase.
Context (opts : Options) (pre : list pathSeg) (path kf : string).
Context (Hpath : path_repr path pre true).

Let anode (x : json) : node := (x, diffValue opts x).
Let mnode_of (x : json) : mnode := (x, merge opts x).

Context (b : list json) (Hkb : keyable b kf = true).
Context (Hselb : Forall (fun el => sel_ok kf (elKey kf el) = true) b).

Definition keyed_ok (a : list json) : Prop :=
  Forall (fun x => elKeyO kf x = Some (elKey kf x) /\ sel_ok kf (elKey kf x) = true /\
    forall bel, In bel b -> elKey kf bel = elKey kf x ->
      runs (Iinv x bel) (pre ++ [segKeyed kf (elKey kf x)]) x
        (diffValue opts x (keyedPath path kf (elKey kf x)) bel)
        (merge opts x (keyedPath path kf (elKey kf x)) bel)) a.

Definition mergeOld (n : mnode) : list json :=
  match mget (elKey kf (fst n)) (byKey kf b) with
  | Some bel => [snd n (keyedPath path kf (elKey kf (fst n))) bel]
  | None => []
  end.

(** The elements of [a] that are done keep keys outside those still to visit. *)
Definition away (keys : list string) (done : list json) : Prop :=
  Forall (fun z => forall k, In k keys -> elKeyO kf z <> Some k) done.

Lemma diffKeyedOld_runs (J : json -> Prop) (done a : list json) :
  (forall l, J (JArr l)) -> keyed_ok a -> NoDup (map (elKey kf) a) -> away (map (elKey kf) a) done ->
  runs J pre (JArr (done ++ a)) (flat_map (diffKeyedOld path kf (byKey kf b)) (map anode a))
    (JArr (done ++ flat_map mergeOld (map mnode_of a))).
Proof.
  intros HJ. revert done. induction a as [|x a IHa]; intros done Hok Hnd Haw; cbn [map flat_map].
  { rewrite app_nil_r. by constructor. }
  destruct (keyable_spec b kf Hkb) as [Hbk Hbnd].
  apply Forall_cons in Hok as [(Hxk & Hsel & Hx) Hok]. cbn in Hnd.
  apply NoDup_cons in Hnd as [Hni Hnd]. rewrite list_elem_of_In in Hni.
  assert (Forall (fun z => elKeyO kf z <> Some (elKey kf x)) done) as Hd
    by (eapply Forall_impl; [exact Haw|]; intros z Hz; apply Hz; by left).
  assert (away (map (elKey kf) a) done) as Hd'
    by (eapply Forall_impl; [exact Haw|]; intros z Hz k Hk; apply Hz; by right).
  pose proof (path_repr_keyed path kf (elKey kf x) pre Hpath Hsel) as Hp.
  unfold diffKeyedOld at 1, mergeOld at 1.
  change (fst (anode x)) with x. change (fst (mnode_of x)) with x.
  change (snd (anode x)) with (diffValue opts x). change (snd (mnode_of x)) with (merge opts x).
  destruct (mget (elKey kf x) (byKey kf b)) as [bel|] eqn:Eb.
  - destruct (byKey_Some kf _ b bel Hbnd Eb) as [Hin Hke].
    assert (elKeyO kf bel = Some (elKey kf x)) as Hbel.
    { rewrite <- Hke. rewrite List.Forall_forall in Hbk. by apply Hbk. }
    pose proof (Hx bel Hin Hke) as Hr.
    set (y := merge opts x (keyedPath path kf (elKey kf x)) bel) in *.
    eapply runs_app.
    + apply (runs_under (Iinv x bel) J (fun z => JArr (done ++ z :: a)) pre (segKeyed kf (elKey kf x))); [| |exact Hr].
      * intros z [_ Hz]. split; [done|]. cbn. unfold indexOfKey.
        rewrite (indexOfKey_from_spec 0 done a z) by (auto; by apply Hz). apply lookup_middle.
      * intros z z' [_ Hz]. cbn. unfold indexOfKey.
        rewrite (indexOfKey_from_spec 0 done a z) by (auto; by apply Hz). cbn. by rewrite insert_middle.
    + specialize (IHa (done ++ [y])). rewrite <- !app_assoc in IHa. apply IHa; [done|done|].
      apply Forall_app. split; [done|]. constructor; [|constructor].
      intros k Hk Hy. apply (runs_end (Iinv x bel)) in Hr as [_ Hr].
      rewrite (Hr kf (elKey kf x)) in Hy by done. injection Hy as <-. done.
  - eapply (runs_cons _ _ _ (JArr (done ++ a)) _ _ _ [segKeyed kf (elKey kf x)]); [done|apply Hp| |by apply IHa].
    cbn. unfold indexOfKey. rewrite (indexOfKey_from_spec 0 done a x) by done. cbn. unfold removeAt.
    rewrite take_app_length. rewrite cons_middle, app_assoc, drop_app_length' by (rewrite length_app; cbn; lia).
    done.
Qed.

Lemma diffKeyedNew_runs (J : json -> Prop) (aKeys : list string) (b' cur : list json) :
  (forall l, J (JArr l)) -> Forall (fun el => sel_ok kf (elKey kf el) = true) b' ->
  runs J pre (JArr cur) (flat_map (diffKeyedNew path kf aKeys) b')
    (JArr (cur ++ List.filter (fun el => negb (existsb (str_eqb (elKey kf el)) aKeys)) b')).
Proof.
  intros HJ Hs. revert cur. induction Hs as [|el b' Hel _ IH]; intros cur; cbn.
  { rewrite app_nil_r. by constructor. }
  unfold diffKeyedNew at 1. destruct (existsb (str_eqb (elKey kf el)) aKeys); cbn; [apply IH|].
  eapply (runs_cons _ _ _ (JArr (cur ++ [el])) _ _ _ [segKeyed kf (elKey kf el)]); [done| |done|].
  - apply (path_repr_keyed path kf (elKey kf el) pre Hpath Hel).
  - specialize (IH (cur ++ [el])). by rewrite <- app_assoc in IH.
Qed.

Lemma diffKeyedArray_runs (J : json -> Prop) (a : list json) :
  (forall l, J (JArr l)) -> keyed_ok a -> keyable a kf = true ->
  runs J pre (JArr a) (diffKeyedArray path kf (map anode a) b) (JArr (mergeKeyed path kf (map mnode_of a) b)).
Proof.
  intros HJ Hok Hka. destruct (keyable_spec a kf Hka) as [_ Hnd].
  unfold diffKeyedArray, mergeKeyed. eapply runs_app.
  - apply (diffKeyedOld_runs J [] a HJ Hok Hnd). constructor.
  - rewrite !List.map_map. cbn [fst]. by apply diffKeyedNew_runs.
Qed.

End KeyedCase.

(** ** The induction *)

Lemma names_obj (kfs : list string) (m : list (string * json)) (k : string) (v : json) :
  names_ok kfs (JObj m) = true -> mget k m = Some v -> key_ok k = true /\ names_ok kfs v = true.
Proof.
  cbn. rewrite forallb_forall. intros H Hg. apply mget_in in Hg. apply H in Hg.
  by apply andb_true_iff in Hg.
Qed.

Lemma wf_obj_get (m : list (string * json)) (k : string) (v : json) :
  wf_json (JObj m) = true -> mget k m = Some v -> wf_json v = true.
Proof.
  cbn. rewrite andb_true_iff, forallb_forall. intros [_ H] Hg. apply mget_in in Hg.
  by apply H in Hg.
Qed.

Lemma wf_obj_sorted (m : list (string * json)) : wf_json (JObj m) = true -> msorted m.
Proof. cbn. rewrite andb_true_iff. intros [H _]. by apply msortedb_spec. Qed.

Lemma wf_arr (l : list json) :
  wf_json (JArr l) = true -> (Z.of_nat (length l) < 2 ^ 63)%Z /\ Forall (fun x => wf_json x = true) l.
Proof.
  cbn. rewrite andb_true_iff, forallb_forall, List.Forall_forall. intros [H1 H2].
  split; [lia|auto].
Qed.

Lemma names_arr (kfs : list string) (l : list json) :
  names_ok kfs (JArr l) = true ->
  Forall (fun x => sels_ok kfs x = true /\ names_ok kfs x = true) l.
Proof.
  cbn. rewrite forallb_forall, List.Forall_forall. intros H x Hx. apply H in Hx.
  by apply andb_true_iff in Hx.
Qed.

Lemma sels_ok_field (kfs : list string) (kf : string) (x : json) :
  sels_ok kfs x = true -> In kf kfs -> elKeyO kf x = Some (elKey kf x) ->
  sel_ok kf (elKey kf x) = true.
Proof. unfold sels_ok. rewrite forallb_forall. intros H Hin E. apply H in Hin. by rewrite E in Hin. Qed.

Lemma mget_keyField (opts : Options) (path kf : string) :
  mget path (ArrayKeys opts) = Some kf -> In kf (keyFields opts).
Proof. intros H%mget_in. apply (in_map snd) in H. done. Qed.

Lemma keyable_sels (opts : Options) (kf : string) (l : list json) :
  In kf (keyFields opts) -> keyable l kf = true -> names_ok (keyFields opts) (JArr l) = true ->
  Forall (fun el => elKeyO kf el = Some (elKey kf el) /\ sel_ok kf (elKey kf el) = true) l.
Proof.
  intros Hin [Hk _]%keyable_spec Hn%names_arr. rewrite List.Forall_forall in *. intros x Hx.
  split; [by apply Hk|]. destruct (Hn x Hx) as [Hs _]. eapply sels_ok_field; eauto.
Qed.

Lemma sound_change (opts : Options) (a b : json) (path : string) (pre : list pathSeg) (fl : bool) :
  path_repr path pre fl -> runs (Iinv a b) pre a [mkChange path OpChange a b] b.
Proof.
  intros [Hp _ _]. apply (runs_one _ _ []); [apply Iinv_self|apply Iinv_other| |done].
  by rewrite app_nil_r.
Qed.

Lemma sound_index (opts : Options) (aa ba : list json) (path : string) (pre : list pathSeg) (fl : bool) (b : json) :
  Forall (sound_at opts) aa ->
  wf_json (JArr aa) = true -> wf_json (JArr ba) = true ->
  names_ok (keyFields opts) (JArr aa) = true -> names_ok (keyFields opts) (JArr ba) = true ->
  path_repr path pre fl ->
  runs (Iinv (JArr aa) b) pre (JArr aa) (diffIndexArray path (map (fun x => (x, diffValue opts x)) aa) ba)
    (JArr (mergeIndex path (map (fun x => (x, merge opts x)) aa) ba)).
Proof.
  intros IH [Hla Hwa]%wf_arr [Hlb Hwb]%wf_arr Hna%names_arr Hnb%names_arr Hp.
  apply (diffIndexArray_runs opts pre path fl Hp); [intros; apply Iinv_arr| |done|done].
  split; rewrite List.Forall_forall in *.
  - intros x Hx p i y Hpp Hwy Hny. destruct (Hna x Hx) as [_ Hnx].
    apply (IH x Hx _ _ true); auto.
  - intros y Hy. split; [auto|]. by apply Hnb.
Qed.

Lemma sound_keyed (opts : Options) (aa ba : list json) (path kf : string) (pre : list pathSeg) (b : json) :
  Forall (sound_at opts) aa ->
  wf_json (JArr aa) = true -> wf_json (JArr ba) = true ->
  names_ok (keyFields opts) (JArr aa) = true -> names_ok (keyFields opts) (JArr ba) = true ->
  path_repr path pre true -> In kf (keyFields opts) -> keyable aa kf = true -> keyable ba kf = true ->
  runs (Iinv (JArr aa) b) pre (JArr aa) (diffKeyedArray path kf (map (fun x => (x, diffValue opts x)) aa) ba)
    (JArr (mergeKeyed path kf (map (fun x => (x, merge opts x)) aa) ba)).
Proof.
  intros IH [Hla Hwa]%wf_arr [Hlb Hwb]%wf_arr Hna Hnb Hp Hin Hka Hkb.
  pose proof (keyable_sels opts kf aa Hin Hka Hna) as Hsa.
  pose proof (keyable_sels opts kf ba Hin Hkb Hnb) as Hsb.
  apply names_arr in Hna, Hnb. rewrite List.Forall_forall in *.
  apply (diffKeyedArray_runs opts pre path kf Hp ba Hkb); [| | |done].
  - rewrite List.Forall_forall. intros y Hy. by apply Hsb.
  - intros; apply Iinv_arr.
  - unfold keyed_ok. rewrite List.Forall_forall. intros x Hx. destruct (Hsa x Hx) as [Hxk Hxs].
    split; [done|]. split; [done|]. intros bel Hbel Hke.
    apply (IH x Hx _ _ false); [auto..|by apply Hna|by apply Hnb| |].
    + by apply path_repr_keyed.
    + destruct x; try done.
Qed.

Lemma diffValue_runs (opts : Options) (a : json) : sound_at opts a.
Proof.
  induction a as [|x|x|x|x|x|aa IH|am IH] using json_ind';
    intros pre path fl b Hwa Hwb Hna Hnb Hp Harr;
    cbn [diffValue merge]; match goal with |- context [jsonEqual ?a b] => destruct (jsonEqual a b) end;
    try (by constructor; apply Iinv_self).
  1-6: by eapply sound_change.
  - destruct b as [| | | | | |ba|]; try (by eapply sound_change). specialize (Harr eq_refl) as ->.
    destruct (mget path (ArrayKeys opts)) as [kf|] eqn:Ek; [|by eapply sound_index].
    destruct (keyable aa kf && keyable ba kf) eqn:Ekk; [|by eapply sound_index].
    apply andb_true_iff in Ekk as [Hka Hkb]. apply mget_keyField in Ek. by apply sound_keyed.
  - destruct b as [| | | | | | |bm]; try (by eapply sound_change).
    apply (diffMap_runs opts am bm pre path fl Hp).
    + by apply wf_obj_sorted.
    + by apply wf_obj_sorted.
    + intros k av bv Ha Hb. destruct (names_obj _ _ _ _ Hna Ha) as [Hk Hn1], (names_obj _ _ _ _ Hnb Hb) as [_ Hn2].
      rewrite List.Forall_forall in IH. pose proof (mget_in _ _ _ Ha) as Hin. apply (IH _ Hin _ _ true);
        [exact (wf_obj_get _ _ _ Hwa Ha)|exact (wf_obj_get _ _ _ Hwb Hb)|done|done|by eapply path_repr_key|done].
    + intros k av Ha. by destruct (names_obj _ _ _ _ Hna Ha).
    + intros k bv Hb. by destruct (names_obj _ _ _ _ Hnb Hb).
Qed.

(** Applying a diff gives the reference result. *)
Lemma apply_diff_merge (opts : Options) (a b : json) :
  wf_json a = true -> wf_json b = true ->
  names_ok (keyFields opts) a = true -> names_ok (keyFields opts) b = true ->
  Apply a (Diff a b opts) = Ok (merge opts a "" b).
Proof.
  intros. unfold Apply, Diff. rewrite deepCopy_id. eapply runs_apply.
  eapply (diffValue_runs opts a [] "" true); auto. apply path_repr_root.
Qed.

(** ** The reference result and the target value *)

(** Equality up to the order of arrays that [opts] matches by key. *)
Inductive jsim (kfs : list string) : json -> json -> Prop :=
| jsim_eq a b : jsonEqual a b = true -> jsim kfs a b
| jsim_arr l l' : Forall2 (jsim kfs) l l' -> jsim kfs (JArr l) (JArr l')
| jsim_keyed kf l l' l'' :
    In kf kfs -> keyable l'' kf = true -> Permutation l' l'' -> Forall2 (jsim kfs) l l' ->
    jsim kfs (JArr l) (JArr l'')
| jsim_obj m m' :
    Forall2 (fun x y => fst x = fst y /\ jsim kfs (snd x) (snd y)) m m' ->
    jsim kfs (JObj m) (JObj m').

(** Without key fields it is DeepEqual. *)
Lemma jsim_nil (a b : json) : jsim [] a b -> jsonEqual a b = true.
Proof.
  revert b. induction a as [|x1|x1|x1|x1|x1|l IH|m IH] using json_ind'; intros bb H; inversion H; subst; try done.
  - apply jsonEqual_arr. rewrite List.Forall_forall in IH. eapply Forall2_impl_In; [done|].
    intros x y Hx _. by apply IH.
  - apply jsonEqual_obj. rewrite List.Forall_forall in IH. eapply Forall2_impl_In; [done|].
    intros x y Hx _ [Hk Hxy]. auto.
Qed.

Lemma jsim_refl (kfs : list string) (b : json) : wf_json b = true -> jsim kfs b b.
Proof. intros H. by apply jsim_eq, jsonEqual_refl. Qed.

Section MergeSim.
Context (opts : Options).
Let sim := jsim (keyFields opts).
Definition merge_sim_at (a : json) : Prop :=
  forall path b, wf_json b = true -> jsim (keyFields opts) (merge opts a path b) b.

Lemma mergeIndex_sim (path : string) (i : nat) (a b : list json) :
  Forall merge_sim_at a -> Forall (fun y => wf_json y = true) b ->
  Forall2 sim (mergeCommon path i (map (fun x => (x, merge opts x)) a) b ++ drop (length a) b) b.
Proof.
  intros Ha. revert i b. induction Ha as [|x a Hx _ IHa]; intros i b Hb; cbn.
  - induction Hb as [|y b Hy _ IHb]; constructor; [by apply jsim_refl|done].
  - destruct Hb as [|y b Hy Hb]; cbn; constructor; [by apply Hx|]. by apply IHa.
Qed.

Lemma mergeMap_sim (path : string) (am bm : list (string * json)) :
  Forall (fun e => merge_sim_at (snd e)) am -> Forall (fun e => wf_json (snd e) = true) bm ->
  Forall2 (fun x y => fst x = fst y /\ sim (snd x) (snd y))
    (mergeMap path (map (fun e => (fst e, (snd e, merge opts (snd e)))) am) bm) bm.
Proof.
  intros Ha Hb. unfold mergeMap. rewrite Forall2_fmap_l. apply Forall_Forall2_diag.
  eapply Forall_impl; [exact Hb|]. intros [k bv] Hwf. cbn in *. split; [done|].
  rewrite (mget_map (fun x => (x, merge opts x))).
  destruct (mget k am) as [av|] eqn:E; cbn; [|by apply jsim_refl].
  rewrite List.Forall_forall in Ha. apply mget_in in E. by apply (Ha _ E).
Qed.

(** The elements of [b] in the order the keyed merge produces them. *)
Definition keyedTargets (kf : string) (a b : list json) : list json :=
  flat_map (fun x => match mget (elKey kf x) (byKey kf b) with Some bel => [bel] | None => [] end) a ++
  List.filter (fun el => negb (existsb (str_eqb (elKey kf el)) (map (elKey kf) a))) b.

Lemma byKey_In (kf : string) (b : list json) (el : json) :
  NoDup (map (elKey kf) b) -> In el b -> mget (elKey kf el) (byKey kf b) = Some el.
Proof.
  intros Hnd Hin. unfold byKey. rewrite byKey_fold by done.
  destruct (List.find _ b) as [el'|] eqn:Ef.
  - apply List.find_some in Ef as [Hin' Heq]. apply str_eqb_eq in Heq. f_equal.
    apply list_elem_of_In, list_elem_of_lookup in Hin as [i Hi], Hin' as [j Hj].
    pose proof (NoDup_lookup (map (elKey kf) b) i j (elKey kf el) Hnd) as Hij.
    rewrite !list_lookup_fmap, Hi, Hj in Hij. cbn in Hij. rewrite Heq in Hij. specialize (Hij eq_refl eq_refl).
    congruence.
  - eapply List.find_none in Ef; [|exact Hin]. by rewrite str_eqb_refl in Ef.
Qed.

Lemma keyedTargets_In (kf : string) (a b : list json) (el : json) :
  NoDup (map (elKey kf) b) -> In el (keyedTargets kf a b) <-> In el b.
Proof.
  intros Hnd. unfold keyedTargets. rewrite in_app_iff, in_flat_map, filter_In. split.
  - intros [(x & Hx & Hel)|[H _]]; [|done].
    destruct (mget (elKey kf x) (byKey kf b)) as [bel|] eqn:E; [|done].
    destruct Hel as [<-|[]]. by apply byKey_Some in E as [? _].
  - intros Hin. destruct (existsb (str_eqb (elKey kf el)) (map (elKey kf) a)) eqn:E; [left|right].
    + apply existsb_str, in_map_iff in E as (x & Hk & Hx). exists x. split; [done|].
      rewrite Hk, byKey_In by done. by left.
    + done.
Qed.

Lemma keyedTargets_NoDup (kf : string) (a b : list json) :
  NoDup (map (elKey kf) a) -> NoDup (map (elKey kf) b) -> NoDup (keyedTargets kf a b).
Proof.
  intros Ha Hb. assert (NoDup b) as Hnb by (by eapply NoDup_fmap_1). unfold keyedTargets.
  apply NoDup_app. split; [|split; [|by apply NoDup_ListNoDup, List.NoDup_filter, NoDup_ListNoDup]].
  - induction a as [|x a IHa]; cbn; [constructor|]. cbn in Ha. apply NoDup_cons in Ha as [Hni Ha].
    destruct (mget (elKey kf x) (byKey kf b)) as [bel|] eqn:E; cbn; [|auto].
    constructor; [|auto]. apply byKey_Some in E as [_ E]; [|done]. intros H. apply list_elem_of_In in H.
    apply in_flat_map in H as (x' & Hx' & H').
    destruct (mget (elKey kf x') (byKey kf b)) as [bel'|] eqn:E'; [|done]. destruct H' as [<-|[]].
    apply byKey_Some in E' as [_ E']; [|done]. apply Hni. rewrite <- E, E'.
    by apply list_elem_of_In, in_map.
  - intros el H1 H2. apply list_elem_of_In in H1, H2.
    apply filter_In in H2 as [_ H2]. apply in_flat_map in H1 as (x & Hx & H1).
    destruct (mget (elKey kf x) (byKey kf b)) as [bel|] eqn:E; [|done]. destruct H1 as [<-|[]].
    apply byKey_Some in E as [_ E]; [|done]. apply negb_true_iff, existsb_str_false in H2. apply H2.
    rewrite E. by apply in_map.
Qed.

Lemma keyedTargets_perm (kf : string) (a b : list json) :
  keyable a kf = true -> keyable b kf = true -> Permutation (keyedTargets kf a b) b.
Proof.
  intros [_ Ha]%keyable_spec [_ Hb]%keyable_spec.
  apply NoDup_Permutation.
  - by apply NoDup_ListNoDup, keyedTargets_NoDup.
  - apply NoDup_ListNoDup. by eapply NoDup_fmap_1.
  - intros el. by apply keyedTargets_In.
Qed.

Lemma mergeKeyed_sim (path kf : string) (a b : list json) :
  Forall merge_sim_at a -> Forall (fun y => wf_json y = true) b -> NoDup (map (elKey kf) b) ->
  Forall2 sim (mergeKeyed path kf (map (fun x => (x, merge opts x)) a) b) (keyedTargets kf a b).
Proof.
  intros Ha Hb Hnd. unfold mergeKeyed, keyedTargets. rewrite List.map_map. cbn [fst].
  apply Forall2_app.
  - induction Ha as [|x a Hx _ IHa]; cbn; [constructor|].
    destruct (mget (elKey kf x) (byKey kf b)) as [bel|] eqn:E; cbn; [|done].
    constructor; [|done]. apply byKey_Some in E as [Hin _]; [|done].
    rewrite List.Forall_forall in Hb. by apply Hx, Hb.
  - apply Forall_Forall2_diag. rewrite List.Forall_forall in *. intros y [Hy _]%filter_In.
    by apply jsim_refl, Hb.
Qed.

Lemma merge_sim (a : json) : merge_sim_at a.
Proof.
  induction a as [|x1|x1|x1|x1|x1|aa IH|am IH] using json_ind'; intros path b Hwf;
    cbn [merge]; match goal with |- context [jsonEqual ?a b] => destruct (jsonEqual a b) eqn:Eq end;
    try (by apply jsim_eq); try (by apply jsim_refl).
  - destruct b as [| | | | | |ba|]; try (by apply jsim_refl). pose proof (proj2 (wf_arr _ Hwf)) as Hb.
    assert (sim (JArr (mergeIndex path (map (fun x => (x, merge opts x)) aa) ba)) (JArr ba)) as Hidx.
    { apply jsim_arr. unfold mergeIndex. rewrite length_map. by apply mergeIndex_sim. }
    destruct (mget path (ArrayKeys opts)) as [kf|] eqn:Ek; [|done].
    destruct (keyable aa kf && keyable ba kf) eqn:Ekk; [|done].
    apply andb_true_iff in Ekk as [Hka Hkb]. apply mget_keyField in Ek.
    apply (jsim_keyed _ kf _ (keyedTargets kf aa ba)); [done|done|by apply keyedTargets_perm|].
    apply mergeKeyed_sim; [done|done|]. by apply keyable_spec.
  - destruct b as [| | | | | | |bm]; try (by apply jsim_refl). apply jsim_obj.
    apply mergeMap_sim; [done|]. cbn in Hwf. apply andb_true_iff in Hwf as [_ Hwf].
    by rewrite List.Forall_forall, <- forallb_forall.
Qed.

End MergeSim.

(** ** Values without a negative zero

    DeepEqual is Leibniz equality on them ([-0] and [0] are the only distinct
    values it identifies). *)

Definition float_exact (f : float64) : bool :=
  match f with S754_zero s => negb s | S754_finite _ _ _ => true | _ => false end.

Lemma float_exact_eq (f g : float64) :
  float_exact f = true -> float_exact g = true -> float_eqb f g = true -> f = g.
Proof.
  destruct f as [s| | |s m e], g as [s'| | |s' m' e']; try done; [by destruct s, s'|..].
  1,2: by destruct s, s'.
  intros _ _. unfold float_eqb, SFeqb, SFcompare. destruct s, s'; try done;
    destruct (Z.compare e e') eqn:Ee; try done; apply Z.compare_eq in Ee as <-;
    destruct (Pos.compare_cont Eq m m') eqn:Em; try done; apply Pos.compare_eq in Em as <-; done.
Qed.

Fixpoint exact_json (j : json) : bool :=
  match j with
  | JNum f => float_exact f
  | JArr l => forallb exact_json l
  | JObj m => forallb (fun e => exact_json (snd e)) m
  | _ => true
  end.

Lemma exact_equal (a b : json) :
  exact_json a = true -> exact_json b = true -> jsonEqual a b = true -> a = b.
Proof.
  revert b. induction a as [|x|x|x|x|x|l IH|m IH] using json_ind'; intros b Ha Hb H; destruct b; try done.
  - apply eqb_prop in H as ->. done.
  - f_equal. by apply float_exact_eq.
  - apply Z.eqb_eq in H as ->. done.
  - apply Z.eqb_eq in H as ->. done.
  - apply str_eqb_eq in H as ->. done.
  - apply jsonEqual_arr in H. cbn in Ha, Hb. rewrite forallb_forall in Ha, Hb.
    rewrite List.Forall_forall in IH. f_equal. apply list_eq_Forall2. eapply Forall2_impl_In; [exact H|].
    intros x y Hx Hy Hxy. apply IH; auto.
  - apply jsonEqual_obj in H. cbn in Ha, Hb. rewrite forallb_forall in Ha, Hb.
    rewrite List.Forall_forall in IH. f_equal. apply list_eq_Forall2. eapply Forall2_impl_In; [exact H|].
    intros [k x] [k' y] Hx Hy [Hk Hxy]. cbn in *. subst k'. f_equal.
    apply (IH (k, x)); [done|apply (Ha _ Hx)|apply (Hb _ Hy)|done].
Qed.

Lemma mergeCommon_exact (path : string) (i : nat) (a b : list json) :
  Forall (fun x => forall p y, exact_json y = true -> merge (mkOptions []) x p y = y) a ->
  Forall (fun y => exact_json y = true) b ->
  mergeCommon path i (map (fun x => (x, merge (mkOptions []) x)) a) b ++ drop (length a) b = b.
Proof.
  intros Ha. revert i b. induction Ha as [|x a Hx _ IHa]; intros i b Hb; cbn; [done|].
  destruct Hb as [|y b Hy Hb]; cbn; [done|]. by rewrite Hx, IHa.
Qed.

(** In index mode the reference result is the target. *)
Lemma merge_exact (a : json) (path : string) (b : json) :
  exact_json a = true -> exact_json b = true -> merge (mkOptions []) a path b = b.
Proof.
  revert path b. induction a as [|x1|x1|x1|x1|x1|aa IH|am IH] using json_ind'; intros path b Ha Hb;
    cbn [merge]; match goal with |- context [jsonEqual ?a b] => destruct (jsonEqual a b) eqn:Eq end;
    try (by apply exact_equal); try done.
  - destruct b as [| | | | | |ba|]; try done. cbn. f_equal. unfold mergeIndex. rewrite length_map.
    cbn in Ha, Hb. rewrite forallb_forall in Ha, Hb. rewrite List.Forall_forall in IH.
    apply mergeCommon_exact; rewrite List.Forall_forall; auto.
  - destruct b as [| | | | | | |bm]; try done. f_equal. unfold mergeMap.
    cbn in Ha, Hb. rewrite forallb_forall in Ha, Hb. rewrite List.Forall_forall in IH.
    etrans; [|apply map_id]. apply map_ext_in. intros [k bv] Hin. cbn. f_equal.
    rewrite (mget_map (fun x => (x, merge (mkOptions []) x))).
    destruct (mget k am) as [av|] eqn:E; cbn; [|done]. apply mget_in in E.
    apply (IH _ E); [by apply (Ha _ E)|by apply (Hb _ Hin)].
Qed.

(** Index mode only, exact values: Apply inverts Diff on the nose. *)
Lemma apply_diff_exact (a b : json) :
  wf_json a = true -> wf_json b = true -> exact_json a = true -> exact_json b = true ->
  names_ok [] a = true -> names_ok [] b = true ->
  Apply a (Diff a b (mkOptions [])) = Ok b.
Proof. intros. rewrite (apply_diff_merge (mkOptions [])) by done. by rewrite merge_exact. Qed.

(** ** Properties *)

(** C3: Round trip in index mode.  For well-formed JSON values whose object keys
    dot-notation can carry, applying [Diff a b] to [a] succeeds and yields a value
    DeepEqual to [b]. *)
Theorem diff_apply_roundtrip (a b : json) :
  wf_json a = true -> wf_json b = true -> names_ok [] a = true -> names_ok [] b = true ->
  exists r, Apply a (Diff a b (mkOptions [])) = Ok r /\ jsonEqual r b = true.
Proof.
  intros. exists (merge (mkOptions []) a "" b). split; [by apply apply_diff_merge|].
  apply jsim_nil. by apply (merge_sim (mkOptions [])).
Qed.


(** An empty diff means "no change": [Diff a b] is empty only when [a] equals [b]
    up to the order of keyed arrays, and DeepEqual values have an empty diff. *)
Theorem diff_empty_no_change (opts : Options) (a b : json) :
  wf_json a = true -> wf_json b = true ->
  names_ok (keyFields opts) a = true -> names_ok (keyFields opts) b = true ->
  (jsonEqual a b = true -> Diff a b opts = []) /\
  (Diff a b opts = [] -> jsim (keyFields opts) a b).
Proof.
  intros Ha Hb Hna Hnb. split.
  - intros E. unfold Diff. destruct a; cbn [diffValue]; by rewrite E.
  - intros E. pose proof (apply_diff_merge opts a b Ha Hb Hna Hnb) as Happ. rewrite E in Happ.
    unfold Apply in Happ. rewrite deepCopy_id in Happ. injection Happ as Hm. rewrite Hm. by apply merge_sim.
Qed.

(** ** Concrete values *)

Definition ex_deal1 : json :=
  JObj [("amount", JNum (S754_finite false 5000 0));
        ("items", JArr [JObj [("n", JInt 1); ("sku", JStr "A")]; JObj [("n", JInt 2); ("sku", JStr "B")]]);
        ("stage", JStr "prospect"); ("tags", JArr [JStr "x"; JStr "y"; JStr "z"])].

Definition ex_deal2 : json :=
  JObj [("amount", JNum (S754_finite false 6000 0));
        ("items", JArr [JObj [("n", JInt 7); ("sku", JStr "C")]; JObj [("n", JInt 9); ("sku", JStr "A")]]);
        ("owner", JNull); ("tags", JArr [JStr "x"])].

Definition ex_opts : Options := mkOptions [("items", "sku")].

Lemma diff_apply_roundtrip_witness :
  exists r, Apply ex_deal1 (Diff ex_deal1 ex_deal2 (mkOptions [])) = Ok r /\ jsonEqual r ex_deal2 = true.
Proof. apply (diff_apply_roundtrip ex_deal1 ex_deal2); vm_compute; reflexivity. Defined.


Lemma diff_empty_no_change_witness :
  (jsonEqual ex_deal1 ex_deal1 = true -> Diff ex_deal1 ex_deal1 ex_opts = []) /\
  (Diff ex_deal1 ex_deal1 ex_opts = [] -> jsim (keyFields ex_opts) ex_deal1 ex_deal1).
Proof. apply (diff_empty_no_change ex_opts ex_deal1 ex_deal1); vm_compute; reflexivity. Defined.

(** ** Where the package comment "for any JSON values a and b" does not hold *)

(** The limits of the round trip.  A key with a dot, a numeric key and a
    fractional selector value make [Apply (Diff a b)] fail, and an empty key at the
    top level replaces the whole object by the field's value. *)
Theorem diff_apply_limits :
  let rt a b opts := Apply a (Diff a b opts) in
  let half := JNum (S754_finite false 1 (-1)) in
  let el n := JObj [("items", JArr [JObj [("id", half); ("n", JInt n)]])] in
  rt (JObj []) (JObj [("2024", JInt 1)]) (mkOptions []) = Err ErrTypeMismatch /\
  rt (JObj []) (JObj [("a.b", JInt 1)]) (mkOptions []) = Err ErrPathNotFound /\
  rt (el 1%Z) (el 2%Z) (mkOptions [("items", "id")]) = Err ErrPathNotFound /\
  rt (JObj [("", JInt 1); ("k", JInt 2)]) (JObj [("", JInt 3); ("k", JInt 2)]) (mkOptions []) = Ok (JInt 3).
Proof. vm_compute. repeat split. Qed.
