(* ===== verification/Domain.v ===== *)
(** * Core entities (internal/domain/event.go, snapshot_recon.go)

    Events, current states and snapshots, and the pure replay [Reconstruct].
    A Go [map[string]any] that may be nil is an [option] of a map; a [time.Time]
    is its distance in nanoseconds from the zero time, so [IsZero] is [= 0]; the
    typed string enums are strings. *)

From stdpp Require Import base list strings.
From Stdlib Require Import ZArith Lia.
From S2P Require Import Prelude GoMap Json Paths Diff DiffSound.

Abbreviation time := Z.
Abbreviation state := (list (string * json)).

(** ** Errors

    The sentinels and typed errors the layers match on ([errors.Is], [errors.As]);
    a wrapped message is not part of the value.  [ErrInternal] stands for any error
    of a driver or an encoder that no caller distinguishes. *)
Inductive err :=
| ErrNotFound
| ErrVersionConflict
| ErrDuplicateEvent
| ErrTicketNotFound
| ErrRuleNameConflict
| ErrAutoCreateDisabled
| ErrInvalidDiff
| ErrNoTenant                       (* tenant.ErrNoKey: no principal on the context *)
| ErrQueueUnavailable
| ErrClosed
| ErrUnknownKind (kind : string)
| ErrConfig (field : string)        (* *domain.ConfigError *)
| ErrFailClosed (plugin : string)   (* *plugin.FailClosedError *)
| ErrBackpressure (retryAfter : Z)  (* *service.BackpressureError *)
| ErrPoison (kind : string)         (* worker.poison *)
| ErrInternal (what : string).

#[export] Instance err_eq_dec : EqDecision err.
Proof. solve_decision. Defined.

(** ** Entity-level operations *)
Definition OpCreate : string := "create".
Definition OpUpdate : string := "update".
Definition OpDelete : string := "delete".

Record FlowRef := mkFlowRef {
  fr_ActivityID : string; fr_Collection : string; fr_EntityID : string;
  fr_Version : Z; fr_EventID : string }.

Record Flow := mkFlow { fl_ID : string; fl_CausedBy : list FlowRef; fl_Step : string }.

Record Integrity := mkIntegrity { it_Hash : string; it_PrevHash : string }.

Record Event := mkEvent {
  ev_EntityID : string;
  ev_Version : Z;
  ev_Op : string;
  ev_Author : string;
  ev_Source : string;
  ev_TSSource : time;
  ev_TSReceived : time;
  ev_TSStored : time;
  ev_EventID : string;
  ev_RequestID : string;
  ev_Changes : list Change;
  ev_Meta : option state;
  ev_Flow : option Flow;
  ev_Integrity : option Integrity }.

Record CurrentState := mkCurrentState {
  cs_EntityID : string; cs_Version : Z; cs_TS : time; cs_Deleted : bool; cs_State : option state }.

Record Snapshot := mkSnapshot {
  sn_EntityID : string; sn_Version : Z; sn_TS : time; sn_Deleted : bool; sn_State : option state }.

(** ** Snapshots and replay *)

Definition ShouldSnapshot (version interval : Z) : bool :=
  if ((interval <=? 0) || (version <=? 0))%Z then false
  else (Z.rem version interval =? 0)%Z.

Definition emptyIfNil (s : option state) : state := default [] s.

(** [m, _ := applied.(map[string]any)], nil replaced by an empty map. *)
Definition asMap (j : json) : state := match j with JObj m => m | _ => [] end.

(** The loop of [Reconstruct]: [work] is what the next diff applies against,
    [report] what is returned for the version reached. *)
Fixpoint replay (work report : state) (deleted : bool) (events : list Event) : res diffErr (state * bool) :=
  match events with
  | [] => Ok (report, deleted)
  | ev :: events' =>
      if str_eqb (ev_Op ev) OpDelete then replay [] work true events'
      else
        match Apply (JObj work) (ev_Changes ev) with
        | Err e => Err e
        | Ok applied => let m := asMap applied in replay m m false events'
        end
  end.

Definition Reconstruct (base : option state) (baseDeleted : bool) (events : list Event) : res diffErr (state * bool) :=
  let work := if baseDeleted then [] else emptyIfNil base in
  replay work (emptyIfNil base) baseDeleted events.

(** ** Lemmas *)

(** Between two events, [work] is determined by what is reported. *)
Definition workOf (report : state) (deleted : bool) : state := if deleted then [] else report.

Lemma replay_app (work report : state) (deleted : bool) (e1 e2 : list Event) :
  work = workOf report deleted ->
  replay work report deleted (e1 ++ e2) =
  match replay work report deleted e1 with
  | Ok (r, d) => replay (workOf r d) r d e2
  | Err e => Err e
  end.
Proof.
  revert work report deleted. induction e1 as [|ev e1 IH]; intros work report deleted Hw; cbn; [by subst|].
  destruct (str_eqb (ev_Op ev) OpDelete); [by rewrite IH|].
  destruct (Apply (JObj work) (ev_Changes ev)); [by rewrite IH|done].
Qed.

(** Replaying from a state reached equals continuing the replay. *)
Lemma reconstruct_resume (base : option state) (bd : bool) (e1 e2 : list Event) (r : state) (d : bool) :
  Reconstruct base bd e1 = Ok (r, d) ->
  Reconstruct base bd (e1 ++ e2) = Reconstruct (Some r) d e2.
Proof.
  unfold Reconstruct. intros H. rewrite replay_app by done. rewrite H. by destruct d.
Qed.

(** ** Properties *)

(** Snapshot-anchored replay.  If a snapshot holds exactly what a genesis replay of
    the events up to its version reports (value and deleted flag), then replaying only
    the tail from the snapshot gives the same result, errors included, as replaying the
    whole history from genesis. *)
Theorem snapshot_replay_equiv (snap : Snapshot) (before tail : list Event) (r : state) :
  Reconstruct None false before = Ok (r, sn_Deleted snap) -> sn_State snap = Some r ->
  Reconstruct (sn_State snap) (sn_Deleted snap) tail = Reconstruct None false (before ++ tail).
Proof. intros H ->. by rewrite (reconstruct_resume _ _ _ _ _ _ H). Qed.

(** Deletion and reincarnation.  A history that ends in a delete reports the last
    value before it with the deleted flag set, and whatever follows the delete is
    replayed against the empty object: the result of a non-empty run of later events
    does not depend on what was deleted. *)
Theorem reconstruct_delete_resets (base : option state) (bd : bool) (before : list Event) (del ev : Event) (after : list Event) (r : state) (d : bool) :
  ev_Op del = OpDelete ->
  Reconstruct base bd before = Ok (r, d) ->
  Reconstruct base bd (before ++ [del]) = Ok (workOf r d, true) /\
  (ev_Op ev <> OpDelete ->
   Reconstruct base bd (before ++ del :: ev :: after) = Reconstruct None false (ev :: after)).
Proof.
  intros Hop H. split.
  - rewrite (reconstruct_resume _ _ _ _ _ _ H). unfold Reconstruct. cbn. rewrite Hop, str_eqb_refl.
    by destruct d.
  - intros Hev%str_eqb_neq. rewrite (reconstruct_resume _ _ _ _ _ _ H). unfold Reconstruct. cbn.
    rewrite Hop, str_eqb_refl, Hev. done.
Qed.

(** Snapshot cadence.  With a positive interval, [ShouldSnapshot] holds exactly at
    the positive multiples of the interval, so any run of [interval] consecutive
    versions contains one snapshot point. *)
Theorem should_snapshot_spec (version interval : Z) :
  (0 < interval)%Z -> (0 < version)%Z ->
  (ShouldSnapshot version interval = true <-> exists q, version = (q * interval)%Z) /\
  exists v, (version <= v < version + interval)%Z /\ ShouldSnapshot v interval = true.
Proof.
  intros Hi Hv. assert (forall v, (0 < v)%Z -> ShouldSnapshot v interval = true <-> exists q, v = (q * interval)%Z) as Hs.
  { intros v Hv'. unfold ShouldSnapshot.
    assert ((interval <=? 0) || (v <=? 0) = false)%Z as -> by (apply orb_false_iff; lia).
    rewrite Z.eqb_eq, Z.rem_mod_nonneg by lia. split.
    - intros H. exists (v / interval)%Z. rewrite Z.mul_comm. apply Z_div_exact_full_2; lia.
    - intros [q ->]. apply Z_mod_mult. }
  split; [by apply Hs|].
  exists (interval * ((version + interval - 1) / interval))%Z.
  pose proof (Z.mul_div_le (version + interval - 1) interval Hi).
  pose proof (Z.mul_succ_div_gt (version + interval - 1) interval Hi). split; [lia|].
  apply Hs; [lia|]. exists ((version + interval - 1) / interval)%Z. lia.
Qed.

(** ** Witnesses *)

Definition ex_event (v : Z) (op : string) (chs : list Change) : Event :=
  mkEvent "deal-1" v op "u1" "crm" 5 6 7 "" "" chs None None None.

Definition ex_hist : list Event :=
  [ex_event 1 OpCreate [mkChange "a" OpAdd JNull (JInt 1)];
   ex_event 2 OpUpdate [mkChange "a" OpChange (JInt 1) (JInt 2)]].

Definition ex_tail : list Event :=
  [ex_event 3 OpDelete []; ex_event 4 OpCreate [mkChange "b" OpAdd JNull (JInt 5)]].

Definition ex_snap : Snapshot := mkSnapshot "deal-1" 2 6 false (Some [("a", JInt 2)]).

Lemma snapshot_replay_equiv_witness :
  Reconstruct (sn_State ex_snap) (sn_Deleted ex_snap) ex_tail = Reconstruct None false (ex_hist ++ ex_tail).
Proof. apply (snapshot_replay_equiv ex_snap ex_hist ex_tail [("a", JInt 2)]); vm_compute; reflexivity. Defined.

Lemma reconstruct_delete_resets_witness :
  Reconstruct None false (ex_hist ++ [ex_event 3 OpDelete []]) = Ok ([("a", JInt 2)], true).
Proof.
  apply (reconstruct_delete_resets None false ex_hist (ex_event 3 OpDelete [])
           (ex_event 4 OpCreate []) [] [("a", JInt 2)] false); vm_compute; reflexivity.
Defined.

Lemma should_snapshot_spec_witness :
  (ShouldSnapshot 200 100 = true <-> exists q, 200%Z = (q * 100)%Z) /\
  exists v, (200 <= v < 200 + 100)%Z /\ ShouldSnapshot v 100 = true.
Proof. apply (should_snapshot_spec 200 100); lia. Defined.
