(* ===== verification/Tenant.v ===== *)
(** * Tenants and API keys (internal/tenant), over SHA-256

    First the parts of [crypto/sha256], [crypto/hmac] and [encoding/hex] the program
    calls, FIPS 180-4 on 32-bit words written as [Z], checked against the published test
    vectors: the key hashes of the resolver use them, and so do the hash chain and the
    webhook signature.  Then the resolver, scopes, collection masks and databases of
    tenants. *)

From stdpp Require Import base list strings.
From Stdlib Require Import ZArith Lia Ascii.
From S2P Require Import Prelude GoMap Paths.

#[local] Open Scope Z_scope.

Definition w32 (z : Z) : Z := Z.land z 0xffffffff.
Definition rotr (n x : Z) : Z := Z.lor (Z.shiftr x n) (w32 (Z.shiftl x (32 - n))).
Definition ch32 (x y z : Z) : Z := Z.lxor (Z.land x y) (Z.land (Z.lxor x 0xffffffff) z).
Definition maj32 (x y z : Z) : Z := Z.lxor (Z.lxor (Z.land x y) (Z.land x z)) (Z.land y z).
Definition bsig0 (x : Z) : Z := Z.lxor (Z.lxor (rotr 2 x) (rotr 13 x)) (rotr 22 x).
Definition bsig1 (x : Z) : Z := Z.lxor (Z.lxor (rotr 6 x) (rotr 11 x)) (rotr 25 x).
Definition ssig0 (x : Z) : Z := Z.lxor (Z.lxor (rotr 7 x) (rotr 18 x)) (Z.shiftr x 3).
Definition ssig1 (x : Z) : Z := Z.lxor (Z.lxor (rotr 17 x) (rotr 19 x)) (Z.shiftr x 10).

(** The constants, computed from their definition: the first 32 bits of the fractional
    parts of the cube roots (round constants) and square roots (initial state) of the
    first primes. *)
Definition is_prime (n : Z) : bool :=
  forallb (fun d => negb (n mod Z.of_nat d =? 0)) (seq 2 (Z.to_nat n - 2)).

Definition first_primes (count : nat) : list Z :=
  firstn count (filter (fun n => is_prime n = true) (map Z.of_nat (seq 2 320))).

(** Integer cube root, one bit at a time from bit [n - 1]. *)
Fixpoint icbrt (n : nat) (acc z : Z) : Z :=
  match n with
  | O => acc
  | S n' =>
      let c := acc + Z.shiftl 1 (Z.of_nat n') in
      icbrt n' (if c * c * c <=? z then c else acc) z
  end.

Definition K256 : list Z :=
  Eval vm_compute in map (fun p => w32 (icbrt 40 0 (Z.shiftl p 96))) (first_primes 64).

Definition H256 : list Z :=
  Eval vm_compute in map (fun p => w32 (Z.sqrt (Z.shiftl p 64))) (first_primes 8).

Definition at32 (l : list Z) (i : nat) : Z := nth i l 0.

(** The message schedule, most recent word first. *)
Fixpoint schedule (n : nat) (w : list Z) : list Z :=
  match n with
  | O => w
  | S n' =>
      schedule n' (w32 (ssig1 (at32 w 1) + at32 w 6 + ssig0 (at32 w 14) + at32 w 15) :: w)
  end.

Definition round (s : list Z) (kw : Z * Z) : list Z :=
  match s with
  | [a; b; c; d; e; f; g; h] =>
      let t1 := h + bsig1 e + ch32 e f g + fst kw + snd kw in
      let t2 := bsig0 a + maj32 a b c in
      [w32 (t1 + t2); a; b; c; w32 (d + t1); e; f; g]
  | _ => s
  end.

Definition compress (h : list Z) (block : list Z) : list Z :=
  let w := rev (schedule 48 (rev block)) in
  let s := fold_left round (combine K256 w) h in
  map (fun p => w32 (fst p + snd p)) (combine h s).

Definition byte_val (c : ascii) : Z := Z.of_N (N_of_ascii c).

Fixpoint bytes_of (s : string) : list Z :=
  match s with EmptyString => [] | String c s' => byte_val c :: bytes_of s' end.

Definition be_bytes (n : nat) (z : Z) : list Z :=
  map (fun i => Z.land (Z.shiftr z (8 * Z.of_nat i)) 255) (rev (seq 0 n)).

(** Padding: 0x80, zeros, the bit length as 64 bits. *)
Definition padding (len : Z) : list Z :=
  128 :: repeat 0 (Z.to_nat ((55 - len) mod 64)) ++ be_bytes 8 (8 * len).

Fixpoint words (bs : list Z) : list Z :=
  match bs with
  | a :: b :: c :: d :: bs' => (a * 16777216 + b * 65536 + c * 256 + d) :: words bs'
  | _ => []
  end.

Fixpoint blocks (fuel : nat) (ws : list Z) : list (list Z) :=
  match fuel, ws with
  | S f, _ :: _ => take 16 ws :: blocks f (drop 16 ws)
  | _, _ => []
  end.

Definition sha256_bytes (bs : list Z) : list Z :=
  let padded := bs ++ padding (Z.of_nat (length bs)) in
  let ws := words padded in
  flat_map (be_bytes 4) (fold_left compress (blocks (length ws) ws) H256).

(** ** Hexadecimal *)

Definition hex_digit (z : Z) : ascii :=
  ascii_of_N (Z.to_N (if z <? 10 then z + 48 else z + 87)).

Fixpoint hex_encode (bs : list Z) : string :=
  match bs with
  | [] => EmptyString
  | b :: bs' => String (hex_digit (b / 16)) (String (hex_digit (b mod 16)) (hex_encode bs'))
  end.

(** [hex.EncodeToString(sha256.Sum256([]byte(s)))]. *)
Definition sha256_hex (s : string) : string := hex_encode (sha256_bytes (bytes_of s)).

(** ** HMAC *)

Definition hmac_key (key : list Z) : list Z :=
  let k := if (64 <? Z.of_nat (length key)) then sha256_bytes key else key in
  k ++ repeat 0 (64 - length k).

Definition hmac_sha256 (key msg : list Z) : list Z :=
  let k := hmac_key key in
  sha256_bytes (map (Z.lxor 0x5c) k ++ sha256_bytes (map (Z.lxor 0x36) k ++ msg)).

Example sha256_abc :
  sha256_hex "abc" = "ba7816bf8f01cfea414140de5dae2223b00361a396177a9cb410ff61f20015ad".
Proof. vm_compute. reflexivity. Qed.

Example sha256_empty :
  sha256_hex "" = "e3b0c44298fc1c149afbf4c8996fb92427ae41e4649b934ca495991b7852b855".
Proof. vm_compute. reflexivity. Qed.

Example hmac_fox :
  hex_encode (hmac_sha256 (bytes_of "key") (bytes_of "The quick brown fox jumps over the lazy dog"))
  = "f7bc83f430538424b13298e6aa6fb143ef4d59a14946175997479dbc2d1a3cd8".
Proof. vm_compute. reflexivity. Qed.

(** ** Shape of the output *)

Lemma hex_encode_length (bs : list Z) : String.length (hex_encode bs) = (2 * length bs)%nat.
Proof. induction bs as [|b bs IH]; cbn; [done|]. rewrite IH. lia. Qed.

(** ** Tenants, principals and API keys (internal/tenant)

    Key resolution by SHA-256 hash, scopes, collection masks and the database name
    that isolates a tenant.  A request context is the optional principal it carries
    ([NewContext]/[FromContext]). *)

Definition ScopeWrite : string := "write".
Definition ScopeRead : string := "read".
Definition ScopeAdmin : string := "admin".
Definition dbPrefix : string := "hm_t_".
Definition hashPrefix : string := "sha256:".

Record Database := mkDatabase { db_URI : string; db_Name : string }.
Record Tenant := mkTenant { t_ID : string; t_Database : Database }.
Record APIKey := mkAPIKey { k_Scopes : list string; k_Collections : list string }.
Record Principal := mkPrincipal { p_Tenant : Tenant; p_Key : APIKey }.

(** [context.Context] as far as this program reads it. *)
Abbreviation ctx := (option Principal).
Definition NewContext (c : ctx) (p : Principal) : ctx := Some p.
Definition FromContext (c : ctx) : option Principal := c.

Definition DatabaseName (t : Tenant) : string :=
  if str_eqb (db_Name (t_Database t)) "" then dbPrefix +:+ t_ID t else db_Name (t_Database t).

Definition HasScope (p : Principal) (s : string) : bool := existsb (str_eqb s) (k_Scopes (p_Key p)).

(** [strings.TrimSuffix(pat, ".*")] when the suffix is present. *)
Fixpoint cutDotStar (pat : string) : option string :=
  match pat with
  | EmptyString => None
  | String c rest =>
      if str_eqb pat ".*" then Some EmptyString
      else match cutDotStar rest with Some p => Some (String c p) | None => None end
  end.

Definition matchPattern (pat name : string) : bool :=
  if str_eqb pat "*" then true
  else match cutDotStar pat with
       | Some prefix => str_eqb name prefix || has_prefix (prefix +:+ ".") name
       | None => str_eqb pat name
       end.

Fixpoint matchCollection (patterns : list string) (name : string) : bool :=
  match patterns with
  | [] => false
  | pat :: pats => if matchPattern pat name then true else matchCollection pats name
  end.

Definition CanAccess (p : Principal) (collection : string) : bool :=
  matchCollection (k_Collections (p_Key p)) collection.

(** ** Resolver *)

Inductive tenantErr := ErrNoKey | ErrUnknownKey | ErrTenantConfig (what : string).

Definition ParseScope (s : string) : res tenantErr string :=
  if str_eqb s ScopeWrite || str_eqb s ScopeRead || str_eqb s ScopeAdmin then Ok s
  else Err (ErrTenantConfig "unknown scope").

Record KeySpec := mkKeySpec { ks_Hash : string; ks_Plaintext : string; ks_Scopes : list string; ks_Collections : list string }.
Record Spec := mkSpec { s_ID : string; s_DBURI : string; s_DBName : string; s_Keys : list KeySpec }.

(** [strings.ToLower] and [strings.TrimSpace] on ASCII key hashes. *)
Definition lower_byte (c : ascii) : ascii :=
  let n := N_of_ascii c in if ((65 <=? n) && (n <=? 90))%N then ascii_of_N (n + 32) else c.

Fixpoint map_bytes (f : ascii -> ascii) (s : string) : string :=
  match s with EmptyString => EmptyString | String c s' => String (f c) (map_bytes f s') end.

Definition is_space (c : ascii) : bool :=
  let n := N_of_ascii c in ((n =? 32) || ((9 <=? n) && (n <=? 13)))%N.

Fixpoint trim_left (s : string) : string :=
  match s with
  | EmptyString => EmptyString
  | String c s' => if is_space c then trim_left s' else s
  end.

Fixpoint trim_right (s : string) : string :=
  match s with
  | EmptyString => EmptyString
  | String c s' => let t := trim_right s' in
                   if str_eqb t "" && is_space c then EmptyString else String c t
  end.

Definition trim_space (s : string) : string := trim_right (trim_left s).

(** The hash a key is stored under, and whether a plaintext warning is due. *)
Definition keyHash (ks : KeySpec) : res tenantErr (string * bool) :=
  if negb (str_eqb (ks_Hash ks) "") && negb (str_eqb (ks_Plaintext ks) "")
  then Err (ErrTenantConfig "set either key_hash or key, not both")
  else if negb (str_eqb (ks_Hash ks) "") then
    let h := map_bytes lower_byte (trim_space (ks_Hash ks)) in
    if negb (has_prefix hashPrefix h) || negb (Nat.eqb (String.length h) (String.length hashPrefix + 64))
    then Err (ErrTenantConfig "key_hash must be sha256: + 64 hex chars")
    else Ok (h, false)
  else if negb (str_eqb (ks_Plaintext ks) "") then
    Ok (hashPrefix +:+ sha256_hex (ks_Plaintext ks), true)
  else Err (ErrTenantConfig "neither key_hash nor key set").

Fixpoint parseScopeList (raw : list string) : res tenantErr (list string) :=
  match raw with
  | [] => Ok []
  | s :: raw' => (sc <- ParseScope s; rest <- parseScopeList raw'; Ok (sc :: rest))%go
  end.

Definition parseScopes (raw : list string) : res tenantErr (list string) :=
  match raw with
  | [] => Err (ErrTenantConfig "a key needs at least one scope")
  | _ => parseScopeList raw
  end.

Record Resolver := mkResolver { byHash : list (string * Principal) }.

Fixpoint addKeys (t : Tenant) (keys : list KeySpec) (m : list (string * Principal)) : res tenantErr (list (string * Principal)) :=
  match keys with
  | [] => Ok m
  | ks :: keys' =>
      (hw <- keyHash ks;
       scopes <- parseScopes (ks_Scopes ks);
       match mget (fst hw) m with
       | Some _ => Err (ErrTenantConfig "duplicate API key hash")
       | None => addKeys t keys' (mset (fst hw) (mkPrincipal t (mkAPIKey scopes (ks_Collections ks))) m)
       end)%go
  end.

Fixpoint addSpecs (specs : list Spec) (m : list (string * Principal)) : res tenantErr (list (string * Principal)) :=
  match specs with
  | [] => Ok m
  | s :: specs' =>
      if str_eqb (s_ID s) "" then Err (ErrTenantConfig "tenant id is required")
      else (m' <- addKeys (mkTenant (s_ID s) (mkDatabase (s_DBURI s) (s_DBName s))) (s_Keys s) m;
            addSpecs specs' m')%go
  end.

Definition NewResolver (specs : list Spec) : res tenantErr Resolver :=
  (m <- addSpecs specs []; Ok (mkResolver m))%go.

Definition Resolve (r : Resolver) (raw : string) : res tenantErr Principal :=
  if str_eqb raw "" then Err ErrNoKey
  else match mget (hashPrefix +:+ sha256_hex raw) (byHash r) with
       | Some p => Ok p
       | None => Err ErrUnknownKey
       end.

(** ** Lemmas *)

(** What a key spec resolves to, as a relation. *)
Definition key_of (s : Spec) (ks : KeySpec) (h : string) (p : Principal) : Prop :=
  exists w scopes, keyHash ks = Ok (h, w) /\ parseScopes (ks_Scopes ks) = Ok scopes /\
    p = mkPrincipal (mkTenant (s_ID s) (mkDatabase (s_DBURI s) (s_DBName s)))
          (mkAPIKey scopes (ks_Collections ks)).

Lemma addKeys_spec (s : Spec) (keys : list KeySpec) (m m' : list (string * Principal)) :
  addKeys (mkTenant (s_ID s) (mkDatabase (s_DBURI s) (s_DBName s))) keys m = Ok m' ->
  (forall h p, mget h m' = Some p <-> mget h m = Some p \/ (exists ks, In ks keys /\ key_of s ks h p)).
Proof.
  revert m. induction keys as [|ks keys IH]; intros m H h p; cbn in H; [injection H as <-; naive_solver|].
  destruct (keyHash ks) as [[h0 w]|] eqn:Eh; [|done].
  destruct (parseScopes (ks_Scopes ks)) as [scopes|] eqn:Es; [|done]. cbn in H.
  destruct (mget h0 m) eqn:Em; [done|]. rewrite (IH _ H).
  destruct (decide (h0 = h)) as [<-|Hne].
  - rewrite mget_mset_eq, Em. split.
    + intros [[= <-]|(ks' & Hin & Hk)].
      * right. exists ks. split; [by left|]. by exists w, scopes.
      * right. exists ks'. split; [by right|done].
    + intros [|(ks' & [<-|Hin] & Hk)]; [done| |right; by exists ks'].
      destruct Hk as (w' & sc' & E1 & E2 & ->). left. congruence.
  - rewrite mget_mset_ne by done. split.
    + intros [?|(ks' & Hin & Hk)]; [by left|]. right. exists ks'. split; [by right|done].
    + intros [?|(ks' & [<-|Hin] & Hk)]; [by left| |right; by exists ks'].
      destruct Hk as (w' & sc' & E1 & _). congruence.
Qed.

Lemma addSpecs_spec (specs : list Spec) (m m' : list (string * Principal)) :
  addSpecs specs m = Ok m' ->
  (forall h p, mget h m' = Some p <->
     mget h m = Some p \/ (exists s ks, In s specs /\ In ks (s_Keys s) /\ key_of s ks h p)).
Proof.
  revert m. induction specs as [|s specs IH]; intros m H h p; cbn in H; [injection H as <-; naive_solver|].
  destruct (str_eqb (s_ID s) ""); [done|].
  destruct (addKeys _ (s_Keys s) m) as [m1|] eqn:Ek; [|done].
  rewrite (IH _ H), (addKeys_spec s _ _ _ Ek). split.
  - intros [[?|(ks & Hks & Hk)]|(s' & ks & Hs & Hks & Hk)]; [by left| |].
    + right. exists s, ks. split; [by left|done].
    + right. exists s', ks. split; [by right|done].
  - intros [?|(s' & ks & [<-|Hs] & Hks & Hk)]; [by left; left| |].
    + left. right. by exists ks.
    + right. by exists s', ks.
Qed.

Lemma has_prefix_app (p s : string) : has_prefix p s = true <-> exists t, s = p +:+ t.
Proof.
  revert s. induction p as [|c p IH]; intros s; cbn.
  - split; [intros _; by exists s|done].
  - destruct s as [|d s]; [split; [done|intros [t Ht]; done]|].
    destruct (Ascii.eqb c d) eqn:E.
    + apply Ascii.eqb_eq in E as <-. rewrite IH. split; intros [t Ht]; exists t.
      * by rewrite app_cons_str, Ht.
      * rewrite app_cons_str in Ht. by injection Ht.
    + split; [done|]. intros [t Ht]. rewrite app_cons_str in Ht. injection Ht as ->.
      by rewrite Ascii.eqb_refl in E.
Qed.

Lemma cutDotStar_spec (pat p : string) : cutDotStar pat = Some p <-> pat = p +:+ ".*".
Proof.
  revert p. induction pat as [|c rest IH]; intros p.
  - cbn. split; [done|]. by destruct p.
  - cbn [cutDotStar]. destruct (str_eqb (String c rest) ".*") eqn:E.
    + apply str_eqb_eq in E. rewrite E. split; [by intros [= <-]|].
      destruct p as [|d [|d' p]]; [done| |]; rewrite ?app_cons_str; intros [= -> H]; by destruct p.
    + apply str_eqb_neq in E. destruct (cutDotStar rest) as [q|] eqn:Eq.
      * pose proof (proj1 (IH q) eq_refl) as ->. split; [by intros [= <-]|].
        destruct p as [|d p]; [done|]. rewrite app_cons_str. intros [= -> H].
        f_equal. f_equal. by apply (app_str_inj_r _ _ ".*").
      * split; [done|]. destruct p as [|d p]; [done|]. rewrite app_cons_str. intros [= -> H].
        by apply IH in H.
Qed.

(** ** Properties *)


(** Collection masks.  A mask admits a collection exactly when one of its patterns
    is ["*"], is the name itself and no wildcard, or is ["prefix.*"] with the name equal
    to the prefix or below it at a dot boundary; the empty mask admits nothing. *)
Theorem can_access_spec (p : Principal) (name : string) :
  CanAccess p name = true <->
  exists pat, In pat (k_Collections (p_Key p)) /\
    (pat = "*" \/
     (exists prefix, pat <> "*" /\ pat = prefix +:+ ".*" /\
        (name = prefix \/ exists rest, name = prefix +:+ "." +:+ rest)) \/
     (pat <> "*" /\ (forall prefix, pat <> prefix +:+ ".*") /\ pat = name)).
Proof.
  unfold CanAccess. induction (k_Collections (p_Key p)) as [|pat pats IH]; cbn.
  { split; [done|]. by intros (? & [] & _). }
  assert (matchPattern pat name = true <->
    (pat = "*" \/
     (exists prefix, pat <> "*" /\ pat = prefix +:+ ".*" /\
        (name = prefix \/ exists rest, name = prefix +:+ "." +:+ rest)) \/
     (pat <> "*" /\ (forall prefix, pat <> prefix +:+ ".*") /\ pat = name))) as Hm.
  { unfold matchPattern. destruct (str_eqb pat "*") eqn:Es.
    - apply str_eqb_eq in Es. split; [by left|done].
    - apply str_eqb_neq in Es. destruct (cutDotStar pat) as [pre|] eqn:Ec.
      + apply cutDotStar_spec in Ec. rewrite orb_true_iff, str_eqb_eq, has_prefix_app. split.
        * intros [->|[t ->]]; right; left; exists pre; (do 2 (split; [done|])); [by left|].
          right. exists t. by rewrite app_assoc_str.
        * intros [?|[(pre' & _ & E & H)|(_ & Hn & _)]]; [done| |by destruct (Hn pre)].
          rewrite Ec in E. apply app_str_inj_r in E as <-. destruct H as [->|[rest ->]]; [by left|].
          right. exists rest. by rewrite app_assoc_str.
      + rewrite str_eqb_eq. split.
        * intros ->. right; right. split; [done|]. split; [|done].
          intros pre ->. by rewrite (proj2 (cutDotStar_spec _ pre) eq_refl) in Ec.
        * intros [?|[(pre' & _ & E & H)|(_ & _ & ?)]]; [done| |done].
          by rewrite (proj2 (cutDotStar_spec _ pre') E) in Ec. }
  destruct (matchPattern pat name) eqn:Em.
  - split; [|done]. intros _. exists pat. split; [by left|by apply Hm].
  - rewrite IH. split.
    + intros (q & Hq & H). exists q. split; [by right|done].
    + intros (q & [<-|Hq] & H); [|by exists q]. apply Hm in H. done.
Qed.

(** Tenant isolation by name.  Two tenants without a database override share a
    database only if they have the same id. *)
Theorem database_isolation (t1 t2 : Tenant) :
  db_Name (t_Database t1) = "" -> db_Name (t_Database t2) = "" ->
  DatabaseName t1 = DatabaseName t2 -> t_ID t1 = t_ID t2.
Proof.
  unfold DatabaseName. intros -> ->. cbn. unfold dbPrefix. rewrite !app_cons_str. intros H.
  by injection H.
Qed.

(** ** Witnesses *)

Definition ex_specs : list Spec :=
  [mkSpec "acme" "" "" [mkKeySpec "" "hm_dev_plaintext" ["read"; "write"] ["crm.*"]];
   mkSpec "globex" "" "gx" [mkKeySpec "" "other" ["admin"] ["*"]]].

Definition ex_principal : Principal :=
  mkPrincipal (mkTenant "acme" (mkDatabase "" "")) (mkAPIKey ["read"; "write"] ["crm.*"]).

Definition ex_resolver : Resolver :=
  Eval vm_compute in match NewResolver ex_specs with Ok r => r | Err _ => mkResolver [] end.


Lemma database_isolation_witness : t_ID (mkTenant "acme" (mkDatabase "u" "")) = "acme".
Proof.
  apply (database_isolation (mkTenant "acme" (mkDatabase "u" "")) (mkTenant "acme" (mkDatabase "" "")));
    reflexivity.
Defined.
