(* ===== verification/Config.v ===== *)
(** * Per-collection configuration (internal/domain/collection.go, internal/service/config.go, config_admin.go)

    The config record with its defaults and validation, the resolver with its TTL
    cache and auto-create, and the admin update.  The repository behind them is an
    interface ([CollectionRepository]) with the laws its callers rely on. *)

From stdpp Require Import base list strings.
From Stdlib Require Import ZArith Lia Ascii.
From S2P Require Import Prelude GoMap Json Paths Diff DiffSound Domain Tenant.

Definition ReliabilityStrict : string := "strict".
Definition ReliabilityDurable : string := "durable".
Definition ReliabilityFast : string := "fast".
Definition FirstEventCreate : string := "create".
Definition FirstEventUpdate : string := "update".
Definition OrderingReceived : string := "received".
Definition OrderingSource : string := "source".
Definition RetentionForever : string := "forever".
Definition RetentionDays : string := "days".
Definition RetentionVersions : string := "versions".
Definition FailOpen : string := "open".
Definition FailClosed : string := "closed".

Definition ValidReliabilityMode (m : string) : bool :=
  str_eqb m ReliabilityStrict || str_eqb m ReliabilityDurable || str_eqb m ReliabilityFast.
Definition ValidFirstEventOp (op : string) : bool := str_eqb op FirstEventCreate || str_eqb op FirstEventUpdate.
Definition ValidOrderingMode (m : string) : bool := str_eqb m OrderingReceived || str_eqb m OrderingSource.
Definition ValidRetentionType (t : string) : bool :=
  str_eqb t RetentionForever || str_eqb t RetentionDays || str_eqb t RetentionVersions.
Definition ValidFailMode (m : string) : bool := str_eqb m FailOpen || str_eqb m FailClosed.

Definition DefaultSnapshotInterval : Z := 100.
Definition DefaultMaxEventSizeBytes : Z := Z.shiftl 1 20.

Record Retention := mkRetention { rt_Type : string; rt_Days : Z; rt_Keep : Z }.
Record Ordering := mkOrdering { or_Mode : string; or_ReorderWindowMS : Z }.
Record PluginConfig := mkPluginConfig { pc_Enabled : bool; pc_FailMode : string; pc_Params : option state }.

Record CollectionConfig := mkConfig {
  cfg_Name : string;
  cfg_ReliabilityMode : string;
  cfg_SnapshotInterval : Z;
  cfg_Retention : Retention;
  cfg_MaxEventSizeBytes : Z;
  cfg_FirstEventOp : string;
  cfg_Ordering : Ordering;
  cfg_ArrayKeys : list (string * string);
  cfg_Plugins : list (string * PluginConfig) }.

(** An enum field that is set must be known. *)
Definition badEnum (valid : string -> bool) (v : string) : bool := negb (str_eqb v "") && negb (valid v).

Fixpoint validatePlugins (ps : list (string * PluginConfig)) : res err unit :=
  match ps with
  | [] => Ok tt
  | (name, p) :: ps' =>
      if badEnum ValidFailMode (pc_FailMode p) then Err (ErrConfig ("plugins." +:+ name +:+ ".fail_mode"))
      else validatePlugins ps'
  end.

Definition Validate (cfg : CollectionConfig) : res err unit :=
  if badEnum ValidReliabilityMode (cfg_ReliabilityMode cfg) then Err (ErrConfig "reliability_mode")
  else if badEnum ValidFirstEventOp (cfg_FirstEventOp cfg) then Err (ErrConfig "first_event_op")
  else if badEnum ValidOrderingMode (or_Mode (cfg_Ordering cfg)) then Err (ErrConfig "ordering.mode")
  else if badEnum ValidRetentionType (rt_Type (cfg_Retention cfg)) then Err (ErrConfig "retention.type")
  else if (cfg_SnapshotInterval cfg <? 0)%Z then Err (ErrConfig "snapshot_interval")
  else if (cfg_MaxEventSizeBytes cfg <? 0)%Z then Err (ErrConfig "max_event_size_bytes")
  else validatePlugins (cfg_Plugins cfg).

Definition orElse (v d : string) : string := if str_eqb v "" then d else v.
Definition orElseZ (v d : Z) : Z := if (v =? 0)%Z then d else v.

Definition WithDefaults (cfg : CollectionConfig) : CollectionConfig :=
  mkConfig (cfg_Name cfg)
    (orElse (cfg_ReliabilityMode cfg) ReliabilityDurable)
    (orElseZ (cfg_SnapshotInterval cfg) DefaultSnapshotInterval)
    (mkRetention (orElse (rt_Type (cfg_Retention cfg)) RetentionForever)
       (rt_Days (cfg_Retention cfg)) (rt_Keep (cfg_Retention cfg)))
    (orElseZ (cfg_MaxEventSizeBytes cfg) DefaultMaxEventSizeBytes)
    (orElse (cfg_FirstEventOp cfg) FirstEventCreate)
    (mkOrdering (orElse (or_Mode (cfg_Ordering cfg)) OrderingReceived) (or_ReorderWindowMS (cfg_Ordering cfg)))
    (cfg_ArrayKeys cfg) (cfg_Plugins cfg).

(** [domain.CollectionConfig{Name: collection}]. *)
Definition bareConfig (name : string) : CollectionConfig :=
  mkConfig name "" 0 (mkRetention "" 0 0) 0 "" (mkOrdering "" 0) [] [].

(** ** The repository port *)

Class CollectionRepository (W : Type) := {
  GetConfig : ctx -> string -> W -> res err CollectionConfig;
  SaveConfig : ctx -> CollectionConfig -> W -> res err unit * W;
  EnsurePhysical : ctx -> string -> W -> res err unit * W }.

(** What the resolver relies on: a saved config is read back, and neither operation
    disturbs the config of another collection of any tenant. *)
Class CollectionRepositoryLaws (W : Type) `{CollectionRepository W} := {
  get_after_save : forall c cfg w w', SaveConfig c cfg w = (Ok tt, w') ->
    GetConfig c (cfg_Name cfg) w' = Ok cfg;
  get_after_ensure : forall c c' n n' w w' r, EnsurePhysical c n w = (r, w') ->
    GetConfig c' n' w' = GetConfig c' n' w }.

(** ** The resolver *)

Record ConfigResolver := mkConfigResolver {
  cr_autoCreate : bool; cr_ttl : Z; cr_cache : list (string * (CollectionConfig * time)) }.

Definition defaultCacheTTL : Z := 30000000000.

Definition NewConfigResolver (autoCreate : bool) (ttl : Z) : ConfigResolver :=
  mkConfigResolver autoCreate (if (ttl <=? 0)%Z then defaultCacheTTL else ttl) [].

Definition cacheKey (c : ctx) (collection : string) : res err string :=
  match FromContext c with
  | None => Err ErrNoTenant
  | Some p => Ok (DatabaseName (p_Tenant p) +:+ "|" +:+ collection)
  end.

Definition cached (cr : ConfigResolver) (now : time) (key : string) : option CollectionConfig :=
  match mget key (cr_cache cr) with
  | None => None
  | Some (cfg, expires) => if (now <? expires)%Z then Some cfg else None
  end.

Definition cacheStore (cr : ConfigResolver) (now : time) (key : string) (cfg : CollectionConfig) : ConfigResolver :=
  mkConfigResolver (cr_autoCreate cr) (cr_ttl cr) (mset key (cfg, (now + cr_ttl cr)%Z) (cr_cache cr)).

Definition Invalidate (cr : ConfigResolver) (c : ctx) (collection : string) : ConfigResolver :=
  match cacheKey c collection with
  | Err _ => cr
  | Ok key => mkConfigResolver (cr_autoCreate cr) (cr_ttl cr) (mdel key (cr_cache cr))
  end.

Section Resolver.
Context {W : Type} `{CollectionRepository W}.

Definition crGet (cr : ConfigResolver) (now : time) (c : ctx) (collection : string) (w : W) : res err CollectionConfig * ConfigResolver :=
  match cacheKey c collection with
  | Err e => (Err e, cr)
  | Ok key =>
      match cached cr now key with
      | Some cfg => (Ok cfg, cr)
      | None =>
          match GetConfig c collection w with
          | Err e => (Err e, cr)
          | Ok stored => let cfg := WithDefaults stored in (Ok cfg, cacheStore cr now key cfg)
          end
      end
  end.

Definition EnsureCollection (cr : ConfigResolver) (now : time) (c : ctx) (collection : string) (w : W) : res err CollectionConfig * ConfigResolver * W :=
  match crGet cr now c collection w with
  | (Ok cfg, cr') => (Ok cfg, cr', w)
  | (Err ErrNotFound, cr') =>
      if negb (cr_autoCreate cr') then (Err ErrAutoCreateDisabled, cr', w)
      else
        let created := WithDefaults (bareConfig collection) in
        match SaveConfig c created w with
        | (Err e, w1) => (Err e, cr', w1)
        | (Ok _, w1) =>
            match EnsurePhysical c collection w1 with
            | (Err e, w2) => (Err e, cr', w2)
            | (Ok _, w2) =>
                match cacheKey c collection with
                | Err e => (Err e, cr', w2)
                | Ok key => (Ok created, cacheStore cr' now key created, w2)
                end
            end
        end
  | (Err e, cr') => (Err e, cr', w)
  end.

End Resolver.

(** ** The admin service *)

Record AuditEvent := mkAuditEvent {
  au_ID : string; au_Action : string; au_Collection : string; au_Actor : string; au_TS : time; au_Details : state }.

(** [domain.AuditStore]. *)
Class AuditStore (W : Type) := { RecordAudit : ctx -> AuditEvent -> W -> res err unit * W }.

Definition auditDetails (cfg : CollectionConfig) : state :=
  mset "reliability_mode" (JStr (cfg_ReliabilityMode cfg))
  (mset "snapshot_interval" (JInt (cfg_SnapshotInterval cfg))
  (mset "retention_type" (JStr (rt_Type (cfg_Retention cfg)))
  (mset "max_event_size_bytes" (JInt64 (cfg_MaxEventSizeBytes cfg))
  (mset "first_event_op" (JStr (cfg_FirstEventOp cfg))
  (mset "ordering_mode" (JStr (or_Mode (cfg_Ordering cfg))) []))))).

Section Admin.
Context {W : Type} `{CollectionRepository W} `{AuditStore W}.

(** Best-effort: a failed record leaves the outcome of the update unchanged. *)
Definition recordAudit (audit : bool) (id : string) (now : time) (c : ctx) (cfg : CollectionConfig) (w : W) : W :=
  if negb audit then w
  else
    let actor := match FromContext c with Some p => t_ID (p_Tenant p) | None => "" end in
    snd (RecordAudit c (mkAuditEvent id "collection.config.updated" (cfg_Name cfg) actor now (auditDetails cfg)) w).

(** [CollectionConfigService.Update]. *)
Definition UpdateConfig (cr : ConfigResolver) (audit : bool) (id : string) (now : time) (c : ctx) (cfg : CollectionConfig) (w : W) : res err CollectionConfig * ConfigResolver * W :=
  match Validate cfg with
  | Err e => (Err e, cr, w)
  | Ok _ =>
      match SaveConfig c cfg w with
      | (Err e, w1) => (Err e, cr, w1)
      | (Ok _, w1) =>
          match EnsurePhysical c (cfg_Name cfg) w1 with
          | (Err e, w2) => (Err e, cr, w2)
          | (Ok _, w2) =>
              let cr' := Invalidate cr c (cfg_Name cfg) in
              let effective := WithDefaults cfg in
              (Ok effective, cr', recordAudit audit id now c effective w2)
          end
      end
  end.
End Admin.

(** The audit log is a separate store. *)
Class AuditLaws (W : Type) `{CollectionRepository W} `{AuditStore W} := {
  get_after_audit : forall c c' n e w, GetConfig c' n (snd (RecordAudit c e w)) = GetConfig c' n w }.

(** ** Lemmas *)

Lemma orElse_idem (v d : string) : d <> "" -> orElse (orElse v d) d = orElse v d.
Proof.
  intros Hd. unfold orElse. destruct (str_eqb v "") eqn:E; [|by rewrite E].
  apply str_eqb_neq in Hd. by rewrite Hd.
Qed.

Lemma orElseZ_idem (v d : Z) : d <> 0%Z -> orElseZ (orElseZ v d) d = orElseZ v d.
Proof.
  intros Hd. unfold orElseZ. destruct (v =? 0)%Z eqn:E; [|by rewrite E].
  apply Z.eqb_neq in Hd. by rewrite Hd.
Qed.

Lemma orElse_valid (valid : string -> bool) (v d : string) :
  badEnum valid v = false -> valid d = true -> valid (orElse v d) = true.
Proof.
  unfold badEnum, orElse. destruct (str_eqb v ""); [done|]. cbn. by destruct (valid v).
Qed.

Lemma cache_sorted_store (cr : ConfigResolver) now key cfg :
  msorted (cr_cache cr) -> msorted (cr_cache (cacheStore cr now key cfg)).
Proof. apply msorted_mset. Qed.

Lemma cached_invalidate (cr : ConfigResolver) (c : ctx) (collection key : string) (now : time) :
  msorted (cr_cache cr) -> cacheKey c collection = Ok key ->
  cached (Invalidate cr c collection) now key = None.
Proof. intros Hs Hk. unfold Invalidate, cached. rewrite Hk. cbn. by rewrite mget_mdel_eq. Qed.

(** ** Properties *)

(** Validated configs are complete after defaulting.  A config that passes
    [Validate] has, after [WithDefaults], a known value in every enum field and positive
    numeric limits; defaulting is idempotent and its result validates. *)
Theorem with_defaults_valid (cfg : CollectionConfig) :
  Validate cfg = Ok tt ->
  let eff := WithDefaults cfg in
  ValidReliabilityMode (cfg_ReliabilityMode eff) = true /\
  ValidFirstEventOp (cfg_FirstEventOp eff) = true /\
  ValidOrderingMode (or_Mode (cfg_Ordering eff)) = true /\
  ValidRetentionType (rt_Type (cfg_Retention eff)) = true /\
  (0 < cfg_SnapshotInterval eff)%Z /\ (0 < cfg_MaxEventSizeBytes eff)%Z /\
  WithDefaults eff = eff /\ Validate eff = Ok tt.
Proof.
  intros H eff. unfold Validate in H.
  destruct (badEnum ValidReliabilityMode _) eqn:E1; [done|].
  destruct (badEnum ValidFirstEventOp _) eqn:E2; [done|].
  destruct (badEnum ValidOrderingMode _) eqn:E3; [done|].
  destruct (badEnum ValidRetentionType _) eqn:E4; [done|].
  destruct (cfg_SnapshotInterval cfg <? 0)%Z eqn:E5; [done|].
  destruct (cfg_MaxEventSizeBytes cfg <? 0)%Z eqn:E6; [done|].
  assert (0 < cfg_SnapshotInterval eff)%Z as P5.
  { cbn. unfold orElseZ, DefaultSnapshotInterval. destruct (Z.eqb_spec (cfg_SnapshotInterval cfg) 0); lia. }
  assert (0 < cfg_MaxEventSizeBytes eff)%Z as P6.
  { cbn. unfold orElseZ. change DefaultMaxEventSizeBytes with 1048576%Z.
    destruct (Z.eqb_spec (cfg_MaxEventSizeBytes cfg) 0); lia. }
  assert (ValidReliabilityMode (cfg_ReliabilityMode eff) = true) as P1 by (by apply orElse_valid).
  assert (ValidFirstEventOp (cfg_FirstEventOp eff) = true) as P2 by (by apply orElse_valid).
  assert (ValidOrderingMode (or_Mode (cfg_Ordering eff)) = true) as P3 by (by apply orElse_valid).
  assert (ValidRetentionType (rt_Type (cfg_Retention eff)) = true) as P4 by (by apply orElse_valid).
  repeat (split; [done|]). split.
  - unfold eff, WithDefaults. cbn. by rewrite !orElse_idem, !orElseZ_idem by done.
  - unfold Validate, badEnum. rewrite P1, P2, P3, P4, !andb_false_r.
    assert ((cfg_SnapshotInterval eff <? 0)%Z = false) as -> by lia.
    assert ((cfg_MaxEventSizeBytes eff <? 0)%Z = false) as -> by lia. done.
Qed.

Lemma get_after_recordAudit {W : Type} `{AuditLaws W} (audit : bool) id now c cfg (w : W) c' n :
  GetConfig c' n (recordAudit audit id now c cfg w) = GetConfig c' n w.
Proof. unfold recordAudit. destruct audit; cbn; [apply get_after_audit|done]. Qed.

(** An applied config change is seen at once.  After a successful [UpdateConfig] the
    resolver of the same instance returns the new config with defaults applied, at any
    time, whatever was cached before and whether or not the audit record succeeds. *)
Theorem config_update_visible {W : Type} `{CollectionRepositoryLaws W} {AS : AuditStore W} {AL : AuditLaws W}
    (cr cr' : ConfigResolver) (audit : bool) (id : string) (now later : time) (c : ctx)
    (cfg eff : CollectionConfig) (w w' : W) :
  msorted (cr_cache cr) -> c <> None ->
  UpdateConfig cr audit id now c cfg w = (Ok eff, cr', w') ->
  eff = WithDefaults cfg /\ fst (fst (EnsureCollection cr' later c (cfg_Name cfg) w')) = Ok eff.
Proof.
  intros Hs Hc Hu. unfold UpdateConfig in Hu.
  destruct (Validate cfg); [|done]. destruct (SaveConfig c cfg w) as [[[]|] w1] eqn:Es; [|done].
  destruct (EnsurePhysical c (cfg_Name cfg) w1) as [[[]|] w2] eqn:Ee; [|done].
  injection Hu as <- <- <-. split; [done|]. unfold EnsureCollection, crGet.
  destruct c as [p|]; [|done]. cbn [cacheKey FromContext].
  rewrite (cached_invalidate cr (Some p)) by done. rewrite get_after_recordAudit.
  rewrite (get_after_ensure _ (Some p) _ _ _ _ _ Ee), (get_after_save _ _ _ _ Es). done.
Qed.

(** The cache cannot alias tenants.  Two cache keys agree only when the tenant
    database and the collection agree, for collection names without a vertical bar (all
    names that storage accepts). *)
Theorem cache_key_injective (p1 p2 : Principal) (c1 c2 key : string) :
  has_byte "|"%char c1 = false -> has_byte "|"%char c2 = false ->
  cacheKey (Some p1) c1 = Ok key -> cacheKey (Some p2) c2 = Ok key ->
  DatabaseName (p_Tenant p1) = DatabaseName (p_Tenant p2) /\ c1 = c2.
Proof.
  intros H1 H2. cbn [cacheKey FromContext]. intros [= <-] [= E].
  change ("|" +:+ c1) with (String "|"%char c1) in E. change ("|" +:+ c2) with (String "|"%char c2) in E.
  pose proof (f_equal (split_on "|"%char) E) as Es. rewrite !split_on_snoc in Es by done.
  apply app_inj_tail in Es as [_ ->]. split; [|done]. symmetry. by apply (app_str_inj_r _ _ (String "|" c1)).
Qed.

(** ** Witnesses: a store of configs in memory *)

Module MemConfigs.

Definition store : Type := list (string * CollectionConfig).

Definition key (c : ctx) (name : string) : string :=
  match c with Some p => DatabaseName (p_Tenant p) | None => "" end +:+ "|" +:+ name.

#[export] Instance repo : CollectionRepository store := {
  GetConfig c n w := match mget (key c n) w with Some cfg => Ok cfg | None => Err ErrNotFound end;
  SaveConfig c cfg w := (Ok tt, mset (key c (cfg_Name cfg)) cfg w);
  EnsurePhysical c n w := (Ok tt, w) }.

#[export] Instance audit : AuditStore store := { RecordAudit c e w := (Err (ErrInternal "down"), w) }.

#[export] Instance repo_laws : CollectionRepositoryLaws store.
Proof.
  split.
  - intros c cfg w w' [= <-]. cbn. by rewrite mget_mset_eq.
  - by intros c c' n n' w w' r [= _ <-].
Defined.

#[export] Instance audit_laws : AuditLaws store.
Proof. split. done. Defined.

End MemConfigs.

Import MemConfigs.

Definition ex_ctx : ctx := Some ex_principal.
Definition ex_cfg : CollectionConfig :=
  mkConfig "crm.deals" "strict" 0 (mkRetention "" 0 0) 0 "" (mkOrdering "" 0) [] [].

Lemma with_defaults_valid_witness : Validate (WithDefaults ex_cfg) = Ok tt.
Proof. apply (with_defaults_valid ex_cfg). vm_compute. reflexivity. Defined.

Lemma config_update_visible_witness :
  exists cr' w', UpdateConfig (W := MemConfigs.store) (NewConfigResolver true 0) true "aud_1" 5 ex_ctx ex_cfg [] =
                   (Ok (WithDefaults ex_cfg), cr', w') /\
    fst (fst (EnsureCollection cr' 99 ex_ctx "crm.deals" w')) = Ok (WithDefaults ex_cfg).
Proof.
  eexists _, _. split; [reflexivity|].
  apply (config_update_visible (NewConfigResolver true 0) _ true "aud_1" 5 99 ex_ctx ex_cfg (WithDefaults ex_cfg) [] _
           msorted_nil); [discriminate|reflexivity].
Defined.

Lemma cache_key_injective_witness :
  DatabaseName (p_Tenant ex_principal) = DatabaseName (p_Tenant ex_principal) /\ "crm.deals" = "crm.deals".
Proof.
  apply (cache_key_injective ex_principal ex_principal "crm.deals" "crm.deals" "hm_t_acme|crm.deals"); reflexivity.
Defined.
