(* ===== verification/Names.v ===== *)
(** * Physical names and tenant databases (internal/storage/mongo/names.go, connmgr.go)

    The check on logical collection names, their mapping to physical collections and
    back, and the choice of a tenant's database. *)

From stdpp Require Import base list strings.
From Stdlib Require Import ZArith Lia Ascii.
From S2P Require Import Prelude GoMap Json Paths Diff DiffSound Domain Tenant.

(** ** Names *)

Definition prefixEvents : string := "ev_".
Definition prefixCurrent : string := "cur_".
Definition prefixSnap : string := "sn_".
Definition CollectionsConfig : string := "_collections".
Definition RulesCollection : string := "_rules".
Definition DLQCollection : string := "_dlq".
Definition FlowActivitiesColl : string := "ev__flow".
Definition SystemEvents : string := "ev__system".

(** A byte of [[a-z0-9]]. *)
Definition name_byte (c : ascii) : bool :=
  let n := N_of_ascii c in is_digit c || ((97 <=? n)%N && (n <=? 122)%N).

Definition name_segment (s : string) : bool := negb (str_eqb s "") && all_bytes name_byte s.

(** The regular expression [^[a-z0-9]+(?:\.[a-z0-9]+)*$]: dot-separated non-empty
    segments of [[a-z0-9]]. *)
Definition logicalName (s : string) : bool := forallb name_segment (split_on "." s).

Definition validateLogical (name : string) : res err unit :=
  if str_eqb name "" then Err (ErrInternal "empty collection name")
  else if negb (logicalName name) then Err (ErrInternal "invalid collection name")
  else Ok tt.

Definition physicalName (prefix logical : string) : string := prefix +:+ replace_all "." "_" logical.

Definition eventsCollection (logical : string) : string := physicalName prefixEvents logical.
Definition currentCollection (logical : string) : string := physicalName prefixCurrent logical.
Definition snapCollection (logical : string) : string := physicalName prefixSnap logical.

(** [strings.TrimPrefix]. *)
Definition trim_prefix (p s : string) : string := default s (drop_prefix p s).

Definition logicalFromEvents (physical : string) : string :=
  replace_all "_" "." (trim_prefix prefixEvents physical).

Definition isUserEventCollection (name : string) : bool :=
  has_prefix prefixEvents name && negb (has_prefix (prefixEvents +:+ "_") name).

(** ** The connection manager *)

(** [*mongo.Database]: the cluster it is on and its name. *)
Record database := mkDB { db_uri : string; db_name : string }.

#[export] Instance database_eq_dec : EqDecision database.
Proof. solve_decision. Defined.

Record ConnManager := mkConnManager { cm_defaultURI : string; cm_clients : list string }.

Section ConnManager.
(** [mongo.Connect]: does it accept the URI? *)
Variable Connect : string -> bool.

Definition client (m : ConnManager) (uri : string) : res err string * ConnManager :=
  if existsb (str_eqb uri) (cm_clients m) then (Ok uri, m)
  else if Connect uri then (Ok uri, mkConnManager (cm_defaultURI m) (uri :: cm_clients m))
  else (Err (ErrInternal "connect"), m).

Definition NewConnManager (defaultURI : string) : res err ConnManager :=
  match client (mkConnManager defaultURI []) defaultURI with
  | (Ok _, m) => Ok m
  | (Err e, _) => Err e
  end.

Definition DBFor (m : ConnManager) (c : ctx) : res err database * ConnManager :=
  match FromContext c with
  | None => (Err ErrNoTenant, m)
  | Some p =>
      let uri := db_URI (t_Database (p_Tenant p)) in
      let uri := if str_eqb uri "" then cm_defaultURI m else uri in
      match client m uri with
      | (Err e, m') => (Err e, m')
      | (Ok cl, m') => (Ok (mkDB cl (DatabaseName (p_Tenant p))), m')
      end
  end.

(** The cache of clients only remembers what [Connect] accepts. *)
Definition cm_ok (m : ConnManager) : Prop := Forall (fun u => Connect u = true) (cm_clients m).

(** What a context resolves to, whatever the cache holds. *)
Definition dbOf (defaultURI : string) (c : ctx) : res err database :=
  match FromContext c with
  | None => Err ErrNoTenant
  | Some p =>
      let uri := db_URI (t_Database (p_Tenant p)) in
      let uri := if str_eqb uri "" then defaultURI else uri in
      if Connect uri then Ok (mkDB uri (DatabaseName (p_Tenant p))) else Err (ErrInternal "connect")
  end.

Lemma client_spec (m : ConnManager) (uri : string) :
  cm_ok m ->
  fst (client m uri) = (if Connect uri then Ok uri else Err (ErrInternal "connect")) /\
  cm_ok (snd (client m uri)) /\ cm_defaultURI (snd (client m uri)) = cm_defaultURI m.
Proof.
  intros Hm. unfold client. destruct (existsb (str_eqb uri) (cm_clients m)) eqn:E; cbn.
  - apply existsb_exists in E as (u & Hin & ->%str_eqb_eq).
    rewrite (proj1 (List.Forall_forall _ _) Hm u Hin). done.
  - destruct (Connect uri) eqn:C; cbn; [|done]. split_and!; [done| |done]. by constructor.
Qed.

(** Resolution does not depend on which clients are cached, and keeps the cache sound:
    the repositories can be read with [dbOf]. *)
Lemma DBFor_spec (m : ConnManager) (c : ctx) :
  cm_ok m ->
  fst (DBFor m c) = dbOf (cm_defaultURI m) c /\ cm_ok (snd (DBFor m c)) /\
  cm_defaultURI (snd (DBFor m c)) = cm_defaultURI m.
Proof.
  intros Hm. unfold DBFor, dbOf. destruct (FromContext c) as [p|]; [|done]. cbn.
  destruct (client_spec m (if str_eqb (db_URI (t_Database (p_Tenant p))) "" then cm_defaultURI m
                           else db_URI (t_Database (p_Tenant p))) Hm) as (H1 & H2 & H3).
  destruct (client m _) as [[cl|e] m']; cbn in *.
  - destruct (Connect _); [|done]. injection H1 as ->. done.
  - destruct (Connect _); [done|]. injection H1 as ->. done.
Qed.

End ConnManager.

(** ** Lemmas *)

(** A valid name has only [[a-z0-9.]]. *)
Definition lname_byte (c : ascii) : bool := name_byte c || Ascii.eqb c ".".

Lemma split_bytes (f : ascii -> bool) (s : string) :
  forallb (all_bytes f) (split_on "." s) = true ->
  all_bytes (fun c => f c || Ascii.eqb c ".") s = true.
Proof.
  induction s as [|c s IH]; [done|]. cbn [split_on all_bytes].
  destruct (Ascii.eqb_spec "." c) as [<-|N]; cbn.
  - intros H. by rewrite orb_true_r, IH.
  - destruct (split_on "." s) as [|w ws] eqn:E; [by destruct (split_on_not_nil "." s)|].
    cbn. intros [[Hc Hw]%andb_true_iff Hws]%andb_true_iff. rewrite Hc. cbn. apply IH. cbn. by rewrite Hw, Hws.
Qed.

Lemma valid_bytes (name : string) :
  validateLogical name = Ok tt -> name <> "" /\ all_bytes lname_byte name = true.
Proof.
  unfold validateLogical. destruct (str_eqb name "") eqn:E; [done|].
  destruct (logicalName name) eqn:L; [|done]. intros _. split; [by apply str_eqb_neq|].
  apply split_bytes. unfold logicalName, name_segment in L.
  apply forallb_forall. intros w Hw. apply (proj1 (forallb_forall _ _) L) in Hw.
  by apply andb_true_iff in Hw as [_ ?].
Qed.

Lemma all_no_byte (f : ascii -> bool) (c : ascii) (s : string) :
  f c = false -> all_bytes f s = true -> has_byte c s = false.
Proof.
  intros Hc. induction s as [|d s IH]; [done|]. cbn. intros [Hd Hs]%andb_true_iff.
  destruct (Ascii.eqb_spec c d) as [->|]; [congruence|]. auto.
Qed.

Lemma replace_round (s : string) :
  has_byte "_" s = false -> replace_all "_" "." (replace_all "." "_" s) = s.
Proof.
  induction s as [|c s IH]; [done|]. cbn [has_byte replace_all]. destruct (Ascii.eqb_spec "_" c) as [|N]; [done|].
  intros H. destruct (Ascii.eqb_spec "." c) as [<-|N'].
  - change ("_" +:+ replace_all "." "_" s) with (String "_" (replace_all "." "_" s)).
    cbn [replace_all]. rewrite Ascii.eqb_refl. by rewrite IH.
  - cbn [replace_all]. destruct (Ascii.eqb_spec "_" c) as [|_]; [done|]. by rewrite IH.
Qed.

(** The first byte of a flattened valid name is not the separator. *)
Lemma flat_head (name : string) :
  validateLogical name = Ok tt -> has_prefix "_" (replace_all "." "_" name) = false.
Proof.
  intros H. destruct (valid_bytes name H) as [Hne Hb]. unfold validateLogical in H.
  destruct name as [|c s]; [done|]. cbn in H. cbn [replace_all].
  destruct (Ascii.eqb_spec "." c) as [<-|N]; [done|].
  cbn [has_prefix]. destruct (Ascii.eqb_spec "_" c) as [<-|]; [done|done].
Qed.

Lemma valid_no_sep (name : string) : validateLogical name = Ok tt -> has_byte "_" name = false.
Proof. intros [_ Hn]%valid_bytes. by apply (all_no_byte lname_byte). Qed.

(** The events collection of a valid name is a user's, and gives the name back. *)
Lemma events_name (name : string) : validateLogical name = Ok tt ->
  has_prefix (prefixEvents +:+ "_") (eventsCollection name) = false /\
  isUserEventCollection (eventsCollection name) = true /\ logicalFromEvents (eventsCollection name) = name.
Proof.
  intros Hn. assert (has_prefix (prefixEvents +:+ "_") (eventsCollection name) = false) as Hp.
  { pose proof (flat_head name Hn) as Hf. cbn. cbn in Hf. exact Hf. }
  split_and!; [done| |].
  - unfold isUserEventCollection. rewrite Hp. unfold eventsCollection, physicalName. cbn [negb]. rewrite andb_true_r. apply has_prefix_app. by eexists.
  - unfold logicalFromEvents, eventsCollection, physicalName, trim_prefix. rewrite drop_prefix_app. cbn. by apply replace_round, valid_no_sep.
Qed.

(** ** Properties *)


