(* ===== verification/AliasSound.v ===== *)
(** * Refinement of the heap-level Apply (Alias.v) by the value-level one (Diff.v)

    [rep h v j D]: in the store [h] the Go value [v] represents the JSON value [j],
    through objects of the set [D] only, no object being used twice. *)

From stdpp Require Import base list strings gmap fin_sets.
From Stdlib Require Import ZArith Lia.
From S2P Require Import Prelude GoMap Json Paths Diff Alias.

(** ** The representation predicate *)

Inductive rep (h : heap) : gval -> json -> gset nat -> Prop :=
| rep_scal j D : is_scalar j = true -> rep h (GScal j) j D
| rep_map l vs m D E :
    hget h l = Some (OMap vs) -> l ∉ E -> l ∈ D -> E ⊆ D -> msorted m -> repm h vs m E -> rep h (GMap l) (JObj m) D
| rep_arr l len cap cells js D E :
    hget h l = Some (OArr cells) -> length cells = cap -> length js = len -> len <= cap ->
    l ∉ E -> l ∈ D -> E ⊆ D -> repl h (take len cells) js E -> rep h (GSlice l len cap) (JArr js) D
with repm (h : heap) : list (string * gval) -> list (string * json) -> gset nat -> Prop :=
| repm_nil D : repm h [] [] D
| repm_cons k v j vs m D1 D2 D :
    rep h v j D1 -> repm h vs m D2 -> D1 ## D2 -> D1 ⊆ D -> D2 ⊆ D -> repm h ((k, v) :: vs) ((k, j) :: m) D
with repl (h : heap) : list gval -> list json -> gset nat -> Prop :=
| repl_nil D : repl h [] [] D
| repl_cons v j vs js D1 D2 D :
    rep h v j D1 -> repl h vs js D2 -> D1 ## D2 -> D1 ⊆ D -> D2 ⊆ D -> repl h (v :: vs) (j :: js) D.

Scheme rep_mut := Minimality for rep Sort Prop
  with repm_mut := Minimality for repm Sort Prop
  with repl_mut := Minimality for repl Sort Prop.
Combined Scheme rep_all from rep_mut, repm_mut, repl_mut.

(** The objects of [D] are the same in both stores. *)
Definition agree (D : gset nat) (h h' : heap) : Prop := forall l, l ∈ D -> hget h' l = hget h l.

Create HintDb alias.
#[export] Hint Constructors rep repm repl : alias.

Lemma agree_sub (D E : gset nat) (h h' : heap) : E ⊆ D -> agree D h h' -> agree E h h'.
Proof. intros HE HD l Hl. apply HD. set_solver. Qed.
#[export] Hint Resolve agree_sub : alias.

Lemma rep_frame_all (h : heap) :
  (forall v j D, rep h v j D -> forall h', agree D h h' -> rep h' v j D) /\
  (forall vs m D, repm h vs m D -> forall h', agree D h h' -> repm h' vs m D) /\
  (forall vs js D, repl h vs js D -> forall h', agree D h h' -> repl h' vs js D).
Proof.
  apply rep_all; intros; eauto 6 with alias.
  - eapply rep_map; eauto with alias. rewrite H6; done.
  - eapply rep_arr; eauto with alias. rewrite H8; done.
Qed.

Lemma rep_frame h h' v j D : rep h v j D -> agree D h h' -> rep h' v j D.
Proof. intros. by apply (rep_frame_all h). Qed.
Lemma repm_frame h h' vs m D : repm h vs m D -> agree D h h' -> repm h' vs m D.
Proof. intros. by apply (rep_frame_all h). Qed.
Lemma repl_frame h h' vs js D : repl h vs js D -> agree D h h' -> repl h' vs js D.
Proof. intros. by apply (rep_frame_all h). Qed.

Lemma rep_weaken h v j D D' : rep h v j D -> D ⊆ D' -> rep h v j D'.
Proof. intros H HD. inversion H; subst; [by constructor|eapply rep_map|eapply rep_arr]; eauto; set_solver. Qed.
Lemma repm_weaken h vs m D D' : repm h vs m D -> D ⊆ D' -> repm h vs m D'.
Proof. intros H HD. inversion H; subst; [constructor|eapply repm_cons]; eauto; set_solver. Qed.
Lemma repl_weaken h vs js D D' : repl h vs js D -> D ⊆ D' -> repl h vs js D'.
Proof. intros H HD. inversion H; subst; [constructor|eapply repl_cons]; eauto; set_solver. Qed.

Lemma repl_length h vs js D : repl h vs js D -> length vs = length js.
Proof. induction 1; cbn; congruence. Qed.

(** ** Lists of values *)

Lemma repl_app h vs1 js1 D1 vs2 js2 D2 :
  repl h vs1 js1 D1 -> repl h vs2 js2 D2 -> D1 ## D2 -> repl h (vs1 ++ vs2) (js1 ++ js2) (D1 ∪ D2).
Proof.
  intros H1 H2. induction H1 as [D|v j vs js Da Db D Hv _ IH Hd Ha Hb]; intros Hdis.
  - eapply repl_weaken; [exact H2|]. set_solver.
  - cbn. eapply (repl_cons h v j _ _ Da (Db ∪ D2)); [done|apply IH|..]; set_solver.
Qed.

Lemma repl_split h vs js D i :
  repl h vs js D ->
  exists D1 D2, repl h (take i vs) (take i js) D1 /\ repl h (drop i vs) (drop i js) D2 /\ D1 ## D2 /\ D1 ⊆ D /\ D2 ⊆ D.
Proof.
  intros H. revert i. induction H as [D|v j vs js Da Db D Hv Hvs IH Hd Ha Hb]; intros i.
  - exists ∅, ∅. rewrite !take_nil, !drop_nil. split_and!; [constructor|constructor|set_solver..].
  - destruct i as [|i].
    + exists ∅, D. cbn. split_and!; [constructor|by eapply repl_cons|set_solver..].
    + destruct (IH i) as (D1 & D2 & H1 & H2 & Hdis & HD1 & HD2). exists (Da ∪ D1), D2. cbn.
      split_and!; [|done|set_solver..]. eapply (repl_cons h v j _ _ Da D1); [done|done|set_solver..].
Qed.

(** The element at an index, and the list with that element replaced in a later store. *)
Lemma repl_at h vs js D n j :
  repl h vs js D -> js !! n = Some j ->
  exists v D1 D2, vs !! n = Some v /\ rep h v j D1 /\ D1 ## D2 /\ D1 ⊆ D /\ D2 ⊆ D /\
    forall h' v' j' D1', agree D2 h h' -> rep h' v' j' D1' -> D1' ## D2 ->
      repl h' (<[n := v']> vs) (<[n := j']> js) (D1' ∪ D2).
Proof.
  intros H. revert n. induction H as [D|v0 j0 vs js Da Db D Hv Hvs IH Hd Ha Hb]; intros n Hn; [done|].
  destruct n as [|n]; cbn in Hn.
  - injection Hn as ->. exists v0, Da, Db. split_and!; try done.
    intros h' v' j' D1' Hag Hv' Hdis. cbn. eapply (repl_cons h' v' j' _ _ D1' Db);
      [done|by eapply repl_frame|done|set_solver..].
  - destruct (IH n Hn) as (v & D1 & D2 & E1 & E2 & E3 & E4 & E5 & Hupd).
    exists v, D1, (Da ∪ D2). split_and!; [done|done|set_solver..|].
    intros h' v' j' D1' Hag Hv' Hdis. cbn. eapply (repl_cons h' v0 j0 _ _ Da (D1' ∪ D2)).
    + eapply rep_frame; [done|]. eapply agree_sub; [|exact Hag]. set_solver.
    + apply Hupd; [|done|set_solver]. eapply agree_sub; [|exact Hag]. set_solver.
    + set_solver.
    + set_solver.
    + set_solver.
Qed.

Lemma repl_insert h vs js D v j D1 i :
  repl h vs js D -> rep h v j D1 -> D1 ## D ->
  repl h (take i vs ++ v :: drop i vs) (take i js ++ j :: drop i js) (D ∪ D1).
Proof.
  intros H Hv Hdis. destruct (repl_split h vs js D i H) as (Da & Db & Ha & Hb & Hab & Sa & Sb).
  eapply repl_weaken with (D := Da ∪ (D1 ∪ Db)); [|set_solver].
  apply repl_app; [done| |set_solver]. eapply (repl_cons h v j _ _ D1 Db); [done|done|set_solver..].
Qed.

Lemma repl_remove h vs js D i :
  repl h vs js D -> repl h (take i vs ++ drop (S i) vs) (take i js ++ drop (S i) js) D.
Proof.
  intros H. destruct (repl_split h vs js D i H) as (Da & Db & Ha & Hb & Hab & Sa & Sb).
  eapply repl_weaken with (D := Da ∪ Db); [|set_solver]. apply repl_app; [done| |done].
  replace (S i) with (i + 1) by lia. rewrite <- !drop_drop.
  inversion Hb as [|v j vs' js' D1 D2 D' ?? Hd ?? E1 E2]; subst; [constructor|].
  cbn. eapply repl_weaken; [done|set_solver].
Qed.

(** ** Maps *)

Lemma repm_get h vs m D k :
  repm h vs m D -> msorted m ->
  match mget k m with
  | None => mget k vs = None
  | Some j => exists v D1 D2, mget k vs = Some v /\ rep h v j D1 /\ D1 ## D2 /\ D1 ⊆ D /\ D2 ⊆ D /\
      forall h' v' j' D1', agree D2 h h' -> rep h' v' j' D1' -> D1' ## D2 ->
        repm h' (mset k v' vs) (mset k j' m) (D1' ∪ D2)
  end.
Proof.
  induction 1 as [D|k0 v0 j0 vs m Da Db D Hv Hvs IH Hd Ha Hb]; [done|]. cbn.
  intros [Hs Hlo]%msorted_cons. specialize (IH Hs).
  destruct (str_cmp_spec k k0) as [Hlt N A| -> |Hlt N A].
  - rewrite N. rewrite mget_None_lt in IH |- *; [done| |];
      (eapply Forall_impl; [exact Hlo|]; intros e He; by apply (str_ltb_trans _ k0)).
  - rewrite str_eqb_refl, str_ltb_irrefl. exists v0, Da, Db. split_and!; try done.
    intros h' v' j' D1' Hag Hv' Hdis.
    eapply (repm_cons h' k0 v' j' _ _ D1' Db); [done|by eapply repm_frame|done|set_solver..].
  - rewrite N, A. destruct (mget k m) as [j|]; [|done].
    destruct IH as (v & D1 & D2 & E1 & E2 & E3 & E4 & E5 & Hupd). exists v, D1, (Da ∪ D2).
    split_and!; [done|done|set_solver..|]. intros h' v' j' D1' Hag Hv' Hdis.
    eapply (repm_cons h' k0 v0 j0 _ _ Da (D1' ∪ D2)); [|apply Hupd|..]; [| |done|set_solver..].
    + eapply rep_frame; [done|]. eapply agree_sub; [|exact Hag]. set_solver.
    + eapply agree_sub; [|exact Hag]. set_solver.
Qed.

Lemma repm_set h vs m D k v j D1 :
  repm h vs m D -> rep h v j D1 -> D1 ## D -> repm h (mset k v vs) (mset k j m) (D ∪ D1).
Proof.
  intros H Hv. induction H as [D|k0 v0 j0 vs m Da Db D Hv0 Hvs IH Hd Ha Hb]; intros Hdis.
  - cbn. eapply (repm_cons h k v j _ _ D1 ∅); [done|constructor|set_solver..].
  - cbn. destruct (str_ltb k k0); [|destruct (str_eqb k k0)].
    + eapply (repm_cons h k v j _ _ D1 D); [done|by eapply repm_cons|set_solver..].
    + eapply (repm_cons h k v j _ _ D1 Db); [done|done|set_solver..].
    + eapply (repm_cons h k0 v0 j0 _ _ Da (Db ∪ D1)); [done|apply IH|..]; set_solver.
Qed.

Lemma repm_del h vs m D k : repm h vs m D -> repm h (mdel k vs) (mdel k m) D.
Proof.
  induction 1 as [D|k0 v0 j0 vs m Da Db D Hv0 Hvs IH Hd Ha Hb]; [constructor|].
  cbn. destruct (str_eqb k k0); [by eapply repm_weaken|]. by eapply repm_cons.
Qed.

Lemma repm_keyval h vs m D k :
  repm h vs m D -> keyValString (option_map hscal (mget k vs)) = keyValString (mget k m).
Proof.
  induction 1 as [D|k0 v0 j0 vs m Da Db D Hv0 Hvs IH Hd Ha Hb]; [done|].
  cbn. destruct (str_eqb k k0); [|done]. inversion Hv0; subst; done.
Qed.

Lemma repl_indexOfKey h vs js D n kf kv :
  repl h vs js D -> hIndexOfKey h n vs kf kv = indexOfKey_from n js kf kv.
Proof.
  intros H. revert n. induction H as [D|v j vs js Da Db D Hv Hvs IH Hd Ha Hb]; intros n; [done|].
  cbn. rewrite IH. inversion Hv as [j' ? Hsc|l ws m ? E Hg ??? Hso Hm|l len cap cells js' ? E Hg]; subst.
  - destruct j; try done.
  - rewrite Hg, (repm_keyval _ _ _ _ kf Hm). done.
  - done.
Qed.

(** ** Writes to the store *)

Lemma hget_hset_eq l o h : hget (hset l o h) l = Some o.
Proof. apply lookup_insert_eq. Qed.
Lemma hget_hset_ne l l' o h : l <> l' -> hget (hset l o h) l' = hget h l'.
Proof. apply lookup_insert_ne. Qed.

Lemma agree_hset E l o h : l ∉ E -> agree E h (hset l o h).
Proof. intros Hl x Hx. apply hget_hset_ne. intros ->. done. Qed.

Lemma rep_map_intro h l ws m D E :
  repm h ws m E -> msorted m -> l ∉ E -> l ∈ D -> E ⊆ D -> rep (hset l (OMap ws) h) (GMap l) (JObj m) D.
Proof.
  intros. eapply rep_map; [apply hget_hset_eq|done..|]. eapply repm_frame; [done|]. by apply agree_hset.
Qed.

Lemma rep_arr_intro h l cells js D E len cap :
  repl h (take len cells) js E -> length cells = cap -> length js = len -> len <= cap ->
  l ∉ E -> l ∈ D -> E ⊆ D -> rep (hset l (OArr cells) h) (GSlice l len cap) (JArr js) D.
Proof.
  intros. eapply rep_arr; [apply hget_hset_eq|done..|]. eapply repl_frame; [done|]. by apply agree_hset.
Qed.

(** What a step may have done: it wrote only objects of [D] and fresh ones, and the
    result uses objects of [D], of the installed value, or fresh ones. *)
Definition steps (D Dn : gset nat) (h h' : heap) (D' : gset nat) : Prop :=
  (forall l, l ∉ D -> l < h_next h -> hget h' l = hget h l) /\ h_next h <= h_next h' /\
  (forall l, l ∈ D' -> l ∈ D \/ l ∈ Dn \/ h_next h <= l) /\ (forall l, l ∈ D' -> l < h_next h').

Definition below (D : gset nat) (h : heap) : Prop := forall l, l ∈ D -> l < h_next h.

Lemma steps_hset D Dn h l o : l ∈ D -> below D h -> below Dn h -> steps D Dn h (hset l o h) (D ∪ Dn).
Proof.
  intros Hl HD HDn. split_and!; [|done| |].
  - intros x Hx _. apply hget_hset_ne. intros ->. done.
  - intros x Hx. set_solver.
  - intros x [Hx|Hx]%elem_of_union; [by apply HD|by apply HDn].
Qed.

(** A step below a child, then a write of the parent [l]. *)
Lemma steps_parent D D1 Dn h h1 D1' D2 l o :
  steps D1 Dn h h1 D1' -> D1 ⊆ D -> D2 ⊆ D -> l ∈ D -> below D h -> below Dn h ->
  steps D Dn h (hset l o h1) ({[l]} ∪ D1' ∪ D2).
Proof.
  intros (F & N & S1 & S2) H1 H2 Hl HD HDn. split_and!; [|done| |].
  - intros x Hx Hlt. rewrite hget_hset_ne by (intros ->; done). apply F; [set_solver|done].
  - intros x [[->%elem_of_singleton|Hx]%elem_of_union|Hx]%elem_of_union; [by left| |left; set_solver].
    destruct (S1 x Hx) as [?|[?|?]]; [left; set_solver|by right; left|by right; right].
  - cbn. intros x [[->%elem_of_singleton|Hx]%elem_of_union|Hx]%elem_of_union; [|by apply S2|].
    + specialize (HD l Hl). lia.
    + specialize (HD x (H2 x Hx)). lia.
Qed.

(** After a step below a child, the siblings and the parent are as they were. *)
Lemma steps_disjoint D1 Dn h h1 D1' X :
  steps D1 Dn h h1 D1' -> X ## D1 -> X ## Dn -> below X h -> agree X h h1 /\ D1' ## X.
Proof.
  intros (F & N & S1 & _) H1 H2 HX. split.
  - intros x Hx. apply F; [set_solver|by apply HX].
  - intros x Hx HxX. destruct (S1 x Hx) as [?|[?|?]]; [set_solver|set_solver|].
    specialize (HX x HxX). lia.
Qed.

Lemma below_sub D E h : E ⊆ D -> below D h -> below E h.
Proof. intros HE HD x Hx. apply HD. set_solver. Qed.
#[export] Hint Resolve below_sub : alias.

(** ** Slices *)

Section Slices.
Context (h : heap) (l len cap : nat) (cells : list gval) (js : list json) (D E : gset nat).
Context (Hg : hget h l = Some (OArr cells)) (Hcap : length cells = cap) (Hlen : length js = len) (Hle : len <= cap).
Context (HlE : l ∉ E) (HlD : l ∈ D) (HE : E ⊆ D) (Hr : repl h (take len cells) js E) (HD : below D h).

Lemma hInsert_sim (grow : nat -> nat) n new j Dn :
  rep h new j Dn -> D ## Dn -> below Dn h -> n <= len ->
  exists nd' h' D', hInsert grow n new l len cap cells h = (nd', h') /\
    rep h' nd' (JArr (insertAt n j js)) D' /\ steps D Dn h h' D'.
Proof.
  intros Hnew Hdis HDn Hn. unfold hInsert, insertAt.
  assert (repl h (take n (take len cells) ++ (new :: drop n (take len cells))) (take n js ++ (j :: drop n js)) (E ∪ Dn)) as Hins.
  { apply repl_insert; [done..|set_solver]. }
  pose proof (repl_length _ _ _ _ Hins) as Hli. rewrite (length_app (take n js)) in Hli. cbn in Hli.
  rewrite length_take, length_drop in Hli.
  destruct (Nat.ltb_spec len cap) as [Hlt|Hge].
  - eexists _, _, (D ∪ Dn). split; [reflexivity|]. split; [|by apply steps_hset].
    eapply rep_arr_intro with (E := E ∪ Dn); [..|set_solver|set_solver|set_solver].
    + rewrite take_app_length' by (rewrite Hli; lia). exact Hins.
    + rewrite length_app, Hli, length_drop. lia.
    + rewrite length_app, length_take. cbn. rewrite length_drop. lia.
    + lia.
  - cbn. eexists _, _, ({[h_next h]} ∪ E ∪ Dn). split; [reflexivity|].
    assert (h_next h ∉ E ∪ Dn) as Hfresh.
    { intros [Hx|Hx]%elem_of_union; [apply HE, HD in Hx|apply HDn in Hx]; lia. }
    split.
    + eapply rep_arr with (E := E ∪ Dn); [apply lookup_insert_eq|..]; [| | |done|set_solver|set_solver|].
      * rewrite length_app, Hli, length_replicate. lia.
      * rewrite length_app, length_take. cbn. rewrite length_drop. lia.
      * lia.
      * rewrite take_app_length' by (rewrite Hli; lia). eapply repl_frame; [exact Hins|].
        intros x Hx. apply lookup_insert_ne. intros <-. done.
    + split_and!; [|cbn; lia| |].
      * intros x Hx Hlt. apply lookup_insert_ne. lia.
      * intros x Hx. assert (x = h_next h \/ x ∈ E \/ x ∈ Dn) as [->|[?|?]] by set_solver; [right; right; lia|left; set_solver|by right; left].
      * cbn. intros x Hx. assert (x = h_next h \/ x ∈ E \/ x ∈ Dn) as [->|[Hx'|Hx']] by set_solver;
          [lia|apply HE, HD in Hx'|apply HDn in Hx']; lia.
Qed.

Lemma hRemove_sim n Dn :
  below Dn h -> n < len ->
  exists nd' h' D', hRemove n l len cap cells h = (nd', h') /\
    rep h' nd' (JArr (removeAt n js)) D' /\ steps D Dn h h' D'.
Proof.
  intros HDn Hn. unfold hRemove, removeAt.
  pose proof (repl_remove _ _ _ _ n Hr) as Hrem. pose proof (repl_length _ _ _ _ Hrem) as Hli.
  rewrite (length_app (take n js)), length_take, length_drop in Hli.
  eexists _, _, (D ∪ Dn). split; [reflexivity|]. split; [|by apply steps_hset].
  eapply rep_arr_intro with (E := E); [..|done|set_solver|set_solver].
  - rewrite app_assoc, take_app_length' by (rewrite Hli; lia). exact Hrem.
  - rewrite app_assoc, length_app, Hli, length_drop. lia.
  - rewrite length_app, length_take, length_drop. lia.
  - lia.
Qed.

Lemma cellWrite_leaf n new j Dn :
  rep h new j Dn -> D ## Dn -> below Dn h -> n < len ->
  rep (cellWrite l n new h) (GSlice l len cap) (JArr (<[n := j]> js)) (D ∪ Dn) /\
  steps D Dn h (cellWrite l n new h) (D ∪ Dn).
Proof.
  intros Hnew Hdis HDn Hn. unfold cellWrite. rewrite Hg. split; [|by apply steps_hset].
  destruct (lookup_lt_is_Some_2 js n) as [j0 Hj0]; [lia|].
  destruct (repl_at _ _ _ _ _ _ Hr Hj0) as (v & D1 & D2 & _ & _ & Hd & S1 & S2 & Hupd).
  eapply rep_arr_intro with (E := Dn ∪ D2); [..|set_solver|set_solver|set_solver].
  - rewrite take_insert_lt by done. apply Hupd; [done|done|set_solver].
  - by rewrite length_insert.
  - by rewrite length_insert.
  - done.
Qed.

(** The element [n] to descend into, and the write back of the stepped child. *)
Lemma cell_child n j0 :
  js !! n = Some j0 ->
  exists v D1, cells !! n = Some v /\ rep h v j0 D1 /\ D1 ⊆ D /\ (l ∉ D1) /\
    forall Dn h1 nv j' D1', D ## Dn -> below Dn h -> steps D1 Dn h h1 D1' -> rep h1 nv j' D1' ->
    exists D', rep (cellWrite l n nv h1) (GSlice l len cap) (JArr (<[n := j']> js)) D' /\
      steps D Dn h (cellWrite l n nv h1) D'.
Proof.
  intros Hj0. assert (n < len) as Hn by (rewrite <- Hlen; by eapply lookup_lt_Some).
  destruct (repl_at _ _ _ _ _ _ Hr Hj0) as (v & D1 & D2 & Hv & Hrv & Hd & S1 & S2 & Hupd).
  exists v, D1. split_and!; [|done|set_solver|set_solver|].
  { by rewrite lookup_take_lt in Hv. }
  intros Dn h1 nv j' D1' Hdis HDn Hst Hnv.
  destruct (steps_disjoint D1 Dn h h1 D1' ({[l]} ∪ D2) Hst) as [Hag Hdj]; [set_solver..| |].
  { intros x Hx. apply HD. set_solver. }
  assert (hget h1 l = Some (OArr cells)) as Hg1 by (rewrite <- Hg; apply Hag; set_solver).
  exists ({[l]} ∪ D1' ∪ D2). unfold cellWrite. rewrite Hg1. split; [|eapply steps_parent; eauto; set_solver].
  eapply rep_arr_intro with (E := D1' ∪ D2); [..|set_solver|set_solver|set_solver].
  - rewrite take_insert_lt by done. apply Hupd; [|done|set_solver]. eapply agree_sub; [|exact Hag]. set_solver.
  - by rewrite length_insert.
  - by rewrite length_insert.
  - done.
Qed.

End Slices.

(** ** One step *)

Lemma inRange_lt i n k : inRange i n = Some k -> k < n.
Proof. unfold inRange. destruct ((0 <=? i) && (i <? Z.of_nat n))%Z eqn:Hb; [|done]. intros [= <-]. lia. Qed.

Lemma indexOfKey_lt js kf kv n m : indexOfKey_from m js kf kv = Some n -> m <= n < m + length js.
Proof.
  revert m. induction js as [|j js IH]; intros m; cbn; [done|].
  destruct (match j with JObj m0 => _ | _ => _ end); [intros [= <-]; lia|]. intros H%IH. lia.
Qed.

Section Simulation.
Variable grow : nat -> nat.

(** The heap step does what the value-level step does, on any separated store. *)
Definition simulates (h : heap) (D Dn : gset nat) (spec : res diffErr json) (impl : res diffErr (gval * heap)) : Prop :=
  match spec with
  | Err e => impl = Err e
  | Ok j' => exists nd' h' D', impl = Ok (nd', h') /\ rep h' nd' j' D' /\ steps D Dn h h' D'
  end.

Lemma simulates_intro h D Dn j' nd' h' D' :
  rep h' nd' j' D' -> steps D Dn h h' D' -> simulates h D Dn (Ok j') (Ok (nd', h')).
Proof. intros. by exists nd', h', D'. Qed.

(** Descending into cell [n]: the induction hypothesis, then the write back. *)
Lemma descend_cell segs ch h new Dn l len cap cells js D E n :
  (forall nd j D, rep h nd j D -> D ## Dn -> below D h ->
    simulates h D Dn (applyStep j segs ch) (hApplyStep grow h nd segs (ChOp ch) new)) ->
  hget h l = Some (OArr cells) -> length cells = cap -> length js = len -> len <= cap ->
  l ∉ E -> l ∈ D -> E ⊆ D -> repl h (take len cells) js E -> below D h -> D ## Dn -> below Dn h -> n < len ->
  simulates h D Dn
    (match js !! n with
     | None => Err ErrPathNotFound
     | Some child => match applyStep child segs ch with Ok nv => Ok (JArr (<[n := nv]> js)) | Err e => Err e end
     end)
    (match cells !! n with
     | None => Err ErrPathNotFound
     | Some child => match hApplyStep grow h child segs (ChOp ch) new with
                     | Err e => Err e
                     | Ok (nv, h1) => Ok (GSlice l len cap, cellWrite l n nv h1)
                     end
     end).
Proof.
  intros IH Hg Hcap Hlen Hle HlE HlD HE Hr HD Hdis HDn Hn.
  destruct (lookup_lt_is_Some_2 js n) as [j0 Hj0]; [lia|]. rewrite Hj0.
  destruct (cell_child h l len cap cells js D E Hg Hcap Hlen Hle HlE HlD HE Hr HD n j0 Hj0)
    as (v & D1 & Hv & Hrv & S1 & Hl1 & Hback). rewrite Hv.
  specialize (IH v j0 D1 Hrv ltac:(set_solver) ltac:(eauto with alias)).
  destruct (applyStep j0 segs ch) as [j'|e]; cbn in IH |- *; [|by rewrite IH].
  destruct IH as (nv & h1 & D1' & -> & Hnv & Hst).
  destruct (Hback Dn h1 nv j' D1' Hdis HDn Hst Hnv) as (D' & ? & ?). by exists (GSlice l len cap), (cellWrite l n nv h1), D'.
Qed.

Lemma step_map segs ch h new Dn name l vs m D E :
  (forall nd j D, rep h nd j D -> D ## Dn -> below D h ->
    simulates h D Dn (applyStep j segs ch) (hApplyStep grow h nd segs (ChOp ch) new)) ->
  rep h new (New ch) Dn -> below Dn h -> D ## Dn ->
  hget h l = Some (OMap vs) -> l ∉ E -> l ∈ D -> E ⊆ D -> msorted m -> repm h vs m E -> below D h ->
  simulates h D Dn (applyStep (JObj m) (segKey name :: segs) ch)
    (hApplyStep grow h (GMap l) (segKey name :: segs) (ChOp ch) new).
Proof.
  intros IH Hnew HDn Hdis Hg HlE HlD HE Hso Hm HD. cbn [applyStep hApplyStep]. rewrite Hg.
  assert (rep (mapWrite l name new h) (GMap l) (JObj (mset name (New ch) m)) (D ∪ Dn) /\
          steps D Dn h (mapWrite l name new h) (D ∪ Dn)) as [Hset Hst].
  { unfold mapWrite. rewrite Hg. split; [|by apply steps_hset].
    eapply rep_map_intro with (E := E ∪ Dn); [apply repm_set; [done..|set_solver]|by apply msorted_mset|set_solver..]. }
  pose proof (repm_get h vs m E name Hm Hso) as Hget.
  destruct segs as [|s segs].
  - destruct (ChOp ch); [by eapply simulates_intro|by eapply simulates_intro| |done].
    destruct (mget name m) as [j0|]; [destruct Hget as (v & _ & _ & -> & _)|by rewrite Hget].
    eapply (simulates_intro _ _ _ _ _ _ (D ∪ Dn)); [|by apply steps_hset].
    eapply rep_map_intro with (E := E); [by apply repm_del|by apply msorted_mdel|set_solver..].
  - destruct (mget name m) as [j0|]; [|by rewrite Hget].
    destruct Hget as (v & D1 & D2 & -> & Hrv & Hd & S1 & S2 & Hupd).
    specialize (IH v j0 D1 Hrv ltac:(set_solver) ltac:(eapply below_sub; [|exact HD]; set_solver)).
    destruct (applyStep j0 (s :: segs) ch) as [j'|e]; unfold simulates in IH |- *; cbn beta iota in IH |- *; [|by rewrite IH].
    destruct IH as (nv & h1 & D1' & -> & Hnv & Hst1).
    destruct (steps_disjoint D1 Dn h h1 D1' ({[l]} ∪ D2) Hst1) as [Hag Hdj]; [set_solver..| |].
    { intros x Hx. apply HD. set_solver. }
    assert (hget h1 l = Some (OMap vs)) as Hg1 by (rewrite <- Hg; apply Hag; set_solver).
    exists (GMap l), (mapWrite l name nv h1), ({[l]} ∪ D1' ∪ D2). split; [done|].
    unfold mapWrite. rewrite Hg1. split; [|eapply steps_parent; eauto; set_solver].
    eapply rep_map_intro with (E := D1' ∪ D2); [|by apply msorted_mset|set_solver..].
    apply Hupd; [|done|set_solver]. eapply agree_sub; [|exact Hag]. set_solver.
Qed.

Lemma hApplyStep_sim segs ch h new Dn :
  rep h new (New ch) Dn -> below Dn h ->
  forall nd j D, rep h nd j D -> D ## Dn -> below D h ->
  simulates h D Dn (applyStep j segs ch) (hApplyStep grow h nd segs (ChOp ch) new).
Proof.
  intros Hnew HDn. induction segs as [|s segs IH]; intros nd j D Hr Hdis HD; [done|].
  destruct Hr as [j D Hsc|l vs m D E Hg HlE HlD HE Hso Hm|l len cap cells js D E Hg Hcap Hlen Hle HlE HlD HE Hr].
  - destruct s, j; done.
  - destruct s as [name|i|kf kv]; [by eapply step_map|done|done].
  - destruct s as [name|i|kf kv]; [done| |].
    + cbn [applyStep hApplyStep]. rewrite Hg, Hlen. destruct segs as [|s' segs'].
      * destruct (ChOp ch); [| | |done].
        -- destruct (inRange i (S len)) as [n|] eqn:En; [|done]. apply inRange_lt in En.
           destruct (hInsert_sim h l len cap cells js D E Hg Hcap Hlen Hle HlE HlD HE Hr HD grow n new (New ch) Dn)
             as (nd' & h' & D' & -> & ? & ?); [done..|lia|by eapply simulates_intro].
        -- destruct (inRange i len) as [n|] eqn:En; [|done]. apply inRange_lt in En.
           destruct (cellWrite_leaf h l len cap cells js D E Hg Hcap Hlen Hle HlE HlD HE Hr HD n new (New ch) Dn)
             as [? ?]; [done..|by eapply simulates_intro].
        -- destruct (inRange i len) as [n|] eqn:En; [|done]. apply inRange_lt in En.
           destruct (hRemove_sim h l len cap cells js D E Hg Hcap Hlen Hle HlE HlD HE Hr HD n Dn)
             as (nd' & h' & D' & -> & ? & ?); [done..|by eapply simulates_intro].
      * destruct (inRange i len) as [n|] eqn:En; [|done]. apply inRange_lt in En. by eapply descend_cell.
    + cbn [applyStep hApplyStep]. rewrite Hg. unfold indexOfKey.
      rewrite (repl_indexOfKey _ _ _ _ 0 kf kv Hr).
      destruct (indexOfKey_from 0 js kf kv) as [n|] eqn:En; [apply indexOfKey_lt in En; cbn in En; destruct En as [_ En]; rewrite Hlen in En|].
      * destruct segs as [|s' segs']; [|by eapply descend_cell].
        destruct (ChOp ch); [| | |done].
        -- destruct (hInsert_sim h l len cap cells js D E Hg Hcap Hlen Hle HlE HlD HE Hr HD grow len new (New ch) Dn)
             as (nd' & h' & D' & -> & Hn' & ?); [done..|].
           unfold insertAt in Hn'. rewrite <- Hlen, take_ge, drop_ge in Hn' by lia. by eapply simulates_intro.
        -- destruct (cellWrite_leaf h l len cap cells js D E Hg Hcap Hlen Hle HlE HlD HE Hr HD n new (New ch) Dn)
             as [? ?]; [done..|by eapply simulates_intro].
        -- destruct (hRemove_sim h l len cap cells js D E Hg Hcap Hlen Hle HlE HlD HE Hr HD n Dn)
             as (nd' & h' & D' & -> & ? & ?); [done..|by eapply simulates_intro].
      * destruct segs as [|s' segs']; [|done]. destruct (ChOp ch); [|done..].
        destruct (hInsert_sim h l len cap cells js D E Hg Hcap Hlen Hle HlE HlD HE Hr HD grow len new (New ch) Dn)
             as (nd' & h' & D' & -> & Hn' & ?); [done..|].
        unfold insertAt in Hn'. rewrite <- Hlen, take_ge, drop_ge in Hn' by lia. by eapply simulates_intro.
Qed.
End Simulation.

(** ** The loop *)

Lemma hApplyLoop_sim grow chvs : forall h result j D X,
  rep h result j D -> repl h (map snd chvs) (map (fun c => New (fst c)) chvs) X ->
  D ## X -> below D h -> below X h ->
  match applyLoop j (map fst chvs) with
  | Err e => hApplyLoop grow h result chvs = Err e
  | Ok j' => exists r h' D', hApplyLoop grow h result chvs = Ok (r, h') /\ rep h' r j' D' /\ below D' h'
  end.
Proof.
  induction chvs as [|[ch new] chvs IH]; intros h result j D X Hr Hx Hdis HD HX; cbn.
  { by exists result, h, D. }
  cbn in Hx. inversion Hx as [|v jn vs js D1 D2 D0 Hnew Hrest Hd S1 S2]; subst.
  destruct (parsePath (Path ch)) as [segs|e]; [|done].
  destruct segs as [|s segs].
  - cbn. destruct (ChOp ch); try done.
    apply (IH h new (New ch) D1 D2); [done|done|set_solver|eauto with alias..].
  - pose proof (hApplyStep_sim grow (s :: segs) ch h new D1 Hnew ltac:(eauto with alias) result j D Hr
      ltac:(set_solver) HD) as Hsim. unfold applySegs, simulates in *.
    destruct (applyStep j (s :: segs) ch) as [j'|e]; cbn beta iota in *; [|by rewrite Hsim].
    destruct Hsim as (r & h' & D' & -> & Hr' & Hst).
    destruct (steps_disjoint D D1 h h' D' D2 Hst) as [Hag Hdj]; [set_solver|set_solver|eauto with alias|].
    destruct Hst as (F & N & _ & B).
    apply (IH h' r j' D' D2); [done|by eapply repl_frame|done|done|].
    intros x Hx2. specialize (HX x (S2 x Hx2)). lia.
Qed.

(** ** Loading *)

(** [h'] extends [h] with objects of [D]. *)
Definition fresh_in (h h' : heap) (D : gset nat) : Prop :=
  h_next h <= h_next h' /\ (forall l, l < h_next h -> hget h' l = hget h l) /\
  (forall l, l ∈ D -> h_next h <= l < h_next h').

Lemma fresh_agree h h' D E : fresh_in h h' D -> below E h -> agree E h h'.
Proof. intros (_ & F & _) HE l Hl. apply F. by apply HE. Qed.

Lemma fresh_below h h' D : fresh_in h h' D -> below D h'.
Proof. intros (_ & _ & B) l Hl. by apply B. Qed.

Lemma fresh_disj h h1 h2 D1 D2 : fresh_in h h1 D1 -> fresh_in h1 h2 D2 -> D1 ## D2.
Proof. intros (_ & _ & B1) (_ & _ & B2) l H1 H2. apply B1 in H1. apply B2 in H2. lia. Qed.

Lemma fresh_trans h h1 h2 D1 D2 : fresh_in h h1 D1 -> fresh_in h1 h2 D2 -> fresh_in h h2 (D1 ∪ D2).
Proof.
  intros (N1 & F1 & B1) (N2 & F2 & B2). split_and!; [lia| |].
  - intros l Hl. rewrite F2 by lia. by apply F1.
  - intros l [Hl|Hl]%elem_of_union; [apply B1 in Hl|apply B2 in Hl]; lia.
Qed.

Lemma fresh_alloc h o : fresh_in h (snd (halloc o h)) {[h_next h]}.
Proof.
  cbn. split_and!; cbn; [lia| |].
  - intros l Hl. apply lookup_insert_ne. lia.
  - intros l ->%elem_of_singleton. lia.
Qed.

Lemma load_rep capOf j : wf_json j = true ->
  forall h, exists v h' D, load capOf j h = (v, h') /\ rep h' v j D /\ fresh_in h h' D.
Proof.
  induction j as [| | | | | |a IH|m IH] using json_ind'; intros Hwf h.
  1-6: eexists _, _, ∅; split; [reflexivity|]; split; [by constructor|split_and!; [done|done|set_solver]].
  - cbn [wf_json] in Hwf. apply andb_true_iff in Hwf as [_ Hwf]. cbn [load].
    match goal with |- context [(let '(_, _) := ?g a h in _)] => set (go := g) end.
    assert (forall a h, Forall (fun j => wf_json j = true -> forall h, exists v h' D, load capOf j h = (v, h') /\ rep h' v j D /\ fresh_in h h' D) a ->
              forallb wf_json a = true ->
              exists vs h' D, go a h = (vs, h') /\ repl h' vs a D /\ fresh_in h h' D) as Hgo.
    { clear. induction a as [|x a IHa]; intros h HF Hwf.
      - eexists _, _, ∅. split; [reflexivity|]. split; [constructor|split_and!; [done|done|set_solver]].
      - cbn in Hwf. apply andb_true_iff in Hwf as [Hx Ha]. inversion HF as [|? ? Hlx HFa]; subst.
        destruct (Hlx Hx h) as (v & h1 & D1 & E1 & R1 & F1).
        destruct (IHa h1 HFa Ha) as (vs & h2 & D2 & E2 & R2 & F2).
        eexists _, _, (D1 ∪ D2). cbn. rewrite E1, E2. split; [reflexivity|]. split; [|by eapply fresh_trans].
        eapply (repl_cons h2 v x vs a D1 D2); [|done|by eapply fresh_disj|set_solver..].
        eapply rep_frame; [exact R1|]. eapply fresh_agree; [done|by eapply fresh_below]. }
    destruct (Hgo a h IH Hwf) as (vs & h1 & D1 & E1 & R1 & F1). rewrite E1.
    pose proof (repl_length _ _ _ _ R1) as Hl.
    eexists _, _, (D1 ∪ {[h_next h1]}). split; [reflexivity|].
    split; [|eapply fresh_trans; [done|apply fresh_alloc]].
    assert (h_next h1 ∉ D1) as Hn by (intros Hx%(fresh_below _ _ _ F1); lia).
    eapply rep_arr with (E := D1); [apply lookup_insert_eq|..]; [|done|lia|done|set_solver|set_solver|].
    + rewrite length_app, length_replicate. lia.
    + rewrite take_app_length' by done. eapply repl_frame; [exact R1|].
      eapply fresh_agree; [apply (fresh_alloc h1)|by eapply fresh_below].
  - cbn [wf_json] in Hwf. apply andb_true_iff in Hwf as [Hso Hwf]. cbn [load].
    match goal with |- context [(let '(_, _) := ?g m h in _)] => set (go := g) end.
    assert (forall m h, Forall (fun e => wf_json (snd e) = true -> forall h, exists v h' D, load capOf (snd e) h = (v, h') /\ rep h' v (snd e) D /\ fresh_in h h' D) m ->
              forallb (fun e => wf_json (snd e)) m = true ->
              exists vs h' D, go m h = (vs, h') /\ repm h' vs m D /\ fresh_in h h' D) as Hgo.
    { clear. induction m as [|[k x] m IHm]; intros h HF Hwf.
      - eexists _, _, ∅. split; [reflexivity|]. split; [constructor|split_and!; [done|done|set_solver]].
      - cbn in Hwf. apply andb_true_iff in Hwf as [Hx Hm]. inversion HF as [|? ? Hlx HFm]; subst.
        destruct (Hlx Hx h) as (v & h1 & D1 & E1 & R1 & F1).
        destruct (IHm h1 HFm Hm) as (vs & h2 & D2 & E2 & R2 & F2). cbn in E1.
        eexists _, _, (D1 ∪ D2). cbn. rewrite E1, E2. split; [reflexivity|]. split; [|by eapply fresh_trans].
        eapply (repm_cons h2 k v x vs m D1 D2); [|done|by eapply fresh_disj|set_solver..].
        eapply rep_frame; [exact R1|]. eapply fresh_agree; [done|by eapply fresh_below]. }
    destruct (Hgo m h IH Hwf) as (vs & h1 & D1 & E1 & R1 & F1). rewrite E1.
    eexists _, _, (D1 ∪ {[h_next h1]}). split; [reflexivity|].
    split; [|eapply fresh_trans; [done|apply fresh_alloc]].
    assert (h_next h1 ∉ D1) as Hn by (intros Hx%(fresh_below _ _ _ F1); lia).
    eapply rep_map with (E := D1); [apply lookup_insert_eq|done|set_solver|set_solver|by apply msortedb_spec|].
    eapply repm_frame; [exact R1|]. eapply fresh_agree; [apply (fresh_alloc h1)|by eapply fresh_below].
Qed.

Lemma loadChanges_rep capOf chs : Forall (fun ch => wf_json (New ch) = true) chs ->
  forall h, exists chvs h' D, loadChanges capOf chs h = (chvs, h') /\ map fst chvs = chs /\
    repl h' (map snd chvs) (map (fun c => New (fst c)) chvs) D /\ fresh_in h h' D.
Proof.
  induction 1 as [|ch chs Hch _ IH]; intros h; cbn.
  - eexists _, _, ∅. split; [reflexivity|]. split; [done|]. split; [constructor|split_and!; [done|done|set_solver]].
  - destruct (load_rep capOf _ Hch h) as (v & h1 & D1 & -> & R1 & F1).
    destruct (IH h1) as (chvs & h2 & D2 & -> & E2 & R2 & F2).
    eexists _, _, (D1 ∪ D2). split; [reflexivity|]. cbn. split; [by rewrite E2|].
    split; [|by eapply fresh_trans].
    eapply (repl_cons h2 v (New ch) _ _ D1 D2); [|done|by eapply fresh_disj|set_solver..].
    eapply rep_frame; [exact R1|]. eapply fresh_agree; [done|by eapply fresh_below].
Qed.

(** ** Reading back *)

Lemma size_lt (l : nat) (E D : gset nat) : l ∉ E -> l ∈ D -> E ⊆ D -> size E < size D.
Proof. intros. apply subset_size. split; [done|]. intros H'. set_solver. Qed.

Lemma readback_all (h : heap) :
  (forall v j D, rep h v j D -> forall fuel, size D < fuel -> readback fuel h v = Some j) /\
  (forall vs m D, repm h vs m D -> forall fuel, size D < fuel ->
     mapM (fun kv => option_map (pair (fst kv)) (readback fuel h (snd kv))) vs = Some m) /\
  (forall vs js D, repl h vs js D -> forall fuel, size D < fuel -> mapM (readback fuel h) vs = Some js).
Proof.
  apply rep_all.
  - intros j D Hsc [|fuel] Hf; [lia|]. by destruct j.
  - intros l vs m D E Hg HlE HlD HE Hso _ IH [|fuel] Hf; [lia|]. cbn. rewrite Hg.
    pose proof (size_lt l E D HlE HlD HE). by rewrite (IH fuel) by lia.
  - intros l len cap cells js D E Hg _ _ _ HlE HlD HE _ IH [|fuel] Hf; [lia|]. cbn. rewrite Hg.
    pose proof (size_lt l E D HlE HlD HE). by rewrite (IH fuel) by lia.
  - done.
  - intros k v j vs m D1 D2 D _ IHv _ IHvs _ S1 S2 fuel Hf. cbn.
    apply subseteq_size in S1, S2. rewrite IHv, IHvs by lia. done.
  - done.
  - intros v j vs js D1 D2 D _ IHv _ IHvs _ S1 S2 fuel Hf. cbn.
    apply subseteq_size in S1, S2. rewrite IHv, IHvs by lia. done.
Qed.

Lemma below_size (D : gset nat) h : below D h -> size D <= h_next h.
Proof.
  intros HD. transitivity (size (set_seq 0 (h_next h) : gset nat)).
  - apply subseteq_size. intros x Hx. apply elem_of_set_seq. specialize (HD x Hx). lia.
  - rewrite size_set_seq. done.
Qed.

Lemma readback_rep h v j D : rep h v j D -> below D h -> readback (S (h_next h)) h v = Some j.
Proof. intros Hr HD. apply (proj1 (readback_all h) v j D Hr). pose proof (below_size D h HD). lia. Qed.

(** ** The refinement *)

Definition res_fst {E A B : Type} (r : res E (A * B)) : res E A :=
  match r with Ok (a, _) => Ok a | Err e => Err e end.

Lemma apply_shared_result grow dcap state chs :
  wf_json state = true -> Forall (fun ch => wf_json (New ch) = true) chs ->
  res_fst (ApplyShared grow dcap state chs) = Apply state chs.
Proof.
  intros Hs Hchs. unfold ApplyShared, Apply. rewrite deepCopy_id.
  destruct (loadChanges_rep dcap chs Hchs (mkHeap ∅ 0)) as (chvs & h0 & X & -> & <- & RX & FX).
  destruct (load_rep (fun n => n) state Hs h0) as (r0 & h1 & D & -> & RD & FD).
  assert (repl h1 (map snd chvs) (map (fun c => New (fst c)) chvs) X) as RX1.
  { eapply repl_frame; [exact RX|]. eapply fresh_agree; [done|by eapply fresh_below]. }
  assert (below X h1) as BX.
  { intros l Hl. apply (fresh_below _ _ _ FX) in Hl. destruct FD as (N & _). lia. }
  pose proof (hApplyLoop_sim grow chvs h1 r0 state D X RD RX1 ltac:(symmetry; by eapply fresh_disj)
    ltac:(by eapply fresh_below) BX) as Hsim.
  destruct (applyLoop state (map fst chvs)) as [j'|e]; [|by rewrite Hsim].
  destruct Hsim as (r & h' & D' & -> & R' & B'). by rewrite (readback_rep h' r j' D').
Qed.

(** A scalar installed by a change is not shared. *)
Lemma apply_shared_scalars grow dcap state chs j chs' :
  Forall (fun ch => is_scalar (New ch) = true) chs ->
  ApplyShared grow dcap state chs = Ok (j, chs') -> chs' = chs.
Proof.
  intros Hsc. unfold ApplyShared.
  assert (forall h, exists chvs, loadChanges dcap chs h = (chvs, h) /\ map fst chvs = chs /\
            Forall (fun c => snd c = GScal (New (fst c))) chvs) as Hload.
  { clear -Hsc. induction Hsc as [|ch chs Hch _ IH]; intros h; cbn; [by exists []|].
    assert (load dcap (New ch) h = (GScal (New ch), h)) as -> by (by destruct (New ch)).
    destruct (IH h) as (chvs & -> & E & F). exists ((ch, GScal (New ch)) :: chvs). cbn.
    split; [done|]. split; [by rewrite E|by constructor]. }
  destruct (Hload (mkHeap ∅ 0)) as (chvs & -> & E & F).
  destruct (load (fun n => n) state (mkHeap ∅ 0)) as [r0 h1].
  destruct (hApplyLoop grow h1 r0 chvs) as [[r h2]|]; [|done].
  destruct (readback (S (h_next h2)) h2 r); [|done]. intros [= _ <-]. rewrite <- E.
  clear -F. induction F as [|[ch v] chvs Hv _ IH]; cbn; [done|]. cbn in Hv. subst v. cbn. rewrite IH. by destruct ch.
Qed.

(** C21: Aliasing in [Apply].  For any growth policy of [append] and any decoder
    capacities, the store-level [Apply] returns the same value or the same error as the
    value-level one, although it shares the [New] values with the change list; and when
    every installed value is a scalar, the change list is left as it was. *)
Theorem apply_shared_refines (grow dcap : nat -> nat) (state : json) (changes : list Change) :
  wf_json state = true -> Forall (fun ch => wf_json (New ch) = true) changes ->
  res_fst (ApplyShared grow dcap state changes) = Apply state changes /\
  (Forall (fun ch => is_scalar (New ch) = true) changes ->
   forall j changes', ApplyShared grow dcap state changes = Ok (j, changes') -> changes' = changes).
Proof.
  intros Hs Hc. split; [by apply apply_shared_result|]. intros Hsc j changes'. by apply apply_shared_scalars.
Qed.

(** The sharing is observable.  Adding an object and then removing a key of it leaves
    the first change holding the emptied object: replaying the list that [Apply] leaves
    behind on the same state fails, although the original list applied. *)
Theorem apply_mutates_changes :
  let state := JObj [] in
  let changes := [mkChange "m" OpAdd JNull (JObj [("a", JInt 1)]); mkChange "m.a" OpRemove (JInt 1) JNull] in
  exists j changes',
    ApplyShared (fun n => 2 * n) (fun n => n) state changes = Ok (j, changes') /\
    Apply state changes = Ok j /\ changes' <> changes /\ Apply state changes' = Err ErrPathNotFound.
Proof. eexists _, _. split; [vm_compute; reflexivity|]. split_and!; [reflexivity|discriminate|reflexivity]. Qed.

Lemma apply_shared_refines_witness :
  res_fst (ApplyShared (fun n => 2 * n) (fun n => n) (JObj [("n", JInt 1)]) [mkChange "n" OpChange (JInt 1) (JInt 2)]) =
  Apply (JObj [("n", JInt 1)]) [mkChange "n" OpChange (JInt 1) (JInt 2)].
Proof.
  apply (apply_shared_refines (fun n => 2 * n) (fun n => n)); [reflexivity|].
  repeat constructor.
Defined.
