(* ===== verification/Repo.v ===== *)
(** * Storage ports (internal/domain/ports.go)

    The repository interfaces of the write and read use-cases as type classes over an
    abstract world [W], and the laws the use-cases rely on.  A law relates an operation
    to three observers of the world: the history of an entity in version order, its
    materialized current state, and its snapshots. *)

From stdpp Require Import base list strings.
From Stdlib Require Import ZArith Lia.
From S2P Require Import Prelude GoMap Json Paths Diff DiffSound Domain Tenant Config.

Definition OrderVersion : string := "".
Definition OrderSource : string := "ts_source".
Definition OrderReceived : string := "ts_received".
Definition OrderAsc : string := "".
Definition OrderDesc : string := "desc".

Record Position := mkPosition { pos_Version : Z; pos_TS : time }.

Record EventFilter := mkFilter {
  f_EntityID : string; f_From : time; f_To : time; f_Author : string; f_Op : string;
  f_Path : string; f_Source : string; f_OrderBy : string; f_Order : string;
  f_Limit : Z; f_After : option Position; f_MaxVersion : Z }.

(** The zero filter of one entity. *)
Definition entityFilter (eid : string) : EventFilter :=
  mkFilter eid 0 0 "" "" "" "" OrderVersion OrderAsc 0 None 0.

(** [positionOf] of the history handler: the cursor key of an event. *)
Definition positionOf (ev : Event) (orderBy : string) : Position :=
  if str_eqb orderBy OrderSource then mkPosition (ev_Version ev) (ev_TSSource ev)
  else if str_eqb orderBy OrderReceived then mkPosition (ev_Version ev) (ev_TSReceived ev)
  else mkPosition (ev_Version ev) 0.

(** ** The ports *)

(** The clock argument is the wall clock [AppendEvent] reads for [ts_stored]; the
    events returned are the caller's, with the fields the call assigned. *)
Class EventRepository (W : Type) := {
  AppendEvent : ctx -> string -> time -> Event -> W -> res err Event * W;
  AppendEvents : ctx -> string -> time -> list Event -> W -> res err (list Event) * W;
  LastEvent : ctx -> string -> string -> W -> res err Event;
  ListEvents : ctx -> string -> EventFilter -> W -> res err (list Event) }.

Class CurrentRepository (W : Type) := {
  CurGet : ctx -> string -> string -> W -> res err CurrentState;
  CurUpsert : ctx -> string -> CurrentState -> W -> res err unit * W }.

Class SnapshotRepository (W : Type) := {
  SnapSave : ctx -> string -> Snapshot -> W -> res err unit * W;
  SnapNearest : ctx -> string -> string -> Z -> W -> res err Snapshot }.

(** ** Reference semantics of a listing by version *)

Definition setVersion (ev : Event) (v : Z) : Event :=
  mkEvent (ev_EntityID ev) v (ev_Op ev) (ev_Author ev) (ev_Source ev) (ev_TSSource ev) (ev_TSReceived ev)
    (ev_TSStored ev) (ev_EventID ev) (ev_RequestID ev) (ev_Changes ev) (ev_Meta ev) (ev_Flow ev) (ev_Integrity ev).

Definition setStored (ev : Event) (t : time) : Event :=
  mkEvent (ev_EntityID ev) (ev_Version ev) (ev_Op ev) (ev_Author ev) (ev_Source ev) (ev_TSSource ev) (ev_TSReceived ev)
    t (ev_EventID ev) (ev_RequestID ev) (ev_Changes ev) (ev_Meta ev) (ev_Flow ev) (ev_Integrity ev).

(** [if ev.TSStored.IsZero() { ev.TSStored = now }]. *)
Definition stampStored (ev : Event) (now : time) : Event :=
  if (ev_TSStored ev =? 0)%Z then setStored ev now else ev.

(** Does the change list touch the path, or something under it? *)
Definition touches (path : string) (ev : Event) : bool :=
  existsb (fun ch => str_eqb (Path ch) path || has_prefix (path +:+ ".") (Path ch) || has_prefix (path +:+ "[") (Path ch))
    (ev_Changes ev).

Definition optEq (want got : string) : bool := str_eqb want "" || str_eqb want got.

(** The event satisfies the filter's constraints, the cursor and the order aside. *)
Definition filterMatches (f : EventFilter) (ev : Event) : bool :=
  optEq (f_Op f) (ev_Op ev) && optEq (f_Author f) (ev_Author ev) && optEq (f_Source f) (ev_Source ev) &&
  ((f_From f =? 0) || (f_From f <=? ev_TSReceived ev))%Z &&
  ((f_To f =? 0) || (ev_TSReceived ev <=? f_To f))%Z &&
  (str_eqb (f_Path f) "" || touches (f_Path f) ev) &&
  ((f_MaxVersion f <=? 0) || (ev_Version ev <=? f_MaxVersion f))%Z.

Definition afterVersion (f : EventFilter) (ev : Event) : bool :=
  match f_After f with
  | None => true
  | Some p => if str_eqb (f_Order f) OrderDesc then (ev_Version ev <? pos_Version p)%Z
              else (pos_Version p <? ev_Version ev)%Z
  end.

Definition limited {A : Type} (limit : Z) (l : list A) : list A :=
  if (0 <? limit)%Z then take (Z.to_nat limit) l else l.

(** A listing by version of a history in version order. *)
Definition listByVersion (f : EventFilter) (hist : list Event) : list Event :=
  let sel := List.filter (fun ev => filterMatches f ev && afterVersion f ev) hist in
  limited (f_Limit f) (if str_eqb (f_Order f) OrderDesc then rev sel else sel).

(** The version of the newest event, 0 without one. *)
Definition lastVersionOf (hist : list Event) : Z :=
  match last hist with Some ev => ev_Version ev | None => 0 end.

(** Versions 1, 2, ..., n. *)
Definition gapfree (hist : list Event) : Prop :=
  map ev_Version hist = map Z.of_nat (seq 1 (length hist)).

(** ** Laws *)

(** The JSON values an encoder for the store returns unchanged: every number is a
    float64 or an int64, as [encoding/json] and the store's decoder produce; a Go [int]
    would come back at another width. *)
Fixpoint wire_json (j : json) : bool :=
  match j with
  | JInt _ => false
  | JArr l => forallb wire_json l
  | JObj m => forallb (fun e => wire_json (snd e)) m
  | _ => true
  end.

(** [resolution] is the time resolution of the store (BSON keeps milliseconds), applied
    to what is read back. *)
Class StoreLaws (W : Type) `{EventRepository W} `{CurrentRepository W} `{SnapshotRepository W} := {
  history : W -> ctx -> string -> string -> list Event;
  currentOf : W -> ctx -> string -> string -> option CurrentState;
  snapsOf : W -> ctx -> string -> string -> list Snapshot;
  resolution : time -> time;

  append_ok : forall c coll now ev w ev' w',
    AppendEvent c coll now ev w = (Ok ev', w') ->
    Forall (fun ch => wire_json (Old ch) = true /\ wire_json (New ch) = true) (ev_Changes ev) ->
    ev' = stampStored (setVersion ev (lastVersionOf (history w c coll (ev_EntityID ev)) + 1)) now /\
    exists ev_rb,
      history w' c coll (ev_EntityID ev) = history w c coll (ev_EntityID ev) ++ [ev_rb] /\
      ev_Version ev_rb = ev_Version ev' /\ ev_Op ev_rb = ev_Op ev' /\ ev_Changes ev_rb = ev_Changes ev' /\
      ev_Integrity ev_rb = ev_Integrity ev' /\ ev_TSReceived ev_rb = resolution (ev_TSReceived ev') /\
      (forall eid, eid <> ev_EntityID ev -> history w' c coll eid = history w c coll eid) /\
      (forall eid, currentOf w' c coll eid = currentOf w c coll eid) /\
      (forall eid, snapsOf w' c coll eid = snapsOf w c coll eid);

  append_dup : forall c coll now ev w w', AppendEvent c coll now ev w = (Err ErrDuplicateEvent, w') ->
    (forall eid, history w' c coll eid = history w c coll eid) /\
    (forall eid, currentOf w' c coll eid = currentOf w c coll eid) /\
    (forall eid, snapsOf w' c coll eid = snapsOf w c coll eid);

  history_entity : forall w c coll eid ev, In ev (history w c coll eid) -> ev_EntityID ev = eid;

  last_event : forall c coll eid w,
    match LastEvent c coll eid w with
    | Ok ev => last (history w c coll eid) = Some ev
    | Err ErrNotFound => history w c coll eid = []
    | Err _ => True
    end;

  list_events : forall c coll f w l,
    f_EntityID f <> "" -> f_OrderBy f = OrderVersion -> ListEvents c coll f w = Ok l ->
    l = listByVersion f (history w c coll (f_EntityID f));

  cur_get : forall c coll eid w,
    match CurGet c coll eid w with
    | Ok st => currentOf w c coll eid = Some st
    | Err ErrNotFound => currentOf w c coll eid = None
    | Err _ => True
    end;

  cur_upsert : forall c coll st w w',
    CurUpsert c coll st w = (Ok tt, w') -> wire_json (JObj (emptyIfNil (cs_State st))) = true ->
    currentOf w' c coll (cs_EntityID st) =
      Some (mkCurrentState (cs_EntityID st) (cs_Version st) (resolution (cs_TS st)) (cs_Deleted st) (cs_State st)) /\
    (forall eid, eid <> cs_EntityID st -> currentOf w' c coll eid = currentOf w c coll eid);

  cur_upsert_frame : forall c coll st w r w', CurUpsert c coll st w = (r, w') ->
    r <> Err ErrDuplicateEvent /\
    (forall eid, history w' c coll eid = history w c coll eid) /\
    (forall eid, snapsOf w' c coll eid = snapsOf w c coll eid);

  snap_save : forall c coll sn w r w', SnapSave c coll sn w = (r, w') ->
    wire_json (JObj (emptyIfNil (sn_State sn))) = true ->
    (forall eid, history w' c coll eid = history w c coll eid) /\
    (forall eid, currentOf w' c coll eid = currentOf w c coll eid) /\
    (forall eid s, In s (snapsOf w' c coll eid) ->
       In s (snapsOf w c coll eid) \/
       (eid = sn_EntityID sn /\ s = mkSnapshot (sn_EntityID sn) (sn_Version sn) (resolution (sn_TS sn)) (sn_Deleted sn) (sn_State sn)));

  snap_nearest : forall c coll eid v w s, SnapNearest c coll eid v w = Ok s ->
    In s (snapsOf w c coll eid) /\ (sn_Version s <= v)%Z }.

(** The two worlds hold the same entities, as far as the context's tenant can see. *)
Definition sameStore {W : Type} `{StoreLaws W} (c : ctx) (w w' : W) : Prop :=
  forall coll eid, history w' c coll eid = history w c coll eid /\
    currentOf w' c coll eid = currentOf w c coll eid /\ snapsOf w' c coll eid = snapsOf w c coll eid.

Lemma sameStore_refl {W : Type} `{StoreLaws W} (c : ctx) (w : W) : sameStore c w w.
Proof. done. Qed.

Lemma sameStore_trans {W : Type} `{StoreLaws W} (c : ctx) (w1 w2 w3 : W) :
  sameStore c w1 w2 -> sameStore c w2 w3 -> sameStore c w1 w3.
Proof. intros HA HB coll eid. destruct (HA coll eid) as (<- & <- & <-). apply HB. Qed.

(** Resolving a collection's config touches no entity. *)
Class ConfigFrame (W : Type) `{StoreLaws W} `{CollectionRepository W} := {
  save_config_frame : forall c cfg w, sameStore c w (snd (SaveConfig c cfg w));
  ensure_physical_frame : forall c name w, sameStore c w (snd (EnsurePhysical c name w)) }.

(** ** Lemmas *)

Lemma gapfree_nil : gapfree [].
Proof. done. Qed.

Lemma gapfree_last (hist : list Event) : gapfree hist -> lastVersionOf hist = Z.of_nat (length hist).
Proof.
  unfold gapfree, lastVersionOf. intros H. destruct hist as [|ev hist _] using rev_ind; [done|].
  rewrite last_snoc. rewrite length_app, Nat.add_comm, seq_S, !map_app in H. cbn in H.
  apply app_inj_tail in H as [_ ->]. rewrite length_app. cbn. lia.
Qed.

Lemma gapfree_snoc (hist : list Event) (ev : Event) :
  gapfree hist -> ev_Version ev = (lastVersionOf hist + 1)%Z -> gapfree (hist ++ [ev]).
Proof.
  intros H Hv. rewrite (gapfree_last hist H) in Hv. unfold gapfree in *.
  rewrite length_app, Nat.add_comm, seq_S, !map_app, H. cbn. f_equal. f_equal. lia.
Qed.

Lemma map_lookup {A B : Type} (g : A -> B) (l : list A) (n : nat) : map g l !! n = option_map g (l !! n).
Proof. revert n. induction l as [|x l IH]; intros [|n]; [done..|]. apply IH. Qed.

(** In a gap-free history the event at position [n] has version [n + 1]. *)
Lemma gapfree_lookup (hist : list Event) (n : nat) (ev : Event) :
  gapfree hist -> hist !! n = Some ev -> ev_Version ev = Z.of_nat (S n).
Proof.
  intros H Hn. assert (map ev_Version hist !! n = Some (ev_Version ev)) as E.
  { by rewrite map_lookup, Hn. }
  rewrite H, map_lookup in E.
  assert (n < length hist) by (by eapply lookup_lt_Some).
  rewrite lookup_seq_lt in E by done. cbn in E. congruence.
Qed.

(** Events in a version window of a gap-free history. *)
Lemma gapfree_window (hist : list Event) (lo hi : nat) :
  gapfree hist ->
  List.filter (fun ev => (ev_Version ev <=? Z.of_nat hi) && (Z.of_nat lo <? ev_Version ev))%Z hist =
  drop lo (take hi hist).
Proof.
  intros H. revert lo hi.
  assert (forall base l, map ev_Version l = map Z.of_nat (seq (S base) (length l)) -> forall lo hi,
    List.filter (fun ev => (ev_Version ev <=? Z.of_nat hi) && (Z.of_nat lo <? ev_Version ev))%Z l =
    drop (lo - base) (take (hi - base) l)) as Hgen.
  { clear. intros base l. revert base. induction l as [|ev l IH]; intros base Hl lo hi.
    - by rewrite take_nil, drop_nil.
    - cbn [map seq length] in Hl. injection Hl as Hv Hl. cbn [List.filter]. rewrite (IH (S base) Hl), Hv.
      destruct (Z.leb_spec (Z.of_nat (S base)) (Z.of_nat hi)); cbn [andb].
      + replace (hi - base) with (S (hi - S base)) by lia. cbn [take].
        destruct (Z.ltb_spec (Z.of_nat lo) (Z.of_nat (S base))).
        * replace (lo - S base) with 0 by lia. replace (lo - base) with 0 by lia. by rewrite !drop_0.
        * replace (lo - base) with (S (lo - S base)) by lia. done.
      + replace (hi - S base) with 0 by lia. replace (hi - base) with 0 by lia. by rewrite !take_0, !drop_nil. }
  intros lo hi. rewrite (Hgen 0 hist H). by rewrite !Nat.sub_0_r.
Qed.
