(* ===== verification/DiffValues.v ===== *)
(** * Where the values of a diff come from

    Every [Old] and [New] of a diff is a sub-value of the values compared: a predicate
    that sub-values inherit holds of all of them. *)

From stdpp Require Import base list strings.
From Stdlib Require Import ZArith Lia.
From S2P Require Import Prelude GoMap Json Paths Diff Domain Repo.

Section Inherit.
Variable Q : json -> bool.
Hypothesis Qnull : Q JNull = true.
Hypothesis Qarr : forall l x, Q (JArr l) = true -> In x l -> Q x = true.
Hypothesis Qobj : forall m k x, Q (JObj m) = true -> In (k, x) m -> Q x = true.

Definition valuesOK (ch : Change) : Prop := Q (Old ch) = true /\ Q (New ch) = true.

(** A child whose diffs against any [Q] value are fine. *)
Definition nodeOK (n : node) : Prop :=
  Q (fst n) = true /\ forall p b, Q b = true -> Forall valuesOK ((snd n) p b).

Lemma flat_map_ok {A : Type} (f : A -> list Change) (l : list A) :
  (forall x, In x l -> Forall valuesOK (f x)) -> Forall valuesOK (flat_map f l).
Proof.
  induction l as [|x l IH]; intros Hf; cbn; [constructor|].
  apply Forall_app. split; [apply Hf; by left|]. apply IH. intros y Hy. apply Hf. by right.
Qed.

Lemma diffMap_ok path a b :
  (forall k n, mget k a = Some n -> nodeOK n) -> (forall k x, mget k b = Some x -> Q x = true) ->
  Forall valuesOK (diffMap path a b).
Proof.
  intros Ha Hb. apply flat_map_ok. intros k _. unfold diffMapKey.
  destruct (mget k a) as [[av d]|] eqn:Ea, (mget k b) as [bv|] eqn:Eb.
  - apply (Ha k _ Ea). eauto.
  - constructor; [|constructor]. split; [apply (Ha k _ Ea)|done].
  - constructor; [|constructor]. split; [done|]. cbn. eauto.
  - by repeat constructor.
Qed.

Lemma diffIndexArray_ok path a b :
  Forall nodeOK a -> Forall (fun x => Q x = true) b -> Forall valuesOK (diffIndexArray path a b).
Proof.
  intros Ha Hb. unfold diffIndexArray. apply Forall_app. split; [|apply Forall_app; split].
  - generalize 0. revert b Hb. induction Ha as [|[x d] a Hx _ IH]; intros [|y b] Hb i; cbn; try by constructor.
    apply Forall_cons in Hb as [Hy Hb]. apply Forall_app. split; [by apply Hx|by apply IH].
  - generalize (Nat.min (length a) (length b)) at 1. intros i.
    assert (Forall (fun x => Q x = true) (drop (Nat.min (length a) (length b)) b)) as Hd by (by apply Forall_drop).
    revert i. induction Hd as [|y l Hy _ IH]; intros i; cbn; constructor; [by split|apply IH].
  - generalize (Nat.min (length a) (length b)) at 1. intros i.
    assert (Forall nodeOK (drop (Nat.min (length a) (length b)) a)) as Hd by (by apply Forall_drop).
    revert i. induction Hd as [|[x d] l Hx _ IH]; intros i; cbn; [constructor|].
    apply Forall_app. split; [apply IH|]. constructor; [|constructor]. split; [apply Hx|done].
Qed.

Lemma diffKeyedArray_ok path kf a b :
  Forall nodeOK a -> Forall (fun x => Q x = true) b -> Forall valuesOK (diffKeyedArray path kf a b).
Proof.
  intros Ha Hb. unfold diffKeyedArray. apply Forall_app. split; apply flat_map_ok.
  - intros n Hn. assert (nodeOK n) as [Hq Hd] by (by eapply List.Forall_forall).
    unfold diffKeyedOld.
    destruct (mget _ _) as [bel|] eqn:E; [|constructor; [by split|constructor]].
    apply Hd. apply mget_in in E.
    assert (forall m0 l, Forall (fun e => Q (snd e) = true) m0 -> Forall (fun x => Q x = true) l ->
              Forall (fun e => Q (snd e) = true) (fold_left (fun m el => mset (elKey kf el) el m) l m0)) as Hfold.
    { clear. intros m0 l Hm Hl. revert m0 Hm. induction Hl as [|x l Hx _ IH]; intros m0 Hm; cbn; [done|].
      apply IH. by apply Forall_mset. }
    specialize (Hfold [] b ltac:(constructor) Hb). rewrite List.Forall_forall in Hfold. apply (Hfold _ E).
  - intros el Hel. unfold diffKeyedNew. destruct (existsb _ _); [constructor|].
    constructor; [|constructor]. split; [done|]. by eapply List.Forall_forall in Hb.
Qed.

Lemma diffValue_ok opts a path b :
  Q a = true -> Q b = true -> Forall valuesOK (diffValue opts a path b).
Proof.
  revert path b. induction a as [|x|x|x|x|x|aa IH|am IH] using json_ind'; intros path b Ha Hb;
    cbn [diffValue]; match goal with |- context [jsonEqual ?a b] => destruct (jsonEqual a b) end;
    try (by constructor); try (destruct b; repeat constructor; done).
  - destruct b as [| | | | | |ba|]; try (repeat constructor; done).
    assert (Forall nodeOK (map (fun x => (x, diffValue opts x)) aa)) as Hn.
    { apply List.Forall_map, List.Forall_forall. intros x Hx. rewrite List.Forall_forall in IH.
      split; cbn; [by apply (Qarr aa)|]. intros p y Hy. apply IH; [done| |done]. by apply (Qarr aa). }
    assert (Forall (fun x => Q x = true) ba) as Hba.
    { apply List.Forall_forall. intros x Hx. by apply (Qarr ba). }
    destruct (mget path (ArrayKeys opts)) as [kf|]; [|by apply diffIndexArray_ok].
    destruct (keyable aa kf && keyable ba kf); [by apply diffKeyedArray_ok|by apply diffIndexArray_ok].
  - destruct b as [| | | | | | |bm]; try (repeat constructor; done).
    apply diffMap_ok.
    + intros k n Hk%mget_in. apply in_map_iff in Hk as ([k' x] & [= <- <-] & Hin).
      rewrite List.Forall_forall in IH. split; cbn; [by apply (Qobj am k')|].
      intros p y Hy. apply (IH _ Hin); [|done]. by apply (Qobj am k').
    + intros k x Hk%mget_in. by apply (Qobj bm k).
Qed.
End Inherit.

Lemma wire_diff opts a path b :
  wire_json a = true -> wire_json b = true ->
  Forall (fun ch => wire_json (Old ch) = true /\ wire_json (New ch) = true) (diffValue opts a path b).
Proof.
  apply (diffValue_ok wire_json); [done| |].
  - cbn. intros l x Hl Hx. rewrite forallb_forall in Hl. auto.
  - cbn. intros m k x Hm Hx. rewrite forallb_forall in Hm. by apply (Hm _ Hx).
Qed.

Lemma wf_diff opts a path b :
  wf_json a = true -> wf_json b = true ->
  Forall (fun ch => wf_json (Old ch) = true /\ wf_json (New ch) = true) (diffValue opts a path b).
Proof.
  apply (diffValue_ok wf_json); [done| |].
  - cbn. intros l x [_ Hl]%andb_true_iff Hx. rewrite forallb_forall in Hl. auto.
  - cbn. intros m k x [_ Hm]%andb_true_iff Hx. rewrite forallb_forall in Hm. by apply (Hm _ Hx).
Qed.
