(* ===== verification/Plugin.v ===== *)
(** * Plugin host (internal/plugin/plugin.go, host.go)

    The hook contracts and the host that runs the hooks a collection enables.  A
    pre-store plugin sees a read-only draft and edits it only through the setters, so it
    is modelled as a function returning the list of setter calls it made and its error. *)

From stdpp Require Import base list strings.
From Stdlib Require Import ZArith Lia.
From S2P Require Import Prelude GoMap Json Paths Diff DiffSound Domain Tenant Config.

(** ** Contracts *)

Record EntityView := mkEntityView { LastEventView : option Event; CurrentView : option CurrentState }.

(** The setters of [EventDraft]. *)
Inductive draftEdit :=
| SetIntegrity (hash prevHash : string)
| PutMeta (key : string) (value : json).

Definition applyEdit (ev : Event) (e : draftEdit) : Event :=
  let '(meta, intg) :=
    match e with
    | SetIntegrity h p => (ev_Meta ev, Some (mkIntegrity h p))
    | PutMeta k v => (Some (mset k v (emptyIfNil (ev_Meta ev))), ev_Integrity ev)
    end in
  mkEvent (ev_EntityID ev) (ev_Version ev) (ev_Op ev) (ev_Author ev) (ev_Source ev) (ev_TSSource ev) (ev_TSReceived ev)
    (ev_TSStored ev) (ev_EventID ev) (ev_RequestID ev) (ev_Changes ev) meta (ev_Flow ev) intg.

(** The draft is the collection and the event planned so far. *)
Record PreStorePlugin := mkPre {
  pre_Name : string;
  PreStore : string -> Event -> EntityView -> list draftEdit * option err }.

Record PostStorePlugin (W : Type) := mkPost {
  post_Name : string;
  PostStore : ctx -> Event -> W -> W }.
Arguments post_Name {W}.
Arguments PostStore {W}.

Record ActionPlugin (W : Type) := mkAction {
  act_Type : string;
  Execute : ctx -> Event -> string -> W -> option err * W }.
Arguments act_Type {W}.
Arguments Execute {W}.

(** ** The host *)

Record Host (W : Type) := mkHost {
  h_pre : list PreStorePlugin;
  h_post : list (PostStorePlugin W);
  h_actions : list (string * ActionPlugin W) }.
Arguments h_pre {W}.
Arguments h_post {W}.
Arguments h_actions {W}.

(** A later registration for the same action type wins. *)
Definition NewHost {W : Type} (pre : list PreStorePlugin) (post : list (PostStorePlugin W)) (actions : list (ActionPlugin W)) : Host W :=
  mkHost W pre post (fold_left (fun m a => mset (act_Type a) a m) actions []).

(** [pc, ok := cfg.Plugins[name]; ok && pc.Enabled]. *)
Definition pluginEnabled (cfg : CollectionConfig) (name : string) : bool :=
  match mget name (cfg_Plugins cfg) with Some pc => pc_Enabled pc | None => false end.

Definition failMode (cfg : CollectionConfig) (name : string) : string :=
  match mget name (cfg_Plugins cfg) with Some pc => pc_FailMode pc | None => "" end.

Definition HasPreStore {W : Type} (h : option (Host W)) (cfg : CollectionConfig) : bool :=
  match h with
  | None => false
  | Some h => existsb (fun p => pluginEnabled cfg (pre_Name p)) (h_pre h)
  end.

(** The pre-store loop; the second component lists the fail-open errors counted in the
    metrics, by plugin name. *)
Fixpoint runPre (pre : list PreStorePlugin) (cfg : CollectionConfig) (collection : string) (ev : Event) (prev : EntityView) : res err Event * list string :=
  match pre with
  | [] => (Ok ev, [])
  | p :: pre' =>
      if negb (pluginEnabled cfg (pre_Name p)) then runPre pre' cfg collection ev prev
      else
        let '(edits, e) := PreStore p collection ev prev in
        let ev' := fold_left applyEdit edits ev in
        match e with
        | Some _ =>
            if str_eqb (failMode cfg (pre_Name p)) FailClosed then (Err (ErrFailClosed (pre_Name p)), [])
            else
              let '(r, counted) := runPre pre' cfg collection ev' prev in (r, pre_Name p :: counted)
        | None => runPre pre' cfg collection ev' prev
        end
  end.

Definition RunPreStore {W : Type} (h : option (Host W)) (cfg : CollectionConfig) (collection : string) (ev : Event) (prev : EntityView) : res err Event * list string :=
  match h with
  | None => (Ok ev, [])
  | Some h => runPre (h_pre h) cfg collection ev prev
  end.

Definition RunPostStore {W : Type} (h : option (Host W)) (c : ctx) (cfg : CollectionConfig) (ev : Event) (w : W) : W :=
  match h with
  | None => w
  | Some h =>
      fold_left (fun w p => if pluginEnabled cfg (post_Name p) then PostStore p c ev w else w) (h_post h) w
  end.

Definition HostAction {W : Type} (h : option (Host W)) (typ : string) : option (ActionPlugin W) :=
  match h with
  | None => None
  | Some h => mget typ (h_actions h)
  end.

(** ** Lemmas *)

(** What the setters cannot reach. *)
Definition sameCore (ev ev' : Event) : Prop :=
  ev_EntityID ev' = ev_EntityID ev /\ ev_Version ev' = ev_Version ev /\ ev_Op ev' = ev_Op ev /\
  ev_Author ev' = ev_Author ev /\ ev_Source ev' = ev_Source ev /\ ev_TSSource ev' = ev_TSSource ev /\
  ev_TSReceived ev' = ev_TSReceived ev /\ ev_TSStored ev' = ev_TSStored ev /\ ev_EventID ev' = ev_EventID ev /\
  ev_RequestID ev' = ev_RequestID ev /\ ev_Changes ev' = ev_Changes ev /\ ev_Flow ev' = ev_Flow ev.

Lemma sameCore_refl (ev : Event) : sameCore ev ev.
Proof. by split_and!. Qed.

Lemma sameCore_trans (a b c : Event) : sameCore a b -> sameCore b c -> sameCore a c.
Proof. unfold sameCore. intros H1 H2. destruct_and!. split_and!; congruence. Qed.

Lemma sameCore_edit (ev : Event) (e : draftEdit) : sameCore ev (applyEdit ev e).
Proof. destruct e; by split_and!. Qed.

Lemma sameCore_edits (es : list draftEdit) (ev : Event) : sameCore ev (fold_left applyEdit es ev).
Proof.
  revert ev. induction es as [|e es IH]; intros ev; cbn; [apply sameCore_refl|].
  eapply sameCore_trans; [apply sameCore_edit|apply IH].
Qed.

Lemma runPre_core (pre : list PreStorePlugin) cfg coll ev prev ev' counted :
  runPre pre cfg coll ev prev = (Ok ev', counted) -> sameCore ev ev'.
Proof.
  revert ev counted. induction pre as [|p pre IH]; intros ev counted; cbn.
  { intros [= -> _]. apply sameCore_refl. }
  destruct (pluginEnabled cfg (pre_Name p)); cbn; [|apply IH].
  destruct (PreStore p coll ev prev) as [edits [e|]].
  - destruct (str_eqb (failMode cfg (pre_Name p)) FailClosed); [done|].
    destruct (runPre pre cfg coll _ prev) as [r ct] eqn:E. intros [= -> _].
    eapply sameCore_trans; [apply sameCore_edits|by eapply IH].
  - intros H. eapply sameCore_trans; [apply sameCore_edits|by eapply IH].
Qed.

(** ** Properties *)

(** Plugins cannot tamper.  Whatever the registered pre-store plugins do, the event
    that comes out of [RunPreStore] has the author, op, changes, timestamps, ids and
    flow of the planned event: only the integrity block and the metadata can differ. *)
Theorem prestore_preserves_core {W : Type} (h : option (Host W)) (cfg : CollectionConfig) (coll : string) (ev : Event) (prev : EntityView) (ev' : Event) (counted : list string) :
  RunPreStore h cfg coll ev prev = (Ok ev', counted) -> sameCore ev ev'.
Proof.
  destruct h as [h|]; cbn; [apply runPre_core|]. intros [= -> _]. apply sameCore_refl.
Qed.

(** The first enabled plugin that errors in fail-closed mode, given the event each sees. *)
Fixpoint firstFatal (pre : list PreStorePlugin) (cfg : CollectionConfig) (coll : string) (ev : Event) (prev : EntityView) : option string :=
  match pre with
  | [] => None
  | p :: pre' =>
      if pluginEnabled cfg (pre_Name p) then
        let '(edits, e) := PreStore p coll ev prev in
        match e with
        | Some _ => if str_eqb (failMode cfg (pre_Name p)) FailClosed then Some (pre_Name p)
                    else firstFatal pre' cfg coll (fold_left applyEdit edits ev) prev
        | None => firstFatal pre' cfg coll (fold_left applyEdit edits ev) prev
        end
      else firstFatal pre' cfg coll ev prev
  end.

Lemma runPre_fatal (pre : list PreStorePlugin) cfg coll ev prev :
  match firstFatal pre cfg coll ev prev with
  | Some name => fst (runPre pre cfg coll ev prev) = Err (ErrFailClosed name) /\
                 str_eqb (failMode cfg name) FailClosed = true
  | None => exists ev', fst (runPre pre cfg coll ev prev) = Ok ev'
  end.
Proof.
  revert ev. induction pre as [|p pre IH]; intros ev; cbn; [by exists ev|].
  destruct (pluginEnabled cfg (pre_Name p)); cbn; [|apply IH].
  destruct (PreStore p coll ev prev) as [edits [e|]]; [|apply IH].
  destruct (str_eqb (failMode cfg (pre_Name p)) FailClosed) eqn:E; [done|].
  specialize (IH (fold_left applyEdit edits ev)). destruct (runPre pre cfg coll _ prev). exact IH.
Qed.


(** ** Witnesses *)

Definition ex_plugin : PreStorePlugin :=
  mkPre "stamp" (fun coll ev prev => ([PutMeta "seen" (JBool true); SetIntegrity "h" "p"], Some (ErrInternal "late"))).
Definition ex_host : Host unit := NewHost [ex_plugin] [] [].
Definition ex_pcfg (mode : string) : CollectionConfig :=
  mkConfig "crm.deals" "" 0 (mkRetention "" 0 0) 0 "" (mkOrdering "" 0) [] [("stamp", mkPluginConfig true mode None)].

Lemma prestore_preserves_core_witness :
  exists ev', RunPreStore (Some ex_host) (ex_pcfg "open") "crm.deals" (ex_event 0 OpCreate []) (mkEntityView None None) = (Ok ev', ["stamp"]) /\
    sameCore (ex_event 0 OpCreate []) ev' /\ ev_Integrity ev' = Some (mkIntegrity "h" "p").
Proof.
  eexists. split; [reflexivity|]. split; [|reflexivity].
  apply (prestore_preserves_core (Some ex_host) (ex_pcfg "open") "crm.deals" _ (mkEntityView None None) _ ["stamp"]).
  reflexivity.
Defined.

