(* ===== verification/Ingest.v ===== *)
(** * The synchronous write path (internal/service/ingest.go, snapshot.go, envelope.go)

    [planEvent] turns a command into the event and state it would produce; [applyOne]
    runs a whole write: config and current state, optimistic lock, plan, pre-store
    plugins, append, refresh of the current state, and the post-store effects.  The
    repositories are the interfaces of [Repo.v]; the clock readings are arguments. *)

From stdpp Require Import base list strings.
From Stdlib Require Import ZArith Lia.
From S2P Require Import Prelude GoMap Json Paths Diff DiffSound Domain Tenant Config Alias AliasSound Repo Plugin.

Definition KindState : string := "state".
Definition KindDiff : string := "diff".
Definition KindDelete : string := "delete".

Record IngestCommand := mkCommand {
  ic_Collection : string;
  ic_EntityID : string;
  ic_Op : string;
  ic_Mode : string;
  ic_ExpectedVersion : option Z;
  ic_Author : string;
  ic_Source : string;
  ic_TSSource : time;
  ic_EventID : string;
  ic_RequestID : string;
  ic_ClientIP : string;
  ic_Meta : option state;
  ic_State : option state;
  ic_Changes : option (list Change);
  ic_Flow : option Flow }.

Record IngestResult := mkResult {
  ir_EntityID : string; ir_Version : Z; ir_ChangesCount : Z; ir_Op : string;
  ir_NoChanges : bool; ir_Async : bool; ir_Ticket : string; ir_Deduplicated : bool }.

Definition noChangesResult (eid : string) (v : Z) : IngestResult := mkResult eid v 0 "" true false "" false.
Definition dedupResult (eid : string) (v : Z) : IngestResult := mkResult eid v 0 "" false false "" true.
Definition storedResult (eid : string) (ev : Event) : IngestResult :=
  mkResult eid (ev_Version ev) (Z.of_nat (length (ev_Changes ev))) (ev_Op ev) false false "" false.

(** ** Helpers *)

Definition baseState (cur : option CurrentState) : option state * Z :=
  match cur with
  | None => (Some [], 0%Z)
  | Some st => if cs_Deleted st then (Some [], cs_Version st) else (cs_State st, cs_Version st)
  end.

Definition resolveOp (explicit : string) (cur : option CurrentState) (cfg : CollectionConfig) : string :=
  if negb (str_eqb explicit "") then explicit
  else
    let live := match cur with Some st => negb (cs_Deleted st) | None => false end in
    if live then OpUpdate
    else if str_eqb (cfg_FirstEventOp cfg) FirstEventUpdate then OpUpdate else OpCreate.

Definition versionMatches (expected : option Z) (current : Z) : bool :=
  match expected with None => true | Some v => (v =? current)%Z end.

Definition serverMeta (client : option state) (ip : string) : option state :=
  if str_eqb ip "" then client
  else
    let out := emptyIfNil client in
    match mget "ip" out with
    | Some _ => Some out
    | None => Some (mset "ip" (JStr ip) out)
    end.

(** The version and the stored time are assigned later. *)
Definition buildEvent (now : time) (cmd : IngestCommand) (op : string) (changes : list Change) : Event :=
  mkEvent (ic_EntityID cmd) 0 op (ic_Author cmd) (ic_Source cmd) (ic_TSSource cmd) now 0
    (ic_EventID cmd) (ic_RequestID cmd) changes (serverMeta (ic_Meta cmd) (ic_ClientIP cmd)) (ic_Flow cmd) None.

Inductive planned :=
| NoChange
| Planned (ev : Event) (newState : option state) (deleted : bool).

Definition optDiff (cfg : CollectionConfig) (base target : option state) : list Change :=
  Diff (JObj (emptyIfNil base)) (JObj (emptyIfNil target)) (mkOptions (cfg_ArrayKeys cfg)).

Section Plan.
(** Capacities of [append] and of the decoder's slices: see [Alias.v]. *)
Variables grow dcap : nat -> nat.

Definition planEvent (now : time) (cfg : CollectionConfig) (kind : string) (cmd : IngestCommand) (cur : option CurrentState) : res err planned :=
  let '(base, _) := baseState cur in
  if str_eqb kind KindState then
    let changes := optDiff cfg base (ic_State cmd) in
    match changes with
    | [] => Ok NoChange
    | _ => Ok (Planned (buildEvent now cmd (resolveOp (ic_Op cmd) cur cfg) changes) (ic_State cmd) false)
    end
  else if str_eqb kind KindDiff then
    let op := if str_eqb (ic_Op cmd) "" then resolveOp "" cur cfg else ic_Op cmd in
    if str_eqb op OpDelete then Ok (Planned (buildEvent now cmd op (default [] (ic_Changes cmd))) base true)
    else
      let finish changes newState :=
        match changes with
        | [] => Ok NoChange
        | _ => Ok (Planned (buildEvent now cmd op changes) newState false)
        end in
      match ic_Changes cmd with
      | None =>
          if str_eqb op OpCreate then finish (optDiff cfg (Some []) (ic_State cmd)) (ic_State cmd)
          else finish [] base
      | Some changes =>
          match ApplyShared grow dcap (JObj (emptyIfNil base)) changes with
          | Err _ => Err ErrInvalidDiff
          | Ok (JObj m, changes') => finish changes' (Some m)
          | Ok (_, _) => Err ErrInvalidDiff
          end
      end
  else if str_eqb kind KindDelete then Ok (Planned (buildEvent now cmd OpDelete []) base true)
  else Err (ErrUnknownKind kind).

End Plan.

(** ** The use-case *)

Record Ingester (W : Type) := mkIngester {
  in_snapshots : bool;                                       (* a snapshot builder is wired *)
  in_rules : option (ctx -> string -> Event -> W -> W);      (* RulesEngine.Evaluate *)
  in_plugins : option (Host W) }.
Arguments in_snapshots {W}.
Arguments in_rules {W}.
Arguments in_plugins {W}.

Section Ingest.
Context {W : Type} `{EventRepository W} `{CurrentRepository W} `{SnapshotRepository W} `{CollectionRepository W}.
Variables grow dcap : nat -> nat.
Variable ing : Ingester W.

Definition load_current (c : ctx) (collection eid : string) (w : W) : res err (option CurrentState) :=
  match CurGet c collection eid w with
  | Ok st => Ok (Some st)
  | Err ErrNotFound => Ok None
  | Err e => Err e
  end.

Definition lastEvent (c : ctx) (collection eid : string) (w : W) : res err (option Event) :=
  match LastEvent c collection eid w with
  | Ok ev => Ok (Some ev)
  | Err ErrNotFound => Ok None
  | Err e => Err e
  end.

(** [Ingester.prepare]: the resolver's cache and the store may change. *)
Definition prepare (cr : ConfigResolver) (now : time) (c : ctx) (cmd : IngestCommand) (w : W) : res err (CollectionConfig * option CurrentState) * ConfigResolver * W :=
  match EnsureCollection cr now c (ic_Collection cmd) w with
  | (Err e, cr', w') => (Err e, cr', w')
  | (Ok cfg, cr', w') =>
      match load_current c (ic_Collection cmd) (ic_EntityID cmd) w' with
      | Err e => (Err e, cr', w')
      | Ok cur => (Ok (cfg, cur), cr', w')
      end
  end.

(** [SnapshotBuilder.Build]: a failed save is logged only. *)
Definition Build (builder : bool) (c : ctx) (collection eid : string) (version : Z) (ts : time) (st : option state) (deleted : bool) (interval : Z) (w : W) : W :=
  if negb builder || negb (ShouldSnapshot version interval) then w
  else snd (SnapSave c collection (mkSnapshot eid version ts deleted st) w).

Definition commitEvent (now : time) (c : ctx) (cmd : IngestCommand) (ev : Event) (newState : option state) (deleted : bool) (w : W) : res err Event * W :=
  match AppendEvent c (ic_Collection cmd) now ev w with
  | (Err e, w1) => (Err e, w1)
  | (Ok ev', w1) =>
      match CurUpsert c (ic_Collection cmd)
              (mkCurrentState (ic_EntityID cmd) (ev_Version ev') (ev_TSReceived ev') deleted newState) w1 with
      | (Err e, w2) => (Err e, w2)
      | (Ok _, w2) => (Ok ev', w2)
      end
  end.

Definition evaluateRules (c : ctx) (collection : string) (ev : Event) (w : W) : W :=
  match in_rules ing with Some f => f c collection ev w | None => w end.

(** The pre-store stage of [applyOne]. *)
Definition preStore (c : ctx) (cfg : CollectionConfig) (cmd : IngestCommand) (cur : option CurrentState) (ev : Event) (w : W) : res err Event :=
  if HasPreStore (in_plugins ing) cfg then
    match lastEvent c (ic_Collection cmd) (ic_EntityID cmd) w with
    | Err e => Err e
    | Ok last => fst (RunPreStore (in_plugins ing) cfg (ic_Collection cmd) ev (mkEntityView last cur))
    end
  else Ok ev.

Definition applyOne (cr : ConfigResolver) (now : time) (c : ctx) (kind : string) (cmd : IngestCommand) (w : W) : res err IngestResult * ConfigResolver * W :=
  match prepare cr now c cmd w with
  | (Err e, cr', w1) => (Err e, cr', w1)
  | (Ok (cfg, cur), cr', w1) =>
      let curVersion := snd (baseState cur) in
      if negb (versionMatches (ic_ExpectedVersion cmd) curVersion) then (Err ErrVersionConflict, cr', w1)
      else
        match planEvent grow dcap now cfg kind cmd cur with
        | Err e => (Err e, cr', w1)
        | Ok NoChange => (Ok (noChangesResult (ic_EntityID cmd) curVersion), cr', w1)
        | Ok (Planned ev newState deleted) =>
            match preStore c cfg cmd cur ev w1 with
            | Err e => (Err e, cr', w1)
            | Ok ev1 =>
                match commitEvent now c cmd ev1 newState deleted w1 with
                | (Err ErrDuplicateEvent, w2) => (Ok (dedupResult (ic_EntityID cmd) curVersion), cr', w2)
                | (Err e, w2) => (Err e, cr', w2)
                | (Ok ev2, w2) =>
                    let w3 := Build (in_snapshots ing) c (ic_Collection cmd) (ic_EntityID cmd) (ev_Version ev2)
                                (ev_TSReceived ev2) newState deleted (cfg_SnapshotInterval cfg) w2 in
                    let w4 := evaluateRules c (ic_Collection cmd) ev2 w3 in
                    let w5 := RunPostStore (in_plugins ing) c cfg ev2 w4 in
                    (Ok (storedResult (ic_EntityID cmd) ev2), cr', w5)
                end
            end
        end
  end.

(** [State], [Diff] and [Delete] of the Ingester. *)
Definition IngestState cr now c cmd w := applyOne cr now c KindState cmd w.
Definition IngestDiff cr now c cmd w := applyOne cr now c KindDiff cmd w.
Definition IngestDelete cr now c cmd w := applyOne cr now c KindDelete cmd w.

End Ingest.
