(* ===== verification/IngestSound.v ===== *)
(** * What a write guarantees (internal/service/ingest.go against Reconstruct)

    [consistent]: the history of an entity is gap-free, its materialized current state is
    what a genesis replay of that history gives, and every snapshot is what a replay up
    to its version gives.  Successful writes preserve it; the writes that do not are
    exhibited at the end. *)

From stdpp Require Import base list strings.
From Stdlib Require Import ZArith Lia.
From S2P Require Import Prelude GoMap Json Paths Diff DiffSound Domain Tenant Config Alias AliasSound Repo Plugin Ingest DiffValues.

(** Values in the scope of the diff round trip (see [DiffSound.v]) that the store
    returns unchanged. *)
Definition clean (j : json) : bool := wf_json j && exact_json j && names_ok [] j && wire_json j.

Lemma clean_empty : clean (JObj []) = true.
Proof. reflexivity. Qed.

Lemma clean_diff (a b : json) :
  clean a = true -> clean b = true -> Apply a (Diff a b (mkOptions [])) = Ok b.
Proof.
  unfold clean. rewrite !andb_true_iff. intros [[[? ?] ?] ?] [[[? ?] ?] ?]. by apply apply_diff_exact.
Qed.

Lemma clean_wire (j : json) : clean j = true -> wire_json j = true.
Proof. unfold clean. rewrite !andb_true_iff. by intros [_ ?]. Qed.

Definition snapOK (hist : list Event) (s : Snapshot) : Prop :=
  exists n, 1 <= n <= length hist /\ sn_Version s = Z.of_nat n /\
    Reconstruct None false (take n hist) = Ok (emptyIfNil (sn_State s), sn_Deleted s).

(** What the current state says, in the terms of a replay. *)
Definition viewOf (cur : option CurrentState) : state * bool :=
  match cur with None => ([], false) | Some st => (emptyIfNil (cs_State st), cs_Deleted st) end.

Definition consistentData (hist : list Event) (cur : option CurrentState) (snaps : list Snapshot) : Prop :=
  gapfree hist /\ snd (baseState cur) = Z.of_nat (length hist) /\
  (cur = None <-> hist = []) /\
  clean (JObj (fst (viewOf cur))) = true /\
  Reconstruct None false hist = Ok (viewOf cur) /\
  Forall (snapOK hist) snaps.

Definition consistent {W : Type} `{StoreLaws W} (w : W) (c : ctx) (coll eid : string) : Prop :=
  consistentData (history w c coll eid) (currentOf w c coll eid) (snapsOf w c coll eid).

(** The writes covered: index mode, values in the scope of the round trip, no delete
    disguised as a full state, a create-with-state only on an entity without a live
    state, and a client diff that does not write into the values it installs itself. *)
Definition faithfulWrite (grow dcap : nat -> nat) (cfg : CollectionConfig) (kind : string) (cmd : IngestCommand) (cur : option CurrentState) : Prop :=
  let base := emptyIfNil (fst (baseState cur)) in
  let target := JObj (emptyIfNil (ic_State cmd)) in
  let op := if str_eqb (ic_Op cmd) "" then resolveOp "" cur cfg else ic_Op cmd in
  (kind = KindState -> cfg_ArrayKeys cfg = [] /\ clean target = true /\ ic_Op cmd <> OpDelete) /\
  (kind = KindDiff ->
     Forall (fun ch => wire_json (Old ch) = true /\ wire_json (New ch) = true) (default [] (ic_Changes cmd)) /\
     (op <> OpDelete ->
      match ic_Changes cmd with
      | None => cfg_ArrayKeys cfg = [] /\ clean target = true /\ base = []
      | Some chs => Forall (fun ch => wf_json (New ch) = true) chs /\
          forall m chs', ApplyShared grow dcap (JObj base) chs = Ok (JObj m, chs') -> chs' = chs /\ clean (JObj m) = true
      end)).

(** ** One event more *)

Lemma base_work (cur : option CurrentState) :
  emptyIfNil (fst (baseState cur)) = workOf (fst (viewOf cur)) (snd (viewOf cur)).
Proof. destruct cur as [st|]; [|done]. cbn. by destruct (cs_Deleted st). Qed.

Lemma clean_base (cur : option CurrentState) :
  clean (JObj (fst (viewOf cur))) = true -> clean (JObj (emptyIfNil (fst (baseState cur)))) = true.
Proof. rewrite base_work. unfold workOf. by destruct (snd (viewOf cur)). Qed.

(** Replaying one event more: its effect on the base state. *)
Lemma reconstruct_snoc (hist : list Event) (cur : option CurrentState) (ev : Event) :
  Reconstruct None false hist = Ok (viewOf cur) ->
  Reconstruct None false (hist ++ [ev]) =
    let base := emptyIfNil (fst (baseState cur)) in
    if str_eqb (ev_Op ev) OpDelete then Ok (base, true)
    else match Apply (JObj base) (ev_Changes ev) with Ok j => Ok (asMap j, false) | Err e => Err e end.
Proof.
  intros Hr. destruct (viewOf cur) as [r d] eqn:Ev.
  rewrite (reconstruct_resume _ _ _ _ _ _ Hr). rewrite base_work, Ev. unfold Reconstruct. cbn.
  destruct (str_eqb (ev_Op ev) OpDelete); by destruct d.
Qed.

(** A plan that replay confirms. *)
Definition planFaithful (cur : option CurrentState) (ev : Event) (newState : option state) (deleted : bool) : Prop :=
  let base := emptyIfNil (fst (baseState cur)) in
  clean (JObj (emptyIfNil newState)) = true /\
  Forall (fun ch => wire_json (Old ch) = true /\ wire_json (New ch) = true) (ev_Changes ev) /\
  if str_eqb (ev_Op ev) OpDelete then deleted = true /\ emptyIfNil newState = base
  else deleted = false /\ Apply (JObj base) (ev_Changes ev) = Ok (JObj (emptyIfNil newState)).

Lemma resolveOp_not_delete (op : string) (cur : option CurrentState) (cfg : CollectionConfig) :
  op <> OpDelete -> resolveOp op cur cfg <> OpDelete.
Proof.
  intros Hop. unfold resolveOp. destruct (negb (str_eqb op "")); [done|].
  destruct (match cur with Some st => negb (cs_Deleted st) | None => false end); [done|].
  by destruct (str_eqb (cfg_FirstEventOp cfg) FirstEventUpdate).
Qed.

(** A diff against the base, as planned by the full-state and create-with-state paths. *)
Lemma diff_faithful now cfg cmd op (cur : option CurrentState) (target : option state) :
  cfg_ArrayKeys cfg = [] -> clean (JObj (fst (viewOf cur))) = true ->
  clean (JObj (emptyIfNil target)) = true -> op <> OpDelete ->
  planFaithful cur (buildEvent now cmd op (optDiff cfg (fst (baseState cur)) target)) target false.
Proof.
  intros Hk Hc Ht Hop. apply clean_base in Hc. unfold planFaithful. cbn [buildEvent ev_Op ev_Changes].
  apply str_eqb_neq in Hop as ->. unfold optDiff. rewrite Hk. split_and!; [done| |done|by apply clean_diff].
  apply wire_diff; by apply clean_wire.
Qed.

Section Plans.
Variables grow dcap : nat -> nat.

Lemma plan_state_faithful now cfg cmd cur ev newState deleted :
  planEvent grow dcap now cfg KindState cmd cur = Ok (Planned ev newState deleted) ->
  clean (JObj (fst (viewOf cur))) = true -> faithfulWrite grow dcap cfg KindState cmd cur ->
  planFaithful cur ev newState deleted.
Proof.
  intros Hp Hc [Hf _]. destruct (Hf eq_refl) as (Hk & Ht & Hop). unfold planEvent in Hp.
  destruct (baseState cur) as [base v] eqn:Eb. rewrite str_eqb_refl in Hp. cbv zeta in Hp.
  destruct (optDiff cfg base (ic_State cmd)) eqn:Ed; [done|]. injection Hp as <- <- <-. rewrite <- Ed.
  replace base with (fst (baseState cur)) by (by rewrite Eb).
  apply diff_faithful; [done..|]. by apply resolveOp_not_delete.
Qed.

Lemma plan_delete_faithful now cfg cmd cur ev newState deleted :
  planEvent grow dcap now cfg KindDelete cmd cur = Ok (Planned ev newState deleted) ->
  clean (JObj (fst (viewOf cur))) = true -> planFaithful cur ev newState deleted.
Proof.
  intros Hp Hc. unfold planEvent in Hp. destruct (baseState cur) as [base v] eqn:Eb. cbn in Hp.
  injection Hp as <- <- <-. apply clean_base in Hc. unfold planFaithful. rewrite Eb in Hc |- *. cbn. by split_and!.
Qed.

Lemma plan_diff_faithful now cfg cmd cur ev newState deleted :
  planEvent grow dcap now cfg KindDiff cmd cur = Ok (Planned ev newState deleted) ->
  clean (JObj (fst (viewOf cur))) = true -> faithfulWrite grow dcap cfg KindDiff cmd cur ->
  planFaithful cur ev newState deleted.
Proof.
  intros Hp Hc [_ Hf]. specialize (Hf eq_refl) as [Hw Hf]. unfold planEvent in Hp. cbn zeta in Hf.
  pose proof (clean_base cur Hc) as Hcb.
  destruct (baseState cur) as [base v] eqn:Eb. cbn [fst] in Hf, Hcb.
  change (str_eqb KindDiff KindState) with false in Hp. change (str_eqb KindDiff KindDiff) with true in Hp. cbv iota in Hp.
  set (op := if str_eqb (ic_Op cmd) "" then resolveOp "" cur cfg else ic_Op cmd) in *.
  destruct (str_eqb op OpDelete) eqn:Eop.
  { injection Hp as <- <- <-. unfold planFaithful. cbn [buildEvent ev_Op ev_Changes]. rewrite Eop, Eb. by split_and!. }
  assert (op <> OpDelete) as Hop by (by apply str_eqb_neq). specialize (Hf Hop).
  destruct (ic_Changes cmd) as [chs|]; cbn in Hw.
  - destruct Hf as [Hwf Hf].
    pose proof (apply_shared_result grow dcap (JObj (emptyIfNil base)) chs) as Hres.
    destruct (ApplyShared grow dcap (JObj (emptyIfNil base)) chs) as [[[| | | | | | |m] chs']|]; try done.
    destruct (Hf _ _ eq_refl) as [-> Hm]. destruct chs as [|ch chs]; [done|]. injection Hp as <- <- <-.
    unfold planFaithful. cbn [ev_Op ev_Changes buildEvent]. rewrite Eop, Eb. cbn [fst]. change (emptyIfNil (Some m)) with m.
    split_and!; [done|done|done|]. rewrite <- Hres; [done| |done].
    unfold clean in Hcb. by rewrite !andb_true_iff in Hcb; destruct Hcb as [[[? _] _] _].
  - destruct Hf as (Hk & Ht & Hb). destruct (str_eqb op OpCreate) eqn:Ec; [|done].
    destruct (optDiff cfg (Some []) (ic_State cmd)) eqn:Ed; [done|]. injection Hp as <- <- <-. rewrite <- Ed.
    pose proof (diff_faithful now cfg cmd op cur (ic_State cmd) Hk Hc Ht Hop) as Hd.
    rewrite Eb in Hd. unfold optDiff in Hd |- *. cbn [fst] in Hd. by rewrite Hb in Hd.
Qed.

Lemma plan_faithful now cfg kind cmd cur ev newState deleted :
  planEvent grow dcap now cfg kind cmd cur = Ok (Planned ev newState deleted) ->
  clean (JObj (fst (viewOf cur))) = true -> faithfulWrite grow dcap cfg kind cmd cur ->
  planFaithful cur ev newState deleted /\ ev_EntityID ev = ic_EntityID cmd.
Proof.
  intros Hp Hc Hf. split.
  - destruct (str_eqb kind KindState) eqn:E1; [apply str_eqb_eq in E1 as ->; by eapply plan_state_faithful|].
    destruct (str_eqb kind KindDiff) eqn:E2; [apply str_eqb_eq in E2 as ->; by eapply plan_diff_faithful|].
    destruct (str_eqb kind KindDelete) eqn:E3; [apply str_eqb_eq in E3 as ->; by eapply plan_delete_faithful|].
    unfold planEvent in Hp. rewrite E1, E2, E3 in Hp. by destruct (baseState cur).
  - unfold planEvent in Hp. destruct (baseState cur). repeat case_match; try done; simplify_eq; done.
Qed.
End Plans.

(** ** Committing a planned event *)

Lemma snapOK_snoc (hist : list Event) (ev : Event) (s : Snapshot) : snapOK hist s -> snapOK (hist ++ [ev]) s.
Proof.
  intros (n & Hn & Hv & Hr). exists n. rewrite length_app, take_app_le by lia. cbn. split_and!; [lia|lia|done|done].
Qed.

(** One more event and the state it leads to. *)
Lemma consistent_snoc (hist : list Event) (cur : option CurrentState) (snaps : list Snapshot) (ev rb : Event) (newState : option state) (deleted : bool) (st' : CurrentState) :
  consistentData hist cur snaps -> planFaithful cur ev newState deleted ->
  ev_Version rb = (lastVersionOf hist + 1)%Z -> ev_Op rb = ev_Op ev -> ev_Changes rb = ev_Changes ev ->
  cs_Version st' = ev_Version rb -> cs_Deleted st' = deleted -> cs_State st' = newState ->
  consistentData (hist ++ [rb]) (Some st') snaps.
Proof.
  intros (Hg & Hv & Hn & Hc & Hr & Hs) (Hcs & _ & Hpf) Ev Eop Ech E1 E2 E3.
  assert (viewOf (Some st') = (emptyIfNil newState, deleted)) as Evw by (cbn; by rewrite E2, E3).
  assert (snd (baseState (Some st')) = cs_Version st') as Ebv by (cbn; by destruct (cs_Deleted st')).
  unfold consistentData. rewrite Evw, Ebv, E1, Ev. cbn [fst]. split_and!.
  - by apply gapfree_snoc.
  - rewrite length_app, (gapfree_last _ Hg). cbn. lia.
  - split; [done|]. intros []%app_eq_nil. done.
  - done.
  - rewrite (reconstruct_snoc hist cur rb Hr), Eop, Ech. cbv zeta in Hpf |- *.
    destruct (str_eqb (ev_Op ev) OpDelete); destruct Hpf as [-> Hpf]; [by rewrite Hpf|by rewrite Hpf].
  - eapply Forall_impl; [exact Hs|]. intros s. apply snapOK_snoc.
Qed.

Section Writes.
Context {W : Type} `{StoreLaws W} `{CollectionRepository W} {CF : ConfigFrame W}.
Variables grow dcap : nat -> nat.
Implicit Types (w : W) (c : ctx).

(** The best-effort effects of the ingester leave the entities alone. *)
Definition effectsFrame (ing : Ingester W) : Prop :=
  (forall f, in_rules ing = Some f -> forall c coll ev w, sameStore c w (f c coll ev w)) /\
  (forall h, in_plugins ing = Some h -> Forall (fun p => forall c ev w, sameStore c w (PostStore p c ev w)) (h_post h)).

Lemma consistent_same c w w' coll eid : sameStore c w w' -> consistent w c coll eid -> consistent w' c coll eid.
Proof. intros Hs Hc. unfold consistent. destruct (Hs coll eid) as (-> & -> & ->). done. Qed.

Lemma ensure_frame cr now c coll w : sameStore c w (snd (EnsureCollection cr now c coll w)).
Proof.
  unfold EnsureCollection. destruct (crGet cr now c coll w) as [[cfg|e] cr']; [apply sameStore_refl|].
  destruct e; try apply sameStore_refl. destruct (negb (cr_autoCreate cr')); [apply sameStore_refl|].
  pose proof (save_config_frame c (WithDefaults (bareConfig coll)) w) as Hs.
  destruct (SaveConfig c (WithDefaults (bareConfig coll)) w) as [[[]|e] w1]; [|exact Hs].
  pose proof (ensure_physical_frame c coll w1) as Hp.
  destruct (EnsurePhysical c coll w1) as [[[]|e] w2]; cbn in Hs, Hp;
    [|by eapply sameStore_trans].
  destruct (cacheKey c coll); by eapply sameStore_trans.
Qed.

Lemma commit_spec now c cmd ev newState deleted w cur ev2 w2 :
  cur = currentOf w c (ic_Collection cmd) (ic_EntityID cmd) ->
  consistent w c (ic_Collection cmd) (ic_EntityID cmd) -> planFaithful cur ev newState deleted ->
  ev_EntityID ev = ic_EntityID cmd ->
  commitEvent now c cmd ev newState deleted w = (Ok ev2, w2) ->
  let hist := history w2 c (ic_Collection cmd) (ic_EntityID cmd) in
  consistent w2 c (ic_Collection cmd) (ic_EntityID cmd) /\
  ev_Version ev2 = Z.of_nat (length hist) /\ 1 <= length hist /\
  Reconstruct None false hist = Ok (emptyIfNil newState, deleted) /\
  (forall eid, eid <> ic_EntityID cmd -> consistent w c (ic_Collection cmd) eid -> consistent w2 c (ic_Collection cmd) eid).
Proof.
  intros -> Hc Hpf Heid Hcm. unfold commitEvent in Hcm.
  destruct (AppendEvent c (ic_Collection cmd) now ev w) as [[ev'|e] w1] eqn:Ea; [|done].
  pose proof (proj1 (proj2 Hpf)) as Hwire.
  destruct (append_ok _ _ _ _ _ _ _ Ea Hwire) as (Eev & rb & Hh & Ev & Eop & Ech & _ & _ & Hoth & Hcur & Hsn).
  rewrite Heid in *.
  set (st := mkCurrentState (ic_EntityID cmd) (ev_Version ev') (ev_TSReceived ev') deleted newState) in *.
  destruct (CurUpsert c (ic_Collection cmd) st w1) as [[[]|e] w2'] eqn:Eu; [|done].
  injection Hcm as <- <-.
  destruct (cur_upsert_frame _ _ _ _ _ _ Eu) as (_ & Hh2 & Hs2).
  destruct (cur_upsert _ _ _ _ _ Eu) as (Hcu & Hco).
  { apply clean_wire. apply Hpf. }
  change (cs_EntityID st) with (ic_EntityID cmd) in Hcu, Hco.
  assert (ev_Op ev' = ev_Op ev /\ ev_Changes ev' = ev_Changes ev /\
    ev_Version ev' = (lastVersionOf (history w c (ic_Collection cmd) (ic_EntityID cmd)) + 1)%Z) as (Eo' & Ec' & Ev').
  { rewrite Eev. unfold stampStored. by destruct (ev_TSStored _ =? 0)%Z. }
  assert (consistent w2' c (ic_Collection cmd) (ic_EntityID cmd)) as Hc2.
  { unfold consistent. rewrite Hh2, Hs2, Hh, Hcu, Hsn.
    eapply consistent_snoc; [exact Hc|exact Hpf|congruence|congruence|congruence|done..]. }
  cbv zeta. rewrite Hh2, Hh, length_app. cbn. split_and!; [done| |lia| |].
  - destruct Hc as (Hg & _). rewrite Ev', (gapfree_last _ Hg). lia.
  - destruct Hc2 as (_ & _ & _ & _ & Hr & _). rewrite Hh2, Hh, Hcu in Hr. exact Hr.
  - intros eid Hne Hce. unfold consistent. by rewrite Hh2, Hs2, Hoth, Hco, Hcur, Hsn by done.
Qed.

Lemma build_consistent builder c coll eid version ts newState deleted interval w :
  consistent w c coll eid -> clean (JObj (emptyIfNil newState)) = true ->
  1 <= length (history w c coll eid) ->
  version = Z.of_nat (length (history w c coll eid)) ->
  Reconstruct None false (history w c coll eid) = Ok (emptyIfNil newState, deleted) ->
  let w' := Build builder c coll eid version ts newState deleted interval w in
  consistent w' c coll eid /\
  (forall eid', eid' <> eid -> consistent w c coll eid' -> consistent w' c coll eid').
Proof.
  intros Hc Hcl Hlen Hv Hr. unfold Build. destruct (negb builder || negb (ShouldSnapshot version interval)); [done|].
  set (sn := mkSnapshot eid version ts deleted newState).
  destruct (SnapSave c coll sn w) as [r w'] eqn:Es. cbn.
  destruct (snap_save _ _ _ _ _ _ Es) as (Hh & Hcu & Hsn); [by apply clean_wire|].
  split.
  - unfold consistent. rewrite Hh, Hcu. destruct Hc as (Hg & Hbv & Hn & Hclv & Hrv & Hsv).
    split_and!; try done. rewrite List.Forall_forall in *. intros s [Hin|[_ ->]]%Hsn; [by apply Hsv|].
    exists (length (history w c coll eid)). cbn. rewrite take_ge by lia. split_and!; [lia|lia|done|done].
  - intros eid' Hne (Hg & Hbv & Hn & Hclv & Hrv & Hsv). unfold consistent. rewrite Hh, Hcu.
    split_and!; try done. rewrite List.Forall_forall in *. intros s [Hin|[-> _]]%Hsn; [by apply Hsv|done].
Qed.

Lemma effects_same ing c cfg coll ev w :
  effectsFrame ing -> sameStore c w (RunPostStore (in_plugins ing) c cfg ev (evaluateRules ing c coll ev w)).
Proof.
  intros [Hr Hp]. eapply sameStore_trans with (w2 := evaluateRules ing c coll ev w).
  - unfold evaluateRules. destruct (in_rules ing) as [f|] eqn:E; [by apply (Hr f)|apply sameStore_refl].
  - unfold RunPostStore. destruct (in_plugins ing) as [h|]; [|apply sameStore_refl].
    specialize (Hp h eq_refl). generalize (evaluateRules ing c coll ev w). induction Hp as [|p ps Hp _ IH]; intros w'; cbn; [apply sameStore_refl|].
    destruct (pluginEnabled cfg (post_Name p)); [|apply IH]. eapply sameStore_trans; [apply Hp|apply IH].
Qed.

(** [applyOne] up to the plan. *)
Lemma prepare_spec cr now c cmd w cfg cur cr' w1 :
  prepare cr now c cmd w = (Ok (cfg, cur), cr', w1) ->
  sameStore c w w1 /\ cur = currentOf w1 c (ic_Collection cmd) (ic_EntityID cmd).
Proof.
  unfold prepare. pose proof (ensure_frame cr now c (ic_Collection cmd) w) as Hf.
  destruct (EnsureCollection cr now c (ic_Collection cmd) w) as [[[cfg'|e] cr1] w']; [|done]. cbn in Hf.
  unfold load_current. pose proof (cur_get c (ic_Collection cmd) (ic_EntityID cmd) w') as Hg.
  destruct (CurGet c (ic_Collection cmd) (ic_EntityID cmd) w') as [st|e].
  - intros [= <- <- <- <-]. done.
  - destruct e; try done. intros [= <- <- <- <-]. done.
Qed.

Lemma preStore_core ing c cfg cmd cur ev w ev1 : preStore ing c cfg cmd cur ev w = Ok ev1 -> sameCore ev ev1.
Proof.
  unfold preStore. destruct (HasPreStore (in_plugins ing) cfg); [|intros [= ->]; apply sameCore_refl].
  destruct (lastEvent c (ic_Collection cmd) (ic_EntityID cmd) w) as [l|]; [|done]. unfold RunPreStore.
  destruct (in_plugins ing) as [h|]; [|intros [= ->]; apply sameCore_refl].
  destruct (runPre _ _ _ _ _) as [r ct] eqn:E. cbn. intros ->. by eapply runPre_core.
Qed.

Lemma planFaithful_core cur ev ev1 newState deleted :
  sameCore ev ev1 -> planFaithful cur ev newState deleted -> planFaithful cur ev1 newState deleted.
Proof. unfold sameCore, planFaithful. intros (_ & _ & -> & _ & _ & _ & _ & _ & _ & _ & -> & _). done. Qed.

(** A write leaves every entity of the collection consistent. *)
Lemma applyOne_consistent ing cr now c kind cmd w r cr' w' :
  effectsFrame ing ->
  (forall cfg cur cr1 w1, prepare cr now c cmd w = (Ok (cfg, cur), cr1, w1) -> faithfulWrite grow dcap cfg kind cmd cur) ->
  consistent w c (ic_Collection cmd) (ic_EntityID cmd) ->
  applyOne grow dcap ing cr now c kind cmd w = (Ok r, cr', w') ->
  consistent w' c (ic_Collection cmd) (ic_EntityID cmd) /\
  (forall eid, eid <> ic_EntityID cmd -> consistent w c (ic_Collection cmd) eid -> consistent w' c (ic_Collection cmd) eid).
Proof.
  intros Hfx Hfw Hc. unfold applyOne.
  destruct (prepare cr now c cmd w) as [[[[cfg cur]|e] cr1] w1] eqn:Ep; [|done].
  specialize (Hfw _ _ _ _ eq_refl). destruct (prepare_spec _ _ _ _ _ _ _ _ _ Ep) as [Hs Hcur].
  apply (consistent_same _ _ _ _ _ Hs) in Hc.
  assert (forall eid, consistent w c (ic_Collection cmd) eid -> consistent w1 c (ic_Collection cmd) eid) as Hoth
    by (intros eid; by apply consistent_same).
  destruct (negb (versionMatches (ic_ExpectedVersion cmd) (snd (baseState cur)))); [done|].
  destruct (planEvent grow dcap now cfg kind cmd cur) as [[|ev newState deleted]|e] eqn:Epl; [by intros [= _ _ <-]; eauto| |done].
  assert (clean (JObj (fst (viewOf cur))) = true) as Hcl by (rewrite Hcur; apply Hc).
  destruct (plan_faithful _ _ _ _ _ _ _ _ _ _ Epl Hcl Hfw) as [Hpf Heid].
  destruct (preStore ing c cfg cmd cur ev w1) as [ev1|e] eqn:Eps; [|done].
  pose proof (preStore_core _ _ _ _ _ _ _ _ Eps) as Hcore.
  apply (planFaithful_core _ _ _ _ _ Hcore) in Hpf.
  assert (ev_EntityID ev1 = ic_EntityID cmd) as Heid1 by (rewrite <- Heid; apply Hcore).
  destruct (commitEvent now c cmd ev1 newState deleted w1) as [[ev2|e] w2] eqn:Ecm.
  - intros [= _ _ <-].
    destruct (commit_spec _ _ _ _ _ _ _ _ _ _ Hcur Hc Hpf Heid1 Ecm) as (Hc2 & Hv & Hl & Hr & Ho2).
    destruct (build_consistent (in_snapshots ing) c _ _ (ev_Version ev2) (ev_TSReceived ev2) newState deleted
      (cfg_SnapshotInterval cfg) w2 Hc2 (proj1 Hpf) Hl Hv Hr) as [Hc3 Ho3].
    split; [|intros eid Hne Hce]; (eapply consistent_same; [by apply effects_same|]); [done|].
    apply Ho3; [done|]. apply Ho2; [done|]. auto.
  - destruct e; try done. intros [= _ _ <-]. unfold commitEvent in Ecm.
    destruct (AppendEvent c (ic_Collection cmd) now ev1 w1) as [[ev'|e] w1'] eqn:Ea.
    + destruct (CurUpsert c _ _ w1') as [[[]|e] w2'] eqn:Eu; [done|]. injection Ecm as -> ->.
      destruct (cur_upsert_frame _ _ _ _ _ _ Eu) as [[] _]. done.
    + injection Ecm as -> ->. destruct (append_dup _ _ _ _ _ _ Ea) as (Hh & Hcu & Hsn).
      unfold consistent in *. split; [by rewrite Hh, Hcu, Hsn|]. intros eid Hne Hce. rewrite Hh, Hcu, Hsn. auto.
Qed.

End Writes.
