(* ===== verification/MemStore.v ===== *)
(** * A store in memory

    The simplest instance of the storage interfaces of [Repo.v] and [Config.v]: one
    association list per kind of document.  It shows that the laws the use-cases are
    verified against can hold, and the witnesses run on it. *)

From stdpp Require Import base list strings.
From Stdlib Require Import ZArith Lia.
From S2P Require Import Prelude GoMap Json Paths Diff DiffSound Domain Tenant Config Repo.

Record mem := mkMem {
  mem_events : list (string * Event);
  mem_current : list (string * CurrentState);
  mem_snaps : list (string * Snapshot);
  mem_configs : list (string * CollectionConfig) }.

Definition mem0 : mem := mkMem [] [] [] [].

(** Tenants are separated by database, as in the connection manager. *)
Definition scope (c : ctx) (coll : string) : string :=
  match c with Some p => DatabaseName (p_Tenant p) | None => "" end +:+ "|" +:+ coll.

Definition evHere (c : ctx) (coll eid : string) (e : string * Event) : bool :=
  str_eqb (fst e) (scope c coll) && str_eqb (ev_EntityID (snd e)) eid.

Definition memHistory (w : mem) (c : ctx) (coll eid : string) : list Event :=
  map snd (List.filter (evHere c coll eid) (mem_events w)).

Definition memCurrent (w : mem) (c : ctx) (coll eid : string) : option CurrentState :=
  option_map snd (find (fun e => str_eqb (fst e) (scope c coll) && str_eqb (cs_EntityID (snd e)) eid) (mem_current w)).

Definition memSnaps (w : mem) (c : ctx) (coll eid : string) : list Snapshot :=
  map snd (List.filter (fun e => str_eqb (fst e) (scope c coll) && str_eqb (sn_EntityID (snd e)) eid) (mem_snaps w)).

Definition memDup (c : ctx) (coll id : string) (w : mem) : bool :=
  negb (str_eqb id "") && existsb (fun e => str_eqb (fst e) (scope c coll) && str_eqb (ev_EventID (snd e)) id) (mem_events w).

Definition memAppend (c : ctx) (coll : string) (now : time) (ev : Event) (w : mem) : res err Event * mem :=
  if memDup c coll (ev_EventID ev) w then (Err ErrDuplicateEvent, w)
  else
    let ev' := stampStored (setVersion ev (lastVersionOf (memHistory w c coll (ev_EntityID ev)) + 1)) now in
    (Ok ev', mkMem (mem_events w ++ [(scope c coll, ev')]) (mem_current w) (mem_snaps w) (mem_configs w)).

Definition memAppendMany (c : ctx) (coll : string) (now : time) (evs : list Event) (w : mem) : res err (list Event) * mem :=
  let evs' := map (fun ev => stampStored ev now) evs in
  (Ok evs', mkMem (mem_events w ++ map (pair (scope c coll)) evs') (mem_current w) (mem_snaps w) (mem_configs w)).

#[export] Instance mem_event_repo : EventRepository mem := {
  AppendEvent := memAppend;
  AppendEvents := memAppendMany;
  LastEvent c coll eid w := match last (memHistory w c coll eid) with Some ev => Ok ev | None => Err ErrNotFound end;
  ListEvents c coll f w := Ok (listByVersion f (memHistory w c coll (f_EntityID f))) }.

#[export] Instance mem_current_repo : CurrentRepository mem := {
  CurGet c coll eid w := match memCurrent w c coll eid with Some st => Ok st | None => Err ErrNotFound end;
  CurUpsert c coll st w :=
    (Ok tt, mkMem (mem_events w) ((scope c coll, st) :: mem_current w) (mem_snaps w) (mem_configs w)) }.

#[export] Instance mem_snap_repo : SnapshotRepository mem := {
  SnapSave c coll sn w :=
    (Ok tt, mkMem (mem_events w) (mem_current w) ((scope c coll, sn) :: mem_snaps w) (mem_configs w));
  SnapNearest c coll eid v w :=
    match List.filter (fun s => (sn_Version s <=? v)%Z) (memSnaps w c coll eid) with
    | s :: _ => Ok s
    | [] => Err ErrNotFound
    end }.

#[export] Instance mem_config_repo : CollectionRepository mem := {
  GetConfig c n w := match mget (scope c n) (mem_configs w) with Some cfg => Ok cfg | None => Err ErrNotFound end;
  SaveConfig c cfg w :=
    (Ok tt, mkMem (mem_events w) (mem_current w) (mem_snaps w) (mset (scope c (cfg_Name cfg)) cfg (mem_configs w)));
  EnsurePhysical c n w := (Ok tt, w) }.

Lemma memHistory_snoc w c coll eid e cu sn cf :
  memHistory (mkMem (mem_events w ++ [e]) cu sn cf) c coll eid =
  memHistory w c coll eid ++ (if evHere c coll eid e then [snd e] else []).
Proof.
  unfold memHistory. cbn [mem_events]. rewrite List.filter_app, map_app. cbn. by destruct (evHere c coll eid e).
Qed.

Lemma stampStored_entity ev now : ev_EntityID (stampStored ev now) = ev_EntityID ev.
Proof. unfold stampStored. by destruct (ev_TSStored ev =? 0)%Z. Qed.

#[export] Instance mem_store_laws : StoreLaws mem.
Proof.
  refine {| history := memHistory; currentOf := memCurrent; snapsOf := memSnaps; resolution := fun t => t |}.
  - intros c coll now ev w ev' w' Ha _. cbn in Ha. unfold memAppend in Ha.
    destruct (memDup c coll (ev_EventID ev) w); [done|]. injection Ha as <- <-. split; [done|].
    eexists. split_and!; try done.
    + rewrite memHistory_snoc. unfold evHere. cbn [fst snd]. rewrite stampStored_entity. cbn [setVersion ev_EntityID].
      by rewrite !str_eqb_refl.
    + intros eid Hne. rewrite memHistory_snoc. unfold evHere. cbn [fst snd]. rewrite stampStored_entity. cbn [setVersion ev_EntityID].
      apply not_eq_sym, str_eqb_neq in Hne. by rewrite Hne, andb_false_r, app_nil_r.
  - intros c coll now ev w w' Ha. cbn in Ha. unfold memAppend in Ha.
    destruct (memDup c coll (ev_EventID ev) w); [|done]. by injection Ha as <-.
  - intros w c coll eid ev Hin. apply in_map_iff in Hin as ([s e] & <- & Hf).
    apply filter_In in Hf as [_ Hf]. apply andb_true_iff in Hf as [_ Hf]. by apply str_eqb_eq.
  - intros c coll eid w. cbn. destruct (last (memHistory w c coll eid)) eqn:E; [done|]. by apply last_None in E.
  - intros c coll f w l _ _ [= <-]. done.
  - intros c coll eid w. cbn. by destruct (memCurrent w c coll eid).
  - intros c coll st w w' [= <-] _. unfold memCurrent. cbn [mem_current find fst snd]. split; [rewrite !str_eqb_refl; by destruct st|].
    intros eid Hne. apply not_eq_sym, str_eqb_neq in Hne. by rewrite Hne, andb_false_r.
  - intros c coll st w r w' [= <- <-]. done.
  - intros c coll sn w r w' [= <- <-] _. split_and!; [done..|]. intros eid s. unfold memSnaps. cbn [mem_snaps List.filter fst snd].
    rewrite str_eqb_refl. cbn [andb]. destruct (str_eqb (sn_EntityID sn) eid) eqn:E; [|by left]. cbn [map snd].
    apply str_eqb_eq in E as <-. intros [<-|Hin]; [right; split; [done|by destruct sn]|by left].
  - intros c coll eid v w s. cbn. destruct (List.filter _ (memSnaps w c coll eid)) as [|s' l] eqn:E; [done|].
    intros [= ->]. assert (In s (s :: l)) as Hin by (by left). rewrite <- E in Hin.
    apply filter_In in Hin as [? ?]. split; [done|lia].
Defined.

#[export] Instance mem_config_frame : ConfigFrame mem.
Proof. split; done. Defined.
