(* ===== verification/Read.v ===== *)
(** * Reads (internal/service/read.go)

    [StateAt] resolves a target version, anchors on the nearest snapshot and replays the
    tail.  Its result is shown equal to a genesis replay of the history up to the target
    version, whatever snapshots exist. *)

From stdpp Require Import base list strings.
From Stdlib Require Import ZArith Lia.
From S2P Require Import Prelude GoMap Json Paths Diff DiffSound Domain Tenant Config Alias Repo Plugin Ingest IngestSound MemStore.

Record PointInTimeQuery := mkQuery { q_Version : option Z; q_At : option time }.

Record ReconstructedState := mkReconstructed {
  rs_EntityID : string; rs_Version : Z; rs_TS : time; rs_Deleted : bool; rs_State : state;
  rs_SnapshotVersion : Z; rs_EventsApplied : Z }.

Section Reader.
Context {W : Type} `{EventRepository W} `{CurrentRepository W} `{SnapshotRepository W}.
(** A snapshot store is wired. *)
Variable snapshots : bool.

Definition ReadHistory (c : ctx) (coll : string) (f : EventFilter) (w : W) : res err (list Event) := ListEvents c coll f w.
Definition ReadCurrent (c : ctx) (coll eid : string) (w : W) : res err CurrentState := CurGet c coll eid w.

Definition resolveTarget (c : ctx) (coll eid : string) (last : Event) (q : PointInTimeQuery) (w : W) : res err Z :=
  match q_Version q, q_At q with
  | Some v, _ => Ok (Z.min v (ev_Version last))
  | None, Some at_ =>
      match ListEvents c coll (mkFilter eid 0 at_ "" "" "" "" OrderVersion OrderDesc 1 None 0) w with
      | Err e => Err e
      | Ok [] => Err ErrNotFound
      | Ok (ev :: _) => Ok (ev_Version ev)
      end
  | None, None => Ok (ev_Version last)
  end.

Definition anchor (c : ctx) (coll eid : string) (target : Z) (w : W) : option state * bool * Z * time :=
  if negb snapshots then (None, false, 0%Z, 0%Z)
  else
    match SnapNearest c coll eid target w with
    | Err _ => (None, false, 0%Z, 0%Z)
    | Ok snap => (sn_State snap, sn_Deleted snap, sn_Version snap, sn_TS snap)
    end.

Definition tailFilter (eid : string) (target snapVersion : Z) : EventFilter :=
  mkFilter eid 0 0 "" "" "" "" OrderVersion OrderAsc 0
    (if (0 <? snapVersion)%Z then Some (mkPosition snapVersion 0) else None) target.

Definition StateAt (c : ctx) (coll eid : string) (q : PointInTimeQuery) (w : W) : res err ReconstructedState :=
  match LastEvent c coll eid w with
  | Err e => Err e
  | Ok last_ =>
      match resolveTarget c coll eid last_ q w with
      | Err e => Err e
      | Ok target =>
          let '(base, baseDeleted, snapVersion, snapTS) := anchor c coll eid target w in
          match ListEvents c coll (tailFilter eid target snapVersion) w with
          | Err e => Err e
          | Ok tail =>
              match Reconstruct base baseDeleted tail with
              | Err _ => Err (ErrInternal "reconstruct")
              | Ok (st, deleted) =>
                  let ts := match last tail with Some ev => ev_TSReceived ev | None => snapTS end in
                  Ok (mkReconstructed eid target ts deleted st snapVersion (Z.of_nat (length tail)))
              end
          end
      end
  end.
End Reader.

(** ** Lemmas *)

Lemma reconstruct_empty (base : option state) (d : bool) (evs : list Event) :
  Reconstruct base d evs = Reconstruct (Some (emptyIfNil base)) d evs.
Proof. unfold Reconstruct. by destruct base. Qed.

Lemma filter_all {A : Type} (f : A -> bool) (l : list A) : (forall x, In x l -> f x = true) -> List.filter f l = l.
Proof.
  induction l as [|x l IH]; intros Hf; cbn; [done|]. rewrite (Hf x) by (by left). f_equal. apply IH.
  intros y Hy. apply Hf. by right.
Qed.

(** The tail a version window selects. *)
Lemma tail_window (hist : list Event) (eid : string) (lo hi : nat) :
  gapfree hist -> 1 <= hi ->
  listByVersion (tailFilter eid (Z.of_nat hi) (Z.of_nat lo)) hist = drop lo (take hi hist).
Proof.
  intros Hg Hhi. rewrite <- gapfree_window by done. unfold listByVersion, limited. cbn -[List.filter Z.of_nat].
  apply List.filter_ext_in. intros ev Hin. apply list_elem_of_In, list_elem_of_lookup in Hin as [n Hn].
  pose proof (gapfree_lookup _ _ _ Hg Hn) as Hv. unfold filterMatches, afterVersion, tailFilter, optEq. cbn -[Z.of_nat].
  rewrite Hv. destruct (Z.leb_spec (Z.of_nat hi) 0); [lia|]. cbn -[Z.of_nat].
  destruct (Z.ltb_spec 0 (Z.of_nat lo)); cbn -[Z.of_nat]; [done|].
  f_equal. symmetry. apply Z.ltb_lt. lia.
Qed.

(** Every prefix of a history that replays, replays. *)
Lemma reconstruct_prefix (hist : list Event) (r : state * bool) (n : nat) :
  Reconstruct None false hist = Ok r -> exists r', Reconstruct None false (take n hist) = Ok r'.
Proof.
  intros Hr. rewrite <- (take_drop n hist) in Hr. unfold Reconstruct in *. rewrite replay_app in Hr by done.
  destruct (replay _ _ false (take n hist)) as [r'|]; [by exists r'|done].
Qed.

Section StateAt.
Context {W : Type} `{StoreLaws W}.

(** The store answers: no read of this entity fails but for a missing entity. *)
Definition readsOK (w : W) (c : ctx) (coll eid : string) : Prop :=
  (forall f, f_EntityID f = eid -> exists l, ListEvents c coll f w = Ok l) /\
  (forall e, LastEvent c coll eid w = Err e -> e = ErrNotFound).

Lemma anchor_spec snapshots w c coll eid (t : nat) base bd sv sts :
  consistent w c coll eid -> t <= length (history w c coll eid) ->
  anchor snapshots c coll eid (Z.of_nat t) w = (base, bd, sv, sts) ->
  exists n, sv = Z.of_nat n /\ n <= t /\
    Reconstruct None false (take n (history w c coll eid)) = Ok (emptyIfNil base, bd).
Proof.
  intros Hc Ht. unfold anchor. destruct (negb snapshots); [intros [= <- <- <- <-]; by exists 0; split_and!; [|lia|]|].
  destruct (SnapNearest c coll eid (Z.of_nat t) w) as [s|e] eqn:Es; [|intros [= <- <- <- <-]; by exists 0; split_and!; [|lia|]].
  intros [= <- <- <- <-]. destruct (snap_nearest _ _ _ _ _ _ Es) as [Hin Hle].
  destruct Hc as (_ & _ & _ & _ & _ & Hs). rewrite List.Forall_forall in Hs.
  destruct (Hs s Hin) as (n & Hn & Hv & Hr). exists n. split_and!; [done|lia|done].
Qed.

(** With a target resolved, the read is a genesis replay up to it. *)
Lemma stateAt_target snapshots w c coll eid q ev (t : nat) :
  consistent w c coll eid -> readsOK w c coll eid -> eid <> "" ->
  LastEvent c coll eid w = Ok ev -> resolveTarget c coll eid ev q w = Ok (Z.of_nat t) ->
  1 <= t <= length (history w c coll eid) ->
  exists rs, StateAt snapshots c coll eid q w = Ok rs /\ rs_EntityID rs = eid /\ rs_Version rs = Z.of_nat t /\
    Reconstruct None false (take t (history w c coll eid)) = Ok (rs_State rs, rs_Deleted rs).
Proof.
  intros Hc Hok Hne Hl Ht Hr. unfold StateAt. rewrite Hl, Ht.
  destruct (anchor snapshots c coll eid (Z.of_nat t) w) as [[[base bd] sv] sts] eqn:Ea.
  destruct (anchor_spec _ _ _ _ _ _ _ _ _ _ Hc (proj2 Hr) Ea) as (n & -> & Hn & Hrec).
  destruct (proj1 Hok (tailFilter eid (Z.of_nat t) (Z.of_nat n)) eq_refl) as [tail Htail]. rewrite Htail.
  apply list_events in Htail; [|done..]. cbn [f_EntityID tailFilter] in Htail.
  rewrite tail_window in Htail; [|apply Hc|lia].
  assert (Reconstruct None false (take t (history w c coll eid)) = Reconstruct base bd tail) as Heq.
  { rewrite reconstruct_empty. rewrite (reconstruct_empty base), <- (reconstruct_resume _ _ _ _ _ _ Hrec).
    rewrite <- reconstruct_empty. f_equal. rewrite Htail.
    rewrite <- (take_drop n (take t (history w c coll eid))) at 1. rewrite take_take. by rewrite Nat.min_l by lia. }
  destruct Hc as (_ & _ & _ & _ & Hrv & _). destruct (reconstruct_prefix _ _ t Hrv) as [[st d] Hp].
  rewrite Hp in Heq |- *. rewrite <- Heq. eexists. split; [reflexivity|]. done.
Qed.
End StateAt.
