(* ===== verification/Consistency.v ===== *)
(** * The core guarantees of the write and read paths

    Proved against the storage interfaces; the witnesses run the whole path on the store
    in memory. *)

From stdpp Require Import base list strings.
From Stdlib Require Import ZArith Lia.
From S2P Require Import Prelude GoMap Json Paths Diff DiffSound Domain Tenant Config Alias AliasSound Repo Plugin Ingest DiffValues IngestSound MemStore Read.

(** C1: Writes keep the materializations honest.  Whatever plugins and rules are wired,
    a synchronous write that reports success (stored, no change or duplicate) leaves the
    entity consistent: its versions are 1, 2, ..., n, its current state is exactly what
    replaying its history from genesis gives, deleted flag included, and every snapshot
    agrees with the replay up to its version; the other entities of the collection stay
    consistent too.  The write is in the scope of [faithfulWrite]. *)
Theorem write_preserves_consistency {W : Type} `{StoreLaws W} `{CollectionRepository W} {CF : ConfigFrame W}
    (grow dcap : nat -> nat) (ing : Ingester W) (cr cr' : ConfigResolver) (now : time) (c : ctx) (kind : string) (cmd : IngestCommand) (w w' : W) (r : IngestResult) :
  effectsFrame ing ->
  (forall cfg cur cr1 w1, prepare cr now c cmd w = (Ok (cfg, cur), cr1, w1) -> faithfulWrite grow dcap cfg kind cmd cur) ->
  consistent w c (ic_Collection cmd) (ic_EntityID cmd) ->
  applyOne grow dcap ing cr now c kind cmd w = (Ok r, cr', w') ->
  consistent w' c (ic_Collection cmd) (ic_EntityID cmd) /\
  (forall eid, eid <> ic_EntityID cmd -> consistent w c (ic_Collection cmd) eid -> consistent w' c (ic_Collection cmd) eid).
Proof. apply applyOne_consistent. Qed.

(** ** Reads *)

Lemma consistent_last {W : Type} `{StoreLaws W} (w : W) c coll eid ev :
  consistent w c coll eid -> LastEvent c coll eid w = Ok ev ->
  1 <= length (history w c coll eid) /\ ev_Version ev = Z.of_nat (length (history w c coll eid)).
Proof.
  intros (Hg & _) Hl. pose proof (last_event c coll eid w) as Hle. rewrite Hl in Hle.
  pose proof (gapfree_last _ Hg) as Hv. unfold lastVersionOf in Hv. rewrite Hle in Hv.
  destruct (history w c coll eid); [done|]. cbn in *. split; [lia|done].
Qed.

Lemma last_ok {W : Type} `{StoreLaws W} (w : W) c coll eid :
  readsOK w c coll eid -> history w c coll eid <> [] -> exists ev, LastEvent c coll eid w = Ok ev.
Proof.
  intros [_ Hl] Hne. pose proof (last_event c coll eid w) as Hle.
  destruct (LastEvent c coll eid w) as [ev|e]; [by exists ev|]. by rewrite (Hl e) in Hle.
Qed.

Lemma last_head {A : Type} (l : list A) : head (rev l) = last l.
Proof. destruct l as [|x l _] using rev_ind; [done|]. by rewrite rev_app_distr, last_snoc. Qed.

(** The newest event received at or before a time. *)
Definition lastReceivedBy (at_ : time) (hist : list Event) : option Event :=
  last (List.filter (fun ev => (ev_TSReceived ev <=? at_)%Z) hist).

Lemma resolve_at {W : Type} `{StoreLaws W} (w : W) c coll eid ev at_ :
  readsOK w c coll eid -> eid <> "" -> at_ <> 0%Z ->
  resolveTarget c coll eid ev (mkQuery None (Some at_)) w =
  match lastReceivedBy at_ (history w c coll eid) with Some e => Ok (ev_Version e) | None => Err ErrNotFound end.
Proof.
  intros [Hl _] Hne Hat. unfold resolveTarget. cbn [q_Version q_At].
  destruct (Hl (mkFilter eid 0 at_ "" "" "" "" OrderVersion OrderDesc 1 None 0) eq_refl) as [l El]. rewrite El.
  apply list_events in El; [|done..]. cbn [f_EntityID] in El.
  assert (l = take 1 (rev (List.filter (fun ev => (ev_TSReceived ev <=? at_)%Z) (history w c coll eid)))) as ->.
  { rewrite El. unfold listByVersion, limited. cbn -[List.filter take rev]. do 2 f_equal.
    apply List.filter_ext. intros e. unfold filterMatches, afterVersion, optEq. cbn.
    destruct (Z.eqb_spec at_ 0); [done|]. cbn. by rewrite !andb_true_r. }
  unfold lastReceivedBy. rewrite <- last_head. by destruct (rev _).
Qed.

(** C5: Point-in-time reads are genesis replays.  On a consistent entity whose store
    answers, a read at version [v >= 1] returns the replay of the first [min v n] events,
    a read at a time returns the replay up to the newest event received at or before it
    (not found when there is none), and a read without a target returns the current
    state; snapshots never change the answer, and the read never fails otherwise. *)
Theorem state_at_correct {W : Type} `{StoreLaws W} (snapshots : bool) (w : W) (c : ctx) (coll eid : string) :
  consistent w c coll eid -> readsOK w c coll eid -> eid <> "" -> history w c coll eid <> [] ->
  let hist := history w c coll eid in
  let returns q (n : nat) := exists rs, StateAt snapshots c coll eid q w = Ok rs /\ rs_EntityID rs = eid /\
    rs_Version rs = Z.of_nat n /\ Reconstruct None false (take n hist) = Ok (rs_State rs, rs_Deleted rs) in
  (forall v at_, (1 <= v)%Z -> returns (mkQuery (Some v) at_) (Nat.min (Z.to_nat v) (length hist))) /\
  (forall at_, at_ <> 0%Z ->
     match lastReceivedBy at_ hist with
     | Some ev => returns (mkQuery None (Some at_)) (Z.to_nat (ev_Version ev))
     | None => StateAt snapshots c coll eid (mkQuery None (Some at_)) w = Err ErrNotFound
     end) /\
  (exists rs st, StateAt snapshots c coll eid (mkQuery None None) w = Ok rs /\
     currentOf w c coll eid = Some st /\ rs_Version rs = cs_Version st /\
     rs_Deleted rs = cs_Deleted st /\ rs_State rs = emptyIfNil (cs_State st)).
Proof.
  intros Hc Hok Hne Hh hist returns. destruct (last_ok w c coll eid Hok Hh) as [ev Hl].
  destruct (consistent_last w c coll eid ev Hc Hl) as [Hlen Hv].
  split_and!.
  - intros v at_ Hv1. eapply stateAt_target; [done..| |subst hist; lia]. cbn. f_equal. subst hist. lia.
  - intros at_ Hat. pose proof (resolve_at w c coll eid ev at_ Hok Hne Hat) as Hres.
    subst hist. destruct (lastReceivedBy at_ (history w c coll eid)) as [e|] eqn:El.
    + unfold lastReceivedBy in El. apply last_Some_elem_of, list_elem_of_In, filter_In in El as [Hin _].
      apply list_elem_of_In, list_elem_of_lookup in Hin as [n Hn]. pose proof (gapfree_lookup _ _ _ (proj1 Hc) Hn) as Hve.
      assert (n < length (history w c coll eid)) by (by eapply lookup_lt_Some).
      rewrite Hve in *. rewrite Nat2Z.id. eapply stateAt_target; [done..|lia].
    + unfold StateAt. by rewrite Hl, Hres.
  - destruct (stateAt_target snapshots w c coll eid (mkQuery None None) ev (length hist) Hc Hok Hne Hl) as (rs & E & _ & Ev & Hr).
    { cbn. by rewrite Hv. }
    { subst hist. lia. }
    subst hist. rewrite take_ge in Hr by lia. destruct Hc as (_ & Hbv & Hn & _ & Hrec & _).
    destruct (currentOf w c coll eid) as [st|] eqn:Ec; [|by destruct Hh; apply Hn].
    exists rs, st. rewrite Hrec in Hr. injection Hr as E1 E2. split_and!; [done|done| |done|done].
    rewrite Ev, <- Hbv. cbn. by destruct (cs_Deleted st).
Qed.

(** ** Sequences of writes *)

Section Sequences.
Context {W : Type} `{StoreLaws W} `{CollectionRepository W} {CF : ConfigFrame W}.
Variables (grow dcap : nat -> nat) (ing : Ingester W) (c : ctx) (coll : string).

(** A full-state write or a delete on a collection without array keys. *)
Definition plainWrite (cr : ConfigResolver) (now : time) (kind : string) (cmd : IngestCommand) (w : W) : Prop :=
  ic_Collection cmd = coll /\
  (kind = KindDelete \/ kind = KindState /\ ic_Op cmd <> OpDelete /\ clean (JObj (emptyIfNil (ic_State cmd))) = true) /\
  forall cfg cur cr1 w1, prepare cr now c cmd w = (Ok (cfg, cur), cr1, w1) -> cfg_ArrayKeys cfg = [].

(** The worlds successful plain writes lead to. *)
Inductive written : W -> W -> Prop :=
| written_refl w : written w w
| written_step w w1 w2 cr cr' now kind cmd r :
    written w w1 -> plainWrite cr now kind cmd w1 ->
    applyOne grow dcap ing cr now c kind cmd w1 = (Ok r, cr', w2) -> written w w2.

Lemma plain_faithful cr now kind cmd w cfg cur cr1 w1 :
  plainWrite cr now kind cmd w -> prepare cr now c cmd w = (Ok (cfg, cur), cr1, w1) ->
  faithfulWrite grow dcap cfg kind cmd cur.
Proof.
  intros (_ & Hk & Hcfg) Hp. specialize (Hcfg _ _ _ _ Hp).
  destruct Hk as [-> |(-> & Hop & Hcl)]; split; done.
Qed.

Lemma written_consistent w w' :
  effectsFrame ing -> written w w' -> (forall eid, consistent w c coll eid) -> forall eid, consistent w' c coll eid.
Proof.
  intros Hfx Hw Hc. induction Hw as [|w w1 w2 cr cr' now kind cmd r _ IH Hp Ha]; [done|].
  specialize (IH Hc). intros eid. pose proof (proj1 Hp) as Ecoll.
  destruct (applyOne_consistent grow dcap ing cr now c kind cmd w1 r cr' w2 Hfx) as [H1' H2'].
  - intros cfg cur cr1 w1' Hpr. by eapply plain_faithful.
  - rewrite Ecoll. apply IH.
  - done.
  - rewrite Ecoll in *. destruct (decide (eid = ic_EntityID cmd)) as [->|Hne]; [done|]. apply H2'; [done|apply IH].
Qed.

End Sequences.

(** Reachable states.  Starting from a collection without any entity, after any
    sequence of successful full-state writes and deletes (of any entities, with any
    explicit op but delete on a state write) every entity of the collection is
    consistent: current state and snapshots agree with the history. *)
Theorem reachable_consistent {W : Type} `{StoreLaws W} `{CollectionRepository W} {CF : ConfigFrame W}
    (grow dcap : nat -> nat) (ing : Ingester W) (c : ctx) (coll : string) (w w' : W) :
  effectsFrame ing ->
  (forall eid, history w c coll eid = [] /\ currentOf w c coll eid = None /\ snapsOf w c coll eid = []) ->
  written grow dcap ing c coll w w' -> forall eid, consistent w' c coll eid.
Proof.
  intros Hfx He Hw. apply (written_consistent grow dcap ing c coll w w' Hfx Hw). intros eid.
  unfold consistent. destruct (He eid) as (-> & -> & ->). by repeat split.
Qed.

(** ** Runs on the store in memory *)

Definition n1 : json := JInt64 1.
Definition ex_ing : Ingester mem := mkIngester mem true None None.
Definition ex_cr : ConfigResolver := NewConfigResolver true 0.
Definition ex_cmd (op : string) (st : option state) (chs : option (list Change)) : IngestCommand :=
  mkCommand "crm.deals" "deal-1" op "" None "u1" "crm" 5 "" "r1" "" None st chs None.

Definition ex_run (kind : string) (cmd : IngestCommand) (w : mem) : res err IngestResult * mem :=
  let '(r, _, w') := applyOne (fun n => 2 * n) (fun n => n) ex_ing ex_cr 7 ex_ctx kind cmd w in (r, w').

(** What a reader sees: the current state and the point-in-time read of the latest version. *)
Definition ex_cur (w : mem) : option (bool * option state) :=
  match CurGet ex_ctx "crm.deals" "deal-1" w with Ok st => Some (cs_Deleted st, cs_State st) | Err _ => None end.
Definition ex_at (w : mem) : res err (bool * state) :=
  match StateAt true ex_ctx "crm.deals" "deal-1" (mkQuery None None) w with
  | Ok rs => Ok (rs_Deleted rs, rs_State rs)
  | Err e => Err e
  end.

(** Three accepted writes after which the current state and the history disagree.
    (1) A full-state write with the explicit op "delete" stores a delete event with
    changes and a live current state.  (2) A diff write with op "create" and a full
    state on a live entity records adds against the empty object, so a replay merges
    what the current state replaced.  (3) A client diff that adds an object and removes
    a key of it is stored with the emptied object, and the history no longer replays. *)
Theorem unfaithful_writes :
  (exists w1 w2 r1 r2, ex_run KindState (ex_cmd "" (Some [("a", n1)]) None) mem0 = (Ok r1, w1) /\
     ex_run KindState (ex_cmd OpDelete (Some [("a", JInt64 2)]) None) w1 = (Ok r2, w2) /\
     ex_cur w2 = Some (false, Some [("a", JInt64 2)]) /\ ex_at w2 = Ok (true, [("a", n1)])) /\
  (exists w1 w2 r1 r2, ex_run KindState (ex_cmd "" (Some [("a", n1)]) None) mem0 = (Ok r1, w1) /\
     ex_run KindDiff (ex_cmd OpCreate (Some [("b", n1)]) None) w1 = (Ok r2, w2) /\
     ex_cur w2 = Some (false, Some [("b", n1)]) /\ ex_at w2 = Ok (false, [("a", n1); ("b", n1)])) /\
  (exists w1 r1, ex_run KindDiff (ex_cmd OpCreate None
       (Some [mkChange "m" OpAdd JNull (JObj [("a", n1)]); mkChange "m.a" OpRemove n1 JNull])) mem0 = (Ok r1, w1) /\
     ex_cur w1 = Some (false, Some [("m", JObj [])]) /\ ex_at w1 = Err (ErrInternal "reconstruct")).
Proof.
  split_and!; repeat (eexists; try reflexivity).
Qed.

(** ** Witnesses *)

Lemma mem_consistent_empty (eid : string) : consistent mem0 ex_ctx "crm.deals" eid.
Proof. by repeat split. Qed.

Lemma ex_effects : effectsFrame ex_ing.
Proof. split; [discriminate|discriminate]. Qed.

Definition ex_w1 : mem := snd (ex_run KindState (ex_cmd "" (Some [("a", n1)]) None) mem0).

Lemma write_preserves_consistency_witness :
  consistent ex_w1 ex_ctx "crm.deals" "deal-1" /\ history ex_w1 ex_ctx "crm.deals" "deal-1" <> [].
Proof.
  split; [|discriminate].
  eapply proj1, (write_preserves_consistency (fun n => 2 * n) (fun n => n) ex_ing ex_cr
    (cacheStore ex_cr 7 "hm_t_acme|crm.deals" (WithDefaults (bareConfig "crm.deals"))) 7 ex_ctx KindState
    (ex_cmd "" (Some [("a", n1)]) None) mem0 ex_w1
    (mkResult "deal-1" 1 1 "create" false false "" false) ex_effects).
  - intros cfg cur cr1 w1 Hp. vm_compute in Hp. injection Hp as <- <- _ _. split; [|discriminate]. by vm_compute.
  - apply mem_consistent_empty.
  - vm_compute. reflexivity.
Defined.

Lemma mem_reads_ok (w : mem) c coll eid : readsOK w c coll eid.
Proof.
  split; [by eexists|]. cbn. intros e. destruct (last (memHistory w c coll eid)); [done|]. by intros [= <-].
Qed.

Lemma state_at_correct_witness :
  exists rs, StateAt true ex_ctx "crm.deals" "deal-1" (mkQuery (Some 5%Z) None) ex_w1 = Ok rs /\
    rs_EntityID rs = "deal-1" /\ rs_Version rs = Z.of_nat 1 /\
    Reconstruct None false (take 1 (history ex_w1 ex_ctx "crm.deals" "deal-1")) = Ok (rs_State rs, rs_Deleted rs).
Proof.
  destruct (state_at_correct true ex_w1 ex_ctx "crm.deals" "deal-1") as [Hv _];
    [|apply mem_reads_ok|discriminate|discriminate|].
  - split; [reflexivity|]. split; [reflexivity|]. split; [split; discriminate|].
    split; [reflexivity|]. split; [reflexivity|constructor].
  - apply (Hv 5%Z None). lia.
Defined.

Lemma reachable_consistent_witness : consistent ex_w1 ex_ctx "crm.deals" "deal-1".
Proof.
  apply (reachable_consistent (fun n => 2 * n) (fun n => n) ex_ing ex_ctx "crm.deals" mem0 ex_w1 ex_effects).
  - done.
  - eapply (written_step _ _ _ _ _ mem0 mem0 _ ex_cr _ 7 KindState (ex_cmd "" (Some [("a", n1)]) None)); [constructor| |].
    + split; [done|]. split; [right; done|]. intros cfg cur cr1 w1 Hp. vm_compute in Hp. by injection Hp as <- <- _ _.
    + vm_compute. reflexivity.
Defined.
