(* ===== verification/Mapping.v ===== *)
(** * The domain-document mapping (internal/storage/mongo/mapping.go, collection_repo.go)

    BSON documents as the driver hands them over: a value of static type [any] decodes
    to [bson.D] and [bson.A] with the fields in stored order, which is why the code
    canonicalizes it.  [decoded] relates a JSON value to what the driver may return for
    it; BSON types the program never writes are outside [anyv]. *)

From stdpp Require Import base list strings.
From Stdlib Require Import ZArith Lia Permutation.
From S2P Require Import Prelude GoMap Json Paths Diff DiffSound Domain Tenant Config Alias Repo.

(** ** Driver values *)

Inductive anyv :=
| AScal (j : json)
| AD (l : list (string * anyv))          (* bson.D, in document order *)
| AM (l : list (string * anyv))          (* bson.M *)
| AMap (l : list (string * anyv))        (* map[string]any *)
| AA (l : list anyv)                     (* bson.A *)
| AArr (l : list anyv).                  (* []any *)

Fixpoint canonicalJSON (v : anyv) : json :=
  match v with
  | AD t =>
      JObj ((fix go (t : list (string * anyv)) (m : list (string * json)) : list (string * json) :=
               match t with
               | [] => m
               | (k, x) :: t' => go t' (mset k (canonicalJSON x) m)
               end) t [])
  | AM t => JObj (map (fun e => (fst e, canonicalJSON (snd e))) t)
  | AMap t => JObj (map (fun e => (fst e, canonicalJSON (snd e))) t)
  | AA t => JArr (map canonicalJSON t)
  | AArr t => JArr (map canonicalJSON t)
  | AScal j => j
  end.

(** A neutral JSON value as the driver receives it. *)
Fixpoint toAny (j : json) : anyv :=
  match j with
  | JObj m => AMap (map (fun e => (fst e, toAny (snd e))) m)
  | JArr l => AArr (map toAny l)
  | _ => AScal j
  end.

Definition canonicalState (m : option (list (string * anyv))) : option state :=
  option_map (fun t => asMap (canonicalJSON (AMap t))) m.

(** What the driver may decode a written value to: scalars as they were (they are
    [wire_json]), objects to a document with the fields in any order, arrays to arrays. *)
Inductive decoded : json -> anyv -> Prop :=
| decoded_scal j : is_scalar j = true -> decoded j (AScal j)
| decoded_arr l vs : decoded_list l vs -> decoded (JArr l) (AA vs)
| decoded_obj m fs fs' : decoded_fields m fs -> Permutation fs fs' -> decoded (JObj m) (AD fs')
with decoded_list : list json -> list anyv -> Prop :=
| decoded_nil : decoded_list [] []
| decoded_cons j v l vs : decoded j v -> decoded_list l vs -> decoded_list (j :: l) (v :: vs)
with decoded_fields : list (string * json) -> list (string * anyv) -> Prop :=
| decoded_fnil : decoded_fields [] []
| decoded_fcons k j v m fs : decoded j v -> decoded_fields m fs -> decoded_fields ((k, j) :: m) ((k, v) :: fs).

(** ** Documents *)

Record changeDoc := mkChangeDoc { cd_P : string; cd_O : string; cd_Old : anyv; cd_New : anyv }.
Record flowRefDoc := mkFlowRefDoc { rd_AID : string; rd_C : string; rd_EID : string; rd_V : Z; rd_Ev : string }.
Record flowDoc := mkFlowDoc { fd_F : string; fd_By : list flowRefDoc; fd_Step : string }.
Record intgDoc := mkIntgDoc { id_H : string; id_PH : string }.

(** The metadata is passed through as decoded; it is not interpreted by the core. *)
Record eventDoc := mkEventDoc {
  ed_EID : string; ed_V : Z; ed_Op : string; ed_Author : string; ed_Src : string;
  ed_TSSource : time; ed_TSRcv : time; ed_TSStored : time; ed_EventID : string; ed_RID : string;
  ed_Changes : list changeDoc; ed_Meta : option state; ed_Flow : option flowDoc; ed_Intg : option intgDoc }.

Definition opToCode (op : Op) : string :=
  match op with OpAdd => "a" | OpChange => "c" | OpRemove => "r" | OpOther _ => "" end.

Definition codeToOp (s : string) : option Op :=
  if str_eqb s "a" then Some OpAdd else if str_eqb s "c" then Some OpChange
  else if str_eqb s "r" then Some OpRemove else None.

Definition toFlowRefDocs (refs : list FlowRef) : list flowRefDoc :=
  map (fun r => mkFlowRefDoc (fr_ActivityID r) (fr_Collection r) (fr_EntityID r) (fr_Version r) (fr_EventID r)) refs.

Definition fromFlowRefDocs (docs : list flowRefDoc) : list FlowRef :=
  map (fun d => mkFlowRef (rd_AID d) (rd_C d) (rd_EID d) (rd_V d) (rd_Ev d)) docs.

Definition toEventDoc (ev : Event) : eventDoc :=
  mkEventDoc (ev_EntityID ev) (ev_Version ev) (ev_Op ev) (ev_Author ev) (ev_Source ev)
    (ev_TSSource ev) (ev_TSReceived ev) (ev_TSStored ev) (ev_EventID ev) (ev_RequestID ev)
    (map (fun c => mkChangeDoc (Path c) (opToCode (ChOp c)) (toAny (Old c)) (toAny (New c))) (ev_Changes ev))
    (ev_Meta ev)
    (option_map (fun f => mkFlowDoc (fl_ID f) (toFlowRefDocs (fl_CausedBy f)) (fl_Step f)) (ev_Flow ev))
    (option_map (fun i => mkIntgDoc (it_Hash i) (it_PrevHash i)) (ev_Integrity ev)).

Fixpoint fromChangeDocs (cs : list changeDoc) : res err (list Change) :=
  match cs with
  | [] => Ok []
  | c :: cs' =>
      match codeToOp (cd_O c) with
      | None => Err (ErrInternal "unknown change op code")
      | Some op => (rest <- fromChangeDocs cs'; Ok (mkChange (cd_P c) op (canonicalJSON (cd_Old c)) (canonicalJSON (cd_New c)) :: rest))%go
      end
  end.

Definition fromEventDoc (d : eventDoc) : res err Event :=
  (changes <- fromChangeDocs (ed_Changes d);
   Ok (mkEvent (ed_EID d) (ed_V d) (ed_Op d) (ed_Author d) (ed_Src d) (ed_TSSource d) (ed_TSRcv d) (ed_TSStored d)
     (ed_EventID d) (ed_RID d) changes (ed_Meta d)
     (option_map (fun f => mkFlow (fd_F f) (fromFlowRefDocs (fd_By f)) (fd_Step f)) (ed_Flow d))
     (option_map (fun i => mkIntegrity (id_H i) (id_PH i)) (ed_Intg d))))%go.

Record currentDoc := mkCurrentDoc {
  cud_ID : string; cud_V : Z; cud_TS : time; cud_Deleted : bool; cud_State : option (list (string * anyv)) }.

Definition anyState (s : option state) : option (list (string * anyv)) :=
  option_map (map (fun e => (fst e, toAny (snd e)))) s.

Definition toCurrentDoc (st : CurrentState) : currentDoc :=
  mkCurrentDoc (cs_EntityID st) (cs_Version st) (cs_TS st) (cs_Deleted st) (anyState (cs_State st)).
Definition fromCurrentDoc (d : currentDoc) : CurrentState :=
  mkCurrentState (cud_ID d) (cud_V d) (cud_TS d) (cud_Deleted d) (canonicalState (cud_State d)).

Record snapDoc := mkSnapDoc {
  snd_EID : string; snd_V : Z; snd_TS : time; snd_Deleted : bool; snd_State : option (list (string * anyv)) }.

Definition toSnapDoc (s : Snapshot) : snapDoc :=
  mkSnapDoc (sn_EntityID s) (sn_Version s) (sn_TS s) (sn_Deleted s) (anyState (sn_State s)).
Definition fromSnapDoc (d : snapDoc) : Snapshot :=
  mkSnapshot (snd_EID d) (snd_V d) (snd_TS d) (snd_Deleted d) (canonicalState (snd_State d)).

(** [collectionConfigDoc]; a plugin map is omitted when empty. *)
Record collectionConfigDoc := mkConfigDoc {
  ccd_ID : string; ccd_ReliabilityMode : string; ccd_SnapshotInterval : Z; ccd_Retention : Retention;
  ccd_MaxEventSizeBytes : Z; ccd_FirstEventOp : string; ccd_Ordering : Ordering;
  ccd_ArrayKeys : list (string * string); ccd_Plugins : list (string * PluginConfig) }.

Definition toConfigDoc (cfg : CollectionConfig) : collectionConfigDoc :=
  mkConfigDoc (cfg_Name cfg) (cfg_ReliabilityMode cfg) (cfg_SnapshotInterval cfg)
    (mkRetention (rt_Type (cfg_Retention cfg)) (rt_Days (cfg_Retention cfg)) (rt_Keep (cfg_Retention cfg)))
    (cfg_MaxEventSizeBytes cfg) (cfg_FirstEventOp cfg)
    (mkOrdering (or_Mode (cfg_Ordering cfg)) (or_ReorderWindowMS (cfg_Ordering cfg)))
    (cfg_ArrayKeys cfg)
    (map (fun e => (fst e, mkPluginConfig (pc_Enabled (snd e)) (pc_FailMode (snd e)) (pc_Params (snd e)))) (cfg_Plugins cfg)).

Definition fromConfigDoc (d : collectionConfigDoc) : CollectionConfig :=
  mkConfig (ccd_ID d) (ccd_ReliabilityMode d) (ccd_SnapshotInterval d)
    (mkRetention (rt_Type (ccd_Retention d)) (rt_Days (ccd_Retention d)) (rt_Keep (ccd_Retention d)))
    (ccd_MaxEventSizeBytes d) (ccd_FirstEventOp d)
    (mkOrdering (or_Mode (ccd_Ordering d)) (or_ReorderWindowMS (ccd_Ordering d)))
    (ccd_ArrayKeys d)
    (map (fun e => (fst e, mkPluginConfig (pc_Enabled (snd e)) (pc_FailMode (snd e)) (pc_Params (snd e)))) (ccd_Plugins d)).

(** ** Canonicalization undoes the driver's choices *)

(** BSON date-times have millisecond resolution. *)
Definition msTrunc (t : time) : time := (t / 1000000 * 1000000)%Z.

(** Building a Go map from fields in any order. *)
Definition buildMap (fs : list (string * json)) (m : list (string * json)) : list (string * json) :=
  fold_left (fun m e => mset (fst e) (snd e) m) fs m.

Lemma canonical_D (t : list (string * anyv)) :
  canonicalJSON (AD t) = JObj (buildMap (map (fun e => (fst e, canonicalJSON (snd e))) t) []).
Proof.
  cbn. f_equal. generalize (@nil (string * json)). induction t as [|[k x] t IH]; intros m; cbn; [done|]. apply IH.
Qed.

Lemma buildMap_sorted fs m : msorted m -> msorted (buildMap fs m).
Proof. revert m. induction fs as [|e fs IH]; intros m Hm; cbn; [done|]. apply IH. by apply msorted_mset. Qed.

Lemma buildMap_notin fs m k : ~ In k (map fst fs) -> mget k (buildMap fs m) = mget k m.
Proof.
  revert m. induction fs as [|[k' v] fs IH]; intros m Hn; cbn; [done|]. cbn in Hn.
  rewrite IH by tauto. apply mget_mset_ne. tauto.
Qed.

Lemma buildMap_in fs m k v : NoDup (map fst fs) -> In (k, v) fs -> mget k (buildMap fs m) = Some v.
Proof.
  revert m. induction fs as [|[k' v'] fs IH]; intros m Hnd Hin; [done|]. cbn in Hnd |- *.
  apply NoDup_cons in Hnd as [Hk Hnd]. destruct Hin as [[= -> ->]|Hin]; [|by apply IH].
  rewrite buildMap_notin; [apply mget_mset_eq|]. by rewrite <- list_elem_of_In.
Qed.

Lemma msorted_nodup {V : Type} (m : list (string * V)) : msorted m -> NoDup (map fst m).
Proof.
  induction m as [|[k v] m IH]; intros Hs; [constructor|]. apply msorted_cons in Hs as [Hs Hlt]. cbn.
  constructor; [|auto]. rewrite list_elem_of_In, in_map_iff. intros ([k' v'] & E & Hin). cbn in E. subst k'.
  rewrite List.Forall_forall in Hlt. specialize (Hlt _ Hin). unfold str_lt in Hlt. cbn in Hlt. by rewrite str_ltb_irrefl in Hlt.
Qed.

Lemma mget_In {V : Type} (m : list (string * V)) k v : msorted m -> In (k, v) m -> mget k m = Some v.
Proof.
  intros Hs. induction m as [|[k' v'] m IH]; [done|]. apply msorted_cons in Hs as [Hs Hlt]. cbn.
  intros [[= -> ->]|Hin]; [by rewrite str_eqb_refl|]. rewrite List.Forall_forall in Hlt.
  specialize (Hlt _ Hin). apply str_ltb_neq, not_eq_sym, str_eqb_neq in Hlt. cbn in Hlt.
  destruct (str_eqb k k') eqn:E; [|auto]. apply str_eqb_eq in E as ->. by rewrite str_eqb_refl in Hlt.
Qed.

(** A sorted map is rebuilt from any order of its fields. *)
Lemma buildMap_perm (m fs : list (string * json)) : msorted m -> Permutation m fs -> buildMap fs [] = m.
Proof.
  intros Hs Hp. assert (NoDup (map fst fs)) as Hnd.
  { rewrite <- (Permutation_map fst Hp). by apply msorted_nodup. }
  apply mext; [apply buildMap_sorted, msorted_nil|done|]. intros k.
  destruct (mget k m) as [v|] eqn:E.
  - apply buildMap_in; [done|]. apply (Permutation_in _ Hp). by apply mget_in.
  - rewrite buildMap_notin; [done|]. intros Hin. rewrite in_map_iff in Hin. destruct Hin as ([k' v] & <- & Hin).
    apply Permutation_sym in Hp. apply (Permutation_in _ Hp), mget_In in Hin; [|done]. cbn in E. congruence.
Qed.

Scheme decoded_mut := Minimality for decoded Sort Prop
  with decoded_list_mut := Minimality for decoded_list Sort Prop
  with decoded_fields_mut := Minimality for decoded_fields Sort Prop.
Combined Scheme decoded_all from decoded_mut, decoded_list_mut, decoded_fields_mut.

Lemma canonical_decoded_all :
  (forall j v, decoded j v -> wf_json j = true -> canonicalJSON v = j) /\
  (forall l vs, decoded_list l vs -> forallb wf_json l = true -> map canonicalJSON vs = l) /\
  (forall m fs, decoded_fields m fs -> forallb (fun e => wf_json (snd e)) m = true ->
     map (fun e => (fst e, canonicalJSON (snd e))) fs = m).
Proof.
  apply decoded_all.
  - done.
  - intros l vs _ IH Hwf. cbn in Hwf |- *. apply andb_true_iff in Hwf as [_ Hwf]. by rewrite IH.
  - intros m fs fs' _ IH Hp Hwf. cbn [wf_json] in Hwf. apply andb_true_iff in Hwf as [Hs Hwf].
    apply msortedb_spec in Hs. rewrite canonical_D. f_equal. apply buildMap_perm; [done|].
    rewrite <- (IH Hwf) at 1. by apply Permutation_map.
  - done.
  - intros j v l vs _ IHj _ IHl Hwf. cbn in Hwf |- *. apply andb_true_iff in Hwf as [? ?]. by rewrite IHj, IHl.
  - done.
  - intros k j v m fs _ IHj _ IHm Hwf. cbn in Hwf |- *. apply andb_true_iff in Hwf as [? ?]. by rewrite IHj, IHm.
Qed.

Lemma canonical_decoded j v : decoded j v -> wf_json j = true -> canonicalJSON v = j.
Proof. apply canonical_decoded_all. Qed.

Lemma canonical_toAny j : canonicalJSON (toAny j) = j.
Proof.
  induction j as [| | | | | |l IH|m IH] using json_ind'; try done; cbn; f_equal.
  - induction IH as [|x l Hx _ IH]; cbn; [done|]. by rewrite Hx, IH.
  - induction IH as [|[k x] m Hx _ IH]; cbn; [done|]. cbn in Hx. by rewrite Hx, IH.
Qed.

(** What decoding the stored bytes of a document gives: the same scalars, times at
    millisecond resolution, and for each [any] a driver value of the same JSON. *)
Definition anyReadBack (v v' : anyv) : Prop := exists j, v = toAny j /\ decoded j v'.

Definition changeReadBack (c c' : changeDoc) : Prop :=
  cd_P c' = cd_P c /\ cd_O c' = cd_O c /\ anyReadBack (cd_Old c) (cd_Old c') /\ anyReadBack (cd_New c) (cd_New c').

Definition docReadBack (d d' : eventDoc) : Prop :=
  ed_EID d' = ed_EID d /\ ed_V d' = ed_V d /\ ed_Op d' = ed_Op d /\ ed_Author d' = ed_Author d /\ ed_Src d' = ed_Src d /\
  ed_TSSource d' = msTrunc (ed_TSSource d) /\ ed_TSRcv d' = msTrunc (ed_TSRcv d) /\ ed_TSStored d' = msTrunc (ed_TSStored d) /\
  ed_EventID d' = ed_EventID d /\ ed_RID d' = ed_RID d /\ Forall2 changeReadBack (ed_Changes d) (ed_Changes d') /\
  ed_Meta d' = ed_Meta d /\ ed_Flow d' = ed_Flow d /\ ed_Intg d' = ed_Intg d.

Definition knownOp (op : Op) : bool := match op with OpOther _ => false | _ => true end.

(** The event as it is read back. *)
Definition truncEvent (ev : Event) : Event :=
  mkEvent (ev_EntityID ev) (ev_Version ev) (ev_Op ev) (ev_Author ev) (ev_Source ev)
    (msTrunc (ev_TSSource ev)) (msTrunc (ev_TSReceived ev)) (msTrunc (ev_TSStored ev))
    (ev_EventID ev) (ev_RequestID ev) (ev_Changes ev) (ev_Meta ev) (ev_Flow ev) (ev_Integrity ev).

Lemma toAny_inj j j' : toAny j = toAny j' -> j = j'.
Proof. intros H%(f_equal canonicalJSON). by rewrite !canonical_toAny in H. Qed.

Lemma changes_read_back (chs : list Change) (cs' : list changeDoc) :
  Forall2 changeReadBack (map (fun c => mkChangeDoc (Path c) (opToCode (ChOp c)) (toAny (Old c)) (toAny (New c))) chs) cs' ->
  Forall (fun ch => wf_json (Old ch) = true /\ wf_json (New ch) = true) chs ->
  fromChangeDocs cs' =
  if forallb (fun ch => knownOp (ChOp ch)) chs then Ok chs else Err (ErrInternal "unknown change op code").
Proof.
  revert cs'. induction chs as [|ch chs IH]; intros cs' H2 Hwf; cbn in H2; inversion H2 as [|c c' cs cs2 Hc Hcs]; subst; [done|].
  apply Forall_cons in Hwf as [[Ho Hn] Hwf]. destruct Hc as (EP & EO & (j1 & E1 & D1) & (j2 & E2 & D2)). cbn in *.
  apply toAny_inj in E1 as <-, E2 as <-. rewrite EO.
  assert (codeToOp (opToCode (ChOp ch)) = if knownOp (ChOp ch) then Some (ChOp ch) else None) as -> by (by destruct (ChOp ch)).
  destruct (knownOp (ChOp ch)); [|done]. cbn. rewrite (IH _ Hcs Hwf), EP.
  rewrite (canonical_decoded _ _ D1 Ho), (canonical_decoded _ _ D2 Hn).
  destruct (forallb _ chs); [|done]. by destruct ch.
Qed.

Lemma flow_refs_roundtrip (refs : list FlowRef) : fromFlowRefDocs (toFlowRefDocs refs) = refs.
Proof.
  unfold toFlowRefDocs, fromFlowRefDocs. induction refs as [|[] refs IH]; [done|]. cbn [map]. by rewrite IH.
Qed.

Lemma event_read_back (ev : Event) (d' : eventDoc) :
  docReadBack (toEventDoc ev) d' ->
  Forall (fun ch => wf_json (Old ch) = true /\ wf_json (New ch) = true) (ev_Changes ev) ->
  fromEventDoc d' =
  if forallb (fun ch => knownOp (ChOp ch)) (ev_Changes ev) then Ok (truncEvent ev)
  else Err (ErrInternal "unknown change op code").
Proof.
  intros (E1 & E2 & E3 & E4 & E5 & E6 & E7 & E8 & E9 & E10 & Hch & E11 & E12 & E13) Hwf. cbn in *.
  unfold fromEventDoc. rewrite (changes_read_back _ _ Hch Hwf), E1, E2, E3, E4, E5, E6, E7, E8, E9, E10, E11, E12, E13.
  destruct (forallb _ (ev_Changes ev)); [|done]. unfold truncEvent. do 2 f_equal.
  - destruct (ev_Flow ev) as [[fid by_ step]|]; [|done]. cbn. by rewrite flow_refs_roundtrip.
  - by destruct (ev_Integrity ev) as [[]|].
Qed.


(** Example documents: the driver returned the nested fields in another order. *)
Definition ex_stored : Event :=
  mkEvent "deal-1" 1 OpCreate "u1" "crm" 1500000 2999999 3000001 "e1" "r1"
    [mkChange "m" OpAdd JNull (JObj [("a", JInt64 1); ("b", JArr [JStr "x"])])] None None None.
Definition ex_doc : eventDoc :=
  mkEventDoc "deal-1" 1 OpCreate "u1" "crm" 1000000 2000000 3000000 "e1" "r1"
    [mkChangeDoc "m" "a" (AScal JNull) (AD [("b", AA [AScal (JStr "x")]); ("a", AScal (JInt64 1))])] None None None.

