(* ===== verification/Mongo.v ===== *)
(** * The MongoDB repositories (internal/storage/mongo: event_repo.go, current_repo.go, snapshot_repo.go, collection_repo.go)

    The driver is an interface: its operations on the documents of one collection, with
    the query documents the code builds.  [MongoLaws] states the documented behaviour the
    event repository relies on: what a query selects, how a sort orders, and that a
    unique index rejects a duplicate and changes nothing. *)

From stdpp Require Import base list strings.
From Stdlib Require Import ZArith Lia Ascii Sorted Permutation.
From S2P Require Import Prelude GoMap Json Paths Diff DiffSound Domain Tenant Config Names Alias Repo Mapping.

(** ** Driver interface *)

Inductive driverErr :=
| WriteException (errs : list (Z * string))     (* code and message of each write error *)
| CommandError (code : Z) (msg : string)
| NoDocuments
| OtherDriverError.

(** The BSON values of the queries. *)
Inductive bval :=
| BStr (s : string) | BInt (z : Z) | BTime (t : time)
| BDoc (l : list (string * bval)) | BArr (l : list bval).
Abbreviation bdoc := (list (string * bval)).

Class MongoDriver (W D : Type) := {
  InsertOne : database -> string -> D -> W -> option driverErr * W;
  InsertMany : database -> string -> list D -> W -> option driverErr * W;
  FindOne : database -> string -> bdoc -> list (string * Z) -> W -> res driverErr D;
  Find : database -> string -> bdoc -> list (string * Z) -> Z -> W -> res driverErr (list D);
  ReplaceOne : database -> string -> bdoc -> D -> W -> option driverErr * W }.

Definition idxEventVersion : string := "uniq_eid_v".
Definition idxEventID : string := "uniq_event_id".
Definition maxAppendRetries : nat := 16.

Definition isDupKeyOn (e : driverErr) (indexName : string) : bool :=
  let match_ code msg := (code =? 11000)%Z && (str_eqb indexName "" || contains indexName msg) in
  match e with
  | WriteException es => existsb (fun ce => match_ (fst ce) (snd ce)) es
  | CommandError code msg => match_ code msg
  | _ => false
  end.

Definition internal (e : driverErr) : err := ErrInternal "mongo".

(** [regexp.QuoteMeta]: a backslash before each of \.+*?()|[]{}^$. *)
Definition metaByte (c : Ascii.ascii) : bool :=
  existsb (fun n => Ascii.eqb c (Ascii.ascii_of_nat n)) [92; 46; 43; 42; 63; 40; 41; 124; 91; 93; 123; 125; 94; 36].

Fixpoint QuoteMeta (s : string) : string :=
  match s with
  | EmptyString => EmptyString
  | String c s' => if metaByte c then String "\"%char (String c (QuoteMeta s')) else String c (QuoteMeta s')
  end.

(** ** Queries of the event repository *)

Definition sortField (o : string) : string :=
  if str_eqb o OrderSource then "ts_src" else if str_eqb o OrderReceived then "ts_rcv" else "v".

Definition timeWindow (from to : time) : option bdoc :=
  let w := (if (from =? 0)%Z then [] else [("$gte", BTime from)]) ++ (if (to =? 0)%Z then [] else [("$lte", BTime to)]) in
  match w with [] => None | _ => Some w end.

Definition cursorPredicate (field order : string) (pos : Position) : bdoc :=
  let cmp := if str_eqb order OrderDesc then "$lt" else "$gt" in
  if str_eqb field "v" then [("v", BDoc [(cmp, BInt (pos_Version pos))])]
  else [("$or", BArr [BDoc [(field, BDoc [(cmp, BTime (pos_TS pos))])];
                      BDoc [(field, BTime (pos_TS pos)); ("v", BDoc [(cmp, BInt (pos_Version pos))])]])].

(** The pattern of a path filter. *)
Definition pathPattern (path : string) : string := "^" +:+ QuoteMeta path +:+ "($|\.|\[)".

Definition optClause (key v : string) : bdoc := if str_eqb v "" then [] else [(key, BStr v)].

Definition historyFilter (f : EventFilter) : bdoc :=
  let field := sortField (f_OrderBy f) in
  optClause "eid" (f_EntityID f) ++ optClause "op" (f_Op f) ++ optClause "author" (f_Author f) ++
  optClause "src" (f_Source f) ++
  (match timeWindow (f_From f) (f_To f) with Some w => [("ts_rcv", BDoc w)] | None => [] end) ++
  (if str_eqb (f_Path f) "" then [] else [("changes.p", BDoc [("$regex", BStr (pathPattern (f_Path f)))])]) ++
  (match f_After f with Some p => cursorPredicate field (f_Order f) p | None => [] end) ++
  (if (0 <? f_MaxVersion f)%Z then [("v", BDoc [("$lte", BInt (f_MaxVersion f))])] else []).

Definition historySort (f : EventFilter) : list (string * Z) :=
  let field := sortField (f_OrderBy f) in
  let dir := if str_eqb (f_Order f) OrderDesc then (-1)%Z else 1%Z in
  (field, dir) :: (if str_eqb field "v" then [] else [("v", dir)]).

(** [opts.SetLimit] is called for a positive limit only; 0 is the driver's no limit. *)
Definition historyLimit (f : EventFilter) : Z := if (0 <? f_Limit f)%Z then f_Limit f else 0.

(** ** The event repository *)

Section EventRepo.
Context {W : Type} `{MongoDriver W eventDoc}.
(** [conn.DBFor], see [Names.v]. *)
Variable dbFor : ctx -> res err database.

(** The two guards every method starts with. *)
Definition withColl {A : Type} (c : ctx) (collection physical : string) (fail : err -> A) (k : database -> string -> A) : A :=
  match validateLogical collection with
  | Err e => fail e
  | Ok _ => match dbFor c with Err e => fail e | Ok db => k db physical end
  end.

Definition lastVersion (db : database) (coll eid : string) (w : W) : res err Z :=
  match FindOne db coll [("eid", BStr eid)] [("v", (-1)%Z)] w with
  | Ok d => Ok (ed_V d)
  | Err NoDocuments => Ok 0%Z
  | Err e => Err (internal e)
  end.

(** The read-tail/insert loop, with [n] attempts left. *)
Fixpoint appendLoop (n : nat) (db : database) (coll : string) (now : time) (ev : Event) (w : W) : res err Event * W :=
  match n with
  | O => (Err ErrVersionConflict, w)
  | S n' =>
      match lastVersion db coll (ev_EntityID ev) w with
      | Err e => (Err e, w)
      | Ok last =>
          let ev' := stampStored (setVersion ev (last + 1)) now in
          match InsertOne db coll (toEventDoc ev') w with
          | (None, w') => (Ok ev', w')
          | (Some e, w') =>
              if isDupKeyOn e idxEventVersion then appendLoop n' db coll now ev' w'
              else if isDupKeyOn e idxEventID then (Err ErrDuplicateEvent, w')
              else (Err (internal e), w')
          end
      end
  end.

Definition repoAppendEvent (c : ctx) (collection : string) (now : time) (ev : Event) (w : W) : res err Event * W :=
  withColl c collection (eventsCollection collection) (fun e => (Err e, w))
    (fun db coll => appendLoop maxAppendRetries db coll now ev w).

Definition repoAppendEvents (c : ctx) (collection : string) (now : time) (evs : list Event) (w : W) : res err (list Event) * W :=
  match evs with
  | [] => (Ok [], w)
  | _ =>
      withColl c collection (eventsCollection collection) (fun e => (Err e, w))
        (fun db coll =>
           let evs' := map (fun ev => stampStored ev now) evs in
           match InsertMany db coll (map toEventDoc evs') w with
           | (None, w') => (Ok evs', w')
           | (Some e, w') => (Err (internal e), w')
           end)
  end.

Definition repoLastEvent (c : ctx) (collection eid : string) (w : W) : res err Event :=
  withColl c collection (eventsCollection collection) Err
    (fun db coll =>
       match FindOne db coll [("eid", BStr eid)] [("v", (-1)%Z)] w with
       | Ok d => fromEventDoc d
       | Err NoDocuments => Err ErrNotFound
       | Err e => Err (internal e)
       end).

Fixpoint fromEventDocs (ds : list eventDoc) : res err (list Event) :=
  match ds with
  | [] => Ok []
  | d :: ds' => (ev <- fromEventDoc d; rest <- fromEventDocs ds'; Ok (ev :: rest))%go
  end.

Definition repoListEvents (c : ctx) (collection : string) (f : EventFilter) (w : W) : res err (list Event) :=
  withColl c collection (eventsCollection collection) Err
    (fun db coll =>
       match Find db coll (historyFilter f) (historySort f) (historyLimit f) w with
       | Ok ds => fromEventDocs ds
       | Err e => Err (internal e)
       end).
End EventRepo.

(** ** The current-state and snapshot repositories *)

Section StateRepos.
Context {W : Type} `{MongoDriver W currentDoc} `{MongoDriver W snapDoc}.
Variable dbFor : ctx -> res err database.

Definition repoCurGet (c : ctx) (collection eid : string) (w : W) : res err CurrentState :=
  withColl dbFor c collection (currentCollection collection) Err
    (fun db coll =>
       match FindOne db coll [("_id", BStr eid)] [] w with
       | Ok d => Ok (fromCurrentDoc d)
       | Err NoDocuments => Err ErrNotFound
       | Err e => Err (internal e)
       end).

Definition repoCurUpsert (c : ctx) (collection : string) (st : CurrentState) (w : W) : res err unit * W :=
  withColl dbFor c collection (currentCollection collection) (fun e => (Err e, w))
    (fun db coll =>
       match ReplaceOne db coll [("_id", BStr (cs_EntityID st))] (toCurrentDoc st) w with
       | (None, w') => (Ok tt, w')
       | (Some e, w') => (Err (internal e), w')
       end).

Definition repoSnapSave (c : ctx) (collection : string) (sn : Snapshot) (w : W) : res err unit * W :=
  withColl dbFor c collection (snapCollection collection) (fun e => (Err e, w))
    (fun db coll =>
       match ReplaceOne db coll [("eid", BStr (sn_EntityID sn)); ("v", BInt (sn_Version sn))] (toSnapDoc sn) w with
       | (None, w') => (Ok tt, w')
       | (Some e, w') => (Err (internal e), w')
       end).

Definition repoSnapNearest (c : ctx) (collection eid : string) (maxVersion : Z) (w : W) : res err Snapshot :=
  withColl dbFor c collection (snapCollection collection) Err
    (fun db coll =>
       match FindOne db coll [("eid", BStr eid); ("v", BDoc [("$lte", BInt maxVersion)])] [("v", (-1)%Z)] w with
       | Ok d => Ok (fromSnapDoc d)
       | Err NoDocuments => Err ErrNotFound
       | Err e => Err (internal e)
       end).
End StateRepos.

(** ** The collection-config repository *)

(** Index and collection creation. *)
Class MongoAdmin (W : Type) := {
  CreateCollection : database -> string -> W -> option driverErr * W;
  CreateEventIndexes : database -> string -> W -> option driverErr * W;
  CreateSnapshotIndexes : database -> string -> W -> option driverErr * W }.

Definition isNamespaceExists (e : driverErr) : bool :=
  match e with CommandError code _ => (code =? 48)%Z | _ => false end.

Section CollectionRepo.
Context {W : Type} `{MongoDriver W collectionConfigDoc} `{MongoAdmin W}.
Variable dbFor : ctx -> res err database.

Definition repoGetConfig (c : ctx) (collection : string) (w : W) : res err CollectionConfig :=
  withColl dbFor c collection CollectionsConfig Err
    (fun db coll =>
       match FindOne db coll [("_id", BStr collection)] [] w with
       | Ok d => Ok (fromConfigDoc d)
       | Err NoDocuments => Err ErrNotFound
       | Err e => Err (internal e)
       end).

Definition repoSaveConfig (c : ctx) (cfg : CollectionConfig) (w : W) : res err unit * W :=
  withColl dbFor c (cfg_Name cfg) CollectionsConfig (fun e => (Err e, w))
    (fun db coll =>
       match ReplaceOne db coll [("_id", BStr (cfg_Name cfg))] (toConfigDoc cfg) w with
       | (None, w') => (Ok tt, w')
       | (Some e, w') => (Err (internal e), w')
       end).

Fixpoint createAll (db : database) (names : list string) (w : W) : res err unit * W :=
  match names with
  | [] => (Ok tt, w)
  | n :: names' =>
      match CreateCollection db n w with
      | (None, w') => createAll db names' w'
      | (Some e, w') => if isNamespaceExists e then createAll db names' w' else (Err (internal e), w')
      end
  end.

Definition repoEnsurePhysical (c : ctx) (collection : string) (w : W) : res err unit * W :=
  withColl dbFor c collection collection (fun e => (Err e, w))
    (fun db _ =>
       match createAll db [eventsCollection collection; currentCollection collection; snapCollection collection] w with
       | (Err e, w1) => (Err e, w1)
       | (Ok _, w1) =>
           match CreateEventIndexes db (eventsCollection collection) w1 with
           | (Some e, w2) => (Err (internal e), w2)
           | (None, w2) =>
               match CreateSnapshotIndexes db (snapCollection collection) w2 with
               | (Some e, w3) => (Err (internal e), w3)
               | (None, w3) => (Ok tt, w3)
               end
           end
       end).
End CollectionRepo.
