(* ===== verification/MongoLaws.v ===== *)
(** * What the event repository relies on from MongoDB

    The documented meaning of the query documents of [Mongo.v], of sorts, limits and
    unique indexes, as the laws of an interface, with the first consequences. *)

From stdpp Require Import base list strings sorting.
From Stdlib Require Import ZArith Lia Ascii Permutation.
From S2P Require Import Prelude GoMap Json Paths Diff DiffSound Domain Tenant Config Names Alias Repo Mapping Mongo.

(** ** Query semantics *)

(** The values of a field; an omitted (empty) field has none, an array path has one per
    element. *)
Definition fieldVals (key : string) (d : eventDoc) : list bval :=
  if str_eqb key "eid" then [BStr (ed_EID d)]
  else if str_eqb key "v" then [BInt (ed_V d)]
  else if str_eqb key "op" then [BStr (ed_Op d)]
  else if str_eqb key "author" then (if str_eqb (ed_Author d) "" then [] else [BStr (ed_Author d)])
  else if str_eqb key "src" then (if str_eqb (ed_Src d) "" then [] else [BStr (ed_Src d)])
  else if str_eqb key "ts_src" then [BTime (ed_TSSource d)]
  else if str_eqb key "ts_rcv" then [BTime (ed_TSRcv d)]
  else if str_eqb key "changes.p" then map (fun c => BStr (cd_P c)) (ed_Changes d)
  else [].

Definition cmpOp (op : string) (x y : Z) : bool :=
  if str_eqb op "$gt" then (y <? x)%Z else if str_eqb op "$lt" then (x <? y)%Z
  else if str_eqb op "$gte" then (y <=? x)%Z else if str_eqb op "$lte" then (x <=? y)%Z else false.

Definition scalarEq (x y : bval) : bool :=
  match x, y with
  | BStr a, BStr b => str_eqb a b
  | BInt a, BInt b => Z.eqb a b
  | BTime a, BTime b => Z.eqb a b
  | _, _ => false
  end.

Section Query.
Variable regex : string -> string -> bool.

Definition matchOp (vals : list bval) (oc : string * bval) : bool :=
  existsb (fun v => match v, snd oc with
                    | BStr s, BStr p => str_eqb (fst oc) "$regex" && regex p s
                    | BInt a, BInt b => cmpOp (fst oc) a b
                    | BTime a, BTime b => cmpOp (fst oc) a b
                    | _, _ => false
                    end) vals.

Definition matchClause (d : eventDoc) (kc : string * bval) : bool :=
  match snd kc with
  | BDoc ops => forallb (matchOp (fieldVals (fst kc) d)) ops
  | v => existsb (scalarEq v) (fieldVals (fst kc) d)
  end.

(** A conjunction of clauses; [$or] takes an array of conjunctions. *)
Definition matchDoc (q : bdoc) (d : eventDoc) : bool :=
  forallb (fun kc =>
    if str_eqb (fst kc) "$or" then
      match snd kc with
      | BArr alts => existsb (fun a => match a with BDoc q' => forallb (matchClause d) q' | _ => false end) alts
      | _ => false
      end
    else matchClause d kc) q.
End Query.

(** The operators and fields the semantics above covers. *)
Definition supportedClause (kc : string * bval) : bool :=
  existsb (str_eqb (fst kc)) ["eid"; "v"; "op"; "author"; "src"; "ts_src"; "ts_rcv"; "changes.p"] &&
  match snd kc with
  | BDoc ops => forallb (fun oc => existsb (str_eqb (fst oc)) ["$gt"; "$lt"; "$gte"; "$lte"; "$regex"]) ops
  | BStr _ | BInt _ | BTime _ => true
  | BArr _ => false
  end.

Definition supportedQuery (q : bdoc) : bool :=
  forallb (fun kc =>
    if str_eqb (fst kc) "$or" then
      match snd kc with
      | BArr alts => forallb (fun a => match a with BDoc q' => forallb supportedClause q' | _ => false end) alts
      | _ => false
      end
    else supportedClause kc) q.

(** ** Sorting *)

Definition sortKey (field : string) (d : eventDoc) : Z :=
  if str_eqb field "ts_src" then ed_TSSource d else if str_eqb field "ts_rcv" then ed_TSRcv d else ed_V d.

(** Lexicographic comparison by a sort specification. *)
Fixpoint docLe (s : list (string * Z)) (a b : eventDoc) : Prop :=
  match s with
  | [] => True
  | (field, dir) :: s' =>
      (dir * sortKey field a < dir * sortKey field b)%Z \/
      (sortKey field a = sortKey field b /\ docLe s' a b)
  end.

(** ** Unique indexes *)

Definition versionTaken (d : eventDoc) (ds : list eventDoc) : Prop :=
  exists d0, In d0 ds /\ ed_EID d0 = ed_EID d /\ ed_V d0 = ed_V d.
Definition eventTaken (d : eventDoc) (ds : list eventDoc) : Prop :=
  ed_EventID d <> "" /\ exists d0, In d0 ds /\ ed_EventID d0 = ed_EventID d.

(** The server's message names the namespace, the index and the duplicate key, so the
    name of the version index must not come from the namespace or the event id. *)
Definition clearNames (db : database) (coll : string) (d : eventDoc) : bool :=
  negb (contains idxEventVersion (db_name db) || contains idxEventVersion coll || contains idxEventVersion (ed_EventID d)).

(** ** The laws *)

(** [indexed]: the unique indexes {eid, v} and {event_id, sparse} exist on the collection. *)
Class MongoLaws (W : Type) `{MongoDriver W eventDoc} := {
  docs : W -> database -> string -> list eventDoc;
  indexed : W -> database -> string -> bool;
  regexMatch : string -> string -> bool;

  regex_path : forall path s, has_byte "010" s = false ->
    regexMatch (pathPattern path) s =
    (str_eqb s path || has_prefix (path +:+ ".") s || has_prefix (path +:+ "[") s);

  find_spec : forall db coll q s limit w r, supportedQuery q = true ->
    Find db coll q s limit w = Ok r ->
    exists S, Permutation S (List.filter (matchDoc regexMatch q) (docs w db coll)) /\
      StronglySorted (docLe s) S /\ r = limited limit S;

  find_one_spec : forall db coll q s w, supportedQuery q = true ->
    match FindOne db coll q s w with
    | Ok d => exists S, Permutation (d :: S) (List.filter (matchDoc regexMatch q) (docs w db coll)) /\
                StronglySorted (docLe s) (d :: S)
    | Err NoDocuments => List.filter (matchDoc regexMatch q) (docs w db coll) = []
    | Err _ => True
    end;

  insert_spec : forall db coll d w r w', indexed w db coll = true ->
    InsertOne db coll d w = (r, w') ->
    indexed w' db coll = true /\
    match r with
    | None =>
        ~ versionTaken d (docs w db coll) /\ ~ eventTaken d (docs w db coll) /\
        exists d', docReadBack d d' /\ docs w' db coll = docs w db coll ++ [d']
    | Some e =>
        (isDupKeyOn e "" = true ->
           docs w' db coll = docs w db coll /\ (versionTaken d (docs w db coll) \/ eventTaken d (docs w db coll))) /\
        (clearNames db coll d = true -> isDupKeyOn e idxEventVersion = true -> versionTaken d (docs w db coll)) /\
        (clearNames db coll d = true -> isDupKeyOn e idxEventVersion = false -> isDupKeyOn e idxEventID = true ->
           eventTaken d (docs w db coll)) /\
        (docs w' db coll = docs w db coll \/
         ~ versionTaken d (docs w db coll) /\ exists d', docReadBack d d' /\ docs w' db coll = docs w db coll ++ [d'])
    end }.

(** ** First consequences *)

(** One entity's documents, and the versions stored for it. *)
Definition ofEntity (eid : string) (ds : list eventDoc) : list eventDoc := List.filter (fun d => str_eqb eid (ed_EID d)) ds.
Definition versions (eid : string) (ds : list eventDoc) : list Z := map ed_V (ofEntity eid ds).

Lemma match_eid regex eid d : matchDoc regex [("eid", BStr eid)] d = str_eqb eid (ed_EID d).
Proof. unfold matchDoc, matchClause. cbn. by rewrite orb_false_r, andb_true_r. Qed.

Lemma filter_eid regex eid ds : List.filter (matchDoc regex [("eid", BStr eid)]) ds = ofEntity eid ds.
Proof. apply List.filter_ext. intros d. apply match_eid. Qed.

(** [lastVersion] is the greatest version stored, or 0. *)
Lemma lastVersion_spec {W : Type} `{MongoLaws W} db coll eid w v :
  lastVersion db coll eid w = Ok v ->
  (ofEntity eid (docs w db coll) = [] /\ v = 0%Z) \/
  (In v (versions eid (docs w db coll)) /\ Forall (fun x => x <= v)%Z (versions eid (docs w db coll))).
Proof.
  unfold lastVersion. pose proof (find_one_spec db coll [("eid", BStr eid)] [("v", (-1)%Z)] w eq_refl) as Hf.
  destruct (FindOne db coll [("eid", BStr eid)] [("v", (-1)%Z)] w) as [d|e].
  - intros [= <-]. right. destruct Hf as (S' & Hp & Hs). rewrite filter_eid in Hp. unfold versions.
    apply StronglySorted_inv in Hs as [_ Hs]. split.
    + apply in_map. apply (Permutation_in _ Hp). by left.
    + rewrite <- (Permutation_map ed_V Hp). cbn. constructor; [lia|].
      apply List.Forall_map. eapply Forall_impl; [exact Hs|]. intros x Hx. cbn in Hx.
      destruct Hx as [Hx|[Hx _]]; unfold sortKey in Hx; cbn in Hx; lia.
  - destruct e; try done. intros [= <-]. left. by rewrite filter_eid in Hf.
Qed.
