(* ===== verification/Paging.v ===== *)
(** * Keyset pagination

    Cutting a sorted listing at one of its elements: the elements a strict comparison
    with the cursor selects are exactly those after it, so pages neither drop nor repeat
    a row.  Shared by the event history and the flow pages. *)

From stdpp Require Import base list sorting.
From Stdlib Require Import Lia Permutation.
From S2P Require Import Prelude.

Lemma sorted_lookup {A : Type} (R : A -> A -> Prop) (l : list A) (i j : nat) (x y : A) :
  StronglySorted R l -> l !! i = Some x -> l !! j = Some y -> i < j -> R x y.
Proof.
  intros Hs. revert i j. induction Hs as [|z l _ IH Hz]; intros i j Hi Hj Hij; [done|].
  destruct j as [|j]; [lia|]. destruct i as [|i]; cbn in *.
  - injection Hi as <-. rewrite List.Forall_forall in Hz. apply Hz, list_elem_of_In. by eapply list_elem_of_lookup_2.
  - eapply IH; eauto. lia.
Qed.

Section Cut.
Context {A : Type} (le : A -> A -> Prop) (after : A -> A -> bool).

(** On the listing, [after x y] is "y is behind x and different from it". *)
Definition cutsAt (l : list A) : Prop :=
  forall i x, l !! i = Some x -> forall j y, l !! j = Some y -> after x y = bool_decide (i < j).

Lemma filter_cut (l : list A) (i : nat) (x : A) :
  cutsAt l -> l !! i = Some x -> List.filter (after x) l = drop (S i) l.
Proof.
  intros Hc Hi. specialize (Hc i x Hi). clear Hi.
  assert (forall k, List.filter (after x) (drop k l) = drop (Nat.max k (S i)) l) as Hk; [|exact (Hk 0)].
  intros k. remember (length l - k) as n eqn:En. revert k En. induction n as [|n IH]; intros k En.
  - rewrite !drop_ge by lia. done.
  - destruct (lookup_lt_is_Some_2 l k) as [y Hy]; [lia|]. rewrite (drop_S l y k Hy). cbn [List.filter].
    rewrite (Hc k y Hy), (IH (S k)) by lia. destruct (decide (i < k)).
    + rewrite bool_decide_true by done. rewrite !Nat.max_l by lia. by rewrite (drop_S l y k Hy).
    + rewrite bool_decide_false by done. f_equal. lia.
Qed.

(** A sorted listing of the rows behind a cursor is the rest of the whole listing. *)
Lemma page_after (all rows page : list A) (i : nat) (x : A) :
  StronglySorted le all -> StronglySorted le page ->
  (forall a b, a ∈ all -> b ∈ all -> le a b -> le b a -> a = b) ->
  cutsAt all -> all !! i = Some x ->
  Permutation all rows -> Permutation page (List.filter (after x) rows) ->
  page = drop (S i) all.
Proof.
  intros Hs Hp Hasym Hc Hi Hall Hpage. rewrite <- (filter_cut all i x Hc Hi).
  assert (Permutation page (List.filter (after x) all)) as Hperm.
  { rewrite Hpage. clear -Hall. induction Hall as [|y l l' _ IH|y z l|l l' l'' _ IH1 _ IH2]; cbn; [done| | |by etrans].
    - destruct (after x y); [by constructor|done].
    - destruct (after x y), (after x z); try done. apply Permutation_swap. }
  assert (forall a, a ∈ List.filter (after x) all -> a ∈ all) as Hsub.
  { intros a Ha. rewrite list_elem_of_In in *. by apply filter_In in Ha as [? _]. }
  apply (StronglySorted_unique_strong le).
  - intros a b Ha Hb. apply Hasym; [|by apply Hsub]. apply Hsub. by rewrite <- Hperm.
  - done.
  - clear -Hs. induction Hs as [|y l _ IH Hy]; cbn; [constructor|]. destruct (after x y); [|done].
    constructor; [done|]. rewrite List.Forall_forall in *. intros z Hz. apply Hy. by apply filter_In in Hz as [? _].
  - done.
Qed.
End Cut.
