(* ===== verification/MongoMem.v ===== *)
(** * A document collection in memory

    An instance of the driver interface that satisfies the laws of [MongoLaws.v]: one
    collection with its unique indexes, sorting by merge sort, decoding nested values to
    [bson.D] and [bson.A] and times to milliseconds. *)

From stdpp Require Import base list strings sorting.
From Stdlib Require Import ZArith Lia Ascii Permutation.
From S2P Require Import Prelude GoMap Json Paths Diff DiffSound Domain Tenant Config Names Alias Repo Mapping Mongo MongoLaws.

(** ** Sorting *)

#[export] Instance docLe_dec s : RelDecision (docLe s).
Proof. induction s as [|[field dir] s IH]; intros a b; cbn; [apply _|]. specialize (IH a b). apply _. Defined.

Lemma docLe_total s a b : docLe s a b \/ docLe s b a \/ exists field, In (field, 0%Z) s.
Proof.
  induction s as [|[field dir] s IH]; cbn; [by left|].
  destruct (decide (dir = 0%Z)) as [->|Hd]; [right; right; exists field; by left|].
  destruct (Z.lt_trichotomy (dir * sortKey field a) (dir * sortKey field b)) as [?|[E|?]]; [by left; left| |by right; left; left].
  assert (sortKey field a = sortKey field b) as E' by nia.
  destruct IH as [?|[?|(x & ?)]]; [by left; right|by right; left; right; split|right; right; exists x; by right].
Qed.

(** A sort direction of 0 is not a direction. *)
Definition properSort (s : list (string * Z)) : bool := forallb (fun e => negb (snd e =? 0)%Z) s.

#[export] Instance docLe_trans s : Transitive (docLe s).
Proof.
  induction s as [|[field dir] s IH]; intros a b c; cbn; [done|].
  intros [?|[E1 H1]] [?|[E2 H2]]; [left; lia|left; congruence || lia|left; lia|].
  right. split; [congruence|by transitivity b].
Qed.

Lemma sort_spec s l : properSort s = true ->
  Permutation (merge_sort (docLe s) l) l /\ StronglySorted (docLe s) (merge_sort (docLe s) l).
Proof.
  intros Hp. split; [apply merge_sort_Permutation|]. apply StronglySorted_merge_sort; [apply _|].
  intros a b. destruct (docLe_total s a b) as [?|[?|(x & Hx)]]; [by left|by right|].
  unfold properSort in Hp. rewrite forallb_forall in Hp. by specialize (Hp _ Hx).
Qed.

(** ** Decoding *)

Fixpoint decodeAny (v : anyv) : anyv :=
  match v with
  | AMap l => AD (map (fun e => (fst e, decodeAny (snd e))) l)
  | AArr l => AA (map decodeAny l)
  | _ => v
  end.

(** A value made of Go maps, slices and scalars. *)
Fixpoint plainAny (v : anyv) : bool :=
  match v with
  | AScal j => is_scalar j
  | AMap l => forallb (fun e => plainAny (snd e)) l
  | AArr l => forallb plainAny l
  | _ => false
  end.

Section AnyInd.
Variable P : anyv -> Prop.
Hypothesis Hs : forall j, P (AScal j).
Hypothesis HD : forall l, P (AD l).
Hypothesis HM : forall l, P (AM l).
Hypothesis HA : forall l, P (AA l).
Hypothesis Hmap : forall l, Forall (fun e => P (snd e)) l -> P (AMap l).
Hypothesis Harr : forall l, Forall P l -> P (AArr l).
Fixpoint anyv_ind' (v : anyv) : P v :=
  match v with
  | AScal j => Hs j
  | AD l => HD l
  | AM l => HM l
  | AA l => HA l
  | AMap l => Hmap l ((fix go l : Forall (fun e => P (snd e)) l :=
                         match l with [] => Forall_nil_2 _ | e :: l' => Forall_cons_2 _ e l' (anyv_ind' (snd e)) (go l') end) l)
  | AArr l => Harr l ((fix go l : Forall P l :=
                         match l with [] => Forall_nil_2 _ | x :: l' => Forall_cons_2 _ x l' (anyv_ind' x) (go l') end) l)
  end.
End AnyInd.

Lemma plain_toAny v : plainAny v = true -> exists j, v = toAny j /\ decoded j (decodeAny v).
Proof.
  induction v as [j|l|l|l|l IH|l IH] using anyv_ind'; try done; cbn; intros Hp.
  - exists j. split; [by destruct j|]. by constructor.
  - assert (exists m, l = map (fun e => (fst e, toAny (snd e))) m /\
      decoded_fields m (map (fun e => (fst e, decodeAny (snd e))) l)) as (m & El & Hm).
    { induction IH as [|[k x] l Hx _ IHl]; [by exists []; split; [|constructor]|]. cbn in Hp. apply andb_true_iff in Hp as [Hpx Hpl].
      destruct (Hx Hpx) as (j & Ej & Dj). destruct (IHl Hpl) as (m & -> & Hm). cbn in Ej. subst x.
      exists ((k, j) :: m). split; [done|]. by constructor. }
    exists (JObj m). split; [by rewrite El|]. by eapply decoded_obj.
  - assert (exists m, l = map toAny m /\ decoded_list m (map decodeAny l)) as (m & El & Hm).
    { induction IH as [|x l Hx _ IHl]; [by exists []; split; [|constructor]|]. cbn in Hp. apply andb_true_iff in Hp as [Hpx Hpl].
      destruct (Hx Hpx) as (j & Ej & Dj). destruct (IHl Hpl) as (m & -> & Hm). subst x.
      exists (j :: m). split; [done|]. by constructor. }
    exists (JArr m). split; [by rewrite El|]. by constructor.
Qed.

Definition decodeDoc (d : eventDoc) : eventDoc :=
  mkEventDoc (ed_EID d) (ed_V d) (ed_Op d) (ed_Author d) (ed_Src d)
    (msTrunc (ed_TSSource d)) (msTrunc (ed_TSRcv d)) (msTrunc (ed_TSStored d)) (ed_EventID d) (ed_RID d)
    (map (fun c => mkChangeDoc (cd_P c) (cd_O c) (decodeAny (cd_Old c)) (decodeAny (cd_New c))) (ed_Changes d))
    (ed_Meta d) (ed_Flow d) (ed_Intg d).

Definition plainDoc (d : eventDoc) : bool :=
  forallb (fun c => plainAny (cd_Old c) && plainAny (cd_New c)) (ed_Changes d).

Lemma decodeDoc_read d : plainDoc d = true -> docReadBack d (decodeDoc d).
Proof.
  intros Hp. unfold docReadBack. split_and!; try done. cbn. unfold plainDoc in Hp.
  induction (ed_Changes d) as [|c cs IH]; [constructor|]. cbn in Hp |- *. apply andb_true_iff in Hp as [[Ho Hn]%andb_true_iff Hp].
  constructor; [|by apply IH]. split_and!; [done|done|by apply plain_toAny|by apply plain_toAny].
Qed.

(** ** Path patterns *)

Fixpoint unquote (s : string) : string :=
  match s with
  | EmptyString => EmptyString
  | String c s' =>
      if Ascii.eqb c "092" then match s' with String d s'' => String d (unquote s'') | EmptyString => s end
      else String c (unquote s')
  end.

Lemma unquote_quote s : unquote (QuoteMeta s) = s.
Proof.
  induction s as [|c s IH]; [done|]. cbn [QuoteMeta]. destruct (metaByte c) eqn:E.
  - cbn [unquote]. by rewrite Ascii.eqb_refl, IH.
  - cbn [unquote]. destruct (Ascii.eqb_spec c "092") as [->|_]; [done|]. by rewrite IH.
Qed.

Fixpoint dropSuffix (suf s : string) : option string :=
  if str_eqb s suf then Some EmptyString
  else match s with EmptyString => None | String c s' => option_map (String c) (dropSuffix suf s') end.

Lemma dropSuffix_app suf s : dropSuffix suf (s +:+ suf) = Some s.
Proof.
  induction s as [|c s IH].
  - rewrite app_nil_l_str. destruct suf; [done|]. cbn [dropSuffix]. by rewrite str_eqb_refl.
  - rewrite app_cons_str. cbn [dropSuffix]. destruct (str_eqb _ _) eqn:E.
    + apply str_eqb_eq, (f_equal String.length) in E. cbn in E. rewrite length_app_str in E. lia.
    + by rewrite IH.
Qed.

Definition memRegex (pat s : string) : bool :=
  match dropSuffix "($|\.|\[)" (trim_prefix "^" pat) with
  | Some q => let path := unquote q in str_eqb s path || has_prefix (path +:+ ".") s || has_prefix (path +:+ "[") s
  | None => false
  end.

Lemma memRegex_path path s :
  memRegex (pathPattern path) s = (str_eqb s path || has_prefix (path +:+ ".") s || has_prefix (path +:+ "[") s).
Proof.
  unfold memRegex, pathPattern, trim_prefix. rewrite drop_prefix_app. unfold default, id. cbn beta iota.
  by rewrite dropSuffix_app, unquote_quote.
Qed.

(** ** The instance *)

Definition dupMessage (idx key : string) : string :=
  "E11000 duplicate key error collection: db.ev index: " +:+ idx +:+ " dup key: { " +:+ key +:+ " }".

Definition sameKey (d d0 : eventDoc) : bool := str_eqb (ed_EID d0) (ed_EID d) && (ed_V d0 =? ed_V d)%Z.
Definition sameEvent (d d0 : eventDoc) : bool := negb (str_eqb (ed_EventID d) "") && str_eqb (ed_EventID d0) (ed_EventID d).

Definition memInsert (d : eventDoc) (w : list eventDoc) : option driverErr * list eventDoc :=
  if existsb (sameKey d) w then (Some (WriteException [(11000%Z, dupMessage idxEventVersion "v")]), w)
  else if existsb (sameEvent d) w then (Some (WriteException [(11000%Z, dupMessage idxEventID (ed_EventID d))]), w)
  else if plainDoc d then (None, w ++ [decodeDoc d]) else (Some OtherDriverError, w).

Definition memFind (q : bdoc) (s : list (string * Z)) (w : list eventDoc) : res driverErr (list eventDoc) :=
  if properSort s then Ok (merge_sort (docLe s) (List.filter (matchDoc memRegex q) w)) else Err OtherDriverError.

#[export] Instance memDriver : MongoDriver (list eventDoc) eventDoc := {
  InsertOne _ _ d w := memInsert d w;
  InsertMany _ _ ds w := (None, w ++ map decodeDoc ds);
  FindOne _ _ q s w := match memFind q s w with Ok (d :: _) => Ok d | Ok [] => Err NoDocuments | Err e => Err e end;
  Find _ _ q s limit w := match memFind q s w with Ok l => Ok (limited limit l) | Err e => Err e end;
  ReplaceOne _ _ _ d w := (None, w ++ [decodeDoc d]) }.

Lemma taken_version d w : existsb (sameKey d) w = true <-> versionTaken d w.
Proof.
  rewrite existsb_exists. unfold versionTaken, sameKey. split; intros (d0 & Hin & Hd); exists d0.
  - apply andb_true_iff in Hd as [?%str_eqb_eq ?%Z.eqb_eq]. done.
  - destruct Hd as [-> ->]. by rewrite str_eqb_refl, Z.eqb_refl.
Qed.

Lemma taken_event d w : existsb (sameEvent d) w = true <-> eventTaken d w.
Proof.
  rewrite existsb_exists. unfold eventTaken, sameEvent. split.
  - intros (d0 & Hin & [Hne%negb_true_iff%str_eqb_neq ?%str_eqb_eq]%andb_true_iff). split; [done|by exists d0].
  - intros (Hne & d0 & Hin & E). exists d0. apply str_eqb_neq in Hne. by rewrite E, Hne, str_eqb_refl.
Qed.


(** A separator byte that does not occur in the pattern splits the search. *)
Lemma has_prefix_sep sub c a b : has_byte c sub = false -> has_prefix sub (a +:+ String c b) = has_prefix sub a.
Proof.
  revert a. induction sub as [|x sub IH]; intros a Hc; [by destruct a|]. cbn in Hc.
  destruct (Ascii.eqb_spec c x) as [|Hne]; [done|]. destruct a as [|y a].
  - rewrite app_nil_l_str. cbn. destruct (Ascii.eqb_spec x c); [congruence|done].
  - rewrite app_cons_str. cbn. destruct (Ascii.eqb x y); [by apply IH|done].
Qed.

Lemma contains_sep sub c a b : sub <> "" -> has_byte c sub = false ->
  contains sub (a +:+ String c b) = contains sub a || contains sub b.
Proof.
  intros Hne Hc. induction a as [|x a IH].
  - rewrite app_nil_l_str. cbn [contains]. pose proof (has_prefix_sep sub c "" b Hc) as Hp. rewrite app_nil_l_str in Hp.
    rewrite Hp. by destruct sub.
  - rewrite app_cons_str. cbn [contains]. rewrite IH. pose proof (has_prefix_sep sub c (String x a) b Hc) as Hp.
    rewrite app_cons_str in Hp. rewrite Hp. by rewrite orb_assoc.
Qed.

(** The message of an event-id clash names the version index only if the event id does. *)
Lemma event_message key : contains idxEventVersion key = false ->
  contains idxEventVersion (dupMessage idxEventID key) = false.
Proof.
  intros Hk. unfold dupMessage.
  change ("E11000 duplicate key error collection: db.ev index: " +:+ idxEventID +:+ " dup key: { " +:+ key +:+ " }")
    with ("E11000 duplicate key error collection: db.ev index: uniq_event_id dup key: {" +:+ String " " (key +:+ String " " "}")).
  by rewrite !contains_sep, Hk by done.
Qed.

#[export] Instance memMongoLaws : MongoLaws (list eventDoc).
Proof.
  refine {| docs := fun w _ _ => w; indexed := fun _ _ _ => true; regexMatch := memRegex |}.
  - intros path s _. apply memRegex_path.
  - intros db coll q s limit w r _. cbn. unfold memFind. destruct (properSort s) eqn:E; [|done]. intros [= <-].
    destruct (sort_spec s (List.filter (matchDoc memRegex q) w) E). eexists. done.
  - intros db coll q s w _. cbn. unfold memFind. destruct (properSort s) eqn:E; [|done].
    destruct (sort_spec s (List.filter (matchDoc memRegex q) w) E) as [Hp Hs].
    destruct (merge_sort (docLe s) _) as [|d l]; [by apply Permutation_nil|]. by exists l.
  - intros db coll d w r w' _ Hi. cbn in Hi. unfold memInsert in Hi. split; [done|].
    pose proof (taken_version d w) as Hv. pose proof (taken_event d w) as He.
    destruct (existsb (sameKey d) w).
    { injection Hi as <- <-. split_and!; [split; [done|left; by apply Hv]|intros _ _; by apply Hv|done|by left]. }
    destruct (existsb (sameEvent d) w).
    { injection Hi as <- <-. split_and!; [split; [done|right; by apply He]| |intros _ _ _; by apply He|by left].
      intros Hclear Hdup. unfold clearNames in Hclear. rewrite negb_true_iff, !orb_false_iff in Hclear.
      destruct Hclear as [_ Hclear]. unfold isDupKeyOn in Hdup. cbn [existsb fst snd] in Hdup.
      rewrite event_message in Hdup by done. discriminate Hdup. }
    destruct (plainDoc d) eqn:Ep; injection Hi as <- <-.
    + split_and!; [by rewrite <- Hv|by rewrite <- He|]. exists (decodeDoc d). split; [by apply decodeDoc_read|done].
    + split_and!; [done..|by left].
Defined.
