(* ===== verification/MongoSound.v ===== *)
(** * Guarantees of the event repository (internal/storage/mongo/event_repo.go)

    Keyset pagination of the history, and concurrent appends: any interleaving of
    appenders that share nothing but the collection keeps every entity's versions
    gap-free and unique. *)

From stdpp Require Import base list strings sorting.
From Stdlib Require Import ZArith Lia Ascii Permutation Btauto.
From S2P Require Import Prelude GoMap Json Paths Diff DiffSound Domain Tenant Config Names Alias Repo Mapping Mongo MongoLaws Paging MongoMem.

(** ** Pagination *)

Definition withCursor (f : EventFilter) (after : option Position) (limit : Z) : EventFilter :=
  mkFilter (f_EntityID f) (f_From f) (f_To f) (f_Author f) (f_Op f) (f_Path f) (f_Source f) (f_OrderBy f) (f_Order f)
    limit after (f_MaxVersion f).

Definition dirOf (f : EventFilter) : Z := if str_eqb (f_Order f) OrderDesc then (-1)%Z else 1%Z.

(** The sort key of a document under the filter's ordering, version last. *)
Definition tsKey (f : EventFilter) (d : eventDoc) : Z :=
  if str_eqb (sortField (f_OrderBy f)) "v" then 0%Z else sortKey (sortField (f_OrderBy f)) d.

Definition docLt (f : EventFilter) (a b : eventDoc) : Prop :=
  (dirOf f * tsKey f a < dirOf f * tsKey f b)%Z \/
  (tsKey f a = tsKey f b /\ (dirOf f * ed_V a < dirOf f * ed_V b)%Z).

Lemma sortField_cases o : sortField o = "ts_src" \/ sortField o = "ts_rcv" \/ sortField o = "v".
Proof. unfold sortField. destruct (str_eqb o OrderSource); [by left|]. destruct (str_eqb o OrderReceived); naive_solver. Qed.

(** The sort of the query is the lexicographic order on (key, version). *)
Lemma docLe_lt f a b : docLe (historySort f) a b -> docLt f a b \/ (tsKey f a = tsKey f b /\ ed_V a = ed_V b).
Proof.
  unfold historySort, docLt, tsKey, dirOf.
  destruct (sortField_cases (f_OrderBy f)) as [-> |[-> | ->]]; cbn [str_eqb docLe]; cbn;
    destruct (str_eqb (f_Order f) OrderDesc); unfold sortKey; cbn; lia.
Qed.

(** The cursor predicate is the strict order after the cursor's row. *)
Definition posOf (f : EventFilter) (d : eventDoc) : Position :=
  mkPosition (ed_V d) (tsKey f d).

Lemma cursor_spec regex f x d :
  matchDoc regex (cursorPredicate (sortField (f_OrderBy f)) (f_Order f) (posOf f x)) d = true <-> docLt f x d.
Proof.
  unfold cursorPredicate, docLt, posOf, dirOf, tsKey.
  destruct (sortField_cases (f_OrderBy f)) as [-> |[-> | ->]];
    unfold matchDoc, matchClause, matchOp, fieldVals, sortKey; cbn;
    destruct (str_eqb (f_Order f) OrderDesc); cbn; rewrite ?orb_false_r, ?andb_true_r; lia.
Qed.

Lemma posOf_event f d ev : fromEventDoc d = Ok ev ->
  pos_Version (positionOf ev (f_OrderBy f)) = ed_V d /\
  cursorPredicate (sortField (f_OrderBy f)) (f_Order f) (positionOf ev (f_OrderBy f)) =
  cursorPredicate (sortField (f_OrderBy f)) (f_Order f) (posOf f d).
Proof.
  unfold fromEventDoc. destruct (fromChangeDocs (ed_Changes d)); [|done]. intros [= <-].
  unfold positionOf, cursorPredicate, posOf, tsKey, sortKey, sortField.
  destruct (str_eqb (f_OrderBy f) OrderSource) eqn:E1; [done|].
  by destruct (str_eqb (f_OrderBy f) OrderReceived) eqn:E2.
Qed.

Lemma history_filter_split regex f pos limit d :
  matchDoc regex (historyFilter (withCursor f (Some pos) limit)) d =
  matchDoc regex (cursorPredicate (sortField (f_OrderBy f)) (f_Order f) pos) d &&
  matchDoc regex (historyFilter (withCursor f None 0)) d.
Proof.
  unfold historyFilter, matchDoc. cbn [withCursor f_EntityID f_Op f_Author f_Source f_From f_To f_Path f_After f_MaxVersion f_OrderBy f_Order app].
  rewrite !forallb_app. cbn [forallb]. btauto.
Qed.

Lemma history_supported f : supportedQuery (historyFilter f) = true.
Proof.
  unfold historyFilter, supportedQuery. rewrite !forallb_app.
  assert (forall k v, In k ["eid"; "op"; "author"; "src"] ->
    forallb (fun kc => if str_eqb (fst kc) "$or" then
      match snd kc with BArr alts => forallb (fun a => match a with BDoc q' => forallb supportedClause q' | _ => false end) alts | _ => false end
      else supportedClause kc) (optClause k v) = true) as Hopt.
  { intros k v Hk. unfold optClause. destruct (str_eqb v ""); [done|]. cbn in Hk.
    repeat (destruct Hk as [<-|Hk]; [done|]). done. }
  rewrite !Hopt by (cbn; tauto). cbn [andb].
  assert (forall (a b c : bool), a = true -> b = true -> c = true -> a && (b && c) = true) as Hand by (by intros ??? -> -> ->).
  rewrite !andb_true_iff. split_and!.
  - unfold timeWindow. destruct (f_From f =? 0)%Z, (f_To f =? 0)%Z; done.
  - by destruct (str_eqb (f_Path f) "").
  - destruct (f_After f) as [p|]; [|done]. unfold cursorPredicate.
    destruct (sortField_cases (f_OrderBy f)) as [-> |[-> | ->]]; cbn; by destruct (str_eqb (f_Order f) OrderDesc).
  - by destruct (0 <? f_MaxVersion f)%Z.
Qed.

Lemma from_docs_forall2 ds evs : fromEventDocs ds = Ok evs -> Forall2 (fun d ev => fromEventDoc d = Ok ev) ds evs.
Proof.
  revert evs. induction ds as [|d ds IH]; intros evs; cbn; [intros [= <-]; constructor|].
  destruct (fromEventDoc d) as [ev|] eqn:E; [|done]. destruct (fromEventDocs ds) as [rest|]; [|done].
  intros [= <-]. constructor; [done|]. by apply IH.
Qed.

Lemma from_docs_inj ds evs evs' : Forall2 (fun d ev => fromEventDoc d = Ok ev) ds evs -> fromEventDocs ds = Ok evs' -> evs' = evs.
Proof.
  intros H. revert evs'. induction H as [|d ev ds evs Hd _ IH]; intros evs'; cbn; [by intros [= <-]|].
  rewrite Hd. destruct (fromEventDocs ds) as [rest|]; [|done]. intros [= <-]. by rewrite (IH rest).
Qed.

Lemma limited_drop {A B : Type} (P : A -> B -> Prop) (limit : Z) (n : nat) (l : list A) (l' : list B) :
  Forall2 P l l' -> Forall2 P (limited limit (drop n l)) (limited limit (drop n l')).
Proof. intros H. unfold limited. destruct (0 <? limit)%Z; [apply Forall2_take|]; by apply Forall2_drop. Qed.

(** The documents of one entity as the unique index keeps them. *)
Definition uniqueVersions (eid : string) (ds : list eventDoc) : Prop := NoDup (versions eid ds).

Section History.
Context {W : Type} `{MongoLaws W}.
Variable dbFor : ctx -> res err database.

Definition rowsOf (f : EventFilter) (ds : list eventDoc) : list eventDoc :=
  List.filter (matchDoc regexMatch (historyFilter (withCursor f None 0))) ds.

Lemma rows_entity f ds d : f_EntityID f <> "" -> In d (rowsOf f ds) -> In d (ofEntity (f_EntityID f) ds).
Proof.
  intros Hne. unfold rowsOf, ofEntity. rewrite !filter_In. intros [Hin Hm]. split; [done|].
  unfold historyFilter, optClause in Hm. cbn [withCursor f_EntityID] in Hm. apply str_eqb_neq in Hne. rewrite Hne in Hm.
  unfold matchDoc in Hm. rewrite forallb_app in Hm. apply andb_true_iff in Hm as [Hm _].
  cbn in Hm. by rewrite orb_false_r, andb_true_r in Hm.
Qed.

Lemma rows_nodup f ds all : f_EntityID f <> "" -> uniqueVersions (f_EntityID f) ds ->
  Permutation all (rowsOf f ds) -> NoDup (map ed_V all).
Proof.
  intros Hne Hu Hp. rewrite (Permutation_map ed_V Hp). unfold uniqueVersions, versions in Hu.
  assert (forall l, (forall d, In d l -> matchDoc regexMatch (historyFilter (withCursor f None 0)) d = true -> str_eqb (f_EntityID f) (ed_EID d) = true) ->
     NoDup (map ed_V (ofEntity (f_EntityID f) l)) ->
     NoDup (map ed_V (rowsOf f l))) as Hgen.
  { clear. induction l as [|d l IH]; intros Himp Hnd; [constructor|].
    unfold rowsOf, ofEntity in *. cbn [List.filter] in Hnd |- *.
    destruct (matchDoc regexMatch (historyFilter (withCursor f None 0)) d) eqn:E.
    - rewrite (Himp d (or_introl eq_refl) E) in Hnd. cbn in Hnd |- *. apply NoDup_cons in Hnd as [Hd Hnd].
      constructor; [|apply IH; [|done]; intros d' Hd' Hm; apply Himp; [by right|done]].
      rewrite list_elem_of_In, in_map_iff in Hd |- *. intros (d' & Ev & Hd'). apply Hd. exists d'. split; [done|].
      rewrite filter_In in Hd' |- *. destruct Hd' as [Hd' Hm]. split; [done|]. apply Himp; [by right|done].
    - apply IH; [intros d' Hd' Hm; apply Himp; [by right|done]|].
      destruct (str_eqb (f_EntityID f) (ed_EID d)); [|done]. cbn in Hnd. by apply NoDup_cons in Hnd as [_ ?]. }
  apply Hgen; [|done]. intros d Hd Hm. assert (In d (rowsOf f ds)) as Hr by (by apply filter_In).
  apply (rows_entity f ds d Hne) in Hr. by apply filter_In in Hr as [_ ?].
Qed.

(** The cursor cuts the sorted listing. *)
Lemma listing_cuts f all :
  StronglySorted (docLe (historySort f)) all -> NoDup (map ed_V all) ->
  cutsAt (fun x d => matchDoc regexMatch (cursorPredicate (sortField (f_OrderBy f)) (f_Order f) (posOf f x)) d) all.
Proof.
  intros Hs Hnd i x Hi j y Hj. apply eq_true_iff_eq. rewrite (cursor_spec regexMatch f x y), bool_decide_eq_true.
  assert (forall i j x y, all !! i = Some x -> all !! j = Some y -> i < j -> docLt f x y) as Hlt.
  { clear i x Hi j y Hj. intros i j x y Hi Hj Hij. pose proof (sorted_lookup _ all i j x y Hs Hi Hj Hij) as Hle.
    destruct (docLe_lt f x y Hle) as [?|[_ Hv]]; [done|].
    assert (x = y) as -> by (eapply (nodup_map_inj ed_V); eauto using list_elem_of_lookup_2).
    apply NoDup_fmap_1 in Hnd. pose proof (NoDup_lookup _ _ _ _ Hnd Hi Hj). lia. }
  split; [|by apply Hlt]. intros Hxy. destruct (decide (i < j)) as [?|Hge]; [done|].
  exfalso. destruct (decide (i = j)) as [->|Hne].
  - rewrite Hi in Hj. injection Hj as <-. unfold docLt in Hxy. lia.
  - pose proof (Hlt j i y x Hj Hi ltac:(lia)) as Hyx. unfold docLt in *. lia.
Qed.

Lemma listing_antisym f ds : NoDup (map ed_V ds) ->
  forall a b, a ∈ ds -> b ∈ ds -> docLe (historySort f) a b -> docLe (historySort f) b a -> a = b.
Proof.
  intros Hnd a b Ha Hb Hab Hba. apply (nodup_map_inj ed_V ds); [done|done|done|].
  destruct (docLe_lt f a b Hab) as [H1'|[_ ?]]; [|done]. destruct (docLe_lt f b a Hba) as [H2'|[_ ?]]; [|done].
  unfold docLt in *. lia.
Qed.

Lemma decoded_unique (ds : list eventDoc) (l l' : list Event) :
  Forall2 (fun d ev => fromEventDoc d = Ok ev) ds l -> Forall2 (fun d ev => fromEventDoc d = Ok ev) ds l' -> l = l'.
Proof.
  intros F. revert l'. induction F as [|d e ds l Hd _ IH]; intros l' F'; inversion F'; subst; [done|]. f_equal; [congruence|]. by apply IH.
Qed.

(** Listings by document. *)
Lemma list_docs c collection f w evs :
  repoListEvents dbFor c collection f w = Ok evs ->
  exists db ds, dbFor c = Ok db /\ Forall2 (fun d ev => fromEventDoc d = Ok ev) (limited (historyLimit f) ds) evs /\
    Permutation ds (List.filter (matchDoc regexMatch (historyFilter f)) (docs w db (eventsCollection collection))) /\
    StronglySorted (docLe (historySort f)) ds.
Proof.
  unfold repoListEvents, withColl. destruct (validateLogical collection); [|done].
  destruct (dbFor c) as [db|]; [|done].
  destruct (Find db _ _ _ _ w) as [ds|] eqn:E; [|done]. intros Hd%from_docs_forall2.
  destruct (find_spec _ _ _ _ _ _ _ (history_supported f) E) as (S' & Hp & Hs & ->).
  exists db, S'. done.
Qed.

Lemma paging_step c collection f w all i ev limit page db :
  f_EntityID f <> "" -> dbFor c = Ok db -> uniqueVersions (f_EntityID f) (docs w db (eventsCollection collection)) ->
  repoListEvents dbFor c collection (withCursor f None 0) w = Ok all -> all !! i = Some ev ->
  repoListEvents dbFor c collection (withCursor f (Some (positionOf ev (f_OrderBy f))) limit) w = Ok page ->
  page = limited (historyLimit (withCursor f None limit)) (drop (S i) all).
Proof.
  intros Hne Hdb Hu Hall Hev Hpage.
  apply list_docs in Hall as (db1 & ds & E1 & F1 & P1 & S1). rewrite Hdb in E1. injection E1 as <-.
  apply list_docs in Hpage as (db1 & ds' & E1 & F2 & P2 & S2). rewrite Hdb in E1. injection E1 as <-.
  change (limited (historyLimit (withCursor f None 0)) ds) with ds in F1.
  destruct (Forall2_lookup_r _ _ _ _ _ F1 Hev) as (x & Hx & Hfx).
  destruct (posOf_event f x ev Hfx) as [_ Hpos].
  assert (ds' = drop (S i) ds) as ->.
  { eapply (page_after (docLe (historySort f))); [exact S1|exact S2| |by apply listing_cuts; [|eapply rows_nodup; eauto]|exact Hx|exact P1|].
    - apply listing_antisym. by eapply rows_nodup; eauto.
    - rewrite P2. clear -Hpos. set (l := docs w db (eventsCollection collection)). clearbody l.
      apply reflexive_eq. induction l as [|d l IH]; [done|]. cbn [List.filter].
      rewrite history_filter_split, Hpos, IH.
      destruct (matchDoc regexMatch (historyFilter (withCursor f None 0)) d); cbn [List.filter];
        [by rewrite andb_true_r|by rewrite andb_false_r]. }
  assert (Forall2 (fun d ev => fromEventDoc d = Ok ev) (limited (historyLimit (withCursor f None limit)) (drop (S i) ds))
            (limited (historyLimit (withCursor f None limit)) (drop (S i) all))) as F3 by (by apply limited_drop).
  by apply (decoded_unique _ _ _ F2 F3).
Qed.

(** The first page is the beginning of the full listing. *)
Lemma first_page c collection f w all limit page db :
  f_EntityID f <> "" -> dbFor c = Ok db -> uniqueVersions (f_EntityID f) (docs w db (eventsCollection collection)) ->
  repoListEvents dbFor c collection (withCursor f None 0) w = Ok all -> repoListEvents dbFor c collection (withCursor f None limit) w = Ok page ->
  page = limited (historyLimit (withCursor f None limit)) all.
Proof.
  intros Hne Hdb Hu Hall Hpage.
  apply list_docs in Hall as (db1 & ds & E1 & F1 & P1 & S1). rewrite Hdb in E1. injection E1 as <-.
  apply list_docs in Hpage as (db1 & ds' & E1 & F2 & P2 & S2). rewrite Hdb in E1. injection E1 as <-.
  change (limited (historyLimit (withCursor f None 0)) ds) with ds in F1.
  assert (ds' = ds) as ->.
  { assert (Permutation ds' ds) as P by (etrans; [exact P2|symmetry; exact P1]).
    apply (StronglySorted_unique_strong (docLe (historySort f))); [|exact S2|exact S1|exact P].
    intros a b Ha Hb. rewrite P in Ha. apply (listing_antisym f ds); [by eapply rows_nodup; eauto|done|done]. }
  eapply decoded_unique; [exact F2|]. by apply (limited_drop _ _ 0).
Qed.
End History.

(** History pages neither drop nor repeat an event.  For any filter on an entity,
    any ordering field and either direction, the page fetched with the cursor of the
    event at position [i] of the full listing is the listing from position [i + 1] on,
    cut at the limit, also when timestamps repeat. *)
Theorem history_paging {W : Type} `{MongoLaws W} (dbFor : ctx -> res err database) (c : ctx) (db : database) (collection : string) (f : EventFilter) (w : W)
    (all page : list Event) (i : nat) (ev : Event) (limit : Z) :
  f_EntityID f <> "" -> dbFor c = Ok db -> uniqueVersions (f_EntityID f) (docs w db (eventsCollection collection)) ->
  repoListEvents dbFor c collection (withCursor f None 0) w = Ok all -> all !! i = Some ev ->
  repoListEvents dbFor c collection (withCursor f (Some (positionOf ev (f_OrderBy f))) limit) w = Ok page ->
  page = limited limit (drop (S i) all).
Proof.
  intros. replace (limited limit (drop (S i) all)) with (limited (historyLimit (withCursor f None limit)) (drop (S i) all)).
  - by eapply paging_step.
  - unfold limited, historyLimit. cbn [withCursor f_Limit]. destruct (0 <? limit)%Z eqn:E; [by rewrite E|done].
Qed.

(** ** Concurrent appends *)

(** The versions stored for each entity are 1, ..., n, in any order. *)
Definition gapfreeDocs (ds : list eventDoc) : Prop :=
  forall eid, Permutation (versions eid ds) (map Z.of_nat (seq 1 (length (ofEntity eid ds)))).

(** One appender between two driver calls: about to read the tail with [n] attempts
    left, about to insert the stamped event, or finished. *)
Inductive thread :=
| TRead (ev : Event) (n : nat)
| TInsert (ev : Event) (n : nat)
| TDone (r : res err Event).

Section Concurrent.
Context {W : Type} `{MongoLaws W}.
Variables (db : database) (coll : string).

(** One driver call of [AppendEvent]'s loop; the wall clock may advance between calls. *)
Inductive tstep : W -> thread -> W -> thread -> Prop :=
| ts_exhausted w ev : tstep w (TRead ev 0) w (TDone (Err ErrVersionConflict))
| ts_read w ev n last now : lastVersion db coll (ev_EntityID ev) w = Ok last ->
    tstep w (TRead ev (S n)) w (TInsert (stampStored (setVersion ev (last + 1)) now) n)
| ts_read_err w ev n e : lastVersion db coll (ev_EntityID ev) w = Err e -> tstep w (TRead ev (S n)) w (TDone (Err e))
| ts_insert w ev n w' : InsertOne db coll (toEventDoc ev) w = (None, w') -> tstep w (TInsert ev n) w' (TDone (Ok ev))
| ts_retry w ev n e w' : InsertOne db coll (toEventDoc ev) w = (Some e, w') -> isDupKeyOn e idxEventVersion = true ->
    tstep w (TInsert ev n) w' (TRead ev n)
| ts_dup w ev n e w' : InsertOne db coll (toEventDoc ev) w = (Some e, w') -> isDupKeyOn e idxEventVersion = false ->
    isDupKeyOn e idxEventID = true -> tstep w (TInsert ev n) w' (TDone (Err ErrDuplicateEvent))
| ts_fail w ev n e w' : InsertOne db coll (toEventDoc ev) w = (Some e, w') -> isDupKeyOn e idxEventVersion = false ->
    isDupKeyOn e idxEventID = false -> tstep w (TInsert ev n) w' (TDone (Err (internal e))).

(** A thread running alone. *)
Inductive talone : W -> thread -> W -> thread -> Prop :=
| talone_refl w t : talone w t w t
| talone_step w t w1 t1 w2 t2 : tstep w t w1 t1 -> talone w1 t1 w2 t2 -> talone w t w2 t2.

(** [AppendEvent]'s loop is a thread run to completion without interference. *)
Lemma appendLoop_alone n now ev w r w' :
  appendLoop n db coll now ev w = (r, w') -> talone w (TRead ev n) w' (TDone r).
Proof.
  revert ev w. induction n as [|n IH]; intros ev w; cbn.
  { intros [= <- <-]. eapply talone_step; [constructor|constructor]. }
  destruct (lastVersion db coll (ev_EntityID ev) w) as [v|e] eqn:El.
  2:{ intros [= <- <-]. eapply talone_step; [by constructor|constructor]. }
  set (ev' := stampStored (setVersion ev (v + 1)) now).
  intros Hr. eapply talone_step; [by apply (ts_read w ev n v now)|]. fold ev'.
  destruct (InsertOne db coll (toEventDoc ev') w) as [[e|] w1] eqn:Ei.
  - destruct (isDupKeyOn e idxEventVersion) eqn:E1.
    + eapply talone_step; [by eapply ts_retry|]. by apply IH.
    + destruct (isDupKeyOn e idxEventID) eqn:E2; injection Hr as <- <-;
        (eapply talone_step; [|constructor]); [by eapply ts_dup|by eapply ts_fail].
  - injection Hr as <- <-. eapply talone_step; [by constructor|constructor].
Qed.

(** Interleavings: at each step one of the threads makes a driver call. *)
Inductive gstep : W * list thread -> W * list thread -> Prop :=
| gstep_intro w ts i t w' t' : ts !! i = Some t -> tstep w t w' t' -> gstep (w, ts) (w', <[i := t']> ts).

Inductive greach : W * list thread -> W * list thread -> Prop :=
| greach_refl g : greach g g
| greach_step g g1 g2 : greach g g1 -> gstep g1 g2 -> greach g g2.

Lemma greach_fwd g g1 g2 : gstep g g1 -> greach g1 g2 -> greach g g2.
Proof.
  intros Hs Hr. induction Hr as [|g1 g' g2 _ IH Hs']; [exact (greach_step _ _ _ (greach_refl _) Hs)|].
  exact (greach_step _ _ _ (IH Hs) Hs').
Qed.

(** What holds of a thread at any time. *)
Definition threadOK (w : W) (t : thread) : Prop :=
  match t with
  | TInsert ev _ => (1 <= ev_Version ev <= Z.of_nat (length (ofEntity (ev_EntityID ev) (docs w db coll))) + 1)%Z
  | TDone (Ok ev) => In (ev_Version ev) (versions (ev_EntityID ev) (docs w db coll))
  | _ => True
  end.

(** Two successful appends of one entity got different versions. *)
Definition distinctDone (ts : list thread) : Prop :=
  forall i j a b, i <> j -> ts !! i = Some (TDone (Ok a)) -> ts !! j = Some (TDone (Ok b)) ->
    ev_EntityID a = ev_EntityID b -> ev_Version a <> ev_Version b.

Definition appendInv (g : W * list thread) : Prop :=
  indexed (fst g) db coll = true /\ gapfreeDocs (docs (fst g) db coll) /\
  Forall (threadOK (fst g)) (snd g) /\ distinctDone (snd g).

Lemma versions_snoc eid ds d :
  versions eid (ds ++ [d]) = versions eid ds ++ (if str_eqb eid (ed_EID d) then [ed_V d] else []).
Proof. unfold versions, ofEntity. rewrite List.filter_app, map_app. cbn. by destruct (str_eqb eid (ed_EID d)). Qed.

Lemma ofEntity_length eid ds : length (ofEntity eid ds) = length (versions eid ds).
Proof. unfold versions. by rewrite length_map. Qed.

(** A version inserted next to 1, ..., n without a clash is n + 1. *)
Lemma gapfree_insert ds ev d' :
  gapfreeDocs ds -> (1 <= ev_Version ev <= Z.of_nat (length (ofEntity (ev_EntityID ev) ds)) + 1)%Z ->
  ~ versionTaken (toEventDoc ev) ds -> docReadBack (toEventDoc ev) d' -> gapfreeDocs (ds ++ [d']).
Proof.
  intros Hg Hv Hnt (E1 & E2 & _). cbn in E1, E2. intros eid. rewrite ofEntity_length, versions_snoc, E1, E2.
  destruct (str_eqb eid (ev_EntityID ev)) eqn:E; [|rewrite app_nil_r, <- ofEntity_length; apply Hg].
  apply str_eqb_eq in E as ->. specialize (Hg (ev_EntityID ev)). rewrite ofEntity_length in Hg, Hv.
  assert (~ In (ev_Version ev) (versions (ev_EntityID ev) ds)) as Hni.
  { intros Hin. apply Hnt. unfold versions in Hin. apply in_map_iff in Hin as (d0 & Ed & Hd).
    apply filter_In in Hd as [Hd Hid%str_eqb_eq]. exists d0. cbn. done. }
  assert (ev_Version ev = Z.of_nat (length (versions (ev_EntityID ev) ds)) + 1)%Z as Hmax.
  { destruct (decide (ev_Version ev = Z.of_nat (length (versions (ev_EntityID ev) ds)) + 1)%Z) as [?|Hne]; [done|].
    exfalso. apply Hni. apply (Permutation_in _ (Permutation_sym Hg)). apply in_map_iff.
    exists (Z.to_nat (ev_Version ev)). split; [lia|]. apply in_seq. lia. }
  rewrite length_app, Nat.add_1_r, seq_S, map_app, <- Hg. cbn [length map]. apply Permutation_app_head.
  rewrite Hmax. replace (Z.of_nat (1 + length (versions (ev_EntityID ev) ds))) with (Z.of_nat (length (versions (ev_EntityID ev) ds)) + 1)%Z by lia. done.
Qed.

(** Documents are only ever added: what held of the other threads still holds. *)
Lemma threadOK_mono w w' t :
  (docs w' db coll = docs w db coll \/ exists d', docs w' db coll = docs w db coll ++ [d']) -> threadOK w t -> threadOK w' t.
Proof.
  intros Hd. destruct t as [| |[]]; cbn; try done.
  - destruct Hd as [-> |[d' ->]]; [done|]. rewrite !ofEntity_length, versions_snoc, length_app. lia.
  - destruct Hd as [-> |[d' ->]]; [done|]. rewrite versions_snoc, in_app_iff. by left.
Qed.

(** An insert, whatever the driver answers. *)
Lemma insert_grows w ev n r w' :
  appendInv (w, [TInsert ev n]) -> InsertOne db coll (toEventDoc ev) w = (r, w') ->
  indexed w' db coll = true /\ gapfreeDocs (docs w' db coll) /\
  (docs w' db coll = docs w db coll \/ exists d', docs w' db coll = docs w db coll ++ [d']) /\
  (r = None -> In (ev_Version ev) (versions (ev_EntityID ev) (docs w' db coll)) /\
               ~ In (ev_Version ev) (versions (ev_EntityID ev) (docs w db coll))).
Proof.
  intros (Hix & Hg & Ht & _) Hi. apply Forall_cons in Ht as [Hv _]. cbn in Hix, Hg, Hv.
  destruct (insert_spec _ _ _ _ _ _ Hix Hi) as [Hix' Hr]. split; [done|].
  assert (forall d', docReadBack (toEventDoc ev) d' -> ~ versionTaken (toEventDoc ev) (docs w db coll) ->
     docs w' db coll = docs w db coll ++ [d'] -> gapfreeDocs (docs w' db coll)) as Hgrow.
  { intros d' Hrb Hnt ->. by eapply gapfree_insert. }
  destruct r as [e|].
  - destruct Hr as (_ & _ & _ & [E|(Hnt & d' & Hrb & E)]).
    + rewrite E. split; [done|]. split; [by left|done].
    + split; [by eapply Hgrow|]. split; [right; by exists d'|done].
  - destruct Hr as (Hnt & _ & d' & Hrb & E). split; [by eapply Hgrow|]. split; [right; by exists d'|]. intros _.
    destruct Hrb as (E1 & E2 & _). cbn in E1, E2. rewrite E, versions_snoc, E1, E2, str_eqb_refl, in_app_iff.
    split; [right; by left|]. intros Hin. apply Hnt. unfold versions in Hin.
    apply in_map_iff in Hin as (d0 & Ed & Hd). apply filter_In in Hd as [Hd Hid%str_eqb_eq]. exists d0. cbn. done.
Qed.

Lemma distinct_insert ts i t' : distinctDone ts ->
  (forall a, t' = TDone (Ok a) -> forall j b, j <> i -> ts !! j = Some (TDone (Ok b)) ->
     ev_EntityID a = ev_EntityID b -> ev_Version a <> ev_Version b) ->
  distinctDone (<[i := t']> ts).
Proof.
  intros Hd Hn j k a b Hjk Hj Hk Heq. apply list_lookup_insert_Some in Hj as [(Hij & Ej & Hl)|[Hji Hj]].
  - apply list_lookup_insert_Some in Hk as [(Hik & _)|[Hki Hk]]; [congruence|].
    eapply (Hn a); [by symmetry|by apply not_eq_sym|done|done].
  - apply list_lookup_insert_Some in Hk as [(Hik & Ek & Hl)|[Hki Hk]]; [|by eapply (Hd j k)].
    apply not_eq_sym. eapply (Hn b); [by symmetry|by apply not_eq_sym|done|congruence].
Qed.

Lemma gstep_inv g g' : appendInv g -> gstep g g' -> appendInv g'.
Proof.
  intros Hinv Hs. destruct Hs as [w ts i t w' t' Hi Hs]. pose proof Hinv as (Hix & Hg & Ht & Hd). cbn in *.
  assert (threadOK w t) as Hti by (by eapply Forall_lookup_1).
  assert (forall ev n, t = TInsert ev n -> appendInv (w, [TInsert ev n])) as Hone.
  { intros ev n ->. split_and!; [done|done|by constructor|]. intros [|j] [|k] a b; cbn; done. }
  assert (indexed w' db coll = true /\ gapfreeDocs (docs w' db coll) /\
    (docs w' db coll = docs w db coll \/ exists d', docs w' db coll = docs w db coll ++ [d']) /\ threadOK w' t' /\
    (forall a, t' = TDone (Ok a) -> ~ In (ev_Version a) (versions (ev_EntityID a) (docs w db coll)))) as (A & B & C & D & E).
  { destruct Hs as [w ev|w ev n last now Hl|w ev n e Hl|w ev n w' Hins|w ev n e w' Hins E1|w ev n e w' Hins E1 E2|w ev n e w' Hins E1 E2].
    1,3: by split_and!; [..|by left|done|].
    - split_and!; [done|done|by left| |done]. cbn.
      assert (forall ev now, ev_EntityID (stampStored ev now) = ev_EntityID ev /\ ev_Version (stampStored ev now) = ev_Version ev) as Hst
        by (intros ev0 now0; unfold stampStored; by destruct (ev_TSStored ev0 =? 0)%Z).
      destruct (Hst (setVersion ev (last + 1)) now) as [-> ->]. cbn.
      destruct (lastVersion_spec db coll (ev_EntityID ev) w last Hl) as [[-> ->]|[Hin _]]; [cbn; lia|].
      apply (Permutation_in _ (Hg (ev_EntityID ev))) in Hin. apply in_map_iff in Hin as (k & <- & Hk%in_seq).
      lia.
    - destruct (insert_grows w ev n None w' (Hone _ _ eq_refl) Hins) as (A & B & C & D). destruct (D eq_refl) as [D1 D2].
      split_and!; try done. by intros a [= <-].
    - destruct (insert_grows w ev n _ w' (Hone _ _ eq_refl) Hins) as (A & B & C & _). by split_and!.
    - destruct (insert_grows w ev n _ w' (Hone _ _ eq_refl) Hins) as (A & B & C & _). by split_and!.
    - destruct (insert_grows w ev n _ w' (Hone _ _ eq_refl) Hins) as (A & B & C & _). by split_and!. }
  split_and!; cbn; [done|done| |].
  - apply Forall_insert; [|done]. eapply Forall_impl; [exact Ht|]. intros t0. by apply threadOK_mono.
  - apply distinct_insert; [done|]. intros a Ha j b Hj Hb Heq Hve. apply (E a Ha). rewrite Heq, Hve.
    assert (threadOK w (TDone (Ok b))) as Hb' by (by eapply (Forall_lookup_1 _ _ j)). exact Hb'.
Qed.

Lemma greach_inv g g' : appendInv g -> greach g g' -> appendInv g'.
Proof. intros Hg Hr. induction Hr as [|g g1 g2 _ IH Hs]; [done|]. eapply gstep_inv; [by apply IH|done]. Qed.

End Concurrent.

(** C6: Concurrent appends serialize.  Start any number of appenders on a collection with
    its unique indexes and gap-free histories; after any interleaving of their driver
    calls, with any driver errors and lost answers, every entity still has the versions
    1, ..., n exactly once, each appender that reported success owns the version it
    reports, and no two of them got the same version of an entity. *)
Theorem concurrent_appends {W : Type} `{MongoLaws W} (db : database) (coll : string) (w w' : W) (evs : list Event) (ts : list thread) :
  indexed w db coll = true -> gapfreeDocs (docs w db coll) ->
  greach db coll (w, map (fun ev => TRead ev maxAppendRetries) evs) (w', ts) ->
  gapfreeDocs (docs w' db coll) /\
  (forall i ev, ts !! i = Some (TDone (Ok ev)) -> In (ev_Version ev) (versions (ev_EntityID ev) (docs w' db coll))) /\
  distinctDone ts.
Proof.
  intros Hix Hg Hr.
  assert (appendInv db coll (w, map (fun ev => TRead ev maxAppendRetries) evs)) as Hinv.
  { split_and!; [done|done| |]; cbn.
    - apply List.Forall_forall. intros t (ev & <- & _)%in_map_iff. done.
    - intros i j a b _ Hi. rewrite map_lookup in Hi. by destruct (evs !! i). }
  destruct (greach_inv db coll _ _ Hinv Hr) as (_ & Hg' & Ht & Hd). split_and!; [done| |done]. intros i ev Hi.
  assert (threadOK db coll w' (TDone (Ok ev))) as Hok by (by eapply (Forall_lookup_1 _ _ i)). exact Hok.
Qed.

(** ** Runs on the collection in memory *)

Definition ex_db : database := mkDB "mongodb://a" "hm_t_acme".
Definition ex_dbFor : ctx -> res err database := fun _ => Ok ex_db.

Definition ex_append (id : string) : Event :=
  mkEvent "deal-1" 0 OpUpdate "u1" "crm" 5 6 0 id "" [mkChange "a" OpAdd JNull (JInt64 1)] None None None.

(** The duplicate-key message is classified by substring.  Appending twice with an
    ordinary event id reports the duplicate; with the event id "uniq_eid_v" the message
    of the event-id index contains the name of the version index, so all attempts are
    spent and the repeat surfaces as a version conflict. *)
Theorem duplicate_event_misread :
  let twice id := repoAppendEvent ex_dbFor None "crm.deals" 9 (ex_append id)
                    (snd (repoAppendEvent ex_dbFor None "crm.deals" 9 (ex_append id) [])) in
  fst (twice "e1") = Err ErrDuplicateEvent /\ fst (twice "uniq_eid_v") = Err ErrVersionConflict.
Proof. split; vm_compute; reflexivity. Qed.

Definition ex_w : list eventDoc :=
  snd (repoAppendEvent ex_dbFor None "crm.deals" 9 (ex_append "e2")
    (snd (repoAppendEvent ex_dbFor None "crm.deals" 9 (ex_append "e1") []))).

Definition ex_listed (f : EventFilter) : list Event :=
  match repoListEvents ex_dbFor None "crm.deals" f ex_w with Ok l => l | Err _ => [] end.

Definition ex_filter : EventFilter := mkFilter "deal-1" 0 0 "" "" "" "" OrderReceived OrderDesc 0 None 0.

Lemma history_paging_witness :
  map ev_Version (ex_listed (withCursor ex_filter None 0)) = [2%Z; 1%Z] /\
  forall ev, ex_listed (withCursor ex_filter None 0) !! 0 = Some ev ->
  ex_listed (withCursor ex_filter (Some (positionOf ev OrderReceived)) 10) = limited 10 (drop 1 (ex_listed (withCursor ex_filter None 0))).
Proof.
  split; [vm_compute; reflexivity|]. intros ev Hev.
  apply (history_paging ex_dbFor None ex_db "crm.deals" ex_filter ex_w (ex_listed (withCursor ex_filter None 0)) _ 0 ev 10).
  - discriminate.
  - reflexivity.
  - apply (bool_decide_unpack _). vm_compute. exact I.
  - vm_compute. reflexivity.
  - exact Hev.
  - vm_compute in Hev. injection Hev as <-. vm_compute. reflexivity.
Defined.

(** Two appenders read the same tail before either inserts: one retries. *)
Lemma concurrent_appends_witness :
  exists w' a b, greach ex_db "ev_crm_deals" ([], [TRead (ex_append "e1") 16; TRead (ex_append "e2") 16])
      (w', [TDone (Ok a); TDone (Ok b)]) /\ ev_Version a = 1%Z /\ ev_Version b = 2%Z /\ gapfreeDocs (docs w' ex_db "ev_crm_deals").
Proof.
  assert (exists w' a b, greach ex_db "ev_crm_deals" (@nil eventDoc, [TRead (ex_append "e1") 16; TRead (ex_append "e2") 16])
      (w', [TDone (Ok a); TDone (Ok b)]) /\ ev_Version a = 1%Z /\ ev_Version b = 2%Z) as (w' & a & b & Hr & Ha & Hb).
  { eexists _, _, _. split.
    - eapply greach_fwd; [apply (gstep_intro _ _ _ _ 0 (TRead (ex_append "e1") 16)); [reflexivity|]; apply (ts_read _ _ _ _ _ 0 9); reflexivity|].
      eapply greach_fwd; [apply (gstep_intro _ _ _ _ 1 (TRead (ex_append "e2") 16)); [reflexivity|]; apply (ts_read _ _ _ _ _ 0 9); reflexivity|].
      eapply greach_fwd; [eapply (gstep_intro _ _ _ _ 0); [reflexivity|]; apply ts_insert; reflexivity|].
      eapply greach_fwd; [eapply (gstep_intro _ _ _ _ 1); [reflexivity|]; eapply ts_retry; reflexivity|].
      eapply greach_fwd; [eapply (gstep_intro _ _ _ _ 1); [reflexivity|]; apply (ts_read _ _ _ _ _ 1 9); reflexivity|].
      eapply greach_fwd; [eapply (gstep_intro _ _ _ _ 1); [reflexivity|]; apply ts_insert; reflexivity|].
      apply greach_refl.
    - split; reflexivity. }
  exists w', a, b. split_and!; [done..|].
  apply (concurrent_appends ex_db "ev_crm_deals" [] w' [ex_append "e1"; ex_append "e2"] [TDone (Ok a); TDone (Ok b)]);
    [reflexivity|intros eid; constructor|exact Hr].
Defined.
