(* ===== verification/Numbers.v ===== *)
(** * Numbers as strings ([strconv.ParseFloat], int to float64)

    The value-level reading of [strconv.ParseFloat(s, 64)]: the syntax of [readFloat]
    (decimal and hexadecimal, underscores as [underscoreOK] admits them, the exponent
    saturating as the scanner does), then the nearest float64, ties to even, computed
    exactly.  Overflow is an error, as [ErrRange] is for the callers here. *)

From stdpp Require Import base list strings.
From Stdlib Require Import ZArith Lia Ascii.
From Corelib Require Import SpecFloat.
From S2P Require Import Prelude GoMap Json.

Definition byteOf (c : ascii) : Z := Z.of_N (N_of_ascii c).

(** [c | ('x' - 'X')]. *)
Definition lower (c : ascii) : Z := Z.lor (byteOf c) 32.

Fixpoint lowerStr (s : string) : string :=
  match s with
  | EmptyString => EmptyString
  | String c s' => String (if ((65 <=? byteOf c) && (byteOf c <=? 90))%Z then ascii_of_N (Z.to_N (lower c)) else c) (lowerStr s')
  end.

(** ** Scanner state of the mantissa *)

Record mant := mkMant { mn_digits : Z; mn_frac : Z; mn_saw : bool; mn_dot : bool; mn_under : bool }.

(** The digit value of a byte in the base, [None] for another byte. *)
Definition digitVal (hex : bool) (c : ascii) : option Z :=
  let b := byteOf c in
  if is_digit c then Some (b - 48)%Z
  else if hex && ((97 <=? lower c) && (lower c <=? 102))%Z then Some (lower c - 87)%Z
  else None.

(** [loop:] of [readFloat]; returns the rest of the input. *)
Fixpoint scanMant (hex : bool) (st : mant) (s : string) : mant * string :=
  match s with
  | EmptyString => (st, s)
  | String c s' =>
      if (byteOf c =? 95)%Z then scanMant hex (mkMant (mn_digits st) (mn_frac st) (mn_saw st) (mn_dot st) true) s'
      else if (byteOf c =? 46)%Z then
        if mn_dot st then (st, s)
        else scanMant hex (mkMant (mn_digits st) (mn_frac st) (mn_saw st) true (mn_under st)) s'
      else
        match digitVal hex c with
        | Some d =>
            scanMant hex (mkMant (mn_digits st * (if hex then 16 else 10) + d) (mn_frac st + (if mn_dot st then 1 else 0))
                            true (mn_dot st) (mn_under st))%Z s'
        | None => (st, s)
        end
  end.

(** The exponent digits; [None] when there is none. *)
Fixpoint scanExp (e : Z) (under : bool) (s : string) : Z * bool * string :=
  match s with
  | String c s' =>
      if (byteOf c =? 95)%Z then scanExp e true s'
      else if is_digit c then scanExp (if e <? 10000 then e * 10 + (byteOf c - 48) else e)%Z under s'
      else (e, under, s)
  | EmptyString => (e, under, s)
  end.

Definition cutSign (s : string) : bool * string :=
  match s with
  | String c s' => if (byteOf c =? 45)%Z then (true, s') else if (byteOf c =? 43)%Z then (false, s') else (false, s)
  | EmptyString => (false, s)
  end.

(** [underscoreOK]: [prev] is the class of the byte before: a digit or base prefix
    ('0'), an underscore ('_') or anything else ('!'). *)
Inductive uclass := UStart | UDigit | UUnder | UOther.

Fixpoint underscoreLoop (hex : bool) (prev : uclass) (s : string) : bool :=
  match s with
  | EmptyString => match prev with UUnder => false | _ => true end
  | String c s' =>
      if is_digit c || (hex && ((97 <=? lower c) && (lower c <=? 102))%Z) then underscoreLoop hex UDigit s'
      else if (byteOf c =? 95)%Z then
        match prev with UDigit => underscoreLoop hex UUnder s' | _ => false end
      else match prev with UUnder => false | _ => underscoreLoop hex UOther s' end
  end.

Definition underscoreOK (s : string) : bool :=
  let s := snd (cutSign s) in
  match s with
  | String z (String x s') =>
      if ((byteOf z =? 48) && ((lower x =? 98) || (lower x =? 111) || (lower x =? 120)))%Z
      then underscoreLoop (lower x =? 120)%Z UDigit s'
      else underscoreLoop false UStart s
  | _ => underscoreLoop false UStart s
  end.

(** ** Rounding *)

Definition prec : Z := 53.
Definition emax : Z := 1024.

(** [(-1)^neg * n / d], rounded. *)
Definition roundRatio (neg : bool) (n d : positive) : float64 :=
  SFdiv prec emax (S754_finite neg n 0) (S754_finite false d 0).

Definition roundDecimal (neg : bool) (m : Z) (e : Z) : float64 :=
  match m with
  | Zpos p =>
      if (0 <=? e)%Z then binary_normalize prec emax ((if neg then -1 else 1) * (m * 10 ^ e)) 0 neg
      else roundRatio neg p (Z.to_pos (10 ^ (- e)))
  | _ => S754_zero neg
  end.

Definition roundHex (neg : bool) (m : Z) (e : Z) : float64 :=
  match m with
  | Zpos p => binary_normalize prec emax ((if neg then -1 else 1) * m) e neg
  | _ => S754_zero neg
  end.

(** [float64(i)] for an integer. *)
Definition intToFloat (z : Z) : float64 := binary_normalize prec emax z 0 false.

(** ** [strconv.ParseFloat(s, 64)], [None] for any error *)

Definition special (s : string) : option float64 :=
  let '(neg, t) := cutSign s in
  let l := lowerStr t in
  if str_eqb l "inf" || str_eqb l "infinity" then Some (S754_infinity neg)
  else if str_eqb (lowerStr s) "nan" then Some S754_nan
  else None.

Definition notInf (f : float64) : option float64 :=
  match f with S754_infinity _ => None | _ => Some f end.

Definition readFloat (s : string) : option float64 :=
  let '(neg, t) := cutSign s in
  let '(hex, t) :=
    match t with
    | String z (String x (String _ _ as t')) => if ((byteOf z =? 48) && (lower x =? 120))%Z then (true, t') else (false, t)
    | _ => (false, t)
    end in
  let '(m, rest) := scanMant hex (mkMant 0 0 false false false) t in
  if negb (mn_saw m) then None
  else
    let value (e : Z) : option float64 :=
      notInf (if hex then roundHex neg (mn_digits m) (e - 4 * mn_frac m) else roundDecimal neg (mn_digits m) (e - mn_frac m))%Z in
    let ok (under : bool) : bool := negb under || underscoreOK s in
    match rest with
    | EmptyString => if hex then None else if ok (mn_under m) then value 0%Z else None
    | String c rest' =>
        if (lower c =? (if hex then 112 else 101))%Z then
          let '(eneg, digits) := cutSign rest' in
          match digits with
          | String d _ =>
              if is_digit d then
                let '(e, under, tail) := scanExp 0 (mn_under m) digits in
                if str_eqb tail "" && ok under then value (if eneg then - e else e)%Z else None
              else None
          | EmptyString => None
          end
        else None
    end.

Definition ParseFloat (s : string) : option float64 :=
  match special s with
  | Some f => Some f
  | None => readFloat s
  end.

(** ** Examples *)

Example parse_int : ParseFloat "42" = Some (intToFloat 42). Proof. vm_compute. reflexivity. Qed.
Example parse_under : ParseFloat "1_000.5e1" = Some (intToFloat 10005). Proof. vm_compute. reflexivity. Qed.
Example parse_hex : ParseFloat "-0x1.8p3" = Some (intToFloat (-12)). Proof. vm_compute. reflexivity. Qed.
Example parse_tenth : option_map format_float (ParseFloat ".1") = Some "0.1". Proof. vm_compute. reflexivity. Qed.
Example parse_big : ParseFloat "1e309" = None. Proof. vm_compute. reflexivity. Qed.
Example parse_bad : ParseFloat "1_" = None /\ ParseFloat "" = None /\ ParseFloat "12a" = None. Proof. vm_compute. auto. Qed.
Example parse_inf : ParseFloat "-Infinity" = Some (S754_infinity true). Proof. reflexivity. Qed.
