(* ===== verification/Rules.v ===== *)
(** * Rules: model, compiler and evaluator (internal/rules)

    A condition tree is compiled once into a predicate tree ([compile], with its
    structural checks and error positions) and walked per event ([Eval]).  The regexp
    engine is the class [RegexpEngine]: what the package uses of it is [Compile] and
    [MatchString].  A [RuleError] carries the field path and the reason as data, the
    text of the reason is not spelled. *)

From stdpp Require Import base list strings.
From Stdlib Require Import ZArith Lia Ascii.
From Corelib Require Import SpecFloat.
From S2P Require Import Prelude GoMap Json Paths Diff Numbers.

(** ** Model *)

Definition OpEq : string := "eq".
Definition OpNe : string := "ne".
Definition OpIn : string := "in".
Definition OpGt : string := "gt".
Definition OpGte : string := "gte".
Definition OpLt : string := "lt".
Definition OpLte : string := "lte".
Definition OpRegex : string := "regex".
Definition OpExists : string := "exists".

Definition FieldOp : string := "op".
Definition FieldEntityID : string := "entity_id".
Definition FieldAuthorID : string := "author_id".
Definition FieldSource : string := "source".

Definition validField (f : string) : bool :=
  str_eqb f FieldOp || str_eqb f FieldEntityID || str_eqb f FieldAuthorID || str_eqb f FieldSource.

Record Match := mkMatch {
  m_Path : string; m_Op : string; m_Old : json; m_New : json; m_HasOld : bool; m_HasNew : bool }.

(** A nil slice is [None], an empty one [Some []]. *)
Inductive Condition := mkCondition {
  c_All : option (list Condition);
  c_Any : option (list Condition);
  c_Not : option Condition;
  c_Field : string;
  c_Op : string;
  c_Value : json;
  c_Match : option Match }.

Definition ActionWebhook : string := "webhook".
Definition ActionLog : string := "log".

Record Retry := mkRetry { MaxAttempts : Z; Backoff : string }.
Record Webhook := mkWebhook { URL : string; SecretRef : string; TimeoutMS : Z; wh_Retry : Retry }.
Record LogAction := mkLogAction { Level : string }.
Record Action := mkRuleAction {
  a_Type : string; a_Webhook : option Webhook; a_Log : option LogAction; a_Params : string }.

Record Rule := mkRule {
  r_ID : string; r_Name : string; r_Enabled : bool; r_Condition : Condition;
  r_Actions : list Action; r_Version : Z; r_UpdatedAt : Z }.

Record EvalEvent := mkEvalEvent {
  ee_Op : string; ee_EntityID : string; ee_Author : string; ee_Source : string; ee_Changes : list Change }.

Inductive reason :=
| EmptyCondition | AmbiguousCondition | UnknownField (f : string) | NotAList | NotNumeric | NotAString
| InvalidPattern | UnknownOperator (op : string) | UnknownChangeOp (op : string) | EmptySegment (glob : string)
| MustNotBeEmpty | UnknownActionType (typ : string) | MustNotBeNegative.

Record RuleError := mkRuleError { re_Field : string; re_Reason : reason }.

(** ** Induction through the nested lists *)
Section ConditionInd.
Context (P : Condition -> Prop).
Context (Hc : forall all any no f o v m,
  (forall l, all = Some l -> Forall P l) -> (forall l, any = Some l -> Forall P l) ->
  (forall c, no = Some c -> P c) -> P (mkCondition all any no f o v m)).

Fixpoint condition_ind' (c : Condition) : P c :=
  let fix go (l : list Condition) : Forall P l :=
    match l with
    | [] => Forall_nil_2 P
    | x :: l' => Forall_cons_2 P x l' (condition_ind' x) (go l')
    end in
  match c with
  | mkCondition all any no f o v m =>
      Hc all any no f o v m
        (fun l => match all with Some l0 => fun E => eq_ind l0 (Forall P) (go l0) l (f_equal (default []) E) | None => fun E => match E in _ = x return match x with None => True | Some l1 => Forall P l1 end with eq_refl => I end end)
        (fun l => match any with Some l0 => fun E => eq_ind l0 (Forall P) (go l0) l (f_equal (default []) E) | None => fun E => match E in _ = x return match x with None => True | Some l1 => Forall P l1 end with eq_refl => I end end)
        (fun x => match no with Some x0 => fun E => eq_ind x0 P (condition_ind' x0) x (f_equal (default x0) E) | None => fun E => match E in _ = y return match y with None => True | Some x1 => P x1 end with eq_refl => I end end)
  end.
End ConditionInd.

(** ** Values as strings and numbers *)

Definition toStr (v : json) : string :=
  match v with
  | JStr t => t
  | JBool t => if t then "true" else "false"
  | JNum t => format_float t
  | JInt t => itoa t
  | JInt64 t => itoa t
  | _ => ""
  end.

Definition toFloat (v : json) : option float64 :=
  match v with
  | JNum t => Some t
  | JInt t => Some (intToFloat t)
  | JInt64 t => Some (intToFloat t)
  | JStr t => ParseFloat t
  | _ => None
  end.

Definition compareNum (op : string) (a b : float64) : bool :=
  if str_eqb op OpGt then SFltb b a
  else if str_eqb op OpGte then SFleb b a
  else if str_eqb op OpLt then SFltb a b
  else if str_eqb op OpLte then SFleb a b
  else false.

Class RegexpEngine (R : Type) := { regexpCompile : string -> option R; MatchString : R -> string -> bool }.

Section Rules.
Context {R : Type} `{RegexpEngine R}.

Record scalar := mkScalar {
  sp_field : string; sp_op : string; sp_str : string; sp_set : list (string * unit);
  sp_num : float64; sp_numOK : bool; sp_re : option R }.

Record matcher := mkMatcher {
  mp_segs : list string; mp_op : string; mp_old : json; mp_hasOld : bool; mp_new : json; mp_hasNew : bool }.

Inductive Predicate :=
| allPred (ps : list Predicate)
| anyPred (ps : list Predicate)
| notPred (inner : Predicate)
| scalarPred (s : scalar)
| matchPred (m : matcher).

(** ** Compilation *)

Inductive condKind := kindScalar | kindAll | kindAny | kindNot | kindMatch.

Definition isSome {A : Type} (o : option A) : bool := match o with Some _ => true | None => false end.

Definition kindsOf (c : Condition) : list condKind :=
  (if isSome (c_All c) then [kindAll] else []) ++ (if isSome (c_Any c) then [kindAny] else []) ++
  (if isSome (c_Not c) then [kindNot] else []) ++ (if isSome (c_Match c) then [kindMatch] else []) ++
  (if negb (str_eqb (c_Field c) "") || negb (str_eqb (c_Op c) "") then [kindScalar] else []).

Definition classify (c : Condition) (path : string) : res RuleError condKind :=
  match kindsOf c with
  | [] => Err (mkRuleError path EmptyCondition)
  | [k] => Ok k
  | _ => Err (mkRuleError path AmbiguousCondition)
  end.

Definition zero64 : float64 := S754_zero false.

Definition compileScalar (c : Condition) (path : string) : res RuleError Predicate :=
  let f := c_Field c in
  let op := c_Op c in
  if negb (validField f) then Err (mkRuleError (path +:+ ".field") (UnknownField f))
  else if str_eqb op OpEq || str_eqb op OpNe then Ok (scalarPred (mkScalar f op (toStr (c_Value c)) [] zero64 false None))
  else if str_eqb op OpIn then
    match c_Value c with
    | JArr list => Ok (scalarPred (mkScalar f OpIn "" (fold_left (fun set v => mset (toStr v) tt set) list []) zero64 false None))
    | _ => Err (mkRuleError (path +:+ ".in") NotAList)
    end
  else if str_eqb op OpGt || str_eqb op OpGte || str_eqb op OpLt || str_eqb op OpLte then
    match toFloat (c_Value c) with
    | Some n => Ok (scalarPred (mkScalar f op "" [] n true None))
    | None => Err (mkRuleError (path +:+ "." +:+ op) NotNumeric)
    end
  else if str_eqb op OpRegex then
    match c_Value c with
    | JStr s =>
        match regexpCompile s with
        | Some re => Ok (scalarPred (mkScalar f OpRegex "" [] zero64 false (Some re)))
        | None => Err (mkRuleError (path +:+ ".regex") InvalidPattern)
        end
    | _ => Err (mkRuleError (path +:+ ".regex") NotAString)
    end
  else if str_eqb op OpExists then Ok (scalarPred (mkScalar f OpExists "" [] zero64 false None))
  else Err (mkRuleError (path +:+ ".op") (UnknownOperator op)).

Definition compileGlob (glob path : string) : res RuleError (list string) :=
  if str_eqb glob "" then Ok []
  else
    let segs := split_on dot glob in
    if existsb (str_eqb "") segs then Err (mkRuleError path (EmptySegment glob)) else Ok segs.

Definition compileMatch (m : Match) (path : string) : res RuleError Predicate :=
  match compileGlob (m_Path m) (path +:+ ".path") with
  | Err e => Err e
  | Ok segs =>
      let op := m_Op m in
      if negb (str_eqb op "") && negb (str_eqb op "add") && negb (str_eqb op "change") && negb (str_eqb op "remove")
      then Err (mkRuleError (path +:+ ".op") (UnknownChangeOp op))
      else Ok (matchPred (mkMatcher segs op (m_Old m) (m_HasOld m) (m_New m) (m_HasNew m)))
  end.

(** The loop of [compileList] from element [i] on. *)
Definition compileListWith (comp : Condition -> string -> res RuleError Predicate) (path : string) : nat -> list Condition -> res RuleError (list Predicate) :=
  fix go (i : nat) (cs : list Condition) :=
    match cs with
    | [] => Ok []
    | c :: cs' =>
        match comp c (path +:+ "[" +:+ itoa (Z.of_nat i) +:+ "]") with
        | Err e => Err e
        | Ok p => match go (S i) cs' with Err e => Err e | Ok ps => Ok (p :: ps) end
        end
    end.

Fixpoint compile (c : Condition) (path : string) : res RuleError Predicate :=
  match classify c path with
  | Err e => Err e
  | Ok kind =>
      match c with
      | mkCondition all any no _ _ _ m =>
          match kind, all, any, no, m with
          | kindAll, Some cs, _, _, _ =>
              match compileListWith compile (path +:+ ".all") 0 cs with Err e => Err e | Ok ps => Ok (allPred ps) end
          | kindAny, _, Some cs, _, _ =>
              match compileListWith compile (path +:+ ".any") 0 cs with Err e => Err e | Ok ps => Ok (anyPred ps) end
          | kindNot, _, _, Some c', _ =>
              match compile c' (path +:+ ".not") with Err e => Err e | Ok p => Ok (notPred p) end
          | kindMatch, _, _, _, Some m' => compileMatch m' (path +:+ ".match")
          | _, _, _, _, _ => compileScalar c path
          end
      end
  end.

Definition Compile (c : Condition) : res RuleError Predicate := compile c "condition".

(** ** Evaluation *)

Definition scalarField (e : EvalEvent) (f : string) : string * bool :=
  let v :=
    if str_eqb f FieldOp then ee_Op e
    else if str_eqb f FieldEntityID then ee_EntityID e
    else if str_eqb f FieldAuthorID then ee_Author e
    else if str_eqb f FieldSource then ee_Source e
    else "" in
  (v, negb (str_eqb v "")).

Definition evalScalar (p : scalar) (e : EvalEvent) : bool :=
  let '(val, present) := scalarField e (sp_field p) in
  let op := sp_op p in
  if str_eqb op OpExists then present
  else if str_eqb op OpEq then present && str_eqb val (sp_str p)
  else if str_eqb op OpNe then negb (str_eqb val (sp_str p))
  else if str_eqb op OpIn then present && isSome (mget val (sp_set p))
  else if str_eqb op OpGt || str_eqb op OpGte || str_eqb op OpLt || str_eqb op OpLte then
    match ParseFloat val with
    | Some n => sp_numOK p && compareNum op n (sp_num p)
    | None => false
    end
  else if str_eqb op OpRegex then
    present && match sp_re p with Some re => MatchString re val | None => false end
  else false.

Fixpoint globSegs (segs parts : list string) : bool :=
  match segs, parts with
  | [], [] => true
  | s :: segs', p :: parts' => (str_eqb s "*" || str_eqb s p) && globSegs segs' parts'
  | _, _ => false
  end.

Definition globMatch (segs : list string) (path : string) : bool :=
  if str_eqb path "" then match segs with [] => true | _ => false end
  else
    let parts := split_on dot path in
    if negb (Nat.eqb (length parts) (length segs)) then false else globSegs segs parts.

(** The wire name of a change op. *)
Definition opString (o : Op) : string :=
  match o with OpAdd => "add" | OpChange => "change" | OpRemove => "remove" | OpOther s => s end.

Fixpoint evalMatch (p : matcher) (chs : list Change) : bool :=
  match chs with
  | [] => false
  | ch :: chs' =>
      if negb (str_eqb (mp_op p) "") && negb (str_eqb (opString (ChOp ch)) (mp_op p)) then evalMatch p chs'
      else if negb (globMatch (mp_segs p) (Path ch)) then evalMatch p chs'
      else if mp_hasOld p && negb (jsonEqual (Old ch) (mp_old p)) then evalMatch p chs'
      else if mp_hasNew p && negb (jsonEqual (New ch) (mp_new p)) then evalMatch p chs'
      else true
  end.

Fixpoint Eval (p : Predicate) (e : EvalEvent) : bool :=
  match p with
  | allPred ps => (fix go (ps : list Predicate) := match ps with [] => true | p :: ps' => if negb (Eval p e) then false else go ps' end) ps
  | anyPred ps => (fix go (ps : list Predicate) := match ps with [] => false | p :: ps' => if Eval p e then true else go ps' end) ps
  | notPred inner => negb (Eval inner e)
  | scalarPred s => evalScalar s e
  | matchPred m => evalMatch m (ee_Changes e)
  end.

(** ** Validation before a rule is stored *)

Definition validateWebhook (w : option Webhook) (path : string) : option RuleError :=
  match w with
  | None => Some (mkRuleError (path +:+ ".url") MustNotBeEmpty)
  | Some w =>
      if str_eqb (URL w) "" then Some (mkRuleError (path +:+ ".url") MustNotBeEmpty)
      else if (TimeoutMS w <? 0)%Z then Some (mkRuleError (path +:+ ".timeout_ms") MustNotBeNegative)
      else if (MaxAttempts (wh_Retry w) <? 0)%Z then Some (mkRuleError (path +:+ ".retry.max_attempts") MustNotBeNegative)
      else None
  end.

Fixpoint validateActionsFrom (i : nat) (actions : list Action) : option RuleError :=
  match actions with
  | [] => None
  | a :: actions' =>
      let path := "actions[" +:+ itoa (Z.of_nat i) +:+ "]" in
      let e :=
        if str_eqb (a_Type a) ActionWebhook then validateWebhook (a_Webhook a) (path +:+ ".webhook")
        else if str_eqb (a_Type a) ActionLog then None
        else Some (mkRuleError (path +:+ ".type") (UnknownActionType (a_Type a))) in
      match e with
      | Some e => Some e
      | None => validateActionsFrom (S i) actions'
      end
  end.

Definition ValidateActions (actions : list Action) : option RuleError :=
  match actions with
  | [] => Some (mkRuleError "actions" MustNotBeEmpty)
  | _ => validateActionsFrom 0 actions
  end.

Definition ValidateRule (r : Rule) : option RuleError :=
  if str_eqb (r_Name r) "" then Some (mkRuleError "name" MustNotBeEmpty)
  else
    match Compile (r_Condition r) with
    | Err e => Some e
    | Ok _ => ValidateActions (r_Actions r)
    end.

End Rules.

Arguments Predicate : clear implicits.
Arguments scalar : clear implicits.
