(* ===== verification/RulesSound.v ===== *)
(** * Rules: the compiler against the meaning of a condition

    [sat] gives a condition its meaning directly on the tree, [validCond] says which
    trees are conditions; [compile_correct] and [compile_total] relate the compiler and
    the evaluator to them. *)

From stdpp Require Import base list strings.
From Stdlib Require Import ZArith Lia Ascii.
From Corelib Require Import SpecFloat.
From S2P Require Import Prelude GoMap Json Paths Diff Numbers Rules.

Section Meaning.
Context {R : Type} `{RegexpEngine R}.

(** ** Meaning *)

Definition fieldValue (e : EvalEvent) (f : string) : string := fst (scalarField e f).

(** The comparisons each ordering operator admits. *)
Definition admits (op : string) (r : comparison) : bool :=
  match r with
  | Gt => str_eqb op OpGt || str_eqb op OpGte
  | Lt => str_eqb op OpLt || str_eqb op OpLte
  | Eq => str_eqb op OpGte || str_eqb op OpLte
  end.

Definition numHolds (val : string) (v : json) (ok : comparison -> bool) : Prop :=
  exists a b r, ParseFloat val = Some a /\ toFloat v = Some b /\ SFcompare a b = Some r /\ ok r = true.

Inductive scalarHolds (e : EvalEvent) (f : string) : string -> json -> Prop :=
| holds_eq v : fieldValue e f <> "" -> fieldValue e f = toStr v -> scalarHolds e f OpEq v
| holds_ne v : fieldValue e f <> toStr v -> scalarHolds e f OpNe v
| holds_in l x : fieldValue e f <> "" -> In x l -> toStr x = fieldValue e f -> scalarHolds e f OpIn (JArr l)
| holds_gt v : numHolds (fieldValue e f) v (admits OpGt) -> scalarHolds e f OpGt v
| holds_gte v : numHolds (fieldValue e f) v (admits OpGte) -> scalarHolds e f OpGte v
| holds_lt v : numHolds (fieldValue e f) v (admits OpLt) -> scalarHolds e f OpLt v
| holds_lte v : numHolds (fieldValue e f) v (admits OpLte) -> scalarHolds e f OpLte v
| holds_regex s re : fieldValue e f <> "" -> regexpCompile s = Some re -> MatchString re (fieldValue e f) = true -> scalarHolds e f OpRegex (JStr s)
| holds_exists v : fieldValue e f <> "" -> scalarHolds e f OpExists v.

(** A glob addresses paths of as many segments, each equal or under a star. *)
Definition globHolds (glob path : string) : Prop :=
  (glob = "" /\ path = "") \/
  (glob <> "" /\ path <> "" /\ Forall2 (fun s p => s = "*" \/ s = p) (split_on dot glob) (split_on dot path)).

Definition changeHolds (m : Match) (ch : Change) : Prop :=
  (m_Op m = "" \/ opString (ChOp ch) = m_Op m) /\ globHolds (m_Path m) (Path ch) /\
  (m_HasOld m = true -> jsonEqual (Old ch) (m_Old m) = true) /\
  (m_HasNew m = true -> jsonEqual (New ch) (m_New m) = true).

Fixpoint sat (c : Condition) (e : EvalEvent) : Prop :=
  match c with
  | mkCondition (Some cs) _ _ _ _ _ _ => fold_right (fun c P => sat c e /\ P) True cs
  | mkCondition _ (Some cs) _ _ _ _ _ => fold_right (fun c P => sat c e \/ P) False cs
  | mkCondition _ _ (Some c') _ _ _ _ => ~ sat c' e
  | mkCondition _ _ _ _ _ _ (Some m) => exists ch, In ch (ee_Changes e) /\ changeHolds m ch
  | mkCondition _ _ _ f op v None => scalarHolds e f op v
  end.

(** ** Which trees are conditions *)

Definition validScalar (f op : string) (v : json) : Prop :=
  validField f = true /\
  (In op [OpEq; OpNe; OpExists] \/ (op = OpIn /\ exists l, v = JArr l) \/
   (In op [OpGt; OpGte; OpLt; OpLte] /\ toFloat v <> None) \/
   (op = OpRegex /\ exists s, v = JStr s /\ regexpCompile s <> None)).

Definition validMatch (m : Match) : Prop :=
  (m_Path m = "" \/ ~ In "" (split_on dot (m_Path m))) /\ In (m_Op m) [""; "add"; "change"; "remove"].

Fixpoint validCond (c : Condition) : Prop :=
  match c with
  | mkCondition (Some cs) None None "" "" _ None => fold_right (fun c P => validCond c /\ P) True cs
  | mkCondition None (Some cs) None "" "" _ None => fold_right (fun c P => validCond c /\ P) True cs
  | mkCondition None None (Some c') "" "" _ None => validCond c'
  | mkCondition None None None "" "" _ (Some m) => validMatch m
  | mkCondition None None None f op v None => validScalar f op v
  | _ => False
  end.

(** ** Leaves *)

Lemma mget_set_fold (val : string) (l : list json) (m : list (string * unit)) :
  isSome (mget val (fold_left (fun set v => mset (toStr v) tt set) l m)) = true <->
  (exists x, In x l /\ toStr x = val) \/ isSome (mget val m) = true.
Proof.
  revert m. induction l as [|y l IH]; intros m; cbn.
  { split; [by right|]. by intros [(x & [] & _)|?]. }
  rewrite IH. destruct (decide (toStr y = val)) as [<-|Hne].
  - rewrite mget_mset_eq. cbn. split; [|by right]. intros _. left. exists y. by split; [left|].
  - rewrite mget_mset_ne by done. split.
    + intros [(x & Hx & E)|?]; [|by right]. left. exists x. by split; [right|].
    + intros [(x & [->|Hx] & E)|?]; [done| |by right]. left. by exists x.
Qed.

Lemma globSegs_spec (segs parts : list string) :
  globSegs segs parts = true <-> Forall2 (fun s p => s = "*" \/ s = p) segs parts.
Proof.
  revert parts. induction segs as [|s segs IH]; intros [|p parts]; cbn.
  1: by split. 1,2: split; [done|by inversion 1].
  rewrite andb_true_iff, orb_true_iff, !str_eqb_eq, IH, Forall2_cons. done.
Qed.

Lemma globMatch_spec (glob path p : string) (segs : list string) :
  compileGlob glob p = Ok segs -> globMatch segs path = true <-> globHolds glob path.
Proof.
  unfold compileGlob, globMatch, globHolds. destruct (str_eqb glob "") eqn:Eg.
  - apply str_eqb_eq in Eg as ->. intros [= <-]. destruct (str_eqb path "") eqn:Ep.
    + apply str_eqb_eq in Ep. naive_solver.
    + apply str_eqb_neq in Ep. pose proof (split_on_not_nil dot path).
      destruct (split_on dot path); cbn; naive_solver.
  - destruct (existsb _ _); [done|]. intros [= <-]. apply str_eqb_neq in Eg.
    pose proof (split_on_not_nil dot glob) as Hn. destruct (str_eqb path "") eqn:Ep.
    + apply str_eqb_eq in Ep. destruct (split_on dot glob); naive_solver.
    + apply str_eqb_neq in Ep. destruct (Nat.eqb_spec (length (split_on dot path)) (length (split_on dot glob))) as [El|El]; cbn.
      * rewrite globSegs_spec. naive_solver.
      * split; [done|]. intros [[? _]| (_ & _ & HF)]; [done|]. by apply Forall2_length in HF.
Qed.

Lemma scalarField_spec (e : EvalEvent) (f : string) :
  scalarField e f = (fieldValue e f, negb (str_eqb (fieldValue e f) "")).
Proof. done. Qed.

Lemma nonempty_spec (s : string) : negb (str_eqb s "") = true <-> s <> "".
Proof. rewrite negb_true_iff. apply str_eqb_neq. Qed.

(** The loop over the changes is a search for a change all criteria admit. *)
Definition changeB (p : matcher) (ch : Change) : bool :=
  (str_eqb (mp_op p) "" || str_eqb (opString (ChOp ch)) (mp_op p)) && globMatch (mp_segs p) (Path ch) &&
  (negb (mp_hasOld p) || jsonEqual (Old ch) (mp_old p)) && (negb (mp_hasNew p) || jsonEqual (New ch) (mp_new p)).

Lemma evalMatch_existsb (p : matcher) (chs : list Change) : evalMatch p chs = existsb (changeB p) chs.
Proof.
  induction chs as [|ch chs IH]; cbn; [done|]. unfold changeB at 1.
  destruct (str_eqb (mp_op p) ""), (str_eqb (opString (ChOp ch)) (mp_op p)), (globMatch (mp_segs p) (Path ch)),
    (mp_hasOld p), (jsonEqual (Old ch) (mp_old p)), (mp_hasNew p), (jsonEqual (New ch) (mp_new p)); cbn; done.
Qed.

Lemma evalMatch_spec (m : Match) (segs : list string) (p : string) (chs : list Change) :
  compileGlob (m_Path m) p = Ok segs ->
  evalMatch (mkMatcher segs (m_Op m) (m_Old m) (m_HasOld m) (m_New m) (m_HasNew m)) chs = true <->
  exists ch, In ch chs /\ changeHolds m ch.
Proof.
  intros Hg. rewrite evalMatch_existsb, existsb_exists.
  assert (forall ch, changeB (mkMatcher segs (m_Op m) (m_Old m) (m_HasOld m) (m_New m) (m_HasNew m)) ch = true <-> changeHolds m ch) as Hb.
  { intros ch. unfold changeB, changeHolds. cbn.
    rewrite !andb_true_iff, !orb_true_iff, !str_eqb_eq, (globMatch_spec _ _ _ _ Hg), !negb_true_iff.
    destruct (m_HasOld m), (m_HasNew m); naive_solver. }
  by setoid_rewrite Hb.
Qed.

Lemma compare_opp (a b : float64) : SFcompare b a = option_map CompOpp (SFcompare a b).
Proof.
  destruct a as [[]| [] | |[] m e], b as [[]| [] | |[] m' e']; cbn; try done; rewrite (Z.compare_antisym e e');
    change (Pos.compare_cont Eq) with Pos.compare; rewrite (Pos.compare_antisym m m');
    by destruct (Z.compare e e'), (Pos.compare m m').
Qed.

Lemma compare_spec (op : string) (a b : float64) : In op [OpGt; OpGte; OpLt; OpLte] ->
  compareNum op a b = true <-> exists r, SFcompare a b = Some r /\ admits op r = true.
Proof.
  intros Hop.
  assert (compareNum op a b = match SFcompare a b with Some r => admits op r | None => false end) as ->.
  { unfold compareNum, SFltb, SFleb. rewrite (compare_opp a b).
    by destruct Hop as [<-|[<-|[<-|[<-|[]]]]], (SFcompare a b) as [[]|]. }
  destruct (SFcompare a b) as [r|].
  - split; [by exists r|]. by intros (? & [= <-] & ?).
  - split; [done|]. by intros (? & ? & _).
Qed.

(** Only the constructor of the operator applies. *)
Ltac clause := split; [intros; destruct_and?; econstructor; eauto; fail|inversion 1; simplify_eq; eauto].

Lemma numHolds_spec (op val : string) (v : json) (n : float64) : In op [OpGt; OpGte; OpLt; OpLte] -> toFloat v = Some n ->
  match ParseFloat val with Some a => compareNum op a n | None => false end = true <-> numHolds val v (admits op).
Proof.
  intros Hop Hn. unfold numHolds. rewrite Hn. destruct (ParseFloat val) as [a|] eqn:Ea.
  - rewrite compare_spec by done. split; [intros (r & ? & ?); by exists a, n, r|]. intros (a' & b & r & [= <-] & [= <-] & ? & ?). by exists r.
  - split; [done|]. by intros (a' & b & r & ? & _).
Qed.

Local Opaque fieldValue.

Lemma compileScalar_spec (c : Condition) (path : string) (p : Predicate R) (e : EvalEvent) :
  compileScalar c path = Ok p -> Eval p e = true <-> scalarHolds e (c_Field c) (c_Op c) (c_Value c).
Proof.
  unfold compileScalar. destruct (negb (validField (c_Field c))); [done|].
  set (f := c_Field c). set (v := c_Value c). generalize (c_Op c) as op. intros op.
  assert (forall o, str_eqb op o = true -> op = o) as Heq by (intros o; apply str_eqb_eq).
  assert (forall (o : string), In o [OpGt; OpGte; OpLt; OpLte] -> forall n, toFloat v = Some n ->
    evalScalar (mkScalar (R := R) f o "" [] n true None) e = true <-> numHolds (fieldValue e f) v (admits o)) as Hnum.
  { intros o Ho n Hn. rewrite <- (numHolds_spec o _ v n Ho Hn). unfold evalScalar. cbn [sp_field sp_op sp_num sp_numOK].
    rewrite scalarField_spec. by destruct Ho as [<-|[<-|[<-|[<-|[]]]]]. }
  destruct (str_eqb op OpEq || str_eqb op OpNe) eqn:E1.
  { intros [= <-]. cbn [Eval]. unfold evalScalar. cbn [sp_field sp_op sp_str]. rewrite scalarField_spec.
    apply orb_true_iff in E1 as [E|E]; apply Heq in E as ->; cbn.
    - rewrite andb_true_iff, nonempty_spec, str_eqb_eq. clause.
    - rewrite negb_true_iff, str_eqb_neq. clause. }
  destruct (str_eqb op OpIn) eqn:E2.
  { apply Heq in E2 as ->. destruct v as [| | | | | |l|] eqn:Ev; try done. intros [= <-]. cbn [Eval]. unfold evalScalar.
    cbn [sp_field sp_op sp_set]. rewrite scalarField_spec. cbn. rewrite andb_true_iff, nonempty_spec, mget_set_fold.
    split; [intros [? [(x & ? & ?)|?]]; [by eapply holds_in|done]|inversion 1; simplify_eq; eauto]. }
  destruct (str_eqb op OpGt || str_eqb op OpGte || str_eqb op OpLt || str_eqb op OpLte) eqn:E3.
  { destruct (toFloat v) as [n|] eqn:En; [|done]. intros [= <-]. cbn [Eval].
    rewrite !orb_true_iff in E3. destruct E3 as [[[E|E]|E]|E]; apply Heq in E as ->; rewrite Hnum by (cbn; eauto 6); clause. }
  destruct (str_eqb op OpRegex) eqn:E4.
  { apply Heq in E4 as ->. destruct v as [| | | | |s| |] eqn:Ev; try done. destruct (regexpCompile s) as [re|] eqn:Er; [|done].
    intros [= <-]. cbn [Eval]. unfold evalScalar. cbn [sp_field sp_op sp_re]. rewrite scalarField_spec. cbn.
    rewrite andb_true_iff, nonempty_spec. clause. }
  destruct (str_eqb op OpExists) eqn:E5; [|done].
  apply Heq in E5 as ->. intros [= <-]. cbn [Eval]. unfold evalScalar. cbn [sp_field sp_op]. rewrite scalarField_spec. cbn.
  rewrite nonempty_spec. clause.
Qed.

(** ** Trees *)

(** The five shapes [classify] accepts. *)
Inductive shape : Condition -> condKind -> Prop :=
| shape_all cs v : shape (mkCondition (Some cs) None None "" "" v None) kindAll
| shape_any cs v : shape (mkCondition None (Some cs) None "" "" v None) kindAny
| shape_not c v : shape (mkCondition None None (Some c) "" "" v None) kindNot
| shape_match m v : shape (mkCondition None None None "" "" v (Some m)) kindMatch
| shape_scalar f o v : f <> "" \/ o <> "" -> shape (mkCondition None None None f o v None) kindScalar.

Lemma classify_shape (c : Condition) (path : string) (k : condKind) : classify c path = Ok k <-> shape c k.
Proof.
  split.
  - destruct c as [all any no f o v m]. unfold classify, kindsOf. cbn [c_All c_Any c_Not c_Field c_Op c_Match].
    destruct (negb (str_eqb f "") || negb (str_eqb o "")) eqn:Es.
    + destruct all, any, no, m; try done. intros [= <-]. constructor.
      apply orb_true_iff in Es as [E%nonempty_spec|E%nonempty_spec]; [by left|by right].
    + apply orb_false_iff in Es as [Ef Eo]. rewrite !negb_false_iff in Ef, Eo. apply str_eqb_eq in Ef as ->, Eo as ->.
      destruct all, any, no, m; try done; intros [= <-]; constructor.
  - intros Hs. destruct Hs as [cs v|cs v|c v|m v|f o v Hs]; try done. unfold classify, kindsOf. cbn [c_All c_Any c_Not c_Field c_Op c_Match].
    assert (negb (str_eqb f "") || negb (str_eqb o "") = true) as ->; [|done].
    apply orb_true_iff. rewrite !nonempty_spec. done.
Qed.

Lemma compile_shape (c : Condition) (path : string) (p : Predicate R) : compile c path = Ok p -> exists k, shape c k.
Proof.
  destruct (classify c path) as [k|e] eqn:Ec; [intros _; exists k; by apply (classify_shape c path)|].
  destruct c. cbn [compile]. by rewrite Ec.
Qed.

(** The equations of [compile] on the shapes. *)
Lemma compile_scalar_eq f o v path : f <> "" \/ o <> "" ->
  compile (mkCondition None None None f o v None) path = compileScalar (mkCondition None None None f o v None) path.
Proof. intros Hs. cbn [compile]. by rewrite (proj2 (classify_shape _ path kindScalar) (shape_scalar f o v Hs)). Qed.

Lemma compileList_ok (P : Condition -> Predicate R -> Prop) (path : string) (i : nat) (cs : list Condition) (ps : list (Predicate R)) :
  Forall (fun c => forall path p, compile c path = Ok p -> P c p) cs ->
  compileListWith compile path i cs = Ok ps -> Forall2 P cs ps.
Proof.
  intros HP. revert i ps. induction HP as [|c cs Hc _ IH]; intros i ps; cbn; [intros [= <-]; constructor|].
  destruct (compile c _) as [p|] eqn:Ep; [|done]. destruct (compileListWith compile path (S i) cs) as [ps'|] eqn:El; [|done].
  intros [= <-]. constructor; [by eapply Hc|by eapply IH].
Qed.

Lemma compileList_total (path : string) (i : nat) (cs : list Condition) :
  Forall (fun c => forall path, (exists p, compile c path = Ok p) <-> validCond c) cs ->
  (exists ps, compileListWith compile path i cs = Ok ps) <-> fold_right (fun c P => validCond c /\ P) True cs.
Proof.
  intros HF. revert i. induction HF as [|c cs Hc _ IH]; intros i; cbn; [split; [done|by exists []]|].
  rewrite <- (Hc (path +:+ "[" +:+ itoa (Z.of_nat i) +:+ "]")), <- (IH (S i)).
  destruct (compile c _) as [p|]; [|naive_solver]. destruct (compileListWith compile path (S i) cs) as [ps|]; naive_solver.
Qed.

Lemma evalAll_spec (e : EvalEvent) (cs : list Condition) (ps : list (Predicate R)) :
  Forall2 (fun c p => Eval p e = true <-> sat c e) cs ps ->
  Eval (allPred ps) e = true <-> fold_right (fun c P => sat c e /\ P) True cs.
Proof.
  induction 1 as [|c p cs ps Hc _ IH]; [done|]. cbn in *. rewrite <- Hc, <- IH. destruct (Eval p e); cbn; naive_solver.
Qed.

Lemma evalAny_spec (e : EvalEvent) (cs : list Condition) (ps : list (Predicate R)) :
  Forall2 (fun c p => Eval p e = true <-> sat c e) cs ps ->
  Eval (anyPred ps) e = true <-> fold_right (fun c P => sat c e \/ P) False cs.
Proof.
  induction 1 as [|c p cs ps Hc _ IH]; [done|]. cbn in *. rewrite <- Hc, <- IH. destruct (Eval p e); cbn; naive_solver.
Qed.

Lemma compile_eval (e : EvalEvent) (c : Condition) (path : string) (p : Predicate R) :
  compile c path = Ok p -> Eval p e = true <-> sat c e.
Proof.
  revert path p. induction c as [all any no f o v m IHall IHany IHno] using condition_ind'. intros path p Hc.
  destruct (compile_shape _ _ _ Hc) as [k Hs]. inversion Hs; subst; cbn in Hc.
  - destruct (compileListWith compile _ 0 cs) as [ps|] eqn:El; [|done]. injection Hc as <-.
    apply evalAll_spec. eapply (compileList_ok (fun c p => Eval p e = true <-> sat c e)); [|exact El]. by apply IHall.
  - destruct (compileListWith compile _ 0 cs) as [ps|] eqn:El; [|done]. injection Hc as <-.
    apply evalAny_spec. eapply (compileList_ok (fun c p => Eval p e = true <-> sat c e)); [|exact El]. by apply IHany.
  - destruct (compile c _) as [q|] eqn:Eq; [|done]. injection Hc as <-. cbn. rewrite negb_true_iff.
    rewrite <- (IHno c eq_refl _ _ Eq). by destruct (Eval q e).
  - unfold compileMatch in Hc. destruct (compileGlob (m_Path m0) _) as [segs|] eqn:Eg; [|done].
    destruct (_ && _); [done|]. injection Hc as <-. cbn. by eapply evalMatch_spec.
  - change (compile (mkCondition None None None f o v None) path = Ok p) in Hc. rewrite compile_scalar_eq in Hc by done.
    rewrite (compileScalar_spec _ _ _ e Hc). done.
Qed.

(** ** Totality *)

Lemma compileScalar_total (c : Condition) (path : string) :
  (exists p : Predicate R, compileScalar c path = Ok p) <-> validScalar (c_Field c) (c_Op c) (c_Value c).
Proof.
  unfold compileScalar, validScalar. destruct (validField (c_Field c)); cbn [negb]; [|naive_solver].
  generalize (c_Op c) as op. intros op.
  assert (forall o, str_eqb op o = true -> op = o) as Heq by (intros o; apply str_eqb_eq).
  assert (forall o, str_eqb op o = false -> op <> o) as Hne by (intros o; apply str_eqb_neq).
  destruct (str_eqb op OpEq || str_eqb op OpNe) eqn:E1.
  { split; [|eauto]. intros _. split; [done|]. left. apply orb_true_iff in E1 as [E|E]; apply Heq in E as ->; cbn; eauto. }
  apply orb_false_iff in E1 as [E1 E1'].
  destruct (str_eqb op OpIn) eqn:E2.
  { apply Heq in E2 as ->. destruct (c_Value c) eqn:Ev; (split; [intros [p Hp]; try done|intros [_ Hv]]).
    all: try (destruct Hv as [Hv|[[_ [l' Hv]]|[[Hv _]|[Hv _]]]]; [by repeat (destruct Hv as [Hv|Hv])|done|by repeat (destruct Hv as [Hv|Hv])|done]).
    - split; [done|]. right. left. split; [done|]. by eexists.
    - by eexists. }
  destruct (str_eqb op OpGt || str_eqb op OpGte || str_eqb op OpLt || str_eqb op OpLte) eqn:E3.
  { assert (In op [OpGt; OpGte; OpLt; OpLte]) as Hin.
    { rewrite !orb_true_iff in E3. destruct E3 as [[[E|E]|E]|E]; apply Heq in E as ->; cbn; eauto 6. }
    destruct (toFloat (c_Value c)); (split; [intros [p Hp]; try done|intros [_ Hv]]).
    - split; [done|]. right. right. by left.
    - by eexists.
    - exfalso. destruct Hv as [Hv|[[-> _]|[[_ Hv]|[-> _]]]]; try done.
      destruct Hin as [<-|[<-|[<-|[<-|[]]]]]; by repeat (destruct Hv as [Hv|Hv]). }
  destruct (str_eqb op OpRegex) eqn:E4.
  { apply Heq in E4 as ->. destruct (c_Value c) as [| | | | |s| |] eqn:Ev; (split; [intros [p Hp]; try done|intros [_ Hv]]).
    all: try (destruct Hv as [Hv|[[Hv _]|[[Hv _]|[_ [s' [Hv _]]]]]]; [by repeat (destruct Hv as [Hv|Hv])|done|by repeat (destruct Hv as [Hv|Hv])|done]).
    - split; [done|]. right. right. right. split; [done|]. exists s. split; [done|]. by destruct (regexpCompile s).
    - destruct Hv as [Hv|[[Hv _]|[[Hv _]|[_ [s' [[= <-] Hv]]]]]]; [by repeat (destruct Hv as [Hv|Hv])|done|by repeat (destruct Hv as [Hv|Hv])|].
      destruct (regexpCompile s) as [re|]; [by eexists|done]. }
  destruct (str_eqb op OpExists) eqn:E5.
  { apply Heq in E5 as ->. split; [|eauto]. intros _. split; [done|]. left. cbn. eauto. }
  split; [by intros [p ?]|]. intros [_ Hv]. rewrite !orb_false_iff in E3. destruct E3 as [[[? ?] ?] ?]. exfalso.
  repeat match goal with E : str_eqb op _ = false |- _ => apply Hne in E end. cbn in Hv. naive_solver.
Qed.

Lemma compileMatch_total (m : Match) (path : string) :
  (exists p : Predicate R, compileMatch m path = Ok p) <-> validMatch m.
Proof.
  unfold compileMatch, validMatch, compileGlob.
  assert (existsb (str_eqb "") (split_on dot (m_Path m)) = true <-> In "" (split_on dot (m_Path m))) as Hex.
  { rewrite existsb_exists. split; [by intros (x & Hx & <-%str_eqb_eq)|]. intros Hi. exists "". split; [done|apply str_eqb_refl]. }
  assert (negb (str_eqb (m_Op m) "") && negb (str_eqb (m_Op m) "add") && negb (str_eqb (m_Op m) "change") && negb (str_eqb (m_Op m) "remove") = false
    <-> In (m_Op m) [""; "add"; "change"; "remove"]) as Hop.
  { rewrite !andb_false_iff, !negb_false_iff, !str_eqb_eq. cbn. naive_solver. }
  destruct (str_eqb (m_Path m) "") eqn:Ep; [apply str_eqb_eq in Ep|apply str_eqb_neq in Ep];
    [|destruct (existsb _ _)]; destruct (_ && _ && _ && _); naive_solver.
Qed.

Lemma compile_total (c : Condition) (path : string) : (exists p : Predicate R, compile c path = Ok p) <-> validCond c.
Proof.
  revert path. induction c as [all any no f o v m IHall IHany IHno] using condition_ind'. intros path. split.
  - intros [p Hc]. destruct (compile_shape _ _ _ Hc) as [k Hs]. inversion Hs; subst; cbn in Hc |- *.
    + apply (compileList_total (path +:+ ".all") 0); [by apply IHall|].
      destruct (compileListWith compile _ 0 cs); [by eexists|done].
    + apply (compileList_total (path +:+ ".any") 0); [by apply IHany|].
      destruct (compileListWith compile _ 0 cs); [by eexists|done].
    + apply (IHno c eq_refl (path +:+ ".not")). destruct (compile c _); [by eexists|done].
    + apply (compileMatch_total _ (path +:+ ".match")). by exists p.
    + change (compile (mkCondition None None None f o v None) path = Ok p) in Hc. rewrite compile_scalar_eq in Hc by done.
      assert (validScalar f o v) by (apply (compileScalar_total (mkCondition None None None f o v None) path); by exists p).
      destruct f, o; done.
  - intros Hv.
    assert (exists k, shape (mkCondition all any no f o v m) k) as [k Hs].
    { destruct all, any, no, m, f, o; try done.
      - exists kindAll. constructor.
      - exists kindAny. constructor.
      - exists kindNot. constructor.
      - exists kindMatch. constructor.
      - by destruct Hv.
      - exists kindScalar. constructor. by right.
      - exists kindScalar. constructor. by left.
      - exists kindScalar. constructor. by left. }
    inversion Hs; subst; cbn in Hv |- *.
    + destruct (proj2 (compileList_total (path +:+ ".all") 0 cs (IHall _ eq_refl)) Hv) as [ps Hps]. exists (allPred ps).
      change (compileListWith compile (path +:+ ".all") 0 cs) with (compileListWith compile (path +:+ ".all") 0 cs). by rewrite Hps.
    + destruct (proj2 (compileList_total (path +:+ ".any") 0 cs (IHany _ eq_refl)) Hv) as [ps Hps]. exists (anyPred ps). by rewrite Hps.
    + destruct (proj2 (IHno c eq_refl (path +:+ ".not")) Hv) as [p Hp]. exists (notPred p). by rewrite Hp.
    + by apply (compileMatch_total _ (path +:+ ".match")).
    + setoid_rewrite (compile_scalar_eq f o v path); [|done].
      apply (compileScalar_total (mkCondition None None None f o v None) path). by destruct f, o.
Qed.

Lemma validateRule_compiles (r : Rule) : ValidateRule r = None -> exists p : Predicate R, Compile (r_Condition r) = Ok p.
Proof.
  unfold ValidateRule. destruct (str_eqb (r_Name r) ""); [done|]. destruct (Compile (r_Condition r)) as [p|]; [by exists p|done].
Qed.

End Meaning.

(** ** Property *)

(** C12: The rule compiler is correct and total.  A condition compiles exactly when it is
    well-formed (one kind per node, known fields and operators, operands of the right
    kind), and the compiled predicate, walked on any event, says what the condition
    means: [all], [any] and [not] over their parts, field comparisons, and globbed
    matches over the changes. *)
Theorem compile_correct {R : Type} `{RegexpEngine R} (c : Condition) :
  ((exists p : Predicate R, Compile c = Ok p) <-> validCond c) /\
  (forall p e, Compile c = Ok p -> (Eval p e = true <-> sat c e)).
Proof. split; [apply (compile_total c "condition")|]. intros p e. by apply compile_eval. Qed.

(** A stored rule that was validated never fails to compile when the engine loads it. *)
Lemma valid_rules_compile {R : Type} `{RegexpEngine R} (r : Rule) :
  ValidateRule r = None <->
  r_Name r <> "" /\ validCond (r_Condition r) /\ ValidateActions (r_Actions r) = None.
Proof.
  unfold ValidateRule. rewrite <- (compile_total (r_Condition r) "condition"). unfold Compile.
  destruct (str_eqb (r_Name r) "") eqn:En; [apply str_eqb_eq in En; naive_solver|apply str_eqb_neq in En].
  destruct (compile (r_Condition r) "condition") as [p|]; naive_solver.
Qed.

(** ** A run: literal patterns stand for the regexp engine *)

Definition literalRegexp : RegexpEngine string :=
  {| regexpCompile s := if str_eqb s "(" then None else Some s; MatchString re s := str_eqb re s |}.

(** A price went to null on something crm did not write, or the version is above 2. *)
Definition ex_cond : Condition :=
  let leaf f o v := mkCondition None None None f o v None in
  mkCondition (Some [
    mkCondition None (Some [
      mkCondition None None None "" "" JNull (Some (mkMatch "items.*.price" "change" JNull JNull false true));
      leaf FieldEntityID OpGt (JStr "2")]) None "" "" JNull None;
    mkCondition None None (Some (leaf FieldSource OpRegex (JStr "crm"))) "" "" JNull None;
    leaf FieldOp OpIn (JArr [JStr "create"; JStr "update"])]) None None "" "" JNull None.

Definition ex_evalEvent (path : string) : EvalEvent :=
  mkEvalEvent "update" "deal-1" "u1" "erp" [mkChange path OpChange (JNum (intToFloat 5)) JNull].

Lemma compile_correct_witness :
  exists p, Compile (H := literalRegexp) ex_cond = Ok p /\ validCond (H := literalRegexp) ex_cond /\
    Eval (H := literalRegexp) p (ex_evalEvent "items.0.price") = true /\
    sat (H := literalRegexp) ex_cond (ex_evalEvent "items.0.price") /\
    ~ sat (H := literalRegexp) ex_cond (ex_evalEvent "items.0.qty").
Proof.
  destruct (@compile_correct string literalRegexp ex_cond) as [Hv Hs].
  eexists. split; [vm_compute; reflexivity|]. split; [apply Hv; eexists; vm_compute; reflexivity|].
  split; [vm_compute; reflexivity|]. split; [eapply Hs; [vm_compute; reflexivity|vm_compute; reflexivity]|].
  intros H. eapply Hs in H; [|vm_compute; reflexivity]. vm_compute in H. discriminate H.
Defined.
