(* ===== verification/RulesEngine.v ===== *)
(** * The rules engine and the rule administration (internal/service/rules_engine.go,
    rule_admin.go, internal/storage/redis/rule_invalidator.go, internal/domain/rule.go)

    The engine runs after a write has committed: it loads and compiles the enabled rules
    of the collection through a cache with a time to live, and fires the actions of the
    rules whose condition holds.  Its effects (the structured log line, the delivery
    publisher, the action plugins, the match counter) are operations on the world [W];
    the warnings it logs about failures are not modelled. *)

From stdpp Require Import base list strings gmap.
From Stdlib Require Import ZArith Lia Ascii.
From S2P Require Import Prelude GoMap Json Paths Diff DiffSound Domain Tenant Config Plugin Repo Rules RulesSound.

(** ** Ports *)

(** [domain.RuleRepository]; [Create] and [Update] complete the rule they are given. *)
Class RuleRepository (W : Type) := {
  rrCreate : ctx -> string -> time -> Rule -> W -> res err Rule * W;
  rrGet : ctx -> string -> string -> W -> res err Rule;
  rrList : ctx -> string -> W -> res err (list Rule);
  rrUpdate : ctx -> string -> time -> Rule -> W -> res err Rule * W;
  rrDelete : ctx -> string -> string -> W -> res err unit * W;
  rrListAll : ctx -> W -> res err (list (string * list Rule)) }.

Record DeliveryRequest := mkDeliveryRequest {
  dr_Collection : string; dr_Event : Event; dr_RuleID : string; dr_RuleName : string; dr_Webhook : Webhook }.

Inductive logLevel := LevelDebug | LevelInfo | LevelWarn | LevelError.

Definition parseLogLevel (level : string) : logLevel :=
  if str_eqb level "debug" then LevelDebug
  else if str_eqb level "warn" || str_eqb level "warning" then LevelWarn
  else if str_eqb level "error" then LevelError
  else LevelInfo.

(** The line [fireLog] writes. *)
Record logLine := mkLogLine {
  ll_Level : logLevel; ll_Collection : string; ll_RuleID : string; ll_RuleName : string;
  ll_EntityID : string; ll_Version : Z; ll_Op : string }.

Definition defaultRuleCacheTTL : Z := 30000000000.

Definition toEvalEvent (ev : Event) : EvalEvent :=
  mkEvalEvent (ev_Op ev) (ev_EntityID ev) (ev_Author ev) (ev_Source ev) (ev_Changes ev).

Section Engine.
Context {W R : Type} `{RegexpEngine R} `{RuleRepository W}.

Record compiledRule := mkCompiled { cr_id : string; cr_name : string; cr_pred : Predicate R; cr_actions : list Action }.
Record ruleCacheEntry := mkEntry { ce_rules : list compiledRule; ce_expiresAt : time }.
Abbreviation ruleCache := (gmap (string * string) ruleCacheEntry).

Record RulesEngine := mkEngine {
  eng_pub : option (ctx -> DeliveryRequest -> W -> option err * W);
  eng_actions : option (Host W);
  eng_metrics : option (string -> string -> W -> W);
  eng_log : logLine -> W -> W;
  eng_ttl : Z }.

(** [NewRulesEngine] with [WithRuleCacheTTL]. *)
Definition NewRulesEngine pub actions metrics log (ttl : Z) : RulesEngine :=
  mkEngine pub actions metrics log (if (0 <? ttl)%Z then ttl else defaultRuleCacheTTL).

(** ** Loading *)

Fixpoint compileEnabled (rs : list Rule) : list compiledRule :=
  match rs with
  | [] => []
  | r :: rs' =>
      if negb (r_Enabled r) then compileEnabled rs'
      else
        match Compile (r_Condition r) with
        | Err _ => compileEnabled rs'
        | Ok pred => mkCompiled (r_ID r) (r_Name r) pred (r_Actions r) :: compileEnabled rs'
        end
  end.

(** [now] is read for the expiry check and, on a load, again for the new entry. *)
Definition rulesFor (eng : RulesEngine) (now now' : time) (c : ctx) (key : string * string) (cache : ruleCache) (w : W) : list compiledRule * ruleCache :=
  let load :=
    match rrList c (snd key) w with
    | Err _ => ([], cache)
    | Ok list => let compiled := compileEnabled list in (compiled, <[key := mkEntry compiled (now' + eng_ttl eng)%Z]> cache)
    end in
  match cache !! key with
  | Some ent => if (now <? ce_expiresAt ent)%Z then (ce_rules ent, cache) else load
  | None => load
  end.

Definition engInvalidate (tenantDB collection : string) (cache : ruleCache) : ruleCache := delete (tenantDB, collection) cache.

(** ** Firing *)

Definition count (eng : RulesEngine) (tenantID action : string) (w : W) : W :=
  match eng_metrics eng with Some m => m tenantID action w | None => w end.

Definition fireLog (eng : RulesEngine) (collection : string) (ev : Event) (id name : string) (a : Action) (w : W) : W :=
  let level := match a_Log a with Some l => parseLogLevel (Level l) | None => LevelInfo end in
  eng_log eng (mkLogLine level collection id name (ev_EntityID ev) (ev_Version ev) (ev_Op ev)) w.

Definition fireWebhook (eng : RulesEngine) (c : ctx) (collection : string) (ev : Event) (id name : string) (a : Action) (w : W) : W :=
  match a_Webhook a with
  | None => w
  | Some wh =>
      match eng_pub eng with
      | None => w
      | Some publish => snd (publish c (mkDeliveryRequest collection ev id name wh) w)
      end
  end.

Definition actionFor (eng : RulesEngine) (typ : string) : option (ActionPlugin W) := HostAction (eng_actions eng) typ.

Definition firePlugin (eng : RulesEngine) (c : ctx) (tenantID : string) (ev : Event) (a : Action) (w : W) : W :=
  match actionFor eng (a_Type a) with
  | None => w
  | Some ap => count eng tenantID (a_Type a) (snd (Execute ap c ev (a_Params a) w))
  end.

Definition fire (eng : RulesEngine) (c : ctx) (tenantID collection : string) (ev : Event) (id name : string) (w : W) (a : Action) : W :=
  if str_eqb (a_Type a) ActionLog then count eng tenantID ActionLog (fireLog eng collection ev id name a w)
  else if str_eqb (a_Type a) ActionWebhook then count eng tenantID ActionWebhook (fireWebhook eng c collection ev id name a w)
  else firePlugin eng c tenantID ev a w.

Definition Evaluate (eng : option RulesEngine) (now now' : time) (c : ctx) (collection : string) (ev : Event) (cache : ruleCache) (w : W) : ruleCache * W :=
  match eng with
  | None => (cache, w)
  | Some eng =>
      match FromContext c with
      | None => (cache, w)
      | Some p =>
          let '(compiled, cache') := rulesFor eng now now' c (DatabaseName (p_Tenant p), collection) cache w in
          let ee := toEvalEvent ev in
          (cache', fold_left (fun w r =>
             if negb (Eval (cr_pred r) ee) then w
             else fold_left (fire eng c (t_ID (p_Tenant p)) collection ev (cr_id r) (cr_name r)) (cr_actions r) w) compiled w)
      end
  end.

(** ** Administration *)

(** The service reports a [*rules.RuleError] or a repository error. *)
Inductive ruleSvcErr := RuleInvalid (e : RuleError) | RuleRepoErr (e : err).

Definition ruleDetails (r : Rule) : state :=
  mset "rule_id" (JStr (r_ID r)) (mset "name" (JStr (r_Name r)) (mset "version" (JInt64 (r_Version r)) [])).

Context `{AuditStore W}.

(** [cache] is the optional invalidator, [audit] whether an audit store is wired. *)
Record RuleService := mkRuleService { rs_cache : option (ctx -> string -> W -> W); rs_audit : bool }.

Definition invalidate (s : RuleService) (c : ctx) (collection : string) (w : W) : W :=
  match rs_cache s with Some inv => inv c collection w | None => w end.

Definition audited (s : RuleService) (id : string) (now : time) (c : ctx) (action collection : string) (r : Rule) (w : W) : W :=
  if negb (rs_audit s) then w
  else
    let actor := match FromContext c with Some p => t_ID (p_Tenant p) | None => "" end in
    snd (RecordAudit c (mkAuditEvent id action collection actor now (ruleDetails r)) w).

Definition CreateRule (s : RuleService) (id : string) (now : time) (c : ctx) (collection : string) (r : Rule) (w : W) : res ruleSvcErr Rule * W :=
  match ValidateRule r with
  | Some e => (Err (RuleInvalid e), w)
  | None =>
      match rrCreate c collection now r w with
      | (Err e, w1) => (Err (RuleRepoErr e), w1)
      | (Ok r', w1) => (Ok r', invalidate s c collection (audited s id now c "rule.created" collection r' w1))
      end
  end.

Definition setRuleID (id : string) (r : Rule) : Rule :=
  mkRule id (r_Name r) (r_Enabled r) (r_Condition r) (r_Actions r) (r_Version r) (r_UpdatedAt r).

Definition UpdateRule (s : RuleService) (aid : string) (now : time) (c : ctx) (collection id : string) (r : Rule) (w : W) : res ruleSvcErr Rule * W :=
  let r := setRuleID id r in
  match ValidateRule r with
  | Some e => (Err (RuleInvalid e), w)
  | None =>
      match rrUpdate c collection now r w with
      | (Err e, w1) => (Err (RuleRepoErr e), w1)
      | (Ok r', w1) => (Ok r', invalidate s c collection (audited s aid now c "rule.updated" collection r' w1))
      end
  end.

Definition DeleteRule (s : RuleService) (aid : string) (now : time) (c : ctx) (collection id : string) (w : W) : res ruleSvcErr unit * W :=
  match rrGet c collection id w with
  | Err e => (Err (RuleRepoErr e), w)
  | Ok r =>
      match rrDelete c collection id w with
      | (Err e, w1) => (Err (RuleRepoErr e), w1)
      | (Ok _, w1) => (Ok tt, invalidate s c collection (audited s aid now c "rule.deleted" collection r w1))
      end
  end.

(** ** Invalidation messages *)

Definition bar : ascii := "|"%char.

Definition invalidateMsg (c : ctx) (collection : string) : option string :=
  match FromContext c with
  | None => None
  | Some p => Some (DatabaseName (p_Tenant p) +:+ "|" +:+ collection)
  end.

Definition parseInvalidateMsg (payload : string) : option (string * string) :=
  match cut bar payload with
  | None => None
  | Some (db, coll) => if str_eqb db "" || str_eqb coll "" then None else Some (db, coll)
  end.

(** The body of the subscriber's loop, with [onInvalidate] the engine's [Invalidate]. *)
Definition onMessage (payload : string) (cache : ruleCache) : ruleCache :=
  match parseInvalidateMsg payload with
  | Some (db, coll) => engInvalidate db coll cache
  | None => cache
  end.

(** ** What must fire *)

(** The actions of the enabled rules whose condition holds, in the order of the rules. *)
Inductive fires (ee : EvalEvent) : list Rule -> list (Rule * Action) -> Prop :=
| fires_nil : fires ee [] []
| fires_off r rs out : r_Enabled r = false -> fires ee rs out -> fires ee (r :: rs) out
| fires_miss r rs out : r_Enabled r = true -> ~ sat (r_Condition r) ee -> fires ee rs out -> fires ee (r :: rs) out
| fires_hit r rs out : r_Enabled r = true -> sat (r_Condition r) ee -> fires ee rs out ->
    fires ee (r :: rs) (map (pair r) (r_Actions r) ++ out).

Definition fireAll (eng : RulesEngine) (p : Principal) (collection : string) (ev : Event) (out : list (Rule * Action)) (w : W) : W :=
  fold_left (fun w ra => fire eng (Some p) (t_ID (p_Tenant p)) collection ev (r_ID (fst ra)) (r_Name (fst ra)) w (snd ra)) out w.

(** Running the compiled rules fires exactly those actions. *)
Lemma run_fires (eng : RulesEngine) (p : Principal) (collection : string) (ev : Event) (rs : list Rule) (w : W) :
  Forall (fun r => validCond (r_Condition r)) rs ->
  exists out, fires (toEvalEvent ev) rs out /\
    fold_left (fun w r => if negb (Eval (cr_pred r) (toEvalEvent ev)) then w
      else fold_left (fire eng (Some p) (t_ID (p_Tenant p)) collection ev (cr_id r) (cr_name r)) (cr_actions r) w)
      (compileEnabled rs) w = fireAll eng p collection ev out w.
Proof.
  intros Hv. revert w. induction Hv as [|r rs Hr _ IH]; intros w; [by exists []; split; [constructor|]|]. cbn [compileEnabled].
  destruct (r_Enabled r) eqn:Ee; cbn [negb].
  2: { destruct (IH w) as (out & Ho & E). exists out. split; [by apply fires_off|done]. }
  destruct (proj2 (compile_total (r_Condition r) "condition") Hr) as [pred Hp]. unfold Compile. rewrite Hp.
  pose proof (compile_eval (toEvalEvent ev) _ _ _ Hp) as Hs. cbn [fold_left cr_pred cr_id cr_name cr_actions].
  destruct (Eval pred (toEvalEvent ev)) eqn:Ev; cbn [negb].
  - destruct (IH (fold_left (fire eng (Some p) (t_ID (p_Tenant p)) collection ev (r_ID r) (r_Name r)) (r_Actions r) w)) as (out & Ho & E).
    exists (map (pair r) (r_Actions r) ++ out). split; [apply fires_hit; [done|by apply Hs|done]|].
    unfold fireAll in *. rewrite fold_left_app, E. f_equal. clear. revert w.
    induction (r_Actions r) as [|a l IH]; intros w; cbn; [done|by rewrite IH].
  - destruct (IH w) as (out & Ho & E). exists out. split; [|done]. apply fires_miss; [done| |done]. intros Hsat. by apply Hs in Hsat.
Qed.

(** Nothing usable is cached for the key. *)
Definition mustLoad (now : time) (key : string * string) (cache : ruleCache) : Prop :=
  match cache !! key with Some ent => (ce_expiresAt ent <= now)%Z | None => True end.

Lemma mustLoad_invalidate now db coll cache : mustLoad now (db, coll) (engInvalidate db coll cache).
Proof. unfold mustLoad, engInvalidate. by rewrite lookup_delete_eq. Qed.

Lemma rulesFor_load eng now now' c key cache w l :
  mustLoad now key cache -> rrList c (snd key) w = Ok l ->
  rulesFor eng now now' c key cache w = (compileEnabled l, <[key := mkEntry (compileEnabled l) (now' + eng_ttl eng)%Z]> cache).
Proof.
  unfold mustLoad, rulesFor. intros Hm ->. destruct (cache !! key) as [ent|]; [|done].
  by rewrite (proj2 (Z.ltb_ge now (ce_expiresAt ent)) Hm).
Qed.

Lemma parse_invalidate (p : Principal) (collection : string) :
  has_byte bar (DatabaseName (p_Tenant p)) = false -> DatabaseName (p_Tenant p) <> "" -> collection <> "" ->
  parseInvalidateMsg (DatabaseName (p_Tenant p) +:+ "|" +:+ collection) = Some (DatabaseName (p_Tenant p), collection).
Proof.
  intros Hb Hd Hc. unfold parseInvalidateMsg.
  change ("|" +:+ collection) with (String bar collection). rewrite cut_app by done.
  apply str_eqb_neq in Hd, Hc. by rewrite Hd, Hc.
Qed.

End Engine.

Arguments RulesEngine : clear implicits.
Arguments ruleCacheEntry : clear implicits.
Arguments compiledRule : clear implicits.

(** ** Property *)


(** ** A run: the world is the stored rules and the log written so far *)

Definition ruleWorld : Type := list Rule * list logLine.

Definition ex_ruleRepo : RuleRepository ruleWorld := {|
  rrCreate _ _ _ r w := (Ok r, (fst w ++ [r], snd w));
  rrGet _ _ id w := match find (fun r => str_eqb (r_ID r) id) (fst w) with Some r => Ok r | None => Err ErrNotFound end;
  rrList _ _ w := Ok (fst w);
  rrUpdate _ _ _ r w := (Ok r, (map (fun r0 => if str_eqb (r_ID r0) (r_ID r) then r else r0) (fst w), snd w));
  rrDelete _ _ id w := (Ok tt, (List.filter (fun r => negb (str_eqb (r_ID r) id)) (fst w), snd w));
  rrListAll _ w := Ok [("crm.deals", fst w)] |}.

Definition ex_engine : RulesEngine ruleWorld := mkEngine None None None (fun l w => (fst w, snd w ++ [l])) 30.

Definition ex_rule (name : string) (c : Condition) : Rule :=
  mkRule name name true c [mkRuleAction ActionLog None (Some (mkLogAction "warn")) ""] 1 0.

Definition ex_leaf (v : string) : Condition := mkCondition None None None FieldOp OpEq (JStr v) None.

Definition ex_ruleEvent : Event :=
  mkEvent "deal-1" 3 OpUpdate "u1" "erp" 5 6 7 "e3" "" [mkChange "items.0.price" OpChange (JNum (Numbers.intToFloat 5)) JNull] None None None.

