(* ===== verification/RuleDocs.v ===== *)
(** * The rule repository (internal/storage/mongo/rule_repo.go)

    The documents of rules and both directions of their mapping, the lazy provisioning of
    the _rules collection and the operations over the driver.  An absent field decodes to
    the zero value; a nil slice of a condition is stored as null and an empty one as an
    empty array, so the two stay distinct. *)

From stdpp Require Import base list strings.
From Stdlib Require Import ZArith Lia Permutation.
From S2P Require Import Prelude GoMap Json Paths Diff DiffSound Domain Tenant Config Names Alias Repo Mapping Mongo.
From S2P Require Import Numbers Rules.

(** ** Documents *)

Record ruleMatchDoc := mkMatchDoc {
  md_Path : string; md_Op : string; md_Old : anyv; md_New : anyv; md_HasOld : bool; md_HasNew : bool }.

Inductive condDoc := mkCondDoc {
  kd_All : option (list condDoc); kd_Any : option (list condDoc); kd_Not : option condDoc;
  kd_Field : string; kd_Op : string; kd_Value : anyv; kd_Match : option ruleMatchDoc }.

Record webhookDoc := mkWebhookDoc {
  wd_URL : string; wd_SecretRef : string; wd_TimeoutMS : Z; wd_MaxAttempts : Z; wd_Backoff : string }.
Record logDoc := mkLogDoc { ld_Level : string }.
Record actionDoc := mkActionDoc { ad_Type : string; ad_Webhook : option webhookDoc; ad_Log : option logDoc }.

Record ruleDoc := mkRuleDoc {
  rd_ID : string; rd_Collection : string; rd_Name : string; rd_Enabled : bool; rd_Condition : condDoc;
  rd_Actions : list actionDoc; rd_Version : Z; rd_UpdatedAt : time }.

(** ** Mapping *)

Fixpoint toCondDoc (c : Condition) : condDoc :=
  match c with
  | mkCondition all any no f o v m =>
      mkCondDoc
        (match all with Some l => Some (map toCondDoc l) | None => None end)
        (match any with Some l => Some (map toCondDoc l) | None => None end)
        (match no with Some c' => Some (toCondDoc c') | None => None end)
        f o (toAny v)
        (option_map (fun m => mkMatchDoc (m_Path m) (m_Op m) (toAny (m_Old m)) (toAny (m_New m)) (m_HasOld m) (m_HasNew m)) m)
  end.

Fixpoint fromCondDoc (d : condDoc) : Condition :=
  match d with
  | mkCondDoc all any no f o v m =>
      mkCondition
        (match all with Some l => Some (map fromCondDoc l) | None => None end)
        (match any with Some l => Some (map fromCondDoc l) | None => None end)
        (match no with Some d' => Some (fromCondDoc d') | None => None end)
        f o (canonicalJSON v)
        (option_map (fun m => mkMatch (md_Path m) (md_Op m) (canonicalJSON (md_Old m)) (canonicalJSON (md_New m)) (md_HasOld m) (md_HasNew m)) m)
  end.

Definition toActionDocs (actions : list Action) : list actionDoc :=
  map (fun a => mkActionDoc (a_Type a)
    (option_map (fun w => mkWebhookDoc (URL w) (SecretRef w) (TimeoutMS w) (MaxAttempts (wh_Retry w)) (Backoff (wh_Retry w))) (a_Webhook a))
    (option_map (fun l => mkLogDoc (Level l)) (a_Log a))) actions.

(** [Params] has no field in the document: it comes back nil. *)
Definition fromActionDocs (docs : list actionDoc) : list Action :=
  map (fun d => mkRuleAction (ad_Type d)
    (option_map (fun w => mkWebhook (wd_URL w) (wd_SecretRef w) (wd_TimeoutMS w) (mkRetry (wd_MaxAttempts w) (wd_Backoff w))) (ad_Webhook d))
    (option_map (fun l => mkLogAction (ld_Level l)) (ad_Log d)) "") docs.

Definition toRuleDoc (collection : string) (r : Rule) : ruleDoc :=
  mkRuleDoc (r_ID r) collection (r_Name r) (r_Enabled r) (toCondDoc (r_Condition r)) (toActionDocs (r_Actions r)) (r_Version r) (r_UpdatedAt r).

Definition fromRuleDoc (d : ruleDoc) : Rule :=
  mkRule (rd_ID d) (rd_Name d) (rd_Enabled d) (fromCondDoc (rd_Condition d)) (fromActionDocs (rd_Actions d)) (rd_Version d) (rd_UpdatedAt d).

(** The payload of [$set] on update. *)
Record ruleBody := mkRuleBody {
  rb_Name : string; rb_Enabled : bool; rb_Condition : condDoc; rb_Actions : list actionDoc; rb_UpdatedAt : time }.

Definition ruleBodyDoc (r : Rule) : ruleBody :=
  mkRuleBody (r_Name r) (r_Enabled r) (toCondDoc (r_Condition r)) (toActionDocs (r_Actions r)) (r_UpdatedAt r).

(** ** The repository *)

(** The driver calls beyond those of [MongoDriver]; [FindOneAndUpdate] takes the [$set]
    body and the [$inc] of the version and returns the document after. *)
Class MongoRules (W : Type) := {
  FindOneAndUpdate : database -> string -> bdoc -> ruleBody -> Z -> W -> res driverErr ruleDoc * W;
  DeleteOne : database -> string -> bdoc -> W -> res driverErr Z * W;
  CreateRuleIndexes : database -> string -> W -> option driverErr * W }.

Definition idxRuleName : string := "uniq_rule_collection_name".
Definition RulesCollection : string := "_rules".

Section RuleRepo.
Context {W : Type} `{MongoDriver W ruleDoc} `{MongoAdmin W} `{MongoRules W}.
Variable dbFor : ctx -> res err database.

(** [provisioned]: the database names already provisioned by this process. *)
Definition ensure (db : database) (provisioned : list string) (w : W) : res err unit * list string * W :=
  if existsb (str_eqb (db_name db)) provisioned then (Ok tt, provisioned, w)
  else
    let indexes w1 :=
      match CreateRuleIndexes db RulesCollection w1 with
      | (Some e, w2) => (Err (internal e), provisioned, w2)
      | (None, w2) => (Ok tt, db_name db :: provisioned, w2)
      end in
    match CreateCollection db RulesCollection w with
    | (Some e, w1) => if isNamespaceExists e then indexes w1 else (Err (internal e), provisioned, w1)
    | (None, w1) => indexes w1
    end.

Definition ready (c : ctx) (provisioned : list string) (w : W) : res err database * list string * W :=
  match dbFor c with
  | Err e => (Err e, provisioned, w)
  | Ok db =>
      match ensure db provisioned w with
      | (Err e, pr, w1) => (Err e, pr, w1)
      | (Ok _, pr, w1) => (Ok db, pr, w1)
      end
  end.

(** The two guards of every per-collection method. *)
Definition withRules {A : Type} (c : ctx) (collection : string) (pr : list string) (w : W)
    (k : database -> W -> res err A * W) : res err A * list string * W :=
  match validateLogical collection with
  | Err e => (Err e, pr, w)
  | Ok _ =>
      match ready c pr w with
      | (Err e, pr', w1) => (Err e, pr', w1)
      | (Ok db, pr', w1) => let '(r, w2) := k db w1 in (r, pr', w2)
      end
  end.

Definition stampRule (newID : string) (now : time) (r : Rule) : Rule :=
  mkRule (if str_eqb (r_ID r) "" then newID else r_ID r) (r_Name r) (r_Enabled r) (r_Condition r) (r_Actions r) 1 now.

Definition ruleKey (collection id : string) : bdoc := [("_id", BStr id); ("collection", BStr collection)].

Definition repoRuleCreate (c : ctx) (collection newID : string) (now : time) (rule : Rule) (pr : list string) (w : W) : res err Rule * list string * W :=
  withRules c collection pr w (fun db w =>
    let rule' := stampRule newID now rule in
    match InsertOne db RulesCollection (toRuleDoc collection rule') w with
    | (None, w') => (Ok rule', w')
    | (Some e, w') => (Err (if isDupKeyOn e idxRuleName then ErrRuleNameConflict else internal e), w')
    end).

Definition repoRuleGet (c : ctx) (collection id : string) (pr : list string) (w : W) : res err Rule * list string * W :=
  withRules c collection pr w (fun db w =>
    match FindOne db RulesCollection (ruleKey collection id) [] w with
    | Ok d => (Ok (fromRuleDoc d), w)
    | Err NoDocuments => (Err ErrNotFound, w)
    | Err e => (Err (internal e), w)
    end).

Definition repoRuleList (c : ctx) (collection : string) (pr : list string) (w : W) : res err (list Rule) * list string * W :=
  withRules c collection pr w (fun db w =>
    match Find db RulesCollection [("collection", BStr collection)] [("_id", 1%Z)] 0 w with
    | Ok ds => (Ok (map fromRuleDoc ds), w)
    | Err e => (Err (internal e), w)
    end).

Definition repoRuleUpdate (c : ctx) (collection : string) (now : time) (rule : Rule) (pr : list string) (w : W) : res err Rule * list string * W :=
  withRules c collection pr w (fun db w =>
    let rule' := mkRule (r_ID rule) (r_Name rule) (r_Enabled rule) (r_Condition rule) (r_Actions rule) (r_Version rule) now in
    match FindOneAndUpdate db RulesCollection (ruleKey collection (r_ID rule)) (ruleBodyDoc rule') 1 w with
    | (Ok d, w') => (Ok (mkRule (r_ID rule') (r_Name rule') (r_Enabled rule') (r_Condition rule') (r_Actions rule') (rd_Version d) now), w')
    | (Err NoDocuments, w') => (Err ErrNotFound, w')
    | (Err e, w') => (Err (if isDupKeyOn e idxRuleName then ErrRuleNameConflict else internal e), w')
    end).

Definition repoRuleDelete (c : ctx) (collection id : string) (pr : list string) (w : W) : res err unit * list string * W :=
  withRules c collection pr w (fun db w =>
    match DeleteOne db RulesCollection (ruleKey collection id) w with
    | (Err e, w') => (Err (internal e), w')
    | (Ok n, w') => (if (n =? 0)%Z then Err ErrNotFound else Ok tt, w')
    end).

(** Grouping by collection keeps the order of the cursor within each. *)
Definition groupRules (ds : list ruleDoc) : list (string * list Rule) :=
  fold_left (fun out d => mset (rd_Collection d) (default [] (mget (rd_Collection d) out) ++ [fromRuleDoc d]) out) ds [].

Definition repoRuleListAll (c : ctx) (pr : list string) (w : W) : res err (list (string * list Rule)) * list string * W :=
  match ready c pr w with
  | (Err e, pr', w1) => (Err e, pr', w1)
  | (Ok db, pr', w1) =>
      match Find db RulesCollection [] [("collection", 1%Z); ("_id", 1%Z)] 0 w1 with
      | Ok ds => (Ok (groupRules ds), pr', w1)
      | Err e => (Err (internal e), pr', w1)
      end
  end.
End RuleRepo.

(** ** Round trip *)

(** What the driver decodes the stored document to, field by field. *)
Inductive condReadBack : condDoc -> condDoc -> Prop :=
| crb all any no f o v m all' any' no' v' m' :
    optReadBack all all' -> optReadBack any any' -> notReadBack no no' -> anyReadBack v v' -> matchReadBack m m' ->
    condReadBack (mkCondDoc all any no f o v m) (mkCondDoc all' any' no' f o v' m')
with optReadBack : option (list condDoc) -> option (list condDoc) -> Prop :=
| orb_none : optReadBack None None
| orb_some l l' : listReadBack l l' -> optReadBack (Some l) (Some l')
with listReadBack : list condDoc -> list condDoc -> Prop :=
| lrb_nil : listReadBack [] []
| lrb_cons d d' l l' : condReadBack d d' -> listReadBack l l' -> listReadBack (d :: l) (d' :: l')
with notReadBack : option condDoc -> option condDoc -> Prop :=
| nrb_none : notReadBack None None
| nrb_some d d' : condReadBack d d' -> notReadBack (Some d) (Some d')
with matchReadBack : option ruleMatchDoc -> option ruleMatchDoc -> Prop :=
| mrb_none : matchReadBack None None
| mrb_some p o v1 v2 v1' v2' b1 b2 : anyReadBack v1 v1' -> anyReadBack v2 v2' ->
    matchReadBack (Some (mkMatchDoc p o v1 v2 b1 b2)) (Some (mkMatchDoc p o v1' v2' b1 b2)).

Definition ruleReadBack (d d' : ruleDoc) : Prop :=
  rd_ID d' = rd_ID d /\ rd_Collection d' = rd_Collection d /\ rd_Name d' = rd_Name d /\ rd_Enabled d' = rd_Enabled d /\
  condReadBack (rd_Condition d) (rd_Condition d') /\ rd_Actions d' = rd_Actions d /\ rd_Version d' = rd_Version d /\
  rd_UpdatedAt d' = msTrunc (rd_UpdatedAt d).

(** The operands of a condition are values the JSON decoder builds. *)
Fixpoint wfCond (c : Condition) : bool :=
  match c with
  | mkCondition all any no _ _ v m =>
      match all with Some l => forallb wfCond l | None => true end &&
      match any with Some l => forallb wfCond l | None => true end &&
      match no with Some c' => wfCond c' | None => true end &&
      wf_json v &&
      match m with Some m => wf_json (m_Old m) && wf_json (m_New m) | None => true end
  end.

Definition dropParams (a : Action) : Action := mkRuleAction (a_Type a) (a_Webhook a) (a_Log a) "".

Definition storedRule (r : Rule) : Rule :=
  mkRule (r_ID r) (r_Name r) (r_Enabled r) (r_Condition r) (map dropParams (r_Actions r)) (r_Version r) (msTrunc (r_UpdatedAt r)).

Lemma any_read_back j v' : anyReadBack (toAny j) v' -> wf_json j = true -> canonicalJSON v' = j.
Proof. intros (j' & E%toAny_inj & Hd) Hw. subst j'. by apply canonical_decoded. Qed.

Lemma list_read_back (l : list Condition) (l' : list condDoc) :
  Forall (fun c => wfCond c = true -> forall d', condReadBack (toCondDoc c) d' -> fromCondDoc d' = c) l ->
  forallb wfCond l = true -> listReadBack (map toCondDoc l) l' -> map fromCondDoc l' = l.
Proof.
  intros HF. revert l'. induction HF as [|c l Hc _ IH]; intros l' Hw Hr; inversion Hr; subst; [done|].
  cbn in Hw |- *. apply andb_true_iff in Hw as [Hwc Hw]. by rewrite (Hc Hwc) by done; rewrite IH by done.
Qed.

Lemma cond_read_back (c : Condition) (d' : condDoc) :
  wfCond c = true -> condReadBack (toCondDoc c) d' -> fromCondDoc d' = c.
Proof.
  revert d'. induction c as [all any no f o v m IHall IHany IHno] using condition_ind'. intros d' Hw Hr.
  cbn in Hw. rewrite !andb_true_iff in Hw. destruct Hw as [[[[Hall Hany] Hno] Hv] Hm].
  cbn in Hr. inversion Hr as [? ? ? ? ? ? ? all' any' no' v' m' Rall Rany Rno Rv Rm]; subst. cbn [fromCondDoc].
  rewrite (any_read_back _ _ Rv Hv). f_equal.
  - destruct all as [l|]; inversion Rall; subst; [|done]. f_equal. apply list_read_back; [|done|done].
    eapply Forall_impl; [by apply IHall|]. auto.
  - destruct any as [l|]; inversion Rany; subst; [|done]. f_equal. apply list_read_back; [|done|done].
    eapply Forall_impl; [by apply IHany|]. auto.
  - destruct no as [c|]; inversion Rno; subst; [|done]. f_equal. by apply (IHno c).
  - destruct m as [[p q a b h h']|]; inversion Rm as [|p0 o0 v1 v2 v1' v2' b1 b2 R1 R2]; subst; [|done]. cbn in *.
    apply andb_true_iff in Hm as [Ha Hb]. by rewrite (any_read_back _ _ R1 Ha), (any_read_back _ _ R2 Hb).
Qed.

Lemma actions_roundtrip (l : list Action) : fromActionDocs (toActionDocs l) = map dropParams l.
Proof.
  unfold fromActionDocs, toActionDocs. rewrite map_map. apply map_ext. intros [t wh lg ps]. unfold dropParams. cbn. f_equal.
  - by destruct wh as [[u s tm [n b]]|].
  - by destruct lg as [[]|].
Qed.

(** Rules survive storage, except plugin parameters.  A stored rule is read back with
    its condition tree intact, nil and empty combinators kept apart, whatever order the
    driver decodes nested values in, and with its webhook and log actions; the time is
    truncated to milliseconds and the [Params] of every action are lost. *)
Theorem rule_doc_roundtrip (collection : string) (r : Rule) (d' : ruleDoc) :
  ruleReadBack (toRuleDoc collection r) d' -> wfCond (r_Condition r) = true ->
  fromRuleDoc d' = storedRule r /\ rd_Collection d' = collection.
Proof.
  intros (E1 & E2 & E3 & E4 & Hc & E6 & E7 & E8) Hw. cbn in *. split; [|done].
  unfold fromRuleDoc, storedRule. rewrite E1, E3, E4, E6, E7, E8, (cond_read_back _ _ Hw Hc), actions_roundtrip. done.
Qed.

(** An empty [all] and an absent [any], an object operand in another field order, and a
    plugin action whose parameters do not come back. *)
Definition ex_docRule : Rule :=
  mkRule "rule_1" "n" true
    (mkCondition (Some [mkCondition (Some []) None None "" "" JNull None;
                        mkCondition None None None "" "" JNull
                          (Some (mkMatch "m" "add" JNull (JObj [("a", JInt64 1); ("b", JStr "x")]) false true))]) None None "" "" JNull None)
    [mkRuleAction "pager" None None "{}"] 1 1500000.

Definition ex_ruleDoc : ruleDoc :=
  mkRuleDoc "rule_1" "crm.deals" "n" true
    (mkCondDoc (Some [mkCondDoc (Some []) None None "" "" (AScal JNull) None;
                      mkCondDoc None None None "" "" (AScal JNull)
                        (Some (mkMatchDoc "m" "add" (AScal JNull) (AD [("b", AScal (JStr "x")); ("a", AScal (JInt64 1))]) false true))]) None None "" "" (AScal JNull) None)
    [mkActionDoc "pager" None None] 1 1000000.

Lemma rule_doc_roundtrip_witness :
  fromRuleDoc ex_ruleDoc = storedRule ex_docRule /\ r_Actions (storedRule ex_docRule) <> r_Actions ex_docRule.
Proof.
  split; [|vm_compute; discriminate].
  assert (anyReadBack (AScal JNull) (AScal JNull)) as Hn by (exists JNull; split; [reflexivity|by constructor]).
  apply (rule_doc_roundtrip "crm.deals" ex_docRule ex_ruleDoc); [|reflexivity].
  unfold ruleReadBack. split_and!; try reflexivity. cbn. constructor; [|constructor|constructor|exact Hn|constructor].
  constructor. constructor; [|constructor; [|constructor]].
  - constructor; [|constructor|constructor|exact Hn|constructor]. constructor. constructor.
  - constructor; [constructor|constructor|constructor|exact Hn|]. constructor; [exact Hn|].
    exists (JObj [("a", JInt64 1); ("b", JStr "x")]). split; [reflexivity|].
    eapply decoded_obj with (fs := [("a", AScal (JInt64 1)); ("b", AScal (JStr "x"))]); [|apply Permutation_swap].
    repeat constructor.
Defined.
