(* ===== verification/Flow.v ===== *)
(** * Activities and flows (internal/domain/activity.go, internal/service/activity.go,
    internal/storage/mongo/flow_repo.go)

    Activities are events that are not changes of an entity; a flow is the activities and
    change events that carry its id, merged into one chronological listing that is read
    in pages.  The repository keeps activities in [ev__flow] and finds the events of a
    flow by sweeping the tenant's event collections. *)

From stdpp Require Import base list strings sorting.
From Stdlib Require Import ZArith Lia Ascii Permutation Sorted DecimalString DecimalPos DecimalZ.
From S2P Require Import Prelude GoMap Json Paths Diff DiffSound Domain Tenant Config Names Alias Repo Mapping Mongo Paging RuleDocs.

(** ** Nodes *)

(** [ac_Data] and [ac_Meta] are opaque maps, kept as the driver decodes them. *)
Record Activity := mkActivity {
  ac_ActivityID : string; ac_Type : string; ac_FlowID : string; ac_CausedBy : list FlowRef; ac_Refs : list FlowRef;
  ac_Author : string; ac_Source : string; ac_TSSource : time; ac_TSReceived : time; ac_TSStored : time;
  ac_Data : option (list (string * anyv)); ac_Meta : option (list (string * anyv)) }.

Record FlowEvent := mkFlowEvent { fe_Collection : string; fe_Event : Event }.

Inductive FlowNode :=
| NodeActivity (a : Activity)
| NodeEvent (collection : string) (ev : Event).

Definition nodeTS (n : FlowNode) : time :=
  match n with NodeActivity a => ac_TSReceived a | NodeEvent _ ev => ev_TSReceived ev end.

Definition nodeID (n : FlowNode) : string :=
  match n with
  | NodeActivity a => "a|" +:+ ac_ActivityID a
  | NodeEvent collection ev => "e|" +:+ collection +:+ "|" +:+ ev_EntityID ev +:+ "|" +:+ itoa (ev_Version ev)
  end.

Record FlowPosition := mkFlowPosition { fp_TS : time; fp_ID : string }.

Definition after (n : FlowNode) (p : FlowPosition) : bool :=
  if (fp_TS p <? nodeTS n)%Z then true
  else if (nodeTS n <? fp_TS p)%Z then false
  else str_ltb (fp_ID p) (nodeID n).

Definition position (n : FlowNode) : FlowPosition := mkFlowPosition (nodeTS n) (nodeID n).

(** The order of [sort.Slice], which is not stable: nodes are told apart by their key. *)
Definition nodeLess (a b : FlowNode) : bool :=
  if negb (nodeTS a =? nodeTS b)%Z then (nodeTS a <? nodeTS b)%Z else str_ltb (nodeID a) (nodeID b).

Fixpoint insertNode (n : FlowNode) (l : list FlowNode) : list FlowNode :=
  match l with
  | [] => [n]
  | x :: l' => if nodeLess x n then x :: insertNode n l' else n :: l
  end.

Definition sortNodes (l : list FlowNode) : list FlowNode := fold_right insertNode [] l.

Definition mergeNodes (activities : list Activity) (events : list FlowEvent) : list FlowNode :=
  map NodeActivity activities ++ map (fun e => NodeEvent (fe_Collection e) (fe_Event e)) events.

(** The scan for the first node past the cursor. *)
Fixpoint skipTo (p : FlowPosition) (nodes : list FlowNode) : list FlowNode :=
  match nodes with
  | [] => []
  | n :: nodes' => if after n p then nodes else skipTo p nodes'
  end.

Definition AssembleFlow (activities : list Activity) (events : list FlowEvent) (after_ : option FlowPosition) (limit : Z) : list FlowNode * option FlowPosition :=
  let nodes := sortNodes (mergeNodes activities events) in
  let nodes := match after_ with Some p => skipTo p nodes | None => nodes end in
  if ((0 <? limit) && (limit <? Z.of_nat (length nodes)))%Z
  then (take (Z.to_nat limit) nodes, option_map position (nodes !! (Z.to_nat limit - 1)%nat))
  else (nodes, None).

(** ** The service *)

Class FlowStore (W : Type) := {
  AppendActivity : ctx -> time -> Activity -> W -> res err Activity * W;
  FlowActivities : ctx -> string -> W -> res err (list Activity);
  FlowEvents : ctx -> string -> W -> res err (list FlowEvent) }.

Record RecordActivityCommand := mkRecordActivity {
  ra_ActivityID : string; ra_Type : string; ra_FlowID : string; ra_CausedBy : list FlowRef; ra_Refs : list FlowRef;
  ra_Author : string; ra_Source : string; ra_TSSource : time;
  ra_Data : option (list (string * anyv)); ra_Meta : option (list (string * anyv)) }.

Record RecordActivityResult := mkRecordResult { rr_ActivityID : string; rr_FlowID : string }.

Record FlowResult := mkFlowResult { fr_FlowID : string; fr_Nodes : list FlowNode; fr_Next : option FlowPosition }.

Section Activities.
Context {W : Type} `{FlowStore W}.

(** [newActID] and [newFlowID] are what the generators yield. *)
Definition activityOf (newActID newFlowID : string) (now : time) (cmd : RecordActivityCommand) : Activity :=
  mkActivity (orElse (ra_ActivityID cmd) newActID) (ra_Type cmd) (orElse (ra_FlowID cmd) newFlowID) (ra_CausedBy cmd) (ra_Refs cmd)
    (ra_Author cmd) (ra_Source cmd) (ra_TSSource cmd) now 0 (ra_Data cmd) (ra_Meta cmd).

Definition RecordActivity (newActID newFlowID : string) (now stored : time) (c : ctx) (cmd : RecordActivityCommand) (w : W) : res err RecordActivityResult * W :=
  let a := activityOf newActID newFlowID now cmd in
  match AppendActivity c stored a w with
  | (Err e, w') => (Err e, w')
  | (Ok _, w') => (Ok (mkRecordResult (ac_ActivityID a) (ac_FlowID a)), w')
  end.

Definition ReadFlow (c : ctx) (flowID : string) (after_ : option FlowPosition) (limit : Z) (w : W) : res err FlowResult :=
  (activities <- FlowActivities c flowID w;
   events <- FlowEvents c flowID w;
   let '(nodes, next) := AssembleFlow activities events after_ limit in
   Ok (mkFlowResult flowID nodes next))%go.
End Activities.

(** ** The repository *)

Record activityDoc := mkActivityDoc {
  ad_AID : string; ad_Type : string; ad_Flow : string; ad_By : list flowRefDoc; ad_Refs : list flowRefDoc;
  ad_Author : string; ad_Src : string; ad_TSSource : time; ad_TSRcv : time; ad_TSStored : time;
  ad_Data : option (list (string * anyv)); ad_Meta : option (list (string * anyv)) }.

Definition toActivityDoc (a : Activity) : activityDoc :=
  mkActivityDoc (ac_ActivityID a) (ac_Type a) (ac_FlowID a) (toFlowRefDocs (ac_CausedBy a)) (toFlowRefDocs (ac_Refs a))
    (ac_Author a) (ac_Source a) (ac_TSSource a) (ac_TSReceived a) (ac_TSStored a) (ac_Data a) (ac_Meta a).

Definition fromActivityDoc (d : activityDoc) : Activity :=
  mkActivity (ad_AID d) (Flow.ad_Type d) (ad_Flow d) (fromFlowRefDocs (ad_By d)) (fromFlowRefDocs (ad_Refs d))
    (ad_Author d) (ad_Src d) (ad_TSSource d) (ad_TSRcv d) (ad_TSStored d) (ad_Data d) (ad_Meta d).

(** The driver calls beyond those of [MongoDriver]. *)
Class MongoFlow (W : Type) := {
  CreateFlowIndexes : database -> string -> W -> option driverErr * W;
  ListCollectionNames : database -> W -> res driverErr (list string) }.

Section FlowRepo.
Context {W : Type} `{MongoDriver W activityDoc} {MD : MongoDriver W eventDoc} `{MongoAdmin W} `{MongoFlow W}.
Variable dbFor : ctx -> res err database.

(** As for the rules: once per database name and process. *)
Definition ensureFlow (db : database) (provisioned : list string) (w : W) : res err unit * list string * W :=
  if existsb (str_eqb (db_name db)) provisioned then (Ok tt, provisioned, w)
  else
    let indexes w1 :=
      match CreateFlowIndexes db FlowActivitiesColl w1 with
      | (Some e, w2) => (Err (internal e), provisioned, w2)
      | (None, w2) => (Ok tt, db_name db :: provisioned, w2)
      end in
    match CreateCollection db FlowActivitiesColl w with
    | (Some e, w1) => if isNamespaceExists e then indexes w1 else (Err (internal e), provisioned, w1)
    | (None, w1) => indexes w1
    end.

Definition stampActivity (now : time) (a : Activity) : Activity :=
  if (ac_TSStored a =? 0)%Z
  then mkActivity (ac_ActivityID a) (ac_Type a) (ac_FlowID a) (ac_CausedBy a) (ac_Refs a) (ac_Author a) (ac_Source a)
         (ac_TSSource a) (ac_TSReceived a) now (ac_Data a) (ac_Meta a)
  else a.

Definition repoAppendActivity (c : ctx) (now : time) (a : Activity) (pr : list string) (w : W) : res err Activity * list string * W :=
  match dbFor c with
  | Err e => (Err e, pr, w)
  | Ok db =>
      match ensureFlow db pr w with
      | (Err e, pr', w1) => (Err e, pr', w1)
      | (Ok _, pr', w1) =>
          let a' := stampActivity now a in
          match InsertOne db FlowActivitiesColl (toActivityDoc a') w1 with
          | (None, w2) => (Ok a', pr', w2)
          | (Some e, w2) => (Err (internal e), pr', w2)
          end
      end
  end.

Definition repoFlowActivities (c : ctx) (flowID : string) (w : W) : res err (list Activity) :=
  (db <- dbFor c;
   match Find db FlowActivitiesColl [("flow", BStr flowID)] [("ts_rcv", 1%Z)] 0 w with
   | Ok ds => Ok (map fromActivityDoc ds)
   | Err e => Err (internal e)
   end)%go.

(** The events of one collection, each tagged with the logical name. *)
Definition sweep (db : database) (flowID name : string) (w : W) : res err (list FlowEvent) :=
  match Find (D := eventDoc) db name [("flow.f", BStr flowID)] [("ts_rcv", 1%Z)] 0 w with
  | Err e => Err (internal e)
  | Ok ds => (evs <- fromEventDocs ds; Ok (map (mkFlowEvent (logicalFromEvents name)) evs))%go
  end.

Fixpoint sweepAll (db : database) (flowID : string) (names : list string) (w : W) : res err (list FlowEvent) :=
  match names with
  | [] => Ok []
  | name :: names' =>
      if isUserEventCollection name
      then (evs <- sweep db flowID name w; rest <- sweepAll db flowID names' w; Ok (evs ++ rest))%go
      else sweepAll db flowID names' w
  end.

Definition repoFlowEvents (c : ctx) (flowID : string) (w : W) : res err (list FlowEvent) :=
  (db <- dbFor c;
   match ListCollectionNames db w with
   | Err e => Err (internal e)
   | Ok names => sweepAll db flowID names w
   end)%go.
End FlowRepo.

(** ** Keys *)

Definition bar : ascii := "|"%char.

Lemma itoa_no_bar (z : Z) : has_byte bar (itoa z) = false.
Proof. by apply itoa_no_byte. Qed.

(** Splitting at the first bar, and at the last. *)
Lemma first_bar (a b x y : string) : has_byte bar a = false -> has_byte bar b = false ->
  a +:+ "|" +:+ x = b +:+ "|" +:+ y -> a = b /\ x = y.
Proof.
  intros Ha Hb E. pose proof (cut_app bar a x Ha) as Ca. pose proof (cut_app bar b y Hb) as Cb.
  change ("|" +:+ x) with (String bar x) in E. change ("|" +:+ y) with (String bar y) in E.
  rewrite E, Cb in Ca. by injection Ca.
Qed.

Lemma last_bar (a b x y : string) : has_byte bar x = false -> has_byte bar y = false ->
  a +:+ "|" +:+ x = b +:+ "|" +:+ y -> a = b /\ x = y.
Proof. apply last_sep. Qed.

Definition eventKey (e : FlowEvent) : string * string * Z := (fe_Collection e, ev_EntityID (fe_Event e), ev_Version (fe_Event e)).

(** What identifies the nodes of a tenant: activity ids, and the version of an entity. *)
Definition distinctNodes (activities : list Activity) (events : list FlowEvent) : Prop :=
  NoDup (map ac_ActivityID activities) /\ NoDup (map eventKey events) /\
  Forall (fun e => has_byte bar (fe_Collection e) = false) events.

Lemma nodeID_distinct activities events : distinctNodes activities events -> NoDup (map nodeID (mergeNodes activities events)).
Proof.
  intros (Ha & He & Hb). unfold mergeNodes. rewrite map_app, !map_map. apply NoDup_app. split_and!.
  - clear -Ha. induction activities as [|a l IH]; cbn in *; [constructor|]. apply NoDup_cons in Ha as [Hn Ha]. constructor; [|by apply IH].
    intros Hin. apply Hn. apply list_elem_of_fmap in Hin as (a' & E & Hin). apply list_elem_of_fmap. exists a'. split; [by injection E|done].
  - intros x Hx Hy. apply list_elem_of_fmap in Hx as (a & -> & _). apply list_elem_of_fmap in Hy as (e & E & _). discriminate E.
  - clear -He Hb. induction events as [|e l IH]; cbn in *; [constructor|]. apply NoDup_cons in He as [Hn He]. inversion Hb as [|? ? Hbe Hbl]; subst.
    constructor; [|by apply IH]. intros Hin. apply Hn. apply list_elem_of_fmap in Hin as (e' & E & Hin). apply list_elem_of_fmap. exists e'. split; [|done].
    rewrite List.Forall_forall in Hbl. pose proof (Hbl e' (proj1 (list_elem_of_In _ _) Hin)) as Hbe'.
    injection E as E. apply first_bar in E as [E1 E]; [|done|done].
    apply last_bar in E as [E2 E3]; [|apply itoa_no_bar|apply itoa_no_bar]. apply itoa_inj in E3. unfold eventKey. congruence.
Qed.

(** ** The listing is sorted *)

Definition before (a b : FlowNode) : Prop := nodeLess a b = true.

Lemma nodeLess_trans a b c : before a b -> before b c -> before a c.
Proof.
  unfold before, nodeLess. destruct (Z.eqb_spec (nodeTS a) (nodeTS b)) as [E1|E1], (Z.eqb_spec (nodeTS b) (nodeTS c)) as [E2|E2],
    (Z.eqb_spec (nodeTS a) (nodeTS c)) as [E3|E3]; cbn [negb]; rewrite ?Z.ltb_lt; try lia.
  intros H1 H2. by eapply str_ltb_trans.
Qed.

Lemma nodeLess_asym a b : before a b -> nodeLess b a = false.
Proof.
  unfold before, nodeLess. rewrite (Z.eqb_sym (nodeTS b)). destruct (Z.eqb_spec (nodeTS a) (nodeTS b)); cbn [negb].
  - apply str_ltb_asym.
  - rewrite Z.ltb_lt, Z.ltb_ge. lia.
Qed.

Lemma nodeLess_total a b : nodeID a <> nodeID b -> before a b \/ before b a.
Proof.
  intros Hne. unfold before, nodeLess. rewrite (Z.eqb_sym (nodeTS b)). destruct (Z.eqb_spec (nodeTS a) (nodeTS b)); cbn [negb].
  - destruct (str_ltb (nodeID a) (nodeID b)) eqn:E1; [by left|]. destruct (str_ltb (nodeID b) (nodeID a)) eqn:E2; [by right|].
    exfalso. apply Hne. by apply str_ltb_antisym.
  - rewrite !Z.ltb_lt. lia.
Qed.

Lemma after_position n m : after n (position m) = nodeLess m n.
Proof.
  unfold after, position, nodeLess. cbn. destruct (Z.eqb_spec (nodeTS m) (nodeTS n)) as [->|Hne]; cbn [negb]; [by rewrite Z.ltb_irrefl|].
  destruct (Z.ltb_spec (nodeTS m) (nodeTS n)); [done|]. destruct (Z.ltb_spec (nodeTS n) (nodeTS m)); [done|lia].
Qed.

Lemma insertNode_perm n l : Permutation (insertNode n l) (n :: l).
Proof.
  induction l as [|x l IH]; cbn; [done|]. destruct (nodeLess x n); [|done].
  etrans; [by apply Permutation_skip|apply Permutation_swap].
Qed.

Lemma sortNodes_perm l : Permutation (sortNodes l) l.
Proof. induction l as [|n l IH]; cbn; [done|]. etrans; [apply insertNode_perm|]. by apply Permutation_skip. Qed.

Lemma insertNode_sorted n l : Forall (fun x => nodeID x <> nodeID n) l -> StronglySorted before l -> StronglySorted before (insertNode n l).
Proof.
  intros Hd Hs. induction Hs as [|x l Hs IH Hx]; cbn; [repeat constructor|]. inversion Hd as [|? ? Hdx Hdl]; subst. destruct (nodeLess x n) eqn:E.
  - constructor; [by apply IH|]. apply (Permutation_Forall (Permutation_sym (insertNode_perm n l))). by constructor.
  - destruct (nodeLess_total x n Hdx) as [Hc|Hc]; [by rewrite Hc in E|]. constructor; [by constructor|]. constructor; [done|].
    eapply Forall_impl; [exact Hx|]. intros y. by apply nodeLess_trans.
Qed.

Lemma sortNodes_sorted l : NoDup (map nodeID l) -> StronglySorted before (sortNodes l).
Proof.
  induction l as [|n l IH]; cbn; [constructor|]. intros [Hn Hd]%NoDup_cons. apply insertNode_sorted; [|by apply IH].
  apply (Permutation_Forall (Permutation_sym (sortNodes_perm l))). apply List.Forall_forall. intros x Hx E. apply Hn.
  apply list_elem_of_fmap. exists x. split; [done|]. by apply list_elem_of_In.
Qed.

(** ** Pages *)

Lemma skipTo_drop l i x : StronglySorted before l -> l !! i = Some x -> skipTo (position x) l = drop (S i) l.
Proof.
  intros Hs. revert i. induction Hs as [|y l Hs IH Hy]; intros i Hi; [done|]. cbn [skipTo]. rewrite after_position. destruct i as [|i]; cbn in Hi.
  - injection Hi as <-. assert (nodeLess y y = false) as ->.
    { destruct (nodeLess y y) eqn:E; [|done]. pose proof (nodeLess_asym y y E). congruence. }
    cbn [drop]. destruct Hy as [|z l Hz _]; [done|]. cbn [skipTo]. rewrite after_position. by rewrite Hz.
  - assert (before y x) as Hyx.
    { rewrite List.Forall_forall in Hy. apply Hy, list_elem_of_In. by eapply list_elem_of_lookup_2. }
    rewrite (nodeLess_asym _ _ Hyx). by apply IH.
Qed.

(** The pages a client gets by following the cursor. *)
Fixpoint readPages (fuel : nat) (activities : list Activity) (events : list FlowEvent) (after_ : option FlowPosition) (limit : Z) : list (list FlowNode) :=
  match fuel with
  | O => []
  | S fuel' =>
      let '(nodes, next) := AssembleFlow activities events after_ limit in
      nodes :: match next with None => [] | Some p => readPages fuel' activities events (Some p) limit end
  end.

(** The listing from index [k] on; [k] > 0 is reached by the cursor of node [k - 1]. *)
Lemma readPages_from fuel activities events limit k cursor :
  let all := sortNodes (mergeNodes activities events) in
  (0 < limit)%Z -> StronglySorted before all -> (length all < fuel + k)%nat -> (0 < fuel)%nat ->
  (match cursor with None => all | Some p => skipTo p all end) = drop k all ->
  concat (readPages fuel activities events cursor limit) = drop k all /\
  Forall (fun page => (Z.of_nat (length page) <= limit)%Z) (readPages fuel activities events cursor limit).
Proof.
  intros all Hl Hs. revert k cursor. induction fuel as [|fuel IH]; intros k cursor Hf Hpos Hcur; [lia|]. cbn [readPages].
  unfold AssembleFlow. fold all. rewrite Hcur. set (nodes := drop k all). rewrite (proj2 (Z.ltb_lt 0 limit) Hl). cbn [andb].
  destruct (Z.ltb_spec limit (Z.of_nat (length nodes))) as [Hlt|Hge].
  - destruct (lookup_lt_is_Some_2 nodes (Z.to_nat limit - 1)%nat) as [x Hx]; [lia|]. rewrite Hx. cbn [option_map].
    assert (all !! (k + (Z.to_nat limit - 1))%nat = Some x) as Hax by (by rewrite <- lookup_drop).
    assert (length nodes = length all - k)%nat as Hlen by apply length_drop.
    destruct (IH (k + Z.to_nat limit)%nat (Some (position x))) as [Hc HF]; [lia|lia| |].
    { cbv iota. rewrite (skipTo_drop all _ x Hs Hax). f_equal. lia. }
    cbn [concat]. split.
    + rewrite Hc. unfold nodes. rewrite <- drop_drop. apply take_drop.
    + constructor; [rewrite length_take; lia|exact HF].
  - cbn. split; [apply app_nil_r|]. constructor; [lia|constructor].
Qed.

(** C20: Paging through a flow.  The nodes of a flow (activities with distinct ids, events
    with distinct entity versions in collections with valid names) read page by page,
    following the cursor with a fixed limit, are exactly all its nodes, each once, in the
    order of their received times with ties broken by their ids; no page exceeds the
    limit; and as many requests as there are nodes, plus one, are enough. *)
Theorem flow_paging (activities : list Activity) (events : list FlowEvent) (limit : Z) :
  (0 < limit)%Z -> distinctNodes activities events ->
  let pages := readPages (S (length activities + length events)) activities events None limit in
  Permutation (concat pages) (mergeNodes activities events) /\ StronglySorted before (concat pages) /\
  Forall (fun page => (Z.of_nat (length page) <= limit)%Z) pages.
Proof.
  intros Hl Hd. pose proof (sortNodes_sorted _ (nodeID_distinct _ _ Hd)) as Hs.
  assert (length (sortNodes (mergeNodes activities events)) = length activities + length events)%nat as Hlen.
  { rewrite (Permutation_length (sortNodes_perm _)). unfold mergeNodes. by rewrite length_app, !length_map. }
  destruct (readPages_from (S (length activities + length events)) activities events limit 0 None) as [Hc HF]; [done|done|lia|lia|done|].
  cbv zeta. rewrite Hc. cbn [drop]. split_and!; [apply sortNodes_perm|exact Hs|exact HF].
Qed.

(** ** A run *)

Definition ex_activity (aid : string) (ts : time) : Activity := mkActivity aid "note" "f1" [] [] "" "" 0 ts ts None None.
Definition ex_flowEvent (eid : string) (v ts : Z) : FlowEvent :=
  mkFlowEvent "crm.deals" (mkEvent eid v OpUpdate "" "" 0 ts ts "" "" [] None (Some (mkFlow "f1" [] "s")) None).

Lemma flow_paging_witness :
  let acts := [ex_activity "a2" 7; ex_activity "a1" 7] in
  let evs := [ex_flowEvent "x|1" 2 7; ex_flowEvent "x" 12 3] in
  map (map nodeID) (readPages 5 acts evs None 2) = [["e|crm.deals|x|12"; "a|a1"]; ["a|a2"; "e|crm.deals|x|1|2"]] /\
  Permutation (concat (readPages 5 acts evs None 2)) (mergeNodes acts evs).
Proof.
  intros acts evs. split; [vm_compute; reflexivity|].
  apply (flow_paging acts evs 2); [lia|]. split_and!.
  - repeat constructor; vm_compute; intros Hin; repeat (inversion Hin; subst; clear Hin; rename select (_ ∈ _) into Hin).
  - repeat constructor; vm_compute; intros Hin; repeat (inversion Hin; subst; clear Hin; rename select (_ ∈ _) into Hin).
  - repeat constructor.
Defined.
