(* ===== verification/Canonical.v ===== *)
(** * Canonical encodings (internal/diff/canonical.go)

    What [encoding/json] writes for a value with HTML escaping off, and what
    [time.Time.Format(RFC3339Nano)] writes for a UTC time: the two encodings the hash
    chain is computed over; then that the encoding can be taken apart again. *)

From stdpp Require Import base list strings.
From Stdlib Require Import ZArith Lia Ascii DecimalString.
From Corelib Require Import SpecFloat.
From S2P Require Import Prelude GoMap Json Paths Numbers.

(** ** Numbers *)

(** [floatEncoder]: positional between 1e-6 and 1e21, else exponent form with a
    one-digit exponent where one suffices. *)
Definition json_pos (m e : Z) : string :=
  let '(n, d) := FormatFloat.num_den m e in
  let dp := FormatFloat.find_dp 640 (-324) n d in
  let '(q, k) := FormatFloat.shortest 18 1 m e n d dp in
  let dp' := if (10 ^ k <=? q)%Z then (dp + 1)%Z else dp in
  let ds := itoa (FormatFloat.strip_zeros 20 q) in
  let exp := (dp' - 1)%Z in
  if ((exp <? -6) || (21 <=? exp))%Z
  then
    let frac := FormatFloat.drop_str 1 ds in
    (if str_eqb frac "" then ds else FormatFloat.take_str 1 ds +:+ "." +:+ frac) +:+
    (if (exp <? 0)%Z then "e-" else "e+") +:+ itoa (Z.abs exp)
  else FormatFloat.fmt_f ds dp'.

(** NaN and the infinities are an [UnsupportedValueError]. *)
Definition jsonFloat (f : float64) : option string :=
  match f with
  | S754_zero s => Some (if s then "-0" else "0")
  | S754_finite s m e => Some ((if s then "-" else "") +:+ json_pos (Zpos m) e)
  | _ => None
  end.

(** ** Strings *)

Definition hexd (z : Z) : ascii := ascii_of_N (Z.to_N (if (z <? 10)%Z then 48 + z else 87 + z)).

Definition inRange (lo hi : Z) (c : ascii) : bool := ((lo <=? byteOf c) && (byteOf c <=? hi))%Z.

(** Width of the valid UTF-8 sequence of a non-ASCII lead byte, [None] if it is invalid
    ([utf8.DecodeRuneInString] returning the error rune with width 1). *)
Definition runeWidth (c : ascii) (s : string) : option nat :=
  let b := byteOf c in
  let cont := inRange 128 191 in
  match s with
  | String c1 s1 =>
      if ((194 <=? b) && (b <=? 223))%Z then (if cont c1 then Some 2 else None)
      else
        match s1 with
        | String c2 s2 =>
            if ((224 <=? b) && (b <=? 239))%Z then
              (if inRange (if (b =? 224)%Z then 160 else 128) (if (b =? 237)%Z then 159 else 191) c1 && cont c2 then Some 3 else None)
            else
              match s2 with
              | String c3 _ =>
                  if ((240 <=? b) && (b <=? 244))%Z then
                    (if inRange (if (b =? 240)%Z then 144 else 128) (if (b =? 244)%Z then 143 else 191) c1 && cont c2 && cont c3 then Some 4 else None)
                  else None
              | _ => None
              end
        | _ => None
        end
  | _ => None
  end.

Definition escapeAscii (c : ascii) : string :=
  let b := byteOf c in
  if (b =? 34)%Z then String "092" (String c "")
  else if (b =? 92)%Z then String "092" (String c "")
  else if (b =? 8)%Z then "\b" else if (b =? 12)%Z then "\f" else if (b =? 10)%Z then "\n"
  else if (b =? 13)%Z then "\r" else if (b =? 9)%Z then "\t"
  else if (b <? 32)%Z then "\u00" +:+ String (hexd (b / 16)) (String (hexd (b mod 16)) "")
  else String c "".

(** U+2028 and U+2029, [E2 80 A8] and [E2 80 A9]. *)
Definition lineSep (c : ascii) (s : string) : option string :=
  match s with
  | String c1 (String c2 _) =>
      if ((byteOf c =? 226) && (byteOf c1 =? 128) && ((byteOf c2 =? 168) || (byteOf c2 =? 169)))%Z
      then Some ("\u202" +:+ String (hexd (byteOf c2 mod 16)) "") else None
  | _ => None
  end.

(** [appendString] without its quotes; [n] bytes of the current rune are still copied. *)
Fixpoint escapeFrom (n : nat) (skip : bool) (s : string) : string :=
  match s with
  | EmptyString => EmptyString
  | String c s' =>
      match n with
      | S n' => if skip then escapeFrom n' skip s' else String c (escapeFrom n' skip s')
      | O =>
          if (byteOf c <? 128)%Z then escapeAscii c +:+ escapeFrom 0 false s'
          else
            match runeWidth c s' with
            | None => "\ufffd" +:+ escapeFrom 0 false s'
            | Some w =>
                match lineSep c s' with
                | Some esc => esc +:+ escapeFrom (w - 1) true s'
                | None => String c (escapeFrom (w - 1) false s')
                end
            end
      end
  end.

Definition quoteByte : ascii := "034"%char.
Definition jsonString (s : string) : string := String quoteByte (escapeFrom 0 false s +:+ String quoteByte "").

(** ** Values *)

Fixpoint joinWith (sep : string) (l : list string) : string :=
  match l with
  | [] => ""
  | [x] => x
  | x :: l' => x +:+ sep +:+ joinWith sep l'
  end.

Fixpoint jsonEncode (j : json) : option string :=
  match j with
  | JNull => Some "null"
  | JBool b => Some (if b then "true" else "false")
  | JNum f => jsonFloat f
  | JInt z => Some (itoa z)
  | JInt64 z => Some (itoa z)
  | JStr s => Some (jsonString s)
  | JArr l =>
      option_map (fun ss => "[" +:+ joinWith "," ss +:+ "]")
        ((fix go (l : list json) : option (list string) :=
            match l with
            | [] => Some []
            | x :: l' => match jsonEncode x, go l' with Some a, Some b => Some (a :: b) | _, _ => None end
            end) l)
  | JObj m =>
      option_map (fun ss => "{" +:+ joinWith "," ss +:+ "}")
        ((fix go (m : list (string * json)) : option (list string) :=
            match m with
            | [] => Some []
            | (k, x) :: m' => match jsonEncode x, go m' with Some a, Some b => Some ((jsonString k +:+ ":" +:+ a) :: b) | _, _ => None end
            end) m)
  end.

(** The encoder's trailing newline is trimmed; an encoded value ends in none. *)
Definition Canonicalize (v : json) : option string := jsonEncode v.

(** ** Times: nanoseconds since January 1 of year 1, UTC *)

Definition pad (n : nat) (z : Z) : string :=
  let s := itoa z in FormatFloat.zeros (n - String.length s) +:+ s.

(** The walk through the months of a year. *)
Fixpoint monthFrom (m : Z) (ls : list Z) (yday : Z) : Z * Z :=
  match ls with
  | [] => (m, yday + 1)%Z
  | l :: ls' => if (yday <? l)%Z then (m, yday + 1)%Z else monthFrom (m + 1)%Z ls' (yday - l)%Z
  end.

(** Year, month and day of a day count from January 1 of year 1. *)
Definition civil (days : Z) : Z * Z * Z :=
  let era := (days / 146097)%Z in
  let d := (days mod 146097)%Z in
  let n100 := Z.min (d / 36524) 3 in
  let d := (d - 36524 * n100)%Z in
  let n4 := (d / 1461)%Z in
  let d := (d - 1461 * n4)%Z in
  let n1 := Z.min (d / 365) 3 in
  let yday := (d - 365 * n1)%Z in
  let year := (400 * era + 100 * n100 + 4 * n4 + n1 + 1)%Z in
  let leap := ((n1 =? 3) && (negb (n4 =? 24) || (n100 =? 3)))%Z in
  let '(m, d) := monthFrom 1%Z [31; (if leap then 29 else 28); 31; 30; 31; 30; 31; 31; 30; 31; 30]%Z yday in
  (year, m, d).

(** The fraction of a second, trailing zeros and an empty fraction dropped. *)
Fixpoint trimZeros (s : string) : string :=
  match s with
  | EmptyString => EmptyString
  | String c s' =>
      match trimZeros s' with
      | EmptyString => if (byteOf c =? 48)%Z then EmptyString else String c ""
      | t => String c t
      end
  end.

Definition fraction (ns : Z) : string :=
  let f := trimZeros (pad 9 ns) in if str_eqb f "" then "" else "." +:+ f.

Definition formatRFC3339Nano (t : Z) : string :=
  let secs := (t / 1000000000)%Z in
  let '(y, mo, d) := civil (secs / 86400) in
  let s := (secs mod 86400)%Z in
  pad 4 y +:+ "-" +:+ pad 2 mo +:+ "-" +:+ pad 2 d +:+ "T" +:+
  pad 2 (s / 3600) +:+ ":" +:+ pad 2 ((s / 60) mod 60) +:+ ":" +:+ pad 2 (s mod 60) +:+ fraction (t mod 1000000000) +:+ "Z".

(** ** Examples *)

Definition dq : string := String quoteByte "".

Example canonical_sorted :
  Canonicalize (JObj [("a", JObj [("y", JNum (intToFloat 2)); ("z", JNum (intToFloat 1))]); ("b", JNum (intToFloat 2))]) =
  Some ("{" +:+ dq +:+ "a" +:+ dq +:+ ":{" +:+ dq +:+ "y" +:+ dq +:+ ":2," +:+ dq +:+ "z" +:+ dq +:+ ":1}," +:+ dq +:+ "b" +:+ dq +:+ ":2}").
Proof. vm_compute. reflexivity. Qed.
Example float_forms :
  map (fun s => (f ← ParseFloat s; jsonFloat f)) ["0.1"; "1e21"; "1e20"; "1e-7"; "0.000001"; "123.456"; "-2.5e-10"] =
  map Some ["0.1"; "1e+21"; "100000000000000000000"; "1e-7"; "0.000001"; "123.456"; "-2.5e-10"].
Proof. vm_compute. reflexivity. Qed.
Example epoch : formatRFC3339Nano (719162 * 86400 * 1000000000) = "1970-01-01T00:00:00Z". Proof. vm_compute. reflexivity. Qed.
Example leap_ms : formatRFC3339Nano ((719162 + 11016) * 86400 * 1000000000 + 3723045000000) = "2000-02-29T01:02:03.045Z".
Proof. vm_compute. reflexivity. Qed.
Example year_zero : formatRFC3339Nano (-1000000000) = "0000-12-31T23:59:59Z". Proof. vm_compute. reflexivity. Qed.
Example utf8_cases :
  escapeFrom 0 false (String "195" (String "169" (String "255" (String "226" (String "128" (String "168" "x")))))) =
  String "195" (String "169" "\ufffd\u2028x").
Proof. vm_compute. reflexivity. Qed.

(** ** The canonical encoding can be taken apart

    A scanner of one JSON value: brackets are counted, strings skipped, and it stops at a
    separator on the outermost level.  Every encoded value is passed over whole
    ([scan_encode]), so equal encodings of objects have equal entries, key by key and
    value by value ([object_entries_inj]). *)

(** ** The scanner *)

Inductive scanState := SOut | SIn | SEsc.

Definition isB (b : Z) (c : ascii) : bool := (byteOf c =? b)%Z.
Definition opens (c : ascii) : bool := isB 91 c || isB 123 c.
Definition closes (c : ascii) : bool := isB 93 c || isB 125 c.

(** What is left of the input where [stop], or a closing bracket, is met on level 0. *)
Fixpoint scan (stop : ascii -> bool) (d : nat) (st : scanState) (s : string) : string :=
  match s with
  | EmptyString => EmptyString
  | String c s' =>
      match st with
      | SEsc => scan stop d SIn s'
      | SIn => if isB 34 c then scan stop d SOut s' else if isB 92 c then scan stop d SEsc s' else scan stop d SIn s'
      | SOut =>
          if isB 34 c then scan stop d SIn s'
          else if opens c then scan stop (S d) SOut s'
          else if closes c then match d with O => s | S d' => scan stop d' SOut s' end
          else match d with O => if stop c then s else scan stop O SOut s' | S _ => scan stop d SOut s' end
      end
  end.

(** The scanner passes over [e], whatever follows. *)
Definition passes (stop : ascii -> bool) (e : string) : Prop := forall d t, scan stop d SOut (e +:+ t) = scan stop d SOut t.
(** It passes over it below the outermost level. *)
Definition passesIn (stop : ascii -> bool) (e : string) : Prop := forall d t, scan stop (S d) SOut (e +:+ t) = scan stop (S d) SOut t.

Definition plainByte (c : ascii) : bool := negb (isB 34 c || opens c || closes c || isB 44 c || isB 58 c).

(** The separators the lemmas use: [,] and [:]. *)
Definition separator (stop : ascii -> bool) : Prop := forall c, plainByte c = true -> stop c = false.

Lemma passes_plain stop s : separator stop -> all_bytes plainByte s = true -> passes stop s.
Proof.
  intros Hsep. induction s as [|c s IH]; intros Hp d t; [done|]. cbn in Hp. apply andb_true_iff in Hp as [Hc Hp].
  rewrite app_cons_str. cbn [scan]. pose proof (Hsep c Hc) as Hst. unfold plainByte in Hc. apply negb_true_iff in Hc.
  rewrite !orb_false_iff in Hc. destruct Hc as ((((-> & ->) & ->) & _) & _). rewrite Hst. destruct d; by apply IH.
Qed.

(** ** Strings *)

Lemma scan_escapeAscii stop d c t : (byteOf c <? 128)%Z = true -> scan stop d SIn (escapeAscii c +:+ t) = scan stop d SIn t.
Proof.
  intros Hc. destruct c as [[] [] [] [] [] [] [] []]; try (vm_compute in Hc; discriminate Hc); reflexivity.
Qed.

Lemma scan_high stop d c t : (byteOf c <? 128)%Z = false -> scan stop d SIn (String c t) = scan stop d SIn t.
Proof.
  intros Hc. apply Z.ltb_ge in Hc. cbn [scan]. unfold isB. by rewrite (proj2 (Z.eqb_neq _ 34)), (proj2 (Z.eqb_neq _ 92)) by lia.
Qed.

Lemma scan_lineSep stop d c s esc t : lineSep c s = Some esc -> scan stop d SIn (esc +:+ t) = scan stop d SIn t.
Proof.
  unfold lineSep. destruct s as [|c1 [|c2 s]]; try done. destruct (_ && _ && _) eqn:E; [|done]. intros [= <-].
  apply andb_true_iff in E as [_ E]. apply orb_true_iff in E as [->%Z.eqb_eq| ->%Z.eqb_eq]; reflexivity.
Qed.

(** The next [n] bytes are continuation bytes. *)
Fixpoint contBytes (n : nat) (s : string) : Prop :=
  match n, s with
  | S n', String c s' => (byteOf c <? 128)%Z = false /\ contBytes n' s'
  | _, _ => True
  end.

Lemma inRange_high lo hi c : (128 <= lo)%Z -> inRange lo hi c = true -> (byteOf c <? 128)%Z = false.
Proof. unfold inRange. intros Hlo [H1 _]%andb_true_iff. apply Z.leb_le in H1. apply Z.ltb_ge. lia. Qed.

Lemma runeWidth_cont c s w : runeWidth c s = Some w -> contBytes (w - 1) s.
Proof.
  unfold runeWidth. destruct s as [|c1 s1]; [done|].
  destruct (_ && _); [destruct (inRange 128 191 c1) eqn:E; [|done]; intros [= <-]; cbn; split; [by eapply inRange_high; [|exact E]|done]|].
  destruct s1 as [|c2 s2]; [done|].
  destruct (_ && _).
  { destruct (inRange _ _ c1) eqn:E1; [|done]. destruct (inRange 128 191 c2) eqn:E2; [|done]. intros [= <-]. cbn.
    split_and!; [eapply inRange_high; [|exact E1]; by destruct (_ =? _)%Z|by eapply inRange_high; [|exact E2]|done]. }
  destruct s2 as [|c3 s3]; [done|]. destruct (_ && _); [|done].
  destruct (inRange _ _ c1) eqn:E1; [|done]. destruct (inRange 128 191 c2) eqn:E2; [|done]. destruct (inRange 128 191 c3) eqn:E3; [|done].
  intros [= <-]. cbn.
  split_and!; [eapply inRange_high; [|exact E1]; by destruct (_ =? _)%Z|by eapply inRange_high; [|exact E2]|by eapply inRange_high; [|exact E3]|done].
Qed.

Lemma scan_escape stop d s t : forall n skip, contBytes n s -> scan stop d SIn (escapeFrom n skip s +:+ t) = scan stop d SIn t.
Proof.
  induction s as [|c s IH]; intros n skip Hn; [by destruct n|]. cbn [escapeFrom]. destruct n as [|n].
  - destruct (byteOf c <? 128)%Z eqn:Eb.
    { rewrite app_assoc_str, scan_escapeAscii by done. by apply IH. }
    destruct (runeWidth c s) as [w|] eqn:Ew.
    + apply runeWidth_cont in Ew. destruct (lineSep c s) as [esc|] eqn:Els.
      * rewrite app_assoc_str, (scan_lineSep _ _ _ _ _ _ Els). by apply IH.
      * rewrite app_cons_str, scan_high by done. by apply IH.
    + rewrite app_assoc_str. change (scan stop d SIn ("\ufffd" +:+ (escapeFrom 0 false s +:+ t)) = scan stop d SIn t).
      cbn [scan]. by apply IH.
  - destruct Hn as [Hc Hn]. destruct skip; [by apply IH|]. rewrite app_cons_str, scan_high by done. by apply IH.
Qed.

Lemma passes_string stop s : passes stop (jsonString s).
Proof.
  intros d t. unfold jsonString. rewrite app_cons_str. cbn [scan]. change (isB 34 quoteByte) with true. cbv iota.
  rewrite app_assoc_str, scan_escape by done. rewrite app_cons_str. cbn [scan]. reflexivity.
Qed.

(** ** Numbers *)

Lemma plain_digit c : is_digit c = true -> plainByte c = true.
Proof.
  intros Hd. destruct c as [[] [] [] [] [] [] [] []]; try (vm_compute in Hd; discriminate Hd); reflexivity.
Qed.

Lemma all_bytes_impl (f g : ascii -> bool) s : (forall c, f c = true -> g c = true) -> all_bytes f s = true -> all_bytes g s = true.
Proof. intros Hi. induction s as [|c s IH]; [done|]. cbn. intros [Hc Hs]%andb_true_iff. by rewrite (Hi c Hc), IH. Qed.

Lemma plain_itoa z : all_bytes plainByte (itoa z) = true.
Proof.
  unfold itoa. assert (forall d, all_bytes plainByte (NilZero.string_of_uint d) = true) as Hu.
  { intros d. unfold NilZero.string_of_uint. destruct d; try done; eapply all_bytes_impl; try apply plain_digit; apply uint_digits. }
  destruct (Z.to_int z) as [d|d]; [apply Hu|]. cbn [NilZero.string_of_int all_bytes]. by rewrite Hu.
Qed.

Lemma plain_zeros n : all_bytes plainByte (FormatFloat.zeros n) = true.
Proof. induction n as [|n IH]; [done|]. cbn [FormatFloat.zeros]. by rewrite all_bytes_app, IH. Qed.

Lemma plain_substring s n m : all_bytes plainByte s = true -> all_bytes plainByte (String.substring n m s) = true.
Proof.
  revert n m. induction s as [|c s IH]; intros n m Hs; [by destruct n, m|]. cbn in Hs. apply andb_true_iff in Hs as [Hc Hs].
  destruct n as [|n]; cbn [String.substring]; [|by apply IH]. destruct m as [|m]; [done|]. cbn [all_bytes]. by rewrite Hc, IH.
Qed.

Lemma plain_fmt_f ds dp : all_bytes plainByte ds = true -> all_bytes plainByte (FormatFloat.fmt_f ds dp) = true.
Proof.
  intros Hd. unfold FormatFloat.fmt_f, FormatFloat.take_str, FormatFloat.drop_str.
  destruct (dp <=? 0)%Z; [|destruct (_ <=? dp)%Z]; by rewrite !all_bytes_app, ?plain_zeros, ?plain_substring, ?Hd.
Qed.

Lemma plain_float f s : jsonFloat f = Some s -> all_bytes plainByte s = true.
Proof.
  destruct f as [b|b| |b m e]; try done; cbn [jsonFloat]; intros [= <-]; [by destruct b|].
  rewrite all_bytes_app. apply andb_true_iff. split; [by destruct b|]. unfold json_pos.
  destruct (FormatFloat.num_den _ _) as [n d]. destruct (FormatFloat.shortest _ _ _ _ _ _ _) as [q k].
  set (ds := itoa _). assert (all_bytes plainByte ds = true) as Hds by apply plain_itoa.
  set (dp := if (_ <=? q)%Z then _ else _).
  destruct (_ || _); [|by apply plain_fmt_f]. unfold FormatFloat.take_str, FormatFloat.drop_str.
  rewrite !all_bytes_app. rewrite !andb_true_iff. split_and!.
  - destruct (str_eqb _ ""); [done|]. by rewrite !all_bytes_app, !plain_substring.
  - by destruct (_ <? 0)%Z.
  - apply plain_itoa.
Qed.

(** ** Values *)

(** The loops of [jsonEncode]. *)
Fixpoint encodeList (l : list json) : option (list string) :=
  match l with
  | [] => Some []
  | x :: l' => match jsonEncode x, encodeList l' with Some a, Some b => Some (a :: b) | _, _ => None end
  end.

Definition entry (k a : string) : string := jsonString k +:+ ":" +:+ a.

Fixpoint encodeFields (m : list (string * json)) : option (list (string * string)) :=
  match m with
  | [] => Some []
  | (k, x) :: m' => match jsonEncode x, encodeFields m' with Some a, Some b => Some ((k, a) :: b) | _, _ => None end
  end.

Lemma jsonEncode_arr l : jsonEncode (JArr l) = option_map (fun ss => "[" +:+ joinWith "," ss +:+ "]") (encodeList l).
Proof.
  cbn [jsonEncode]. f_equal.
Qed.

Lemma jsonEncode_obj m : jsonEncode (JObj m) =
  option_map (fun es => "{" +:+ joinWith "," (map (fun e => entry (fst e) (snd e)) es) +:+ "}") (encodeFields m).
Proof.
  cbn [jsonEncode].
  assert ((fix go (m : list (string * json)) : option (list string) :=
            match m with
            | [] => Some []
            | (k, x) :: m' => match jsonEncode x, go m' with Some a, Some b => Some ((jsonString k +:+ ":" +:+ a) :: b) | _, _ => None end
            end) m = option_map (map (fun e => entry (fst e) (snd e))) (encodeFields m)) as ->.
  { induction m as [|[k x] m IH]; [done|]. cbn [encodeFields]. rewrite IH. destruct (jsonEncode x); [|done]. by destruct (encodeFields m). }
  by destruct (encodeFields m).
Qed.

Section Passes.
Context (stop : ascii -> bool) (Hsep : separator stop).

Lemma passesIn_sep c : isB 44 c || isB 58 c = true -> passesIn stop (String c "").
Proof.
  intros Hc d t. rewrite app_cons_str. cbn [scan].
  assert (byteOf c = 44 \/ byteOf c = 58)%Z as Hb by (apply orb_true_iff in Hc as [Hc|Hc]; apply Z.eqb_eq in Hc; auto).
  unfold opens, closes, isB. by destruct Hb as [-> | ->].
Qed.

Lemma passesIn_join ss : Forall (passesIn stop) ss -> passesIn stop (joinWith "," ss).
Proof.
  induction 1 as [|s ss Hs Hss IH]; intros d t; [done|]. cbn [joinWith]. destruct ss as [|s' ss]; [apply Hs|].
  rewrite app_assoc_str, Hs, app_assoc_str. rewrite (passesIn_sep ","%char eq_refl). apply IH.
Qed.

Lemma passes_in e : passes stop e -> passesIn stop e.
Proof. intros He d t. apply He. Qed.

Lemma passesIn_entry k a : passesIn stop a -> passesIn stop (entry k a).
Proof.
  intros Ha d t. unfold entry. rewrite app_assoc_str, passes_string, app_assoc_str.
  rewrite (passesIn_sep ":"%char eq_refl). apply Ha.
Qed.

Lemma passes_bracket o c e : opens o = true -> closes c = true -> passesIn stop e ->
  passes stop (String o "" +:+ e +:+ String c "").
Proof.
  intros Ho Hc He d t. change (String o "" +:+ e +:+ String c "") with (String o (e +:+ String c "")). rewrite app_cons_str. cbn [scan].
  assert (isB 34 o = false) as ->.
  { unfold opens, isB in *. apply orb_true_iff in Ho as [->%Z.eqb_eq| ->%Z.eqb_eq]; done. }
  rewrite Ho, app_assoc_str, He. rewrite app_cons_str. cbn [scan].
  assert (isB 34 c = false /\ opens c = false) as [-> ->].
  { unfold opens, closes, isB in *. apply orb_true_iff in Hc as [->%Z.eqb_eq| ->%Z.eqb_eq]; done. }
  by rewrite Hc.
Qed.

(** Every encoded value is passed over whole. *)
Lemma scan_encode v e : jsonEncode v = Some e -> passes stop e.
Proof.
  revert e. induction v as [|b|f|z|z|s|l IH|m IH] using json_ind'; intros e He.
  1,2,4,5: cbn in He; injection He as <-; apply passes_plain; [done|]; try apply plain_itoa; try done; by destruct b.
  - apply passes_plain; [done|]. by eapply plain_float.
  - cbn in He. injection He as <-. apply passes_string.
  - rewrite jsonEncode_arr in He. destruct (encodeList l) as [ss|] eqn:El; [|done]. injection He as <-.
    apply passes_bracket; [done|done|]. apply passesIn_join. revert ss El. induction IH as [|x l Hx _ IHl]; intros ss; cbn [encodeList]; [by intros [= <-]|].
    destruct (jsonEncode x) as [a|] eqn:Ex; [|done]. destruct (encodeList l) as [b|]; [|done]. intros [= <-].
    constructor; [by apply passes_in, Hx|by apply IHl].
  - rewrite jsonEncode_obj in He. destruct (encodeFields m) as [es|] eqn:Em; [|done]. injection He as <-.
    apply passes_bracket; [done|done|]. apply passesIn_join. revert es Em. induction IH as [|[k x] m Hx _ IHm]; intros es; cbn [encodeFields]; [by intros [= <-]|].
    destruct (jsonEncode x) as [a|] eqn:Ex; [|done]. destruct (encodeFields m) as [b|]; [|done]. intros [= <-].
    constructor; [by apply passesIn_entry, passes_in, Hx|by apply IHm].
Qed.
End Passes.

(** ** Objects *)

Definition comma (c : ascii) : bool := isB 44 c.
Definition colon (c : ascii) : bool := isB 58 c.

Lemma comma_sep : separator comma.
Proof. intros c Hc. unfold plainByte in Hc. apply negb_true_iff in Hc. rewrite !orb_false_iff in Hc. apply Hc. Qed.
Lemma colon_sep : separator colon.
Proof. intros c Hc. unfold plainByte in Hc. apply negb_true_iff in Hc. rewrite !orb_false_iff in Hc. apply Hc. Qed.

(** An entry is passed over on the outermost level too, and its key ends at the colon. *)
Lemma passes_entry k a : passes comma a -> passes comma (entry k a).
Proof.
  intros Ha d t. unfold entry. rewrite app_assoc_str, passes_string, app_assoc_str.
  change (":" +:+ (a +:+ t)) with (String ":"%char (a +:+ t)). cbn [scan].
  change (isB 34 ":"%char) with false. change (opens ":"%char) with false. change (closes ":"%char) with false. change (comma ":"%char) with false.
  destruct d; apply Ha.
Qed.

Lemma prefix_eq (stop : ascii -> bool) e1 e2 c1 c2 t1 t2 : passes stop e1 -> passes stop e2 ->
  (stop c1 || closes c1) = true -> (stop c2 || closes c2) = true -> isB 34 c1 = false -> isB 34 c2 = false ->
  opens c1 = false -> opens c2 = false ->
  e1 +:+ String c1 t1 = e2 +:+ String c2 t2 -> e1 = e2 /\ String c1 t1 = String c2 t2.
Proof.
  intros H1 H2 S1 S2 Q1 Q2 O1 O2 E.
  assert (forall c t, (stop c || closes c) = true -> isB 34 c = false -> opens c = false -> scan stop 0 SOut (String c t) = String c t) as Hstop.
  { intros c t Hs Hq Ho. cbn [scan]. rewrite Hq, Ho. destruct (closes c); [done|]. rewrite orb_false_r in Hs. by rewrite Hs. }
  pose proof (f_equal (scan stop 0 SOut) E) as Hscan. rewrite H1, H2, !Hstop in Hscan by done.
  split; [|done]. rewrite Hscan in E. by apply app_str_inj_r in E.
Qed.

Lemma entry_inj k1 a1 k2 a2 : entry k1 a1 = entry k2 a2 -> jsonString k1 = jsonString k2 /\ a1 = a2.
Proof.
  unfold entry. intros E. change (":" +:+ a1) with (String ":"%char a1) in E. change (":" +:+ a2) with (String ":"%char a2) in E.
  destruct (prefix_eq colon _ _ ":" ":" _ _ (passes_string colon k1) (passes_string colon k2) eq_refl eq_refl eq_refl eq_refl eq_refl eq_refl E) as [Ek Ea].
  split; [done|congruence].
Qed.

Lemma entry_head k a : exists s, entry k a = String quoteByte s.
Proof. unfold entry, jsonString. rewrite app_cons_str. by eexists. Qed.

(** Equal joined entries, up to the closing brace. *)
Lemma join_entries_inj (l1 l2 : list (string * string)) :
  Forall (fun e => passes comma (snd e)) l1 -> Forall (fun e => passes comma (snd e)) l2 ->
  joinWith "," (map (fun e => entry (fst e) (snd e)) l1) +:+ "}" = joinWith "," (map (fun e => entry (fst e) (snd e)) l2) +:+ "}" ->
  Forall2 (fun a b => jsonString (fst a) = jsonString (fst b) /\ snd a = snd b) l1 l2.
Proof.
  assert (forall e l, joinWith "," (map (fun e => entry (fst e) (snd e)) (e :: l)) +:+ "}" =
    entry (fst e) (snd e) +:+ match l with [] => "}" | _ => String ","%char (joinWith "," (map (fun e => entry (fst e) (snd e)) l) +:+ "}") end) as Hun.
  { intros e l. destruct l as [|e' l]; [done|]. cbn [map joinWith]. by rewrite !app_assoc_str. }
  intros H1. revert l2. induction H1 as [|e1 l1 Hp1 H1 IH]; intros l2 H2 E.
  - destruct l2 as [|e2 l2]; [constructor|]. rewrite Hun in E. destruct (entry_head (fst e2) (snd e2)) as [s Hs]. rewrite Hs in E. discriminate E.
  - destruct H2 as [|e2 l2 Hp2 H2].
    { rewrite Hun in E. destruct (entry_head (fst e1) (snd e1)) as [s Hs]. rewrite Hs in E. discriminate E. }
    rewrite !Hun in E.
    set (r1 := match l1 with [] => _ | _ => _ end) in E. set (r2 := match l2 with [] => _ | _ => _ end) in E.
    assert (exists c1 t1, r1 = String c1 t1 /\ (comma c1 || closes c1) = true /\ isB 34 c1 = false /\ opens c1 = false) as (c1 & t1 & E1 & C1 & Q1 & O1)
      by (unfold r1; destruct l1; by eexists _, _).
    assert (exists c2 t2, r2 = String c2 t2 /\ (comma c2 || closes c2) = true /\ isB 34 c2 = false /\ opens c2 = false) as (c2 & t2 & E2 & C2 & Q2 & O2)
      by (unfold r2; destruct l2; by eexists _, _).
    rewrite E1, E2 in E.
    destruct (prefix_eq comma _ _ _ _ _ _ (passes_entry _ _ Hp1) (passes_entry _ _ Hp2) C1 C2 Q1 Q2 O1 O2 E) as [Ee Er].
    constructor; [by apply entry_inj|]. rewrite <- E1, <- E2 in Er. unfold r1, r2 in Er.
    destruct l1 as [|x1 l1], l2 as [|x2 l2]; try discriminate Er; [constructor|]. injection Er as Er. by apply IH.
Qed.

Lemma encodeFields_passes m es : encodeFields m = Some es -> Forall (fun e => passes comma (snd e)) es.
Proof.
  revert es. induction m as [|[k x] m IH]; intros es; cbn [encodeFields]; [by intros [= <-]|].
  destruct (jsonEncode x) as [a|] eqn:Ex; [|done]. destruct (encodeFields m) as [b|]; [|done]. intros [= <-].
  constructor; [by apply (scan_encode comma comma_sep x)|by apply IH].
Qed.

(** Objects with the same encoding have the same keys and encoded values, in order. *)
Lemma object_entries_inj m1 m2 s : jsonEncode (JObj m1) = Some s -> jsonEncode (JObj m2) = Some s ->
  Forall2 (fun a b => jsonString (fst a) = jsonString (fst b) /\ jsonEncode (snd a) = jsonEncode (snd b)) m1 m2.
Proof.
  rewrite !jsonEncode_obj. destruct (encodeFields m1) as [e1|] eqn:E1; [|done]. destruct (encodeFields m2) as [e2|] eqn:E2; [|done].
  cbn [option_map]. intros [= <-] [= E]. symmetry in E.
  pose proof (join_entries_inj e1 e2 (encodeFields_passes _ _ E1) (encodeFields_passes _ _ E2) E) as Hf. clear E.
  revert m1 m2 E1 E2. induction Hf as [|[k1 a1] [k2 a2] e1 e2 [Hk Ha] _ IH]; intros m1 m2 E1 E2.
  - destruct m1 as [|[k x] m1]; [|cbn in E1; by destruct (jsonEncode x), (encodeFields m1)].
    destruct m2 as [|[k x] m2]; [constructor|cbn in E2; by destruct (jsonEncode x), (encodeFields m2)].
  - destruct m1 as [|[k x] m1]; [done|]. destruct m2 as [|[k' x'] m2]; [done|]. cbn [encodeFields] in E1, E2.
    destruct (jsonEncode x) as [a|] eqn:Ex; [|done]. destruct (encodeFields m1) as [b|] eqn:Em; [|done]. injection E1 as -> -> ->.
    destruct (jsonEncode x') as [a'|] eqn:Ex'; [|done]. destruct (encodeFields m2) as [b0|] eqn:Em0; [|done]. injection E2 as -> -> ->.
    constructor; [cbn in *; split; congruence|by apply IH].
Qed.

(** ** Keys *)

(** Printable ASCII but the quote and the backslash. *)
Definition plainKey (k : string) : bool :=
  all_bytes (fun c => ((32 <=? byteOf c) && (byteOf c <? 127))%Z && negb (isB 34 c) && negb (isB 92 c)) k.

Lemma escape_plainKey k : plainKey k = true -> escapeFrom 0 false k = k.
Proof.
  induction k as [|c k IH]; [done|]. unfold plainKey. cbn [all_bytes]. intros [Hc Hk]%andb_true_iff. cbn [escapeFrom].
  assert ((byteOf c <? 128)%Z = true /\ escapeAscii c = String c "") as [-> ->].
  { clear IH Hk. destruct c as [[] [] [] [] [] [] [] []]; try (vm_compute in Hc; discriminate Hc); by split. }
  rewrite app_cons_str, app_nil_l_str. f_equal. by apply IH.
Qed.

Lemma jsonString_key_inj k1 k2 : plainKey k1 = true -> plainKey k2 = true -> jsonString k1 = jsonString k2 -> k1 = k2.
Proof.
  intros H1 H2. unfold jsonString. rewrite !escape_plainKey by done. intros [= E]. by eapply app_str_inj_r.
Qed.

(** Objects with plain keys and the same encoding agree key by key. *)
Lemma object_lookup_inj m1 m2 s k : jsonEncode (JObj m1) = Some s -> jsonEncode (JObj m2) = Some s ->
  Forall (fun e => plainKey (fst e) = true) m1 -> Forall (fun e => plainKey (fst e) = true) m2 ->
  option_map jsonEncode (mget k m1) = option_map jsonEncode (mget k m2).
Proof.
  intros E1 E2. pose proof (object_entries_inj m1 m2 s E1 E2) as Hf. clear E1 E2.
  induction Hf as [|[k1 x1] [k2 x2] m1 m2 [Hk Hx] _ IH]; [done|]. intros P1 P2. inversion P1; subst. inversion P2; subst. cbn in *.
  apply jsonString_key_inj in Hk as ->; [|done|done]. destruct (str_eqb k k2); [cbn; by rewrite Hx|]. by apply IH.
Qed.
