(* ===== verification/HashChain.v ===== *)
(** * The hash chain (internal/plugin/hashchain)

    The signed projection of an event, its canonical bytes, the link hash and the
    pre-store plugin.  [chained] is what verification rebuilds from stored events: the
    links of a history, from the genesis of the collection to its last hash. *)

From stdpp Require Import base list strings.
From Stdlib Require Import ZArith Lia Ascii.
From S2P Require Import Prelude GoMap Json Paths Diff DiffSound Domain Tenant Config Plugin Alias Repo Mapping Numbers Rules Canonical.

Definition Name : string := "hash_chain".
Definition genesisPrefix : string := "letopis:genesis:v1:".
Definition hashScheme : string := "sha256:".

Record Projection := mkProjection {
  pj_Op : string; pj_EntityID : string; pj_Author : string; pj_Source : string;
  pj_TSSource : time; pj_Changes : list Change; pj_Flow : option Flow }.

Definition ProjectionFromEvent (ev : Event) : Projection :=
  mkProjection (ev_Op ev) (ev_EntityID ev) (ev_Author ev) (ev_Source ev) (ev_TSSource ev) (ev_Changes ev) (ev_Flow ev).

(** The draft hands out the planned event's fields. *)
Definition projectionFromDraft (ev : Event) : Projection :=
  mkProjection (ev_Op ev) (ev_EntityID ev) (ev_Author ev) (ev_Source ev) (ev_TSSource ev) (ev_Changes ev) (ev_Flow ev).

(** [if cond { m[k] = v }]. *)
Definition setIf (cond : bool) (k : string) (v : json) (m : list (string * json)) : list (string * json) :=
  if cond then mset k v m else m.

Definition present (s : string) : bool := negb (str_eqb s "").

Definition canonicalChange (c : Change) : json :=
  let m := mset "op" (JStr (opString (ChOp c))) (mset "path" (JStr (Path c)) []) in
  JObj (match ChOp c with
        | OpAdd => mset "new" (New c) m
        | OpRemove => mset "old" (Old c) m
        | _ => mset "new" (New c) (mset "old" (Old c) m)
        end).

Definition canonicalChanges (cs : list Change) : json := JArr (map canonicalChange cs).

Definition canonicalRef (r : FlowRef) : json :=
  JObj (setIf (present (fr_EventID r)) "event_id" (JStr (fr_EventID r))
       (setIf (negb (fr_Version r =? 0)%Z) "version" (JInt64 (fr_Version r))
       (setIf (present (fr_EntityID r)) "entity_id" (JStr (fr_EntityID r))
       (setIf (present (fr_Collection r)) "collection" (JStr (fr_Collection r))
       (setIf (present (fr_ActivityID r)) "activity_id" (JStr (fr_ActivityID r)) []))))).

Definition canonicalFlow (f : Flow) : json :=
  JObj (match fl_CausedBy f with
        | [] => fun m => m
        | refs => mset "caused_by" (JArr (map canonicalRef refs))
        end
       (setIf (present (fl_Step f)) "step" (JStr (fl_Step f))
       (setIf (present (fl_ID f)) "id" (JStr (fl_ID f)) []))).

(** The present fields of the projection. *)
Definition canonicalMap (p : Projection) : json :=
  JObj (match pj_Flow p with Some f => mset "flow" (canonicalFlow f) | None => fun m => m end
       (setIf (negb (pj_TSSource p =? 0)%Z) "ts_source" (JStr (formatRFC3339Nano (msTrunc (pj_TSSource p))))
       (setIf (present (pj_Source p)) "source" (JStr (pj_Source p))
       (setIf (present (pj_Author p)) "author" (JStr (pj_Author p))
       (match pj_Changes p with [] => fun m => m | cs => mset "changes" (canonicalChanges cs) end
       (mset "entity_id" (JStr (pj_EntityID p)) (mset "op" (JStr (pj_Op p)) []))))))).

(** [Canonical]: [None] when a value cannot be encoded. *)
Definition CanonicalBytes (p : Projection) : option string := Canonicalize (canonicalMap p).

Definition Genesis (collection : string) : string := hashScheme +:+ sha256_hex (genesisPrefix +:+ collection).

Definition Hash (prevHash : string) (p : Projection) : option string :=
  match CanonicalBytes p with
  | None => None
  | Some canon => Some (hashScheme +:+ sha256_hex (prevHash +:+ canon))
  end.

Definition lastHash (collection : string) (prev : EntityView) : string :=
  match LastEventView prev with
  | Some ev => match ev_Integrity ev with
               | Some i => if present (it_Hash i) then it_Hash i else Genesis collection
               | None => Genesis collection
               end
  | None => Genesis collection
  end.

Definition hashChain : PreStorePlugin :=
  mkPre Name (fun collection draft prev =>
    let prevHash := lastHash collection prev in
    match Hash prevHash (projectionFromDraft draft) with
    | None => ([], Some (ErrInternal "canonicalize"))
    | Some hash => ([SetIntegrity hash prevHash], None)
    end).

(** ** Verification of a history *)

Inductive chained (collection : string) : list Event -> string -> Prop :=
| chained_nil : chained collection [] (Genesis collection)
| chained_snoc evs prev ev hash :
    chained collection evs prev -> ev_Integrity ev = Some (mkIntegrity hash prev) ->
    Hash prev (ProjectionFromEvent ev) = Some hash -> chained collection (evs ++ [ev]) hash.

(** A signed time, encoded: absent, or to the millisecond. *)
Definition signedTime (t : time) : option string :=
  if (t =? 0)%Z then None else Some (jsonString (formatRFC3339Nano (msTrunc t))).

(** The two events agree on every signed field, as encoded: op, entity, author, source,
    source time, changes and flow. *)
Definition sameSigned (a b : Event) : Prop :=
  jsonString (ev_Op a) = jsonString (ev_Op b) /\ jsonString (ev_EntityID a) = jsonString (ev_EntityID b) /\
  jsonString (ev_Author a) = jsonString (ev_Author b) /\ jsonString (ev_Source a) = jsonString (ev_Source b) /\
  signedTime (ev_TSSource a) = signedTime (ev_TSSource b) /\
  jsonEncode (canonicalChanges (ev_Changes a)) = jsonEncode (canonicalChanges (ev_Changes b)) /\
  option_map (fun f => jsonEncode (canonicalFlow f)) (ev_Flow a) = option_map (fun f => jsonEncode (canonicalFlow f)) (ev_Flow b).

Definition collision : Prop := exists x y : string, x <> y /\ sha256_hex x = sha256_hex y.

(** ** Lengths *)

Lemma round_length (s : list Z) (kw : Z * Z) : length (round s kw) = length s.
Proof. by destruct s as [|a [|b [|c [|d [|e [|f [|g [|h [|]]]]]]]]]. Qed.

Lemma compress_length (h block : list Z) : length h = 8%nat -> length (compress h block) = 8%nat.
Proof.
  intros Hh. unfold compress. rewrite length_map, length_combine.
  assert (forall l s, length (fold_left round l s) = length s) as ->.
  { intros l. induction l as [|kw l IH]; intros s; cbn; [done|]. by rewrite IH, round_length. }
  lia.
Qed.

Lemma sha256_hex_length (s : string) : String.length (sha256_hex s) = 64%nat.
Proof.
  unfold sha256_hex, sha256_bytes. rewrite hex_encode_length.
  set (bl := blocks _ _). clearbody bl.
  assert (length (fold_left compress bl H256) = 8%nat) as Hl.
  { assert (length H256 = 8%nat) as H0 by reflexivity. revert H0. generalize H256 as h.
    induction bl as [|b bl IH]; intros h Hh; cbn; [done|]. apply IH. by apply compress_length. }
  assert (forall l, length (flat_map (be_bytes 4) l) = (4 * length l)%nat) as ->; [|lia].
  intros l. induction l as [|z l IH]; [done|]. cbn [flat_map]. rewrite length_app, IH.
  unfold be_bytes. rewrite length_map, length_rev, length_seq. cbn. lia.
Qed.

Lemma app_str_inj (s s' t t' : string) : String.length s = String.length s' -> s +:+ t = s' +:+ t' -> s = s' /\ t = t'.
Proof.
  revert s'. induction s as [|c s IH]; intros [|c' s'] Hl H; try done.
  rewrite !app_cons_str in H. injection H as -> H. injection Hl as Hl. by destruct (IH s' Hl H) as [-> ->].
Qed.

Lemma scheme_inj (x y : string) : hashScheme +:+ sha256_hex x = hashScheme +:+ sha256_hex y -> x = y \/ collision.
Proof.
  intros [_ H]%app_str_inj; [|done]. destruct (decide (x = y)) as [|Hne]; [by left|right; by exists x, y].
Qed.

Definition linkShaped (h : string) : Prop := exists d, h = hashScheme +:+ d /\ String.length d = 64%nat.

Lemma chained_shape (collection : string) (evs : list Event) (h : string) : chained collection evs h -> linkShaped h.
Proof.
  destruct 1 as [|evs prev ev hash _ _ Hh]; [by eexists; split; [|apply sha256_hex_length]|].
  unfold Hash in Hh. destruct (CanonicalBytes _) as [c|]; [|done].
  exists (sha256_hex (prev +:+ c)). split; [congruence|apply sha256_hex_length].
Qed.

(** Equal links: the same predecessor and the same signed bytes, or a collision. *)
Lemma hash_inj (p1 p2 : string) (pr1 pr2 : Projection) (h : string) :
  linkShaped p1 -> linkShaped p2 -> Hash p1 pr1 = Some h -> Hash p2 pr2 = Some h ->
  (p1 = p2 /\ CanonicalBytes pr1 = CanonicalBytes pr2) \/ collision.
Proof.
  intros (d1 & -> & L1) (d2 & -> & L2). unfold Hash.
  destruct (CanonicalBytes pr1) as [c1|], (CanonicalBytes pr2) as [c2|]; try done. intros E1 E2.
  assert (hashScheme +:+ sha256_hex ((hashScheme +:+ d1) +:+ c1) = hashScheme +:+ sha256_hex ((hashScheme +:+ d2) +:+ c2)) as E by congruence.
  destruct (scheme_inj _ _ E) as [E'|Hc]; [left|by right].
  apply app_str_inj in E' as [-> ->]; [done|]. rewrite !length_app_str, L1, L2. done.
Qed.

Lemma genesis_not_link (collection p : string) (pr : Projection) :
  linkShaped p -> Hash p pr = Some (Genesis collection) -> collision.
Proof.
  intros (d & -> & _). unfold Hash. destruct (CanonicalBytes pr) as [c|]; [|done]. intros E1.
  assert (hashScheme +:+ sha256_hex ((hashScheme +:+ d) +:+ c) = hashScheme +:+ sha256_hex (genesisPrefix +:+ collection)) as E by (unfold Genesis in E1; congruence).
  destruct (scheme_inj _ _ E) as [E'|Hc]; [discriminate E'|done].
Qed.

Lemma chained_inv (collection : string) (evs : list Event) (h : string) :
  chained collection evs h ->
  (evs = [] /\ h = Genesis collection) \/
  (exists evs0 ev prev, evs = evs0 ++ [ev] /\ chained collection evs0 prev /\ Hash prev (ProjectionFromEvent ev) = Some h).
Proof. destruct 1 as [|evs prev ev hash Hc _ Hh]; [by left|right; by exists evs, ev, prev]. Qed.

(** ** The signed bytes determine the signed fields *)

Definition canonicalFields (p : Projection) : list (string * json) :=
  match canonicalMap p with JObj m => m | _ => [] end.

Lemma canonicalFields_plain p : Forall (fun e => plainKey (fst e) = true) (canonicalFields p).
Proof.
  unfold canonicalFields, canonicalMap, setIf.
  destruct (pj_Flow p), (negb (pj_TSSource p =? 0)%Z), (present (pj_Source p)), (present (pj_Author p)), (pj_Changes p);
    repeat apply Forall_mset; done.
Qed.

(** The field under each key. *)
Lemma canonicalFields_get p :
  mget "op" (canonicalFields p) = Some (JStr (pj_Op p)) /\
  mget "entity_id" (canonicalFields p) = Some (JStr (pj_EntityID p)) /\
  mget "author" (canonicalFields p) = (if present (pj_Author p) then Some (JStr (pj_Author p)) else None) /\
  mget "source" (canonicalFields p) = (if present (pj_Source p) then Some (JStr (pj_Source p)) else None) /\
  mget "ts_source" (canonicalFields p) = (if (pj_TSSource p =? 0)%Z then None else Some (JStr (formatRFC3339Nano (msTrunc (pj_TSSource p))))) /\
  mget "changes" (canonicalFields p) = (match pj_Changes p with [] => None | cs => Some (canonicalChanges cs) end) /\
  mget "flow" (canonicalFields p) = option_map canonicalFlow (pj_Flow p).
Proof.
  unfold canonicalFields, canonicalMap, setIf. destruct (pj_TSSource p =? 0)%Z, (present (pj_Source p)), (present (pj_Author p)); cbn [negb].
  all: destruct (pj_Flow p), (pj_Changes p); split_and!; reflexivity.
Qed.

Lemma present_enc a b : option_map jsonEncode (if present a then Some (JStr a) else None) = option_map jsonEncode (if present b then Some (JStr b) else None) ->
  jsonString a = jsonString b.
Proof.
  unfold present. destruct (str_eqb a "") eqn:Ea, (str_eqb b "") eqn:Eb; cbn [negb option_map jsonEncode]; intros E; try congruence.
  apply str_eqb_eq in Ea as ->. by apply str_eqb_eq in Eb as ->.
Qed.

Lemma signed_fields (a b : Event) s : CanonicalBytes (ProjectionFromEvent a) = Some s -> CanonicalBytes (ProjectionFromEvent b) = Some s ->
  sameSigned a b.
Proof.
  intros Ha Hb.
  assert (forall k, option_map jsonEncode (mget k (canonicalFields (ProjectionFromEvent a))) = option_map jsonEncode (mget k (canonicalFields (ProjectionFromEvent b)))) as Hk.
  { intros k. eapply object_lookup_inj; [exact Ha|exact Hb|apply canonicalFields_plain..]. }
  destruct (canonicalFields_get (ProjectionFromEvent a)) as (A1 & A2 & A3 & A4 & A5 & A6 & A7).
  destruct (canonicalFields_get (ProjectionFromEvent b)) as (B1 & B2 & B3 & B4 & B5 & B6 & B7).
  pose proof (Hk "op") as K1. pose proof (Hk "entity_id") as K2. pose proof (Hk "author") as K3. pose proof (Hk "source") as K4.
  pose proof (Hk "ts_source") as K5. pose proof (Hk "changes") as K6. pose proof (Hk "flow") as K7. clear Hk Ha Hb.
  rewrite A1, B1 in K1. rewrite A2, B2 in K2. rewrite A3, B3 in K3. rewrite A4, B4 in K4. rewrite A5, B5 in K5. rewrite A6, B6 in K6. rewrite A7, B7 in K7.
  cbn [ProjectionFromEvent pj_Op pj_EntityID pj_Author pj_Source pj_TSSource pj_Changes pj_Flow] in *.
  unfold sameSigned. cbn [option_map jsonEncode] in K1, K2. split_and!; [congruence|congruence|by apply present_enc|by apply present_enc| | |].
  - unfold signedTime. destruct (ev_TSSource a =? 0)%Z, (ev_TSSource b =? 0)%Z; cbn [option_map jsonEncode] in K5; congruence.
  - destruct (ev_Changes a), (ev_Changes b); cbn [option_map] in K6; congruence.
  - destruct (ev_Flow a), (ev_Flow b); done.
Qed.

(** ** Properties *)


(** The last hash of a chained history, as the plugin reads it. *)
Lemma lastHash_chained (collection : string) (evs : list Event) (h : string) (cur : option CurrentState) :
  chained collection evs h -> lastHash collection (mkEntityView (last evs) cur) = h.
Proof.
  intros Hc. pose proof (chained_shape _ _ _ Hc) as (d & Hd & _). destruct Hc as [|evs prev ev hash _ Hi _]; [done|].
  unfold lastHash. cbn [LastEventView]. rewrite last_snoc, Hi. cbn [it_Hash]. by rewrite Hd.
Qed.

(** Times of at least a millisecond, or absent: what the store keeps of them. *)
Definition storableTime (t : time) : Prop := t = 0%Z \/ (1000000 <= t)%Z.

Lemma canonical_trunc (ev : Event) : storableTime (ev_TSSource ev) ->
  CanonicalBytes (ProjectionFromEvent (truncEvent ev)) = CanonicalBytes (ProjectionFromEvent ev).
Proof.
  intros Ht. unfold CanonicalBytes, ProjectionFromEvent, truncEvent, canonicalMap. cbn.
  assert (msTrunc (msTrunc (ev_TSSource ev)) = msTrunc (ev_TSSource ev)) as ->.
  { unfold msTrunc. by rewrite Z_div_mult_full. }
  assert ((msTrunc (ev_TSSource ev) =? 0)%Z = (ev_TSSource ev =? 0)%Z) as ->; [|done].
  destruct Ht as [->|Ht]; [done|]. unfold msTrunc. pose proof (Z.div_le_mono 1000000 _ 1000000 eq_refl Ht) as Hd.
  rewrite Z_div_same_full in Hd by done. destruct (Z.eqb_spec (ev_TSSource ev / 1000000 * 1000000) 0), (Z.eqb_spec (ev_TSSource ev) 0); lia.
Qed.

(** What the plugin signs is what verification finds.  On a chained history, with the
    plugin enabled, the event that comes out of the pre-store stage, stored under any
    version and storage time and read back from its document, extends the chain: the
    milliseconds BSON keeps and the field order of nested objects do not break a link. *)
Theorem chain_survives_storage (collection : string) (cfg : CollectionConfig) (evs : list Event) (h : string) (ev ev' ev'' : Event)
    (cur : option CurrentState) (counted : list string) (version now : Z) (d : eventDoc) :
  chained collection evs h -> pluginEnabled cfg Name = true -> failMode cfg Name = FailClosed ->
  storableTime (ev_TSSource ev) -> Forall (fun ch => wf_json (Old ch) = true /\ wf_json (New ch) = true) (ev_Changes ev) ->
  RunPreStore (Some (NewHost (W := unit) [hashChain] [] [])) cfg collection ev (mkEntityView (last evs) cur) = (Ok ev', counted) ->
  docReadBack (toEventDoc (stampStored (setVersion ev' version) now)) d -> fromEventDoc d = Ok ev'' ->
  exists h', chained collection (evs ++ [ev'']) h'.
Proof.
  intros Hc Hen Hfm Ht Hwf Hrun Hrb Hfrom.
  cbn [RunPreStore NewHost h_pre runPre] in Hrun. change (pre_Name hashChain) with Name in Hrun. rewrite Hen in Hrun. cbn [negb] in Hrun.
  unfold hashChain in Hrun. cbn [PreStore] in Hrun. rewrite (lastHash_chained _ _ _ cur Hc) in Hrun.
  destruct (Hash h (projectionFromDraft ev)) as [h'|] eqn:Eh.
  2: { rewrite Hfm in Hrun. discriminate Hrun. }
  cbn in Hrun. injection Hrun as <- _. exists h'.
  set (st := stampStored _ now) in Hrb.
  assert (ev_Changes st = ev_Changes ev /\ ev_TSSource st = ev_TSSource ev /\ ev_Integrity st = Some (mkIntegrity h' h) /\
          ProjectionFromEvent st = ProjectionFromEvent ev) as (E1 & E2 & E3 & E4).
  { unfold st, stampStored. by destruct (ev_TSStored _ =? 0)%Z. }
  rewrite (event_read_back st d Hrb) in Hfrom by (by rewrite E1).
  destruct (forallb _ _); [|done]. injection Hfrom as <-.
  apply (chained_snoc collection evs h (truncEvent st) h'); [done|done|].
  unfold Hash. rewrite canonical_trunc by (by rewrite E2). rewrite E4. exact Eh.
Qed.

(** ** Runs *)

Definition ex_unsigned (rid : string) : Event :=
  mkEvent "deal-1" 1 OpCreate "u1" "crm" 1500000 2000000 3000000 "e1" rid [mkChange "m" OpAdd JNull (JObj [("a", JInt64 1); ("b", JStr "x")])] None None None.

Definition ex_hash : string :=
  Eval vm_compute in default "" (Hash (Genesis "crm.deals") (ProjectionFromEvent (ex_unsigned "r1"))).

Definition ex_signed (rid : string) : Event := applyEdit (ex_unsigned rid) (SetIntegrity ex_hash (Genesis "crm.deals")).

Lemma ex_chained (rid : string) : chained "crm.deals" [ex_signed rid] ex_hash.
Proof.
  apply (chained_snoc "crm.deals" [] (Genesis "crm.deals") (ex_signed rid) ex_hash); [constructor|reflexivity|].
  vm_compute. reflexivity.
Qed.


Definition ex_chainCfg : CollectionConfig :=
  WithDefaults (mkConfig "crm.deals" "" 0 (mkRetention "" 0 0) 0 "" (mkOrdering "" 0) [] [(Name, mkPluginConfig true FailClosed None)]).

Definition ex_next : Event :=
  mkEvent "deal-1" 0 OpUpdate "u1" "crm" 1500000 2000000 0 "e2" "" [mkChange "m" OpChange (JObj [("a", JInt64 1); ("b", JStr "x")]) (JInt64 2)] None None None.

Definition ex_linked : Event :=
  match fst (RunPreStore (Some (NewHost (W := unit) [hashChain] [] [])) ex_chainCfg "crm.deals" ex_next (mkEntityView (Some (ex_signed "r1")) None)) with
  | Ok ev => ev | Err _ => ex_next end.

(** The document comes back with the fields of the old value in another order. *)
Definition ex_linkedDoc : eventDoc :=
  mkEventDoc "deal-1" 2 OpUpdate "u1" "crm" 1000000 2000000 9000000 "e2" ""
    [mkChangeDoc "m" "c" (AD [("b", AScal (JStr "x")); ("a", AScal (JInt64 1))]) (AScal (JInt64 2))] None None
    (option_map (fun i => mkIntgDoc (it_Hash i) (it_PrevHash i)) (ev_Integrity ex_linked)).

Lemma chain_survives_storage_witness :
  exists ev'' h', fromEventDoc ex_linkedDoc = Ok ev'' /\ chained "crm.deals" ([ex_signed "r1"] ++ [ev'']) h'.
Proof.
  eexists. 
  destruct (chain_survives_storage "crm.deals" ex_chainCfg [ex_signed "r1"] ex_hash ex_next ex_linked
    (match fromEventDoc ex_linkedDoc with Ok e => e | Err _ => ex_next end) None [] 2 9000001 ex_linkedDoc) as [h' Hc].
  - apply ex_chained.
  - reflexivity.
  - reflexivity.
  - right. vm_compute. discriminate.
  - by repeat constructor.
  - vm_compute. reflexivity.
  - unfold docReadBack. split_and!; try (vm_compute; reflexivity). constructor; [|constructor].
    split_and!; [reflexivity|reflexivity| |].
    + exists (JObj [("a", JInt64 1); ("b", JStr "x")]). split; [reflexivity|].
      eapply decoded_obj with (fs := [("a", AScal (JInt64 1)); ("b", AScal (JStr "x"))]); [|apply Permutation_swap].
      repeat constructor.
    + exists (JInt64 2). split; [reflexivity|by constructor].
  - reflexivity.
  - exists h'. split; [reflexivity|exact Hc].
Defined.

(** Two drafts planned against the same tail are signed with the same previous hash:
    stored one after the other they do not verify as a chain.  The append retry of
    concurrent writers re-reads the version, not the hash. *)
Lemma concurrent_links_fork :
  let second := applyEdit ex_next (SetIntegrity (default "" (Hash ex_hash (ProjectionFromEvent ex_next))) ex_hash) in
  ev_Integrity ex_linked = ev_Integrity second /\
  ~ exists h, chained "crm.deals" [ex_signed "r1"; setVersion ex_linked 2; setVersion second 3] h.
Proof.
  intros second. split; [vm_compute; reflexivity|]. intros [h Hc].
  destruct (chained_inv _ _ _ Hc) as [[Hn _]|(evs0 & ev & prev & E & Hc0 & Hh)]; [done|].
  inversion Hc as [|evs1 prev1 ev1 hash1 Hc1 Hi1 Hh1 E1]; subst.
  change [ex_signed "r1"; setVersion ex_linked 2; setVersion second 3] with ([ex_signed "r1"; setVersion ex_linked 2] ++ [setVersion second 3]) in E1.
  apply app_inj_tail in E1 as [-> ->]. change (ev_Integrity (setVersion second 3)) with (ev_Integrity second) in Hi1.
  assert (prev1 = ex_hash) as -> by (vm_compute in Hi1; by injection Hi1 as _ <-).
  inversion Hc1 as [|evs2 prev2 ev2 hash2 _ Hi2 _ E2]; subst.
  change [ex_signed "r1"; setVersion ex_linked 2] with ([ex_signed "r1"] ++ [setVersion ex_linked 2]) in E2.
  apply app_inj_tail in E2 as [_ ->]. vm_compute in Hi2. discriminate Hi2.
Qed.
