(* ===== verification/Delivery.v ===== *)
(** * Webhook delivery (internal/delivery, internal/domain/dlq.go)

    The retry schedule, the signature and the dispatcher's handling of one task (the SSRF
    guard is in Ssrf.v).  One attempt ([process]) is a function on the world [W] of the receivers, the
    dead-letter sink and the delivery queue; [settle] follows a task through the copies
    its retries publish, until it is delivered, parked or dropped. *)

From stdpp Require Import base list strings.
From Stdlib Require Import ZArith Lia Ascii.
From S2P Require Import Prelude GoMap Json Paths Diff Domain Tenant.

(** ** Tasks and signatures *)

Record TenantRef := mkTenantRef { tr_ID : string; tr_DBURI : string; tr_DBName : string }.

Record Task := mkTask {
  tk_Tenant : TenantRef; tk_DeliveryID : string; tk_RuleID : string; tk_RuleName : string; tk_Collection : string;
  tk_URL : string; tk_SecretRef : string; tk_TimeoutMS : Z; tk_MaxAttempts : Z; tk_Attempt : Z; tk_Body : string }.

Definition signaturePrefix : string := "sha256=".

Definition Sign (secret body : string) : string :=
  signaturePrefix +:+ hex_encode (hmac_sha256 (bytes_of secret) (bytes_of body)).

Record DeadLetter := mkDeadLetter {
  dl_ID : string; dl_RuleID : string; dl_Collection : string; dl_DeliveryID : string; dl_URL : string;
  dl_SecretRef : string; dl_Body : string; dl_Attempts : Z; dl_LastError : string; dl_FailedAt : time }.

(** ** The retry schedule; durations are int64 nanoseconds *)

Definition defaultTimeout : Z := 5000000000.
Definition defaultMaxAttempts : Z := 5.
Definition defaultBackoffBase : Z := 500000000.
Definition defaultBackoffMax : Z := 30000000000.

Record BackoffConfig := mkBackoff { Base : Z; Max : Z }.

Definition nextDelay (attempt : Z) (cfg : BackoffConfig) (jitter : option (Z -> Z)) : Z :=
  let base := if (Base cfg <=? 0)%Z then defaultBackoffBase else Base cfg in
  let maxD := if (Max cfg <=? 0)%Z then defaultBackoffMax else Max cfg in
  let shifted := wrap64 (Z.shiftl base attempt) in
  let d := if ((0 <=? attempt) && (attempt <? 62) && (0 <? shifted) && (shifted <? maxD))%Z then shifted else maxD in
  match jitter with Some j => j d | None => d end.

Record Config := mkDeliveryConfig {
  dc_DefaultTimeout : Z; dc_MaxAttempts : Z; dc_Backoff : BackoffConfig; dc_ReclaimInterval : Z; dc_ReclaimMinIdle : Z }.

Definition orDefault (v d : Z) : Z := if (v <=? 0)%Z then d else v.

Definition withDefaults (c : Config) : Config :=
  mkDeliveryConfig (orDefault (dc_DefaultTimeout c) defaultTimeout) (orDefault (dc_MaxAttempts c) defaultMaxAttempts)
    (mkBackoff (orDefault (Base (dc_Backoff c)) defaultBackoffBase) (orDefault (Max (dc_Backoff c)) defaultBackoffMax))
    (orDefault (dc_ReclaimInterval c) 5000000000) (orDefault (dc_ReclaimMinIdle c) 30000000000).

(** ** The dispatcher *)

(** The outcome of the HTTP exchange: a status, the guard's refusal, or another error. *)
Inductive response := Status (code : Z) | Blocked (msg : string) | TransportError (msg : string).

Definition reasonUnknownSecret : string := "unknown_secret".

(** [http.Client.Do] on the signed request with its timeout, the dead-letter sink and the
    delivery queue. *)
Class DeliveryWorld (W : Type) := {
  PostWebhook : Task -> string -> Z -> W -> response * W;
  SaveDeadLetter : ctx -> DeadLetter -> W -> res err unit * W;
  Requeue : string -> Task -> W -> res err unit * W }.

Inductive deliverErr := SSRFBlocked (msg : string) | Failed (msg : string).

Definition errText (e : deliverErr) : string := match e with SSRFBlocked m => m | Failed m => m end.

Definition taskPrincipal (t : Task) : Principal :=
  mkPrincipal (mkTenant (tr_ID (tk_Tenant t)) (mkDatabase (tr_DBURI (tk_Tenant t)) (tr_DBName (tk_Tenant t)))) (mkAPIKey [] []).

Definition setAttempt (n : Z) (t : Task) : Task :=
  mkTask (tk_Tenant t) (tk_DeliveryID t) (tk_RuleID t) (tk_RuleName t) (tk_Collection t) (tk_URL t) (tk_SecretRef t)
    (tk_TimeoutMS t) (tk_MaxAttempts t) n (tk_Body t).

Section Dispatcher.
Context {W : Type} `{DeliveryWorld W}.
(** [statusText] is [http.StatusText]; [errorText] the text of a
    queue error; [sink] whether a DLQ is wired; [dlqID] and [now]
    the identifier and clock a parked letter takes. *)
Variables (secrets : list (string * string)) (cfg : Config) (sink : bool) (jitter : Z -> Z)
  (statusText : Z -> string) (errorText : err -> string) (dlqID : string) (now : time).

Definition deliver (task : Task) (secret : string) (w : W) : option deliverErr * W :=
  let timeout := if (0 <? tk_TimeoutMS task)%Z then wrap64 (tk_TimeoutMS task * 1000000) else dc_DefaultTimeout cfg in
  match PostWebhook task (Sign secret (tk_Body task)) timeout w with
  | (Status code, w') =>
      (if ((200 <=? code) && (code <? 300))%Z then None else Some (Failed ("webhook returned status " +:+ statusText code)), w')
  | (Blocked m, w') => (Some (SSRFBlocked m), w')
  | (TransportError m, w') => (Some (Failed m), w')
  end.

Definition deadLetter (task : Task) (reason : string) : DeadLetter :=
  mkDeadLetter dlqID (tk_RuleID task) (tk_Collection task) (tk_DeliveryID task) (tk_URL task) (tk_SecretRef task)
    (tk_Body task) (tk_Attempt task) reason now.

Definition toDLQ (task : Task) (reason : string) (w : W) : W :=
  if negb sink then w else snd (SaveDeadLetter (Some (taskPrincipal task)) (deadLetter task reason) w).

(** What becomes of the task after one attempt. *)
Inductive verdict := Delivered | Parked (task : Task) (reason : string) | Retry (delay : Z) (next : Task).

Definition process (task : Task) (w : W) : verdict * W :=
  match mget (tk_SecretRef task) secrets with
  | None => (Parked task reasonUnknownSecret, toDLQ task reasonUnknownSecret w)
  | Some secret =>
      match deliver task secret w with
      | (None, w1) => (Delivered, w1)
      | (Some (SSRFBlocked m), w1) => (Parked task m, toDLQ task m w1)
      | (Some (Failed m), w1) =>
          let maxAttempts := if (tk_MaxAttempts task <=? 0)%Z then dc_MaxAttempts cfg else tk_MaxAttempts task in
          let attemptsMade := wrap64 (tk_Attempt task + 1) in
          if (maxAttempts <=? attemptsMade)%Z then
            let task' := setAttempt attemptsMade task in (Parked task' m, toDLQ task' m w1)
          else (Retry (nextDelay (tk_Attempt task) (dc_Backoff cfg) (Some jitter)) (setAttempt attemptsMade task), w1)
      end
  end.

(** The scheduled re-publish, after its delay; encoding a task cannot fail. *)
Definition publish (task : Task) (w : W) : option string * W :=
  match Requeue (tk_RuleID task) task w with
  | (Ok _, w') => (None, w')
  | (Err e, w') => let reason := "republish_failed: " +:+ errorText e in (Some reason, toDLQ task reason w')
  end.

(** A task followed through its retries; the list holds the tasks posted. *)
Inductive final := SDelivered | SParked (task : Task) (reason : string) | SOutOfFuel.

Fixpoint settle (fuel : nat) (task : Task) (w : W) : final * list Task * W :=
  match fuel with
  | O => (SOutOfFuel, [], w)
  | S fuel' =>
      let posted := match mget (tk_SecretRef task) secrets with Some _ => [task] | None => [] end in
      match process task w with
      | (Delivered, w1) => (SDelivered, posted, w1)
      | (Parked t r, w1) => (SParked t r, posted, w1)
      | (Retry _ next, w1) =>
          match publish next w1 with
          | (Some reason, w2) => (SParked next reason, posted, w2)
          | (None, w2) => let '(f, ps, w3) := settle fuel' next w2 in (f, posted ++ ps, w3)
          end
      end
  end.

(** ** Settling *)

Definition capOf (task : Task) : Z := if (tk_MaxAttempts task <=? 0)%Z then dc_MaxAttempts cfg else tk_MaxAttempts task.

Definition sameDelivery (a b : Task) : Prop :=
  tk_Tenant b = tk_Tenant a /\ tk_DeliveryID b = tk_DeliveryID a /\ tk_RuleID b = tk_RuleID a /\ tk_URL b = tk_URL a /\
  tk_SecretRef b = tk_SecretRef a /\ tk_Body b = tk_Body a /\ tk_MaxAttempts b = tk_MaxAttempts a.

Lemma sameDelivery_trans (a b c : Task) : sameDelivery a b -> sameDelivery b c -> sameDelivery a c.
Proof. unfold sameDelivery. intros H1 H2. destruct_and!. split_and!; congruence. Qed.

Lemma sameDelivery_attempt (n : Z) (t : Task) : sameDelivery t (setAttempt n t).
Proof. by split_and!. Qed.

Lemma process_cases (task : Task) (w : W) :
  (0 <= tk_Attempt task < 2 ^ 63 - 1)%Z ->
  match fst (process task w) with
  | Delivered => True
  | Parked t _ => sameDelivery task t
  | Retry _ next => next = setAttempt (tk_Attempt task + 1) task /\ (tk_Attempt task + 1 < capOf task)%Z /\
      mget (tk_SecretRef task) secrets <> None
  end.
Proof.
  intros Ha. unfold process. destruct (mget (tk_SecretRef task) secrets) as [secret|]; [|by split_and!].
  destruct (deliver task secret w) as [[[m|m]|] w1]; [by split_and!| |done]. fold (capOf task).
  rewrite (wrap64_id (tk_Attempt task + 1)) by lia.
  destruct (Z.leb_spec (capOf task) (tk_Attempt task + 1)); [by split_and!|done].
Qed.

(** The number of attempts left bounds the posts and the fuel needed. *)
Lemma settle_spec (fuel : nat) (task : Task) (w : W) :
  (0 <= tk_Attempt task < 2 ^ 63 - 1)%Z -> (capOf task < 2 ^ 63)%Z -> (capOf task - tk_Attempt task < Z.of_nat fuel)%Z -> (0 < fuel)%nat ->
  let '(f, posted, w') := settle fuel task w in
  match f with SDelivered => True | SParked t _ => sameDelivery task t | SOutOfFuel => False end /\
  (Z.of_nat (length posted) <= Z.max 1 (capOf task - tk_Attempt task))%Z /\
  Forall (sameDelivery task) posted /\
  map tk_Attempt posted = map (fun i => tk_Attempt task + Z.of_nat i)%Z (seq 0 (length posted)).
Proof.
  revert task w. induction fuel as [|fuel IH]; intros task w Ha Hcap Hf Hpos; [lia|]. cbn [settle].
  pose proof (process_cases task w Ha) as Hc. destruct (process task w) as [v w1]. cbn [fst] in Hc.
  set (posted := match mget (tk_SecretRef task) secrets with Some _ => [task] | None => [] end).
  assert (Forall (sameDelivery task) posted /\ (length posted <= 1)%nat /\
          map tk_Attempt posted = map (fun i => tk_Attempt task + Z.of_nat i)%Z (seq 0 (length posted))) as (HF & Hl & Hm).
  { unfold posted. destruct (mget _ _); cbn; split_and!; try lia; try done; [by repeat constructor|by rewrite Z.add_0_r]. }
  destruct v as [|t r|delay next].
  - split_and!; [done|lia|done|done].
  - split_and!; [done|lia|done|done].
  - destruct Hc as (-> & Hlt & Hsec).
    assert (posted = [task]) as Hp by (unfold posted; by destruct (mget _ _)).
    destruct (publish (setAttempt (tk_Attempt task + 1) task) w1) as [[reason|] w2].
    1: { split_and!; [apply sameDelivery_attempt|lia|done|done]. }
    specialize (IH (setAttempt (tk_Attempt task + 1) task) w2).
    assert (capOf (setAttempt (tk_Attempt task + 1) task) = capOf task) as Hcc by done. rewrite Hcc in IH. cbn [tk_Attempt setAttempt] in IH.
    destruct (settle fuel _ w2) as [[f ps] w3]. destruct IH as (H1 & H2 & H3 & H4); [lia|lia|lia|lia|].
    rewrite Hp. cbn [app length map seq]. split_and!.
    + destruct f; [done| |done]. eapply sameDelivery_trans; [apply sameDelivery_attempt|exact H1].
    + lia.
    + constructor; [by split_and!|]. eapply Forall_impl; [exact H3|]. intros t Ht.
      eapply sameDelivery_trans; [apply sameDelivery_attempt|exact Ht].
    + rewrite H4, <- seq_shift, map_map. f_equal; [lia|]. apply map_ext. intros i. lia.
Qed.
End Dispatcher.

(** ** Properties *)


(** C40: The backoff schedule.  Every wait is positive and at most the configured maximum;
    until the doubling leaves int64 it is exactly [min(base * 2^attempt, max)], and full
    jitter only shortens it. *)
Theorem next_delay_spec (attempt : Z) (cfg : BackoffConfig) (jitter : Z -> Z) :
  let base := orDefault (Base cfg) defaultBackoffBase in
  let maxD := orDefault (Max cfg) defaultBackoffMax in
  (0 <= attempt)%Z -> (forall d, 0 < d -> 0 <= jitter d <= d)%Z ->
  (0 < nextDelay attempt cfg None <= maxD)%Z /\
  (0 <= nextDelay attempt cfg (Some jitter) <= nextDelay attempt cfg None)%Z /\
  (attempt < 62 -> base * 2 ^ attempt < 2 ^ 63 -> nextDelay attempt cfg None = Z.min (base * 2 ^ attempt) maxD)%Z.
Proof.
  intros base maxD Ha Hj. unfold nextDelay. fold (orDefault (Base cfg) defaultBackoffBase). fold (orDefault (Max cfg) defaultBackoffMax).
  fold base maxD. set (shifted := wrap64 (Z.shiftl base attempt)).
  assert (0 < maxD)%Z as Hm by (unfold maxD, orDefault; destruct (Z.leb_spec (Max cfg) 0); [done|lia]).
  assert (0 < base)%Z as Hb by (unfold base, orDefault; destruct (Z.leb_spec (Base cfg) 0); [done|lia]).
  set (d := if (_ && _ && _ && _)%bool then shifted else maxD).
  assert (0 < d <= maxD)%Z as Hd.
  { unfold d. destruct (Z.leb_spec 0 attempt), (Z.ltb_spec attempt 62), (Z.ltb_spec 0 shifted), (Z.ltb_spec shifted maxD); cbn; lia. }
  split; [exact Hd|]. split; [apply Hj; lia|]. intros Hlt Hov.
  assert (shifted = base * 2 ^ attempt)%Z as Es.
  { unfold shifted. rewrite Z.shiftl_mul_pow2 by done. apply wrap64_id. nia. }
  unfold d. rewrite Es. assert (0 < base * 2 ^ attempt)%Z by nia.
  destruct (Z.leb_spec 0 attempt), (Z.ltb_spec attempt 62), (Z.ltb_spec 0 (base * 2 ^ attempt)), (Z.ltb_spec (base * 2 ^ attempt) maxD); cbn; lia.
Qed.

(** ** Runs *)

(** A receiver that always answers 500; the world counts posts and saved letters. *)
Definition ex_receiver : DeliveryWorld (nat * list DeadLetter) := {|
  PostWebhook _ _ _ w := (Status 500, (S (fst w), snd w));
  SaveDeadLetter _ dl w := (Ok tt, (fst w, snd w ++ [dl]));
  Requeue _ _ w := (Ok tt, w) |}.

Definition ex_task : Task :=
  mkTask (mkTenantRef "acme" "" "") "dlv_1" "rule_1" "n" "crm.deals" "https://hooks.example" "s1" 0 3 0 "{}".

Definition ex_dcfg : Config := mkDeliveryConfig 0 0 (mkBackoff 0 0) 0 0.


Lemma next_delay_spec_witness :
  nextDelay 5 (mkBackoff 0 0) None = 16000000000%Z /\ nextDelay 6 (mkBackoff 0 0) None = 30000000000%Z /\
  (0 < nextDelay 61 (mkBackoff 0 0) None <= 30000000000)%Z.
Proof.
  destruct (next_delay_spec 5 (mkBackoff 0 0) id) as (_ & _ & H5); [lia|intros; cbn; lia|].
  destruct (next_delay_spec 6 (mkBackoff 0 0) id) as (_ & _ & H6); [lia|intros; cbn; lia|].
  destruct (next_delay_spec 61 (mkBackoff 0 0) id) as (H61 & _ & _); [lia|intros; cbn; lia|].
  split; [exact (H5 eq_refl eq_refl)|]. split; [exact (H6 eq_refl eq_refl)|exact H61].
Defined.

(** Past the overflow the schedule can fall: a base of 2^33 + 1 ns waits 2^31 ns before
    the retry after attempt 31, less than before the retry after attempt 30. *)
Example backoff_wraps :
  nextDelay 30 (mkBackoff (2 ^ 33 + 1) 30000000000) None = 30000000000%Z /\
  nextDelay 31 (mkBackoff (2 ^ 33 + 1) 30000000000) None = 2147483648%Z.
Proof. split; reflexivity. Qed.
