(* ===== verification/Pipeline.v ===== *)
(** * The asynchronous write path (internal/service/pipeline.go, envelope.go, ticket.go,
    backpressure.go, batch_ingest.go, internal/domain/ticket.go, idempotency.go)

    Tickets and their lifecycle, the task envelope, the choice between the synchronous
    path and the queue, receipt deduplication, and the acceptance of a batch.  The ticket
    store, the idempotency store, the queues and the limiter are interfaces on the world
    [W]; fresh identifiers and clock readings are arguments. *)

From stdpp Require Import base list strings.
From Stdlib Require Import ZArith Lia.
From S2P Require Import Prelude GoMap Json Paths Diff DiffSound Domain Tenant Config Alias Repo Plugin Ingest.

(** ** Tickets *)

Definition TicketAccepted : string := "accepted".
Definition TicketProcessing : string := "processing".
Definition TicketStored : string := "stored".
Definition TicketFailed : string := "failed".
Definition TicketPartial : string := "partial".

Definition Terminal (s : string) : bool := str_eqb s TicketStored || str_eqb s TicketFailed || str_eqb s TicketPartial.

Definition CanTransition (from to : string) : bool :=
  if str_eqb from TicketAccepted then str_eqb to TicketProcessing || str_eqb to TicketStored || str_eqb to TicketFailed
  else if str_eqb from TicketProcessing then str_eqb to TicketStored || str_eqb to TicketFailed
  else false.

Record Ticket := mkTicket {
  tck_ID : string; tck_Status : string; tck_Collection : string; tck_EntityID : string; tck_Error : string;
  tck_CreatedAt : time; tck_UpdatedAt : time }.

Class TicketStore (W : Type) := {
  TicketCreate : ctx -> Ticket -> W -> res err unit * W;
  TicketGet : ctx -> string -> W -> res err Ticket;
  TicketSave : ctx -> Ticket -> W -> res err unit * W }.

Section TicketService.
Context {W : Type} `{TicketStore W}.

Definition Open (now : time) (c : ctx) (id collection entityID : string) (w : W) : res err unit * W :=
  TicketCreate c (mkTicket id TicketAccepted collection entityID "" now now) w.

Definition OpenBatch (now : time) (c : ctx) (id status : string) (w : W) : res err unit * W :=
  TicketCreate c (mkTicket id status "" "" "" now now) w.

Definition Mark (now : time) (c : ctx) (id status reason : string) (w : W) : res err unit * W :=
  if str_eqb id "" then (Ok tt, w)
  else
    match TicketGet c id w with
    | Err ErrTicketNotFound => (Ok tt, w)
    | Err e => (Err e, w)
    | Ok t =>
        if str_eqb (tck_Status t) status || negb (CanTransition (tck_Status t) status) then (Ok tt, w)
        else TicketSave c (mkTicket (tck_ID t) status (tck_Collection t) (tck_EntityID t) reason (tck_CreatedAt t) now) w
    end.
End TicketService.

(** ** The envelope *)

Record TenantRef := mkTenantRef { ref_ID : string; ref_DBURI : string; ref_DBName : string }.

Record Task := mkTask {
  task_Tenant : TenantRef; task_Kind : string; task_Mode : string; task_TicketID : string; task_Command : IngestCommand }.

(** [queue.Message]; the payload is the encoded task, opaque to the queue. *)
Record Message (P : Type) := mkMessage { msg_Key : string; msg_Payload : P; msg_Attrs : list (string * string) }.
Arguments mkMessage {P}.
Arguments msg_Key {P}.
Arguments msg_Payload {P}.
Arguments msg_Attrs {P}.

(** [encoding/json] on the envelope. *)
Class TaskCodec (P : Type) := { Encode : Task -> option P; Decode : P -> option Task }.

Definition AttrEventID : string := "event_id".
Definition AttrEnqueuedAt : string := "enq".

Definition ShardKey (tenantID collection entityID : string) : string :=
  tenantID +:+ "|" +:+ collection +:+ "|" +:+ entityID.

Definition ReliabilityStrict : string := "strict".
Definition ReliabilityDurable : string := "durable".
Definition ReliabilityFast : string := "fast".

Definition effectiveMode (override : string) (cfg : option CollectionConfig) : string :=
  if negb (str_eqb override "") then override
  else match cfg with
       | Some cfg => if negb (str_eqb (cfg_ReliabilityMode cfg) "") then cfg_ReliabilityMode cfg else ReliabilityDurable
       | None => ReliabilityDurable
       end.

(** ** Receipt deduplication *)

Record IdempotencyRecord := mkIdemp { id_TicketID : string; id_StatusCode : Z }.

(** [Reserve] answers [None] when the key was free and is now claimed, and the record of
    the first claim when it was held. *)
Class IdempotencyStore (W : Type) := {
  Reserve : ctx -> string -> IdempotencyRecord -> W -> res err (option IdempotencyRecord) * W;
  Release : ctx -> string -> W -> res err unit * W }.

Section Async.
Context {W P : Type} `{TaskCodec P} `{TicketStore W} `{IdempotencyStore W}.
Context `{EventRepository W} `{CurrentRepository W} `{SnapshotRepository W} `{CollectionRepository W}.
Variables grow dcap : nat -> nat.

Abbreviation Queue := (Message P -> W -> res err unit * W).

Record Pipeline := mkPipeline { pl_durable : Queue; pl_fast : option Queue }.

(** [Pipeline.Publish]; [nowNano] is the clock in Unix nanoseconds. *)
Definition Publish (pipe : Pipeline) (nowNano : Z) (mode : string) (task : Task) (w : W) : res err string * W :=
  match Encode task with
  | None => (Err (ErrInternal "encode task"), w)
  | Some payload =>
      let attrs := mset AttrEnqueuedAt (itoa nowNano) [] in
      let attrs := if negb (str_eqb (ic_EventID (task_Command task)) "") then mset AttrEventID (ic_EventID (task_Command task)) attrs else attrs in
      let msg := mkMessage (ShardKey (ref_ID (task_Tenant task)) (ic_Collection (task_Command task)) (ic_EntityID (task_Command task))) payload attrs in
      let '(q, used) :=
        match pl_fast pipe with
        | Some f => if str_eqb mode ReliabilityFast then (f, ReliabilityFast) else (pl_durable pipe, ReliabilityDurable)
        | None => (pl_durable pipe, ReliabilityDurable)
        end in
      match q msg w with
      | (Err e, w') => (Err e, w')
      | (Ok _, w') => (Ok used, w')
      end
  end.

(** [tickets] and [idemp] say whether the collaborator is wired. *)
Record AsyncIngester := mkAsync {
  as_sync : Ingester W; as_pipe : Pipeline; as_tickets : bool; as_idemp : bool;
  as_limiter : option (string -> W -> bool * Z) }.

Definition idempKey (a : AsyncIngester) (cmd : IngestCommand) : option string :=
  if negb (as_idemp a) || str_eqb (ic_EventID cmd) "" then None
  else Some (ic_Collection cmd +:+ "|" +:+ ic_EventID cmd).

Definition tenantRef (p : Principal) : TenantRef :=
  mkTenantRef (t_ID (p_Tenant p)) (db_URI (t_Database (p_Tenant p))) (db_Name (t_Database (p_Tenant p))).

Definition openAndPublish (a : AsyncIngester) (now nowNano : Z) (c : ctx) (ticketID kind mode : string) (p : Principal) (cmd : IngestCommand) (w : W) : res err unit * W :=
  let go w1 :=
    match Publish (as_pipe a) nowNano mode (mkTask (tenantRef p) kind mode ticketID cmd) w1 with
    | (Err e, w2) => (Err e, w2)
    | (Ok _, w2) => (Ok tt, w2)
    end in
  if as_tickets a then
    match Open now c ticketID (ic_Collection cmd) (ic_EntityID cmd) w with
    | (Err e, w1) => (Err e, w1)
    | (Ok _, w1) => go w1
    end
  else go w.

Definition asyncResult (eid ticket : string) (dedup : bool) : IngestResult := mkResult eid 0 0 "" false true ticket dedup.

Definition enqueue (a : AsyncIngester) (ticketID : string) (now nowNano : Z) (c : ctx) (kind mode : string) (cmd : IngestCommand) (w : W) : res err IngestResult * W :=
  match FromContext c with
  | None => (Err ErrNoTenant, w)
  | Some p =>
      let '(allowed, retryAfter) := match as_limiter a with Some l => l mode w | None => (true, 0%Z) end in
      if negb allowed then (Err (ErrBackpressure retryAfter), w)
      else
        let ship (key : option string) (w1 : W) :=
          match openAndPublish a now nowNano c ticketID kind mode p cmd w1 with
          | (Ok _, w2) => (Ok (asyncResult (ic_EntityID cmd) ticketID false), w2)
          | (Err e, w2) => (Err e, match key with Some k => snd (Release c k w2) | None => w2 end)
          end in
        match idempKey a cmd with
        | None => ship None w
        | Some key =>
            match Reserve c key (mkIdemp ticketID 202) w with
            | (Err _, w1) => ship None w1
            | (Ok (Some existing), w1) => (Ok (asyncResult (ic_EntityID cmd) (id_TicketID existing) true), w1)
            | (Ok None, w1) => ship (Some key) w1
            end
        end
  end.

(** [AsyncIngester.dispatch]: [State], [Diff] and [Delete] with their kind. *)
Definition dispatch (a : AsyncIngester) (ticketID : string) (now nowNano : Z) (cr : ConfigResolver) (c : ctx) (kind : string) (cmd : IngestCommand) (w : W) : res err IngestResult * ConfigResolver * W :=
  match EnsureCollection cr now c (ic_Collection cmd) w with
  | (Err e, cr', w1) => (Err e, cr', w1)
  | (Ok cfg, cr', w1) =>
      let mode := effectiveMode (ic_Mode cmd) (Some cfg) in
      if str_eqb mode ReliabilityStrict then applyOne grow dcap (as_sync a) cr' now c kind cmd w1
      else let '(r, w2) := enqueue a ticketID now nowNano c kind mode cmd w1 in (r, cr', w2)
  end.

(** ** Batch acceptance *)

Definition acceptBatchItem (a : AsyncIngester) (receiptID : string) (nowNano : Z) (c : ctx) (kind mode : string) (cmd : IngestCommand) (w : W) : res err bool * W :=
  match FromContext c with
  | None => (Err ErrNoTenant, w)
  | Some p =>
      let ship (key : option string) (w1 : W) :=
        match Publish (as_pipe a) nowNano mode (mkTask (tenantRef p) kind mode "" cmd) w1 with
        | (Ok _, w2) => (Ok false, w2)
        | (Err e, w2) => (Err e, match key with Some k => snd (Release c k w2) | None => w2 end)
        end in
      match idempKey a cmd with
      | None => ship None w
      | Some key =>
          match Reserve c key (mkIdemp receiptID 202) w with
          | (Err _, w1) => ship None w1
          | (Ok (Some _), w1) => (Ok true, w1)
          | (Ok None, w1) => ship (Some key) w1
          end
      end
  end.

Definition writeStrict (a : AsyncIngester) (cr : ConfigResolver) (now : time) (c : ctx) (kind : string) (cmd : IngestCommand) (w : W) : res err IngestResult * ConfigResolver * W :=
  if str_eqb kind KindState then IngestState grow dcap (as_sync a) cr now c cmd w
  else if str_eqb kind KindDiff then IngestDiff grow dcap (as_sync a) cr now c cmd w
  else if str_eqb kind KindDelete then IngestDelete grow dcap (as_sync a) cr now c cmd w
  else (Err (ErrUnknownKind kind), cr, w).

Record BatchEntry := mkEntry { be_Index : Z; be_Kind : string; be_Command : IngestCommand; be_BodySize : Z }.
Record BatchReject := mkReject { rej_Index : Z; rej_Code : string; rej_Message : string }.
Record BatchResult := mkBatchResult { bt_Ticket : string; bt_Accepted : Z; bt_Rejected : list BatchReject }.

Definition mapErr (index : Z) (e : err) : BatchReject :=
  match e with
  | ErrAutoCreateDisabled => mkReject index "collection_not_found" "collection does not exist"
  | ErrInvalidDiff => mkReject index "invalid_diff" "diff does not apply to current state"
  | ErrVersionConflict => mkReject index "version_conflict" "version conflict"
  | ErrQueueUnavailable => mkReject index "unavailable" "queue unavailable, retry later"
  | _ => mkReject index "internal" "internal error"
  end.

Definition accept (a : AsyncIngester) (ticketID : string) (now nowNano : Z) (cr : ConfigResolver) (c : ctx) (e : BatchEntry) (w : W) : option BatchReject * ConfigResolver * W :=
  let cmd := be_Command e in
  match EnsureCollection cr now c (ic_Collection cmd) w with
  | (Err er, cr', w1) => (Some (mapErr (be_Index e) er), cr', w1)
  | (Ok cfg, cr', w1) =>
      let max := if (cfg_MaxEventSizeBytes cfg <=? 0)%Z then DefaultMaxEventSizeBytes else cfg_MaxEventSizeBytes cfg in
      if (max <? be_BodySize e)%Z then (Some (mkReject (be_Index e) "too_large" "event exceeds max_event_size_bytes"), cr', w1)
      else
        let mode := effectiveMode (ic_Mode cmd) (Some cfg) in
        if str_eqb mode ReliabilityStrict then
          match writeStrict a cr' now c (be_Kind e) cmd w1 with
          | (Err er, cr2, w2) => (Some (mapErr (be_Index e) er), cr2, w2)
          | (Ok _, cr2, w2) => (None, cr2, w2)
          end
        else
          match acceptBatchItem a ticketID nowNano c (be_Kind e) mode cmd w1 with
          | (Err er, w2) => (Some (mapErr (be_Index e) er), cr', w2)
          | (Ok _, w2) => (None, cr', w2)
          end
  end.

Fixpoint acceptAll (a : AsyncIngester) (ticketID : string) (now nowNano : Z) (cr : ConfigResolver) (c : ctx) (entries : list BatchEntry) (w : W) : Z * list BatchReject * ConfigResolver * W :=
  match entries with
  | [] => (0%Z, [], cr, w)
  | e :: entries' =>
      let '(rej, cr1, w1) := accept a ticketID now nowNano cr c e w in
      let '(n, rejs, cr2, w2) := acceptAll a ticketID now nowNano cr1 c entries' w1 in
      match rej with
      | None => ((n + 1)%Z, rejs, cr2, w2)
      | Some r => (n, r :: rejs, cr2, w2)
      end
  end.

(** Insertion by index, as [sort.Slice] orders them (stable here; indices are distinct). *)
Fixpoint insertReject (r : BatchReject) (l : list BatchReject) : list BatchReject :=
  match l with
  | [] => [r]
  | x :: l' => if (rej_Index r <=? rej_Index x)%Z then r :: l else x :: insertReject r l'
  end.

Definition sortRejects (l : list BatchReject) : list BatchReject := fold_right insertReject [] l.

Definition BatchIngest (a : AsyncIngester) (ticketID : string) (now nowNano : Z) (cr : ConfigResolver) (c : ctx) (entries : list BatchEntry) (priorRejects : list BatchReject) (modeOverride : string) (w : W) : res err BatchResult * ConfigResolver * W :=
  let gateMode := if str_eqb modeOverride "" then ReliabilityDurable else modeOverride in
  let '(allowed, retryAfter) := match as_limiter a with Some l => l gateMode w | None => (true, 0%Z) end in
  if negb allowed then (Err (ErrBackpressure retryAfter), cr, w)
  else
    let '(n, rejs, cr1, w1) := acceptAll a ticketID now nowNano cr c entries w in
    let rejected := sortRejects (priorRejects ++ rejs) in
    let status := match rejected with [] => TicketAccepted | _ => TicketPartial end in
    let w2 := if as_tickets a then snd (OpenBatch now c ticketID status w1) else w1 in
    (Ok (mkBatchResult ticketID n rejected), cr1, w2).

(** A batch is accounted for: every entry is accepted or rejected once. *)
Lemma acceptAll_count a ticketID now nowNano cr c entries w :
  let '(n, rejs, _, _) := acceptAll a ticketID now nowNano cr c entries w in
  (n + Z.of_nat (length rejs) = Z.of_nat (length entries))%Z /\ (0 <= n)%Z /\
  (forall r, In r rejs -> exists e, In e entries /\ rej_Index r = be_Index e).
Proof.
  revert cr w. induction entries as [|e entries IH]; intros cr w; [by split_and!|]. cbn [acceptAll].
  assert (forall rej cr1 w1, accept a ticketID now nowNano cr c e w = (Some rej, cr1, w1) -> rej_Index rej = be_Index e) as Hidx.
  { assert (forall er, rej_Index (mapErr (be_Index e) er) = be_Index e) as Hm by (by intros []).
    intros rej cr1 w1. unfold accept. destruct (EnsureCollection cr now c _ w) as [[[cfg|er] cr'] w0]; [|by intros [= <- _ _]].
    destruct (_ <? be_BodySize e)%Z; [by intros [= <- _ _]|]. destruct (str_eqb _ ReliabilityStrict).
    - destruct (writeStrict a cr' now c (be_Kind e) (be_Command e) w0) as [[[r|er] cr2] w2]; [done|by intros [= <- _ _]].
    - destruct (acceptBatchItem _ _ _ _ _ _ _ w0) as [[r|er] w2]; [done|by intros [= <- _ _]]. }
  destruct (accept a ticketID now nowNano cr c e w) as [[rej cr1] w1]. specialize (IH cr1 w1).
  destruct (acceptAll a ticketID now nowNano cr1 c entries w1) as [[[n rejs] cr2] w2]. destruct IH as (IH1 & IH2 & IH3).
  destruct rej as [r|]; cbn [length]; (split_and!; [lia|lia|]).
  - intros r' [<-|Hr]; [exists e; split; [by left|by eapply Hidx]|]. destruct (IH3 r' Hr) as (e' & He' & ?). exists e'. split; [by right|done].
  - intros r' Hr. destruct (IH3 r' Hr) as (e' & He' & ?). exists e'. split; [by right|done].
Qed.

Lemma insertReject_in r x l : In x (insertReject r l) <-> x = r \/ In x l.
Proof.
  induction l as [|y l IH]; cbn; [naive_solver|]. destruct (rej_Index r <=? rej_Index y)%Z; cbn; rewrite ?IH; naive_solver.
Qed.

Lemma insertReject_length r l : length (insertReject r l) = S (length l).
Proof. induction l as [|y l IH]; cbn; [done|]. destruct (_ <=? _)%Z; cbn; by rewrite ?IH. Qed.

Lemma sortRejects_spec l : length (sortRejects l) = length l /\ forall x, In x (sortRejects l) <-> In x l.
Proof.
  induction l as [|r l [IH1 IH2]]; [done|]. change (sortRejects (r :: l)) with (insertReject r (sortRejects l)).
  split; [rewrite insertReject_length, IH1; done|].
  intros x. rewrite insertReject_in, IH2. naive_solver.
Qed.
End Async.
