(* ===== verification/PipelineSound.v ===== *)
(** * The asynchronous write path: tickets and receipts

    [TicketLaws] and [IdempotencyLaws] state what the stores promise; the ticket
    lifecycle, receipt deduplication and the accounting of a batch follow. *)

From stdpp Require Import base list strings relations.
From Stdlib Require Import ZArith Lia.
From S2P Require Import Prelude GoMap Json Paths Diff DiffSound Domain Tenant Config Alias Repo Plugin Ingest MemStore Pipeline.

(** ** Laws *)

Class TicketLaws (W : Type) `{TicketStore W} := {
  ticket_id : forall c id w t, TicketGet c id w = Ok t -> tck_ID t = id;
  ticket_saved : forall c t w w', TicketSave c t w = (Ok tt, w') -> TicketGet c (tck_ID t) w' = Ok t;
  ticket_unsaved : forall c t w w' e id, TicketSave c t w = (Err e, w') -> TicketGet c id w' = TicketGet c id w }.

(** [held] is the record under a key that has not expired; [recordable] are the records
    the store can keep as they are. *)
Class IdempotencyLaws (W : Type) `{IdempotencyStore W} := {
  held : W -> ctx -> string -> option IdempotencyRecord;
  recordable : IdempotencyRecord -> bool;
  reserve_free : forall c k r w w', Reserve c k r w = (Ok None, w') -> held w c k = None;
  reserve_claimed : forall c k r w w', recordable r = true -> Reserve c k r w = (Ok None, w') -> held w' c k = Some r;
  reserve_held : forall c k r w w' r0, Reserve c k r w = (Ok (Some r0), w') -> held w c k = Some r0 /\ held w' c k = Some r0;
  release_freed : forall c k w w', Release c k w = (Ok tt, w') -> held w' c k = None }.

(** ** Ticket lifecycle *)

Definition moves (from to : string) : Prop := CanTransition from to = true.

Record markCall := mkMark { mk_now : time; mk_status : string; mk_reason : string }.

Section Tickets.
Context {W : Type} `{TicketLaws W}.

Definition markAll (c : ctx) (id : string) (calls : list markCall) (w : W) : W :=
  fold_left (fun w m => snd (Mark (mk_now m) c id (mk_status m) (mk_reason m) w)) calls w.

Lemma terminal_stuck (s to : string) : Terminal s = true -> CanTransition s to = false.
Proof.
  unfold Terminal. rewrite !orb_true_iff, !str_eqb_eq. by intros [[-> | ->] | ->].
Qed.

Lemma mark_spec now c id status reason w t : TicketGet c id w = Ok t ->
  exists t', TicketGet c id (snd (Mark now c id status reason w)) = Ok t' /\
    (t' = t \/ (moves (tck_Status t) status /\ t' = mkTicket (tck_ID t) status (tck_Collection t) (tck_EntityID t) reason (tck_CreatedAt t) now)).
Proof.
  intros Hg. unfold Mark. destruct (str_eqb id ""); [exists t; by split; [|left]|]. rewrite Hg.
  destruct (str_eqb (tck_Status t) status || negb (CanTransition (tck_Status t) status)) eqn:Ec; [exists t; by split; [|left]|].
  apply orb_false_iff in Ec as [_ Ec%negb_false_iff].
  set (t' := mkTicket _ status _ _ reason _ now). destruct (TicketSave c t' w) as [[[]|e] w'] eqn:Es; cbn [snd].
  - exists t'. split; [|by right]. apply ticket_saved in Es. cbn in Es. by rewrite (ticket_id _ _ _ _ Hg) in Es.
  - exists t. split; [|by left]. by rewrite (ticket_unsaved _ _ _ _ _ id Es).
Qed.
End Tickets.


(** ** Receipt deduplication *)

Section Receipts.
Context {W P : Type} `{TaskCodec P} `{TicketStore W} `{IdempotencyLaws W}.

(** Opening a ticket and publishing leave the reservations alone. *)
Definition receiptsFrame (a : AsyncIngester (W := W) (P := P)) : Prop :=
  (forall c t w c' k, held (snd (TicketCreate c t w)) c' k = held w c' k) /\
  (forall m w c k, held (snd (pl_durable (as_pipe a) m w)) c k = held w c k) /\
  (forall q m w c k, pl_fast (as_pipe a) = Some q -> held (snd (q m w)) c k = held w c k).

Lemma publish_frame a nowNano mode task w c k : receiptsFrame a ->
  held (snd (Publish (as_pipe a) nowNano mode task w)) c k = held w c k.
Proof.
  intros (_ & Hd & Hf). unfold Publish. destruct (Encode task) as [payload|]; [|done].
  set (m := mkMessage _ payload _).
  assert (forall q used, (q = pl_durable (as_pipe a) \/ pl_fast (as_pipe a) = Some q) ->
    held (snd (match q m w with (Err e, w') => (Err (A := string) e, w') | (Ok _, w') => (Ok (E := err) used, w') end)) c k = held w c k) as Hq.
  { intros q used Hq. assert (held (snd (q m w)) c k = held w c k) as E by (destruct Hq as [->|Hq]; [apply Hd|by apply Hf]).
    by destruct (q m w) as [[]]. }
  destruct (pl_fast (as_pipe a)) as [f|] eqn:Ef; [|by apply Hq; left].
  destruct (str_eqb mode ReliabilityFast); apply Hq; [by right|by left].
Qed.

Lemma openAndPublish_frame a now nowNano c ticketID kind mode p cmd w c' k : receiptsFrame a ->
  held (snd (openAndPublish a now nowNano c ticketID kind mode p cmd w)) c' k = held w c' k.
Proof.
  intros Hf. unfold openAndPublish. set (task := mkTask _ _ _ _ _).
  assert (forall w1, held (snd (match Publish (as_pipe a) nowNano mode task w1 with (Err e, w2) => (Err (A := unit) e, w2) | (Ok _, w2) => (Ok (E := err) tt, w2) end)) c' k = held w1 c' k) as Hp.
  { intros w1. pose proof (publish_frame a nowNano mode task w1 c' k Hf) as E. by destruct (Publish _ _ _ _ w1) as [[]]. }
  destruct (as_tickets a); [|apply Hp]. pose proof (proj1 Hf c (mkTicket ticketID TicketAccepted (ic_Collection cmd) (ic_EntityID cmd) "" now now) w c' k) as Et.
  unfold Open. destruct (TicketCreate c _ w) as [[[]|e] w1]; cbn in *; [by rewrite Hp|done].
Qed.
End Receipts.


(** A batch is accounted for.  When the queue gate lets the batch in, every entry is
    either counted as accepted or rejected under its own index, and the prior rejects are
    reported with them: none is dropped and none invented. *)
Theorem batch_accounted {W P : Type} `{TaskCodec P} `{TicketStore W} `{IdempotencyStore W} `{EventRepository W} `{CurrentRepository W}
    `{SnapshotRepository W} `{CollectionRepository W} (grow dcap : nat -> nat) (a : AsyncIngester (W := W) (P := P)) (ticketID : string)
    (now nano : Z) (cr cr' : ConfigResolver) (c : ctx) (entries : list BatchEntry) (prior : list BatchReject) (mode : string) (w w' : W) (r : BatchResult) :
  BatchIngest grow dcap a ticketID now nano cr c entries prior mode w = (Ok r, cr', w') ->
  (bt_Accepted r + Z.of_nat (length (bt_Rejected r)) = Z.of_nat (length entries + length prior))%Z /\ (0 <= bt_Accepted r)%Z /\
  (forall x, In x prior -> In x (bt_Rejected r)) /\
  (forall x, In x (bt_Rejected r) -> In x prior \/ exists e, In e entries /\ rej_Index x = be_Index e).
Proof.
  unfold BatchIngest. destruct (match as_limiter a with Some l => _ | None => _ end) as [[] ra]; cbn [negb]; [|done].
  pose proof (acceptAll_count grow dcap a ticketID now nano cr c entries w) as Hc.
  destruct (acceptAll grow dcap a ticketID now nano cr c entries w) as [[[n rejs] cr1] w1]. destruct Hc as (H1' & H2' & H3').
  intros [= <- _ _]. cbn [bt_Accepted bt_Rejected]. destruct (sortRejects_spec (prior ++ rejs)) as [Hl Hin].
  rewrite Hl, length_app. split_and!; [lia|lia| |].
  - intros x Hx. apply Hin, in_app_iff. by left.
  - intros x Hx. apply Hin, in_app_iff in Hx as [Hx|Hx]; [by left|right; by apply H3'].
Qed.
