(* ===== verification/AsyncMem.v ===== *)
(** * The stores of the asynchronous path in memory

    Tickets, reservations and one queue beside the store of [MemStore.v]: an instance of
    the interfaces of [Pipeline.v] that satisfies their laws, for the witnesses. *)

From stdpp Require Import base list strings relations.
From Stdlib Require Import ZArith Lia.
From S2P Require Import Prelude GoMap Json Paths Diff DiffSound Domain Tenant Config Alias Repo Plugin Ingest MemStore Pipeline PipelineSound.

Record asyncMem := mkAsyncMem {
  am_store : mem; am_tickets : list (string * Ticket); am_keys : list (string * IdempotencyRecord); am_queue : list (Message Task) }.

Definition am0 : asyncMem := mkAsyncMem mem0 [] [] [].

(** Running an operation of the store. *)
Definition onStore {A : Type} (f : mem -> A * mem) (w : asyncMem) : A * asyncMem :=
  let '(r, m) := f (am_store w) in (r, mkAsyncMem m (am_tickets w) (am_keys w) (am_queue w)).

#[export] Instance am_events_repo : EventRepository asyncMem := {
  AppendEvent c coll now ev := onStore (AppendEvent c coll now ev);
  AppendEvents c coll now evs := onStore (AppendEvents c coll now evs);
  LastEvent c coll eid w := LastEvent c coll eid (am_store w);
  ListEvents c coll f w := ListEvents c coll f (am_store w) }.

#[export] Instance am_current_repo : CurrentRepository asyncMem := {
  CurGet c coll eid w := CurGet c coll eid (am_store w);
  CurUpsert c coll st := onStore (CurUpsert c coll st) }.

#[export] Instance am_snap_repo : SnapshotRepository asyncMem := {
  SnapSave c coll sn := onStore (SnapSave c coll sn);
  SnapNearest c coll eid v w := SnapNearest c coll eid v (am_store w) }.

#[export] Instance am_config_repo : CollectionRepository asyncMem := {
  GetConfig c n w := GetConfig c n (am_store w);
  SaveConfig c cfg := onStore (SaveConfig c cfg);
  EnsurePhysical c n := onStore (EnsurePhysical c n) }.

#[export] Instance am_ticket_store : TicketStore asyncMem := {
  TicketCreate c t w := (Ok tt, mkAsyncMem (am_store w) (mset (scope c (tck_ID t)) t (am_tickets w)) (am_keys w) (am_queue w));
  TicketGet c id w := match mget (scope c id) (am_tickets w) with
                      | Some t => if str_eqb (tck_ID t) id then Ok t else Err ErrTicketNotFound
                      | None => Err ErrTicketNotFound
                      end;
  TicketSave c t w := (Ok tt, mkAsyncMem (am_store w) (mset (scope c (tck_ID t)) t (am_tickets w)) (am_keys w) (am_queue w)) }.

#[export] Instance am_ticket_laws : TicketLaws asyncMem.
Proof.
  split.
  - intros c id w t. cbn. destruct (mget _ _) as [t'|]; [|done]. destruct (str_eqb (tck_ID t') id) eqn:E; [|done].
    apply str_eqb_eq in E. by intros [= <-].
  - intros c t w w'. cbn. intros [= <-]. cbn. by rewrite mget_mset_eq, str_eqb_refl.
  - done.
Qed.

#[export] Instance am_idemp_store : IdempotencyStore asyncMem := {
  Reserve c k r w :=
    match mget (scope c k) (am_keys w) with
    | Some r0 => (Ok (Some r0), w)
    | None => (Ok None, mkAsyncMem (am_store w) (am_tickets w) (mset (scope c k) r (am_keys w)) (am_queue w))
    end;
  Release c k w := (Ok tt, mkAsyncMem (am_store w) (am_tickets w) (List.filter (fun e => negb (str_eqb (fst e) (scope c k))) (am_keys w)) (am_queue w)) }.

Lemma dropped_key (s : string) (l : list (string * IdempotencyRecord)) : mget s (List.filter (fun e => negb (str_eqb (fst e) s)) l) = None.
Proof.
  induction l as [|[k' r] l IH]; [done|]. cbn [List.filter fst].
  destruct (str_eqb k' s) eqn:E; cbn [negb mget]; [exact IH|]. apply str_eqb_neq, not_eq_sym, str_eqb_neq in E. by rewrite E.
Qed.

#[export] Instance am_idemp_laws : IdempotencyLaws asyncMem.
Proof.
  refine {| held w c k := mget (scope c k) (am_keys w); recordable _ := true |}; intros c k.
  - intros r w w'. cbn. by destruct (mget (scope c k) (am_keys w)) as [r0|] eqn:E.
  - intros r w w' _. cbn. destruct (mget (scope c k) (am_keys w)) as [r0|] eqn:E; [done|]. intros [= <-]. cbn. by rewrite mget_mset_eq.
  - intros r w w' r0. cbn. destruct (mget (scope c k) (am_keys w)) as [r1|] eqn:E; [|done]. intros Hr. injection Hr as E1 E2. subst. by split.
  - intros w w'. cbn. intros [= <-]. cbn [am_keys]. apply dropped_key.
Defined.

#[export] Instance task_codec : TaskCodec Task := { Encode := Some; Decode := Some }.

Definition am_publish (m : Message Task) (w : asyncMem) : res err unit * asyncMem :=
  (Ok tt, mkAsyncMem (am_store w) (am_tickets w) (am_keys w) (am_queue w ++ [m])).

Definition ex_sync : Ingester asyncMem := mkIngester asyncMem true None None.
Definition ex_async : AsyncIngester (W := asyncMem) (P := Task) := mkAsync ex_sync (mkPipeline am_publish None) true true None.

Definition ex_acmd (eid event_id : string) (mode : string) : IngestCommand :=
  mkCommand "crm.deals" eid "" mode None "u1" "crm" 0 event_id "" "" None (Some [("a", JInt64 1)]) None None.

(** ** Witnesses *)

Definition ex_ticket : Ticket := mkTicket "tkt_1" TicketAccepted "crm.deals" "deal-1" "" 5 5.
Definition ex_tickets : asyncMem := mkAsyncMem mem0 [(scope ex_ctx "tkt_1", ex_ticket)] [] [].



(** One entry written synchronously, one queued, one too large. *)
Lemma batch_accounted_witness :
  let e i cmd size := mkEntry i KindState cmd size in
  match BatchIngest (fun n => (2 * n)%nat) (fun n => n) ex_async "tkt_b" 5 5 (NewConfigResolver true 0) ex_ctx
    [e 0 (ex_acmd "deal-1" "e1" "strict") 10; e 1 (ex_acmd "deal-2" "e2" "") 10; e 2 (ex_acmd "deal-3" "e3" "") 2000000]%Z
    [mkReject 3 "invalid" "no"] "" am0 with
  | (Ok r, _, w') => (bt_Accepted r + Z.of_nat (length (bt_Rejected r)) = 4)%Z /\ map rej_Code (bt_Rejected r) = ["too_large"; "invalid"] /\
      length (am_queue w') = 1%nat /\ length (mem_events (am_store w')) = 1%nat
  | _ => False
  end.
Proof.
  intros e. destruct (BatchIngest _ _ _ _ _ _ _ _ _ _ _ _) as [[[r|er] cr'] w'] eqn:E; [|vm_compute in E; discriminate E].
  destruct (batch_accounted _ _ _ _ _ _ _ _ _ _ _ _ _ _ _ E) as (Hn & _). split; [exact Hn|].
  vm_compute in E. injection E as <- _ <-. split; [reflexivity|]. split; reflexivity.
Defined.
