(* ===== verification/Queue.v ===== *)
(** * The queue port and its in-memory backend (internal/queue/queue.go, memory/memory.go)

    Shard selection by FNV-1a, and the memory queue: a bounded FIFO channel per shard, the
    set of delivered but unacknowledged messages per shard, and reclamation by age.  The
    concurrent API is a labelled step relation: a publish, one hand-over by a subscriber's
    pump, an acknowledgement, a reclamation (whose order is that of a Go map, so any), and
    closing. *)

From stdpp Require Import base list strings gmap.
From Stdlib Require Import ZArith Lia Ascii Permutation.
From S2P Require Import Prelude GoMap Json Paths Diff DiffSound Domain Tenant Config Alias Repo Plugin Ingest Numbers Pipeline.

(** ** Sharding *)

Definition fnvOffset : Z := 2166136261.
Definition fnvPrime : Z := 16777619.

Fixpoint fnv1a (h : Z) (s : string) : Z :=
  match s with
  | EmptyString => h
  | String c s' => fnv1a ((Z.lxor h (byteOf c) * fnvPrime) mod 2 ^ 32)%Z s'
  end.

(** For a count below 2^32, of which [uint32(n)] is [n]. *)
Definition Shard (key : string) (n : Z) : Z :=
  if (n <=? 1)%Z then 0%Z else (fnv1a fnvOffset key mod n)%Z.

Definition StreamName (prefix : string) (shard : Z) : string := prefix +:+ ":" +:+ itoa shard.

(** ** The memory queue *)

Section Memory.
Context {P : Type}.

Record Delivery := mkDelivery { d_Message : Message P; d_ID : string; d_Shard : Z; d_Deliveries : Z }.

Record pending := mkPending { pd_d : Delivery; pd_since : time }.

(** [chans] and [pend] by shard. *)
Record queue := mkQueue {
  q_shards : Z; q_chans : list (list Delivery); q_pend : list (gmap string pending); q_seq : Z; q_closed : bool }.

Definition bufferSize : nat := 1024.

Definition New (shards : Z) : queue :=
  let n := Z.max shards 1 in
  mkQueue n (repeat [] (Z.to_nat n)) (repeat ∅ (Z.to_nat n)) 0 false.

Definition chanOf (q : queue) (sh : Z) : list Delivery := default [] (q_chans q !! Z.to_nat sh).
Definition pendOf (q : queue) (sh : Z) : gmap string pending := default ∅ (q_pend q !! Z.to_nat sh).

Definition setChan (q : queue) (sh : Z) (l : list Delivery) : queue :=
  mkQueue (q_shards q) (<[Z.to_nat sh := l]> (q_chans q)) (q_pend q) (q_seq q) (q_closed q).
Definition setPend (q : queue) (sh : Z) (m : gmap string pending) : queue :=
  mkQueue (q_shards q) (q_chans q) (<[Z.to_nat sh := m]> (q_pend q)) (q_seq q) (q_closed q).

Definition newDelivery (q : queue) (msg : Message P) : Delivery :=
  mkDelivery msg (itoa (q_seq q + 1)) (Shard (msg_Key msg) (q_shards q)) 1.

(** [None]: the buffer is full and the publisher blocks. *)
Definition QPublish (msg : Message P) (q : queue) : option (res err Delivery * queue) :=
  if q_closed q then Some (Err ErrClosed, q)
  else
    let d := newDelivery q msg in
    let q' := mkQueue (q_shards q) (q_chans q) (q_pend q) (q_seq q + 1) (q_closed q) in
    if (length (chanOf q (d_Shard d)) <? bufferSize)%nat
    then Some (Ok d, setChan q' (d_Shard d) (chanOf q (d_Shard d) ++ [d]))
    else None.

(** The subscriber's pump takes the head of its shard and records it before handing it out. *)
Definition QNext (now : time) (sh : Z) (q : queue) : option (Delivery * queue) :=
  match chanOf q sh with
  | [] => None
  | d :: rest =>
      let q1 := setChan q sh rest in
      Some (d, if q_closed q then q1 else setPend q1 sh (<[d_ID d := mkPending d now]> (pendOf q sh)))
  end.

Definition QAck (d : Delivery) (q : queue) : queue := setPend q (d_Shard d) (delete (d_ID d) (pendOf q (d_Shard d))).

Definition bump (now minIdle : time) (p : pending) : pending :=
  if (minIdle <=? now - pd_since p)%Z
  then mkPending (mkDelivery (d_Message (pd_d p)) (d_ID (pd_d p)) (d_Shard (pd_d p)) (d_Deliveries (pd_d p) + 1)) now
  else p.

(** The messages handed out again, in the order of the map's iteration here. *)
Definition QReclaim (now minIdle : time) (sh : Z) (q : queue) : list Delivery * queue :=
  let idle := List.filter (fun e => (minIdle <=? now - pd_since (snd e))%Z) (map_to_list (pendOf q sh)) in
  (map (fun e => pd_d (bump now minIdle (snd e))) idle, setPend q sh (bump now minIdle <$> pendOf q sh)).

Definition Depth (q : queue) : Z :=
  fold_right Z.add 0%Z (map (fun i => Z.of_nat (length (chanOf q (Z.of_nat i))) + Z.of_nat (size (pendOf q (Z.of_nat i))))%Z
    (seq 0 (Z.to_nat (q_shards q)))).

Definition QClose (q : queue) : queue := mkQueue (q_shards q) (q_chans q) (q_pend q) (q_seq q) true.

(** ** Runs *)

Inductive qevent := EPublished (d : Delivery) | ERefused (e : err) | EDelivered (d : Delivery) | EAcked (d : Delivery)
| EReclaimed (sh : Z) (ds : list Delivery) | EClosed.

Inductive qstep : queue -> qevent -> queue -> Prop :=
| qs_publish msg q d q' : QPublish msg q = Some (Ok d, q') -> qstep q (EPublished d) q'
| qs_refuse msg q e q' : QPublish msg q = Some (Err e, q') -> qstep q (ERefused e) q'
| qs_deliver now sh q d q' : (0 <= sh < q_shards q)%Z -> QNext now sh q = Some (d, q') -> qstep q (EDelivered d) q'
| qs_ack d q : (0 <= d_Shard d < q_shards q)%Z -> qstep q (EAcked d) (QAck d q)
| qs_reclaim now minIdle sh q ds ds' q' : (0 <= sh < q_shards q)%Z ->
    QReclaim now minIdle sh q = (ds, q') -> Permutation ds ds' -> qstep q (EReclaimed sh ds') q'
| qs_close q : qstep q EClosed (QClose q).

(** A run from [q], the events oldest first. *)
Inductive qrun (q : queue) : list qevent -> queue -> Prop :=
| qrun_nil : qrun q [] q
| qrun_snoc tr q1 e q2 : qrun q tr q1 -> qstep q1 e q2 -> qrun q (tr ++ [e]) q2.

Definition publishedOn (sh : Z) (tr : list qevent) : list Delivery :=
  flat_map (fun e => match e with EPublished d => if (d_Shard d =? sh)%Z then [d] else [] | _ => [] end) tr.
Definition deliveredOn (sh : Z) (tr : list qevent) : list Delivery :=
  flat_map (fun e => match e with EDelivered d => if (d_Shard d =? sh)%Z then [d] else [] | _ => [] end) tr.

(** ** Invariant *)

Lemma shard_range (key : string) (n : Z) : (1 <= n)%Z -> (0 <= Shard key n < n)%Z.
Proof. intros Hn. unfold Shard. destruct (Z.leb_spec n 1); [lia|]. apply Z.mod_pos_bound. lia. Qed.

Definition inRangeQ (q : queue) (sh : Z) : Prop := (0 <= sh < q_shards q)%Z.

Record qinv (tr : list qevent) (q : queue) : Prop := {
  qi_shards : (1 <= q_shards q)%Z;
  qi_chans : length (q_chans q) = Z.to_nat (q_shards q);
  qi_pend : length (q_pend q) = Z.to_nat (q_shards q);
  qi_home : forall sh d, inRangeQ q sh -> In d (chanOf q sh) -> d_Shard d = sh;
  qi_key : forall d, In (EPublished d) tr -> d_Shard d = Shard (msg_Key (d_Message d)) (q_shards q);
  qi_fifo : forall sh, inRangeQ q sh -> publishedOn sh tr = deliveredOn sh tr ++ chanOf q sh;
  qi_held : ~ In EClosed tr -> q_closed q = false /\ forall sh d, inRangeQ q sh -> In d (deliveredOn sh tr) ->
    is_Some (pendOf q sh !! d_ID d) \/ (exists d', In (EAcked d') tr /\ d_ID d' = d_ID d /\ d_Shard d' = sh);
  qi_pending : forall sh id p, inRangeQ q sh -> pendOf q sh !! id = Some p ->
    exists d, In d (deliveredOn sh tr) /\ d_ID d = id /\ d_Message d = d_Message (pd_d p) /\ d_ID (pd_d p) = id }.

Lemma chanOf_set q sh sh' l : length (q_chans q) = Z.to_nat (q_shards q) -> inRangeQ q sh -> (0 <= sh')%Z ->
  chanOf (setChan q sh l) sh' = if decide (sh' = sh) then l else chanOf q sh'.
Proof.
  intros Hl Hsh Hp. unfold chanOf, setChan, inRangeQ in *. cbn. destruct (decide (sh' = sh)) as [->|Hne].
  - rewrite list_lookup_insert_eq by lia. done.
  - rewrite list_lookup_insert_ne by lia. done.
Qed.

Lemma pendOf_set q sh sh' m : length (q_pend q) = Z.to_nat (q_shards q) -> inRangeQ q sh -> (0 <= sh')%Z ->
  pendOf (setPend q sh m) sh' = if decide (sh' = sh) then m else pendOf q sh'.
Proof.
  intros Hl Hsh Hp. unfold pendOf, setPend, inRangeQ in *. cbn. destruct (decide (sh' = sh)) as [->|Hne].
  - rewrite list_lookup_insert_eq by lia. done.
  - rewrite list_lookup_insert_ne by lia. done.
Qed.

Lemma publishedOn_snoc sh tr e : publishedOn sh (tr ++ [e]) = publishedOn sh tr ++ publishedOn sh [e].
Proof. unfold publishedOn. by rewrite flat_map_app. Qed.
Lemma deliveredOn_snoc sh tr e : deliveredOn sh (tr ++ [e]) = deliveredOn sh tr ++ deliveredOn sh [e].
Proof. unfold deliveredOn. by rewrite flat_map_app. Qed.

Lemma deliveredOn_shard sh tr d : In d (deliveredOn sh tr) -> d_Shard d = sh.
Proof.
  unfold deliveredOn. intros (e & _ & Hd)%in_flat_map. destruct e; try done.
  destruct (Z.eqb_spec (d_Shard d0) sh); [|done]. destruct Hd as [<-|[]]. done.
Qed.

Lemma qinv_new (n : Z) : qinv [] (New n).
Proof.
  assert (forall (A : Type) (x : A) m i, default x (repeat x m !! i) = x) as Hrep.
  { intros A x m i. destruct (repeat x m !! i) as [y|] eqn:E; [|done].
    apply list_elem_of_lookup_2, list_elem_of_In in E. by apply repeat_spec in E. }
  constructor; cbn; try done; try lia; try (by rewrite repeat_length).
  - intros sh d _. unfold chanOf. cbn. by rewrite Hrep.
  - intros sh _. unfold chanOf. cbn. by rewrite Hrep.
  - intros sh id p _. unfold pendOf. cbn. by rewrite Hrep, lookup_empty.
Qed.

(** An acknowledgement seen earlier in the run. *)
Lemma held_mono tr e q q' sh d :
  (is_Some (pendOf q sh !! d_ID d) \/ (exists d', In (EAcked d') tr /\ d_ID d' = d_ID d /\ d_Shard d' = sh)) ->
  (is_Some (pendOf q sh !! d_ID d) -> is_Some (pendOf q' sh !! d_ID d) \/ (exists d', In (EAcked d') (tr ++ [e]) /\ d_ID d' = d_ID d /\ d_Shard d' = sh)) ->
  is_Some (pendOf q' sh !! d_ID d) \/ (exists d', In (EAcked d') (tr ++ [e]) /\ d_ID d' = d_ID d /\ d_Shard d' = sh).
Proof.
  intros [Hp|(d' & Hin & E1 & E2)] Hk; [by apply Hk|]. right. exists d'. split; [apply in_app_iff; by left|done].
Qed.

Lemma no_close tr e : ~ In EClosed (tr ++ [e]) -> ~ In EClosed tr /\ e <> EClosed.
Proof. intros H. split; [intros Hi; apply H, in_app_iff; by left|intros ->; apply H, in_app_iff; right; by left]. Qed.

Lemma qinv_publish tr q msg d q' : qinv tr q -> QPublish msg q = Some (Ok d, q') -> qinv (tr ++ [EPublished d]) q'.
Proof.
  intros [Hs Hc Hp Hh Hk Hf Hd Hpe]. unfold QPublish. destruct (q_closed q) eqn:Ecl; [done|].
  set (d0 := newDelivery q msg). set (q1 := mkQueue (q_shards q) (q_chans q) (q_pend q) (q_seq q + 1) false).
  destruct (_ <? _)%nat; [|done]. intros E.
  assert (d = d0 /\ q' = setChan q1 (d_Shard d0) (chanOf q (d_Shard d0) ++ [d0])) as [-> ->] by (split; congruence). clear E.
  assert (inRangeQ q (d_Shard d0)) as Hr by (apply shard_range; done).
  assert (forall sh, inRangeQ q sh -> chanOf (setChan q1 (d_Shard d0) (chanOf q (d_Shard d0) ++ [d0])) sh =
     if decide (sh = d_Shard d0) then chanOf q (d_Shard d0) ++ [d0] else chanOf q sh) as Hch.
  { intros sh Hsh. rewrite chanOf_set; [done|done|exact Hr|apply Hsh]. }
  constructor; try done.
  - cbn. by rewrite length_insert.
  - intros sh d Hsh. rewrite (Hch sh Hsh). destruct (decide (sh = d_Shard d0)) as [->|]; [|by apply Hh].
    intros [Hin|[<-|[]]]%in_app_iff; [by apply Hh|done].
  - intros d [Hin|[[= <-]|[]]]%in_app_iff; [by apply Hk|done].
  - clearbody d0. intros sh Hsh. rewrite publishedOn_snoc, deliveredOn_snoc, (Hch sh Hsh), (Hf sh Hsh). cbn. rewrite !app_nil_r.
    destruct (decide (sh = d_Shard d0)) as [->|Hne]; [by rewrite Z.eqb_refl, <- app_assoc|].
    destruct (Z.eqb_spec (d_Shard d0) sh); [by subst|]. by rewrite app_nil_r.
  - intros [Hno _]%no_close. destruct (Hd Hno) as [_ Hall]. split; [done|]. intros sh d Hsh Hin.
    rewrite deliveredOn_snoc in Hin. cbn in Hin. rewrite app_nil_r in Hin.
    eapply held_mono; [by apply Hall|]. by left.
  - intros sh id p Hsh Hl. destruct (Hpe sh id p Hsh Hl) as (d & Hin & ?). exists d. split; [|done].
    rewrite deliveredOn_snoc. apply in_app_iff. by left.
Qed.

Lemma qinv_deliver tr q now sh d q' : qinv tr q -> inRangeQ q sh -> QNext now sh q = Some (d, q') -> qinv (tr ++ [EDelivered d]) q'.
Proof.
  intros [Hs Hc Hp Hh Hk Hf Hd Hpe] Hr. unfold QNext. destruct (chanOf q sh) as [|d0 rest] eqn:Ech; [done|]. intros [= <- <-].
  set (q1 := setChan q sh rest). assert (d_Shard d0 = sh) as Hsh0 by (apply Hh; [done|rewrite Ech; by left]).
  set (q2 := if q_closed q then q1 else _).
  assert (q_shards q2 = q_shards q /\ q_closed q2 = q_closed q /\ length (q_chans q2) = length (q_chans q) /\ length (q_pend q2) = length (q_pend q) /\
          q_chans q2 = q_chans q1) as (E1 & E2 & E3 & E4 & E5).
  { unfold q2, q1. destruct (q_closed q) eqn:Ecl; cbn; rewrite ?length_insert; done. }
  assert (forall s, inRangeQ q s -> chanOf q2 s = if decide (s = sh) then rest else chanOf q s) as Hch.
  { intros s Hsr. unfold chanOf. rewrite E5. fold (chanOf q1 s). unfold q1. rewrite chanOf_set; [done|done|done|apply Hsr]. }
  assert (forall s, inRangeQ q s -> pendOf q2 s = if decide (s = sh) then (if q_closed q then pendOf q s else <[d_ID d0 := mkPending d0 now]> (pendOf q s)) else pendOf q s) as Hpo.
  { intros s Hsr. unfold q2. destruct (q_closed q) eqn:Ecl; [by destruct (decide (s = sh))|].
    rewrite (pendOf_set q1 sh s); [by destruct (decide (s = sh)) as [->|]|done|done|apply Hsr]. }
  unfold inRangeQ in *. constructor; rewrite ?E1; try done; try congruence.
  - unfold inRangeQ. rewrite E1. intros s d Hsr. rewrite (Hch s Hsr). destruct (decide (s = sh)) as [->|]; [|by apply Hh].
    intros Hin. apply Hh; [done|rewrite Ech; by right].
  - intros d [Hin|[|[]]]%in_app_iff; [by apply Hk|done].
  - unfold inRangeQ. rewrite E1. intros s Hsr. rewrite publishedOn_snoc, deliveredOn_snoc, (Hf s Hsr), (Hch s Hsr). cbn. rewrite !app_nil_r.
    destruct (decide (s = sh)) as [->|Hne]; [by rewrite Hsh0, Z.eqb_refl, Ech, <- app_assoc|].
    destruct (Z.eqb_spec (d_Shard d0) s); [congruence|]. by rewrite app_nil_r.
  - intros [Hno _]%no_close. destruct (Hd Hno) as [Hcl Hall]. split; [congruence|]. unfold inRangeQ; rewrite E1. intros s d Hsr Hin.
    rewrite deliveredOn_snoc in Hin. apply in_app_iff in Hin as [Hin|Hin].
    + eapply held_mono; [by apply Hall|]. intros Hsome. left. rewrite (Hpo s Hsr), Hcl. destruct (decide (s = sh)); [|done].
      destruct (decide (d_ID d = d_ID d0)) as [->|]; [by rewrite lookup_insert_eq|by rewrite lookup_insert_ne by done].
    + cbn in Hin. destruct (Z.eqb_spec (d_Shard d0) s) as [E|]; [|done]. destruct Hin as [<-|[]]. left.
      rewrite (Hpo s Hsr), Hcl. rewrite decide_True by congruence. by rewrite lookup_insert_eq.
  - unfold inRangeQ. rewrite E1. intros s id p Hsr. rewrite (Hpo s Hsr), deliveredOn_snoc.
    destruct (decide (s = sh)) as [->|].
    + destruct (q_closed q); [intros Hl; destruct (Hpe sh id p Hsr Hl) as (d & Hin & ?); exists d; split; [apply in_app_iff; by left|done]|].
      intros [[<- <-]|[Hne Hl]]%lookup_insert_Some.
      * exists d0. split; [apply in_app_iff; right; cbn; rewrite Hsh0, Z.eqb_refl; by left|done].
      * destruct (Hpe sh id p Hsr Hl) as (d & Hin & ?). exists d. split; [apply in_app_iff; by left|done].
    + intros Hl. destruct (Hpe s id p Hsr Hl) as (d & Hin & ?). exists d. split; [apply in_app_iff; by left|done].
Qed.

(** A step that leaves the channels alone and does not publish or deliver. *)
Lemma qinv_quiet tr q e q' : qinv tr q -> (forall sh, publishedOn sh [e] = [] /\ deliveredOn sh [e] = []) ->
  (forall d, e <> EPublished d) ->
  q_shards q' = q_shards q -> q_chans q' = q_chans q -> length (q_pend q') = length (q_pend q) ->
  (~ In EClosed (tr ++ [e]) -> q_closed q' = q_closed q /\ forall sh d, inRangeQ q sh -> is_Some (pendOf q sh !! d_ID d) ->
     is_Some (pendOf q' sh !! d_ID d) \/ (exists d', In (EAcked d') (tr ++ [e]) /\ d_ID d' = d_ID d /\ d_Shard d' = sh)) ->
  (forall sh id p, inRangeQ q sh -> pendOf q' sh !! id = Some p ->
     exists p0, pendOf q sh !! id = Some p0 /\ d_Message (pd_d p) = d_Message (pd_d p0) /\ d_ID (pd_d p) = d_ID (pd_d p0)) ->
  qinv (tr ++ [e]) q'.
Proof.
  intros [Hs Hc Hp Hh Hk Hf Hd Hpe] He Hnp E1 E2 E3 Hheld Hpend.
  assert (forall sh, chanOf q' sh = chanOf q sh) as Hch by (intros sh; unfold chanOf; by rewrite E2).
  assert (forall sh, deliveredOn sh (tr ++ [e]) = deliveredOn sh tr) as Hdel
    by (intros sh; rewrite deliveredOn_snoc; destruct (He sh) as [_ ->]; apply app_nil_r).
  constructor; unfold inRangeQ; rewrite ?E1, ?E2, ?E3; try done.
  - intros sh d Hsh. rewrite Hch. by apply Hh.
  - intros d [Hin|[Heq|[]]]%in_app_iff; [by apply Hk|]. by apply Hnp in Heq.
  - intros sh Hsh. rewrite publishedOn_snoc, Hdel, Hch. destruct (He sh) as [-> _]. rewrite app_nil_r. by apply Hf.
  - intros Hno. destruct (no_close _ _ Hno) as [Hno' _]. destruct (Hd Hno') as [Hcl Hall]. destruct (Hheld Hno) as [Hcl' Hm].
    split; [congruence|]. intros sh d Hsh Hin. rewrite Hdel in Hin. eapply held_mono; [by apply Hall|]. by apply Hm.
  - intros sh id p Hsh Hl. destruct (Hpend sh id p Hsh Hl) as (p0 & Hl0 & M1 & M2).
    destruct (Hpe sh id p0 Hsh Hl0) as (d & Hin & I1 & I2 & I3). exists d. rewrite Hdel. split_and!; congruence.
Qed.

Lemma qinv_ack tr q d : qinv tr q -> inRangeQ q (d_Shard d) -> qinv (tr ++ [EAcked d]) (QAck d q).
Proof.
  intros Hi Hr. pose proof Hi as [_ _ Hp _ _ _ _ _]. 
  assert (forall sh, (0 <= sh)%Z -> pendOf (QAck d q) sh = if decide (sh = d_Shard d) then delete (d_ID d) (pendOf q (d_Shard d)) else pendOf q sh) as Hpo
    by (intros sh Hsh; unfold QAck; by apply pendOf_set).
  eapply qinv_quiet; try done; cbn; [by rewrite length_insert| |].
  - intros _. split; [done|]. intros sh d1 Hsh Hsome. rewrite (Hpo sh (proj1 Hsh)). destruct (decide (sh = d_Shard d)) as [E|]; [|by left].
    destruct (decide (d_ID d1 = d_ID d)) as [E'|Hne].
    + right. exists d. split; [apply in_app_iff; right; by left|]. split; congruence.
    + left. rewrite lookup_delete_ne by congruence. by rewrite <- E.
  - intros sh id p Hsh. rewrite (Hpo sh (proj1 Hsh)). destruct (decide (sh = d_Shard d)) as [->|]; [|by exists p].
    intros [_ Hl]%lookup_delete_Some. by exists p.
Qed.

Lemma bump_id now minIdle p : d_Message (pd_d (bump now minIdle p)) = d_Message (pd_d p) /\ d_ID (pd_d (bump now minIdle p)) = d_ID (pd_d p).
Proof. unfold bump. by destruct (_ <=? _)%Z. Qed.

Lemma qinv_reclaim tr q now minIdle sh ds ds' q' : qinv tr q -> inRangeQ q sh -> QReclaim now minIdle sh q = (ds, q') ->
  qinv (tr ++ [EReclaimed sh ds']) q'.
Proof.
  intros Hi Hr E. assert (q' = setPend q sh (bump now minIdle <$> pendOf q sh)) as -> by (unfold QReclaim in E; congruence). clear E.
  pose proof Hi as [_ _ Hp _ _ _ _ _].
  assert (forall s, (0 <= s)%Z -> pendOf (setPend q sh (bump now minIdle <$> pendOf q sh)) s =
     if decide (s = sh) then bump now minIdle <$> pendOf q sh else pendOf q s) as Hpo by (intros s Hs; by apply pendOf_set).
  eapply qinv_quiet; try done; cbn; [by rewrite length_insert| |].
  - intros _. split; [done|]. intros s d Hsh [p Hsome]. rewrite (Hpo s (proj1 Hsh)). left.
    destruct (decide (s = sh)) as [->|]; [|by exists p]. rewrite lookup_fmap, Hsome. by eexists.
  - intros s id p Hsh. rewrite (Hpo s (proj1 Hsh)). destruct (decide (s = sh)) as [->|]; [|by exists p].
    rewrite lookup_fmap. intros (p0 & Hl & ->)%fmap_Some. exists p0. split; [done|]. apply bump_id.
Qed.

Lemma qinv_run n tr q : qrun (New n) tr q -> qinv tr q.
Proof.
  induction 1 as [|tr q1 e q2 _ IH Hs]; [apply qinv_new|].
  destruct Hs as [msg q d q' Hp|msg q e q' Hp|now sh q d q' Hr Hn|d q Hr|now minIdle sh q ds ds' q' Hr Hc Hperm|q].
  - by eapply qinv_publish.
  - unfold QPublish in Hp. assert (q' = q) as -> by (destruct (q_closed q); [congruence|by destruct (_ <? _)%nat]).
    eapply qinv_quiet; try done; [intros _; split; [done|by left]|by eauto].
  - by eapply qinv_deliver.
  - by apply qinv_ack.
  - by eapply qinv_reclaim.
  - eapply qinv_quiet; try done; [|by eauto]. intros [_ H]%no_close. done.
Qed.
End Memory.

Arguments Delivery : clear implicits.
Arguments queue : clear implicits.
Arguments qevent : clear implicits.

(** ** Properties *)


(** Publish [a], [b] and [a] again, hand out both messages of [a], acknowledge the first
    and reclaim the second. *)
Definition demoMsg (k : string) (v : Z) : Message Z := mkMessage k v [].

Definition demoPublish (st : list (qevent Z) * queue Z) (k : string) (v : Z) : list (qevent Z) * queue Z :=
  match QPublish (demoMsg k v) st.2 with Some (Ok d, q') => (st.1 ++ [EPublished d], q') | _ => st end.
Definition demoNext (st : list (qevent Z) * queue Z) (sh : Z) : list (qevent Z) * queue Z :=
  match QNext 0%Z sh st.2 with Some (d, q') => (st.1 ++ [EDelivered d], q') | None => st end.

Definition demoBefore : list (qevent Z) * queue Z :=
  let st := demoPublish (demoPublish (demoPublish ([], New 2) "a" 1) "b" 2) "a" 3 in
  demoNext (demoNext st (Shard "a" 2)) (Shard "a" 2).
Definition demoAcked : Delivery Z := mkDelivery (demoMsg "a" 1) "1" (Shard "a" 2) 1.
Definition demoReclaimed : list (Delivery Z) * queue Z := QReclaim 100%Z 50%Z (Shard "a" 2) (QAck demoAcked demoBefore.2).
Definition demoTrace : list (qevent Z) :=
  demoBefore.1 ++ [EAcked demoAcked] ++ [EReclaimed (Shard "a" 2) demoReclaimed.1].

Lemma demo_publish (st : list (qevent Z) * queue Z) k v : qrun (New 2) st.1 st.2 ->
  qrun (New 2) (demoPublish st k v).1 (demoPublish st k v).2.
Proof.
  intros Hr. unfold demoPublish. destruct (QPublish _ _) as [[[d|e] q']|] eqn:E; [|done|done].
  cbn. eapply qrun_snoc; [exact Hr|]. by eapply qs_publish.
Qed.

Lemma demo_next (st : list (qevent Z) * queue Z) sh : (0 <= sh < q_shards st.2)%Z -> qrun (New 2) st.1 st.2 ->
  qrun (New 2) (demoNext st sh).1 (demoNext st sh).2.
Proof.
  intros Hs Hr. unfold demoNext. destruct (QNext _ _ _) as [[d q']|] eqn:E; [|done].
  cbn. eapply qrun_snoc; [exact Hr|]. by eapply qs_deliver.
Qed.

Lemma demo_run : qrun (New 2) demoTrace demoReclaimed.2.
Proof.
  unfold demoTrace. rewrite app_assoc. eapply qrun_snoc; [eapply qrun_snoc|].
  - unfold demoBefore. apply demo_next; [vm_compute; split; congruence|]. apply demo_next; [vm_compute; split; congruence|].
    do 3 apply demo_publish. constructor.
  - apply qs_ack. vm_compute. split; congruence.
  - eapply (qs_reclaim 100%Z 50%Z (Shard "a" 2)); [vm_compute; split; congruence| |reflexivity].
    symmetry. unfold demoReclaimed. apply surjective_pairing.
Qed.

