(* ===== verification/Worker.v ===== *)
(** * The async worker (internal/worker/worker.go, lag.go)

    The consuming side of the pipeline: one delivery is decoded, applied through the
    synchronous ingester under the tenant of its envelope, its ticket moved along, and
    acknowledged when it succeeded or can never succeed.  The queue is that of
    [Queue.v]; the shard loop is a step relation over deliveries and reclaims. *)

From stdpp Require Import base list strings gmap relations.
From Stdlib Require Import ZArith Lia Ascii Permutation.
From S2P Require Import Prelude GoMap Json Paths Diff DiffSound Domain Tenant Config Alias Repo Plugin Ingest Pipeline Numbers Queue.

(** ** Options *)

Record Options := mkOptions { ReclaimInterval : Z; ReclaimMinIdle : Z; QueueName : string }.

Definition withDefaults (o : Options) : Options :=
  mkOptions (if (ReclaimInterval o <=? 0)%Z then 5000000000 else ReclaimInterval o)
            (if (ReclaimMinIdle o <=? 0)%Z then 30000000000 else ReclaimMinIdle o)
            (if str_eqb (QueueName o) "" then "durable" else QueueName o).

(** ** Lag *)

(** [strconv.ParseInt(s, 10, 64)]. *)
Fixpoint digitsFrom (acc : Z) (s : string) : option Z :=
  match s with
  | EmptyString => Some acc
  | String c s' => if is_digit c then digitsFrom (acc * 10 + (byteOf c - 48))%Z s' else None
  end.

Definition ParseInt (s : string) : option Z :=
  let '(neg, u) := cutSign s in
  match u with
  | EmptyString => None
  | _ =>
      match digitsFrom 0 u with
      | Some n =>
          let v := if neg then (- n)%Z else n in
          if ((- 2 ^ 63 <=? v) && (v <? 2 ^ 63))%Z then Some v else None
      | None => None
      end
  end.

(** [time.Time.Sub] saturates at the ends of a 64-bit duration. *)
Definition timeSub (a b : Z) : Z := Z.max (- 2 ^ 63) (Z.min (2 ^ 63 - 1) (a - b)).

(** The lag as a duration in nanoseconds; [Duration.Seconds] is left to the gauge. *)
Definition lagDuration (enqStamp : string) (now : Z) : option Z :=
  if str_eqb enqStamp "" then None
  else
    match ParseInt enqStamp with
    | None => None
    | Some nanos => Some (Z.max (timeSub now nanos) 0)
    end.

(** ** The worker *)

(** [taskPrincipal]: only the database selectors travel in the envelope. *)
Definition taskPrincipal (task : Task) : Principal :=
  mkPrincipal (mkTenant (ref_ID (task_Tenant task)) (mkDatabase (ref_DBURI (task_Tenant task)) (ref_DBName (task_Tenant task)))) (mkAPIKey [] []).

Definition isPermanent (e : err) : bool :=
  match e with ErrPoison _ | ErrInvalidDiff | ErrFailClosed _ => true | _ => false end.

Inductive outcome := Processed | Poison (e : option err) | Retryable (e : err).

Section Worker.
Context {W P : Type} `{TaskCodec P} `{TicketStore W}.
Context `{EventRepository W} `{CurrentRepository W} `{SnapshotRepository W} `{CollectionRepository W}.
Variables grow dcap : nat -> nat.
(** [err.Error()]. *)
Variable errorText : err -> string.

Record Worker := mkWorker {
  wk_ing : Ingester W; wk_tickets : bool; wk_metrics : option (string -> Z -> W -> W); wk_opts : Options }.

Variable wk : Worker.

Definition markTicket (now : time) (c : ctx) (id status reason : string) (w : W) : W :=
  if negb (wk_tickets wk) || str_eqb id "" then w else snd (Mark now c id status reason w).

Definition recordLag (nowNano : Z) (d : Delivery P) (w : W) : W :=
  match wk_metrics wk with
  | None => w
  | Some set =>
      match lagDuration (default "" (mget AttrEnqueuedAt (msg_Attrs (d_Message d)))) nowNano with
      | Some lag => set (QueueName (wk_opts wk)) lag w
      | None => w
      end
  end.

(** The dispatch on the kind. *)
Definition runTask (cr : ConfigResolver) (now : time) (tctx : ctx) (task : Task) (w : W) : res err IngestResult * ConfigResolver * W :=
  if str_eqb (task_Kind task) KindState then IngestState grow dcap (wk_ing wk) cr now tctx (task_Command task) w
  else if str_eqb (task_Kind task) KindDiff then IngestDiff grow dcap (wk_ing wk) cr now tctx (task_Command task) w
  else if str_eqb (task_Kind task) KindDelete then IngestDelete grow dcap (wk_ing wk) cr now tctx (task_Command task) w
  else (Err (ErrPoison (task_Kind task)), cr, w).

Definition process (cr : ConfigResolver) (now : time) (c : ctx) (d : Delivery P) (w : W) : outcome * ConfigResolver * W :=
  match Decode (msg_Payload (d_Message d)) with
  | None => (Poison None, cr, w)
  | Some task =>
      let tctx := NewContext c (taskPrincipal task) in
      let w1 := markTicket now tctx (task_TicketID task) TicketProcessing "" w in
      match runTask cr now tctx task w1 with
      | (Ok _, cr', w2) => (Processed, cr', markTicket now tctx (task_TicketID task) TicketStored "" w2)
      | (Err e, cr', w2) =>
          if isPermanent e then (Poison (Some e), cr', markTicket now tctx (task_TicketID task) TicketFailed (errorText e) w2)
          else (Retryable e, cr', w2)
      end
  end.

(** The whole state of a running worker. *)
Record running := mkRunning { rn_queue : queue P; rn_cfg : ConfigResolver; rn_world : W }.

Definition handle (now nowNano : Z) (c : ctx) (d : Delivery P) (r : running) : running :=
  match process (rn_cfg r) now c d (rn_world r) with
  | (Processed, cr', w') => mkRunning (QAck d (rn_queue r)) cr' (recordLag nowNano d w')
  | (Poison _, cr', w') => mkRunning (QAck d (rn_queue r)) cr' w'
  | (Retryable _, cr', w') => mkRunning (rn_queue r) cr' w'
  end.

Definition handleAll (now nowNano : Z) (c : ctx) (ds : list (Delivery P)) (r : running) : running :=
  fold_left (fun r d => handle now nowNano c d r) ds r.

(** [Worker.reclaim] in one order of the pending map. *)
Definition reclaim (now nowNano : Z) (c : ctx) (sh : Z) (r : running) : running :=
  let '(ds, q') := QReclaim now (ReclaimMinIdle (wk_opts wk)) sh (rn_queue r) in
  handleAll now nowNano c ds (mkRunning q' (rn_cfg r) (rn_world r)).

(** The next delivery of a shard. *)
Definition consume (now nowNano : Z) (c : ctx) (sh : Z) (r : running) : running :=
  match QNext now sh (rn_queue r) with
  | Some (d, q') => handle now nowNano c d (mkRunning q' (rn_cfg r) (rn_world r))
  | None => r
  end.

(** One turn of a shard's loop: a fresh delivery, or a reclaim in any order of the map. *)
Inductive shardStep (c : ctx) (sh : Z) : running -> running -> Prop :=
| ss_delivery now nowNano r d q' :
    QNext now sh (rn_queue r) = Some (d, q') ->
    shardStep c sh r (handle now nowNano c d (mkRunning q' (rn_cfg r) (rn_world r)))
| ss_reclaim now nowNano r ds ds' q' :
    QReclaim now (ReclaimMinIdle (wk_opts wk)) sh (rn_queue r) = (ds, q') -> Permutation ds ds' ->
    shardStep c sh r (handleAll now nowNano c ds' (mkRunning q' (rn_cfg r) (rn_world r))).
End Worker.

Arguments mkWorker {W}.
Arguments wk_ing {W}.
Arguments wk_tickets {W}.
Arguments wk_metrics {W}.
Arguments wk_opts {W}.
Arguments mkRunning {W P}.
Arguments rn_queue {W P}.
Arguments rn_cfg {W P}.
Arguments rn_world {W P}.
