(* ===== verification/WorkerSound.v ===== *)
(** * The worker: settlement, redelivery, and where it goes wrong

    [Effects] is a relation on stores that every storage operation stays in; a write then
    stays in it ([applyOne_effects]).  With it: a delivery is settled (acknowledged, its
    ticket terminal) or left for a reclaim; an event that is in the history is not stored
    again by a redelivery; and three runs that end badly. *)

From stdpp Require Import base list strings gmap relations.
From Stdlib Require Import ZArith Lia Ascii Permutation.
From S2P Require Import Prelude GoMap Json Paths Diff DiffSound Domain Tenant Config Alias Repo Plugin Ingest IngestSound MemStore Pipeline PipelineSound AsyncMem Numbers Queue Worker.

(** ** Relations the storage operations stay in *)

Class Effects {W : Type} `{EventRepository W} `{CurrentRepository W} `{SnapshotRepository W} `{CollectionRepository W} (R : W -> W -> Prop) := {
  ef_refl : forall w, R w w;
  ef_trans : forall w1 w2 w3, R w1 w2 -> R w2 w3 -> R w1 w3;
  ef_append : forall c coll now ev w, R w (snd (AppendEvent c coll now ev w));
  ef_upsert : forall c coll st w, R w (snd (CurUpsert c coll st w));
  ef_snap : forall c coll sn w, R w (snd (SnapSave c coll sn w));
  ef_save : forall c cfg w, R w (snd (SaveConfig c cfg w));
  ef_phys : forall c name w, R w (snd (EnsurePhysical c name w)) }.

(** The best-effort hooks of the ingester stay in it too. *)
Definition hooksIn {W : Type} (R : W -> W -> Prop) (ing : Ingester W) : Prop :=
  (forall f, in_rules ing = Some f -> forall c coll ev w, R w (f c coll ev w)) /\
  (forall h, in_plugins ing = Some h -> Forall (fun p => forall c ev w, R w (PostStore p c ev w)) (h_post h)).

Section Frames.
Context {W : Type} `{EventRepository W} `{CurrentRepository W} `{SnapshotRepository W} `{CollectionRepository W}.
Context (R : W -> W -> Prop) {HR : Effects R}.
Variables grow dcap : nat -> nat.
Implicit Types (w : W) (c : ctx).

Lemma ensure_effects cr now c coll w : R w (snd (EnsureCollection cr now c coll w)).
Proof.
  unfold EnsureCollection. destruct (crGet cr now c coll w) as [[cfg|e] cr']; [apply ef_refl|].
  destruct e; try apply ef_refl. destruct (negb (cr_autoCreate cr')); [apply ef_refl|].
  pose proof (ef_save c (WithDefaults (bareConfig coll)) w) as Hs.
  destruct (SaveConfig c (WithDefaults (bareConfig coll)) w) as [[[]|e] w1]; [|exact Hs].
  pose proof (ef_phys c coll w1) as Hp. destruct (EnsurePhysical c coll w1) as [[[]|e] w2]; cbn in Hs, Hp;
    [destruct (cacheKey c coll)|]; by eapply ef_trans.
Qed.

Lemma hooks_effects ing c cfg coll ev w : hooksIn R ing ->
  R w (RunPostStore (in_plugins ing) c cfg ev (evaluateRules ing c coll ev w)).
Proof.
  intros [Hr Hp]. eapply ef_trans with (w2 := evaluateRules ing c coll ev w).
  - unfold evaluateRules. destruct (in_rules ing) as [f|] eqn:E; [by apply (Hr f)|apply ef_refl].
  - unfold RunPostStore. destruct (in_plugins ing) as [h|]; [|apply ef_refl].
    specialize (Hp h eq_refl). generalize (evaluateRules ing c coll ev w). induction Hp as [|p ps Hp _ IH]; intros w'; cbn; [apply ef_refl|].
    destruct (pluginEnabled cfg (post_Name p)); [|apply IH]. eapply ef_trans; [apply Hp|apply IH].
Qed.

Lemma commit_effects now c cmd ev st deleted w : R w (snd (commitEvent now c cmd ev st deleted w)).
Proof.
  unfold commitEvent. pose proof (ef_append c (ic_Collection cmd) now ev w) as Ha.
  destruct (AppendEvent c (ic_Collection cmd) now ev w) as [[ev'|e] w1]; [|exact Ha]. cbn in Ha.
  set (cs := mkCurrentState _ _ _ _ _). pose proof (ef_upsert c (ic_Collection cmd) cs w1) as Hu.
  destruct (CurUpsert c (ic_Collection cmd) cs w1) as [[[]|e] w2]; by eapply ef_trans.
Qed.

Lemma build_effects b c coll eid v ts st deleted interval w : R w (Build b c coll eid v ts st deleted interval w).
Proof. unfold Build. destruct (_ || _); [apply ef_refl|apply ef_snap]. Qed.

Lemma applyOne_effects ing cr now c kind cmd w : hooksIn R ing ->
  R w (snd (applyOne grow dcap ing cr now c kind cmd w)).
Proof.
  intros Hh. unfold applyOne, prepare. pose proof (ensure_effects cr now c (ic_Collection cmd) w) as He.
  destruct (EnsureCollection cr now c (ic_Collection cmd) w) as [[[cfg|e] cr1] w1]; [|exact He]. cbn in He.
  destruct (load_current c (ic_Collection cmd) (ic_EntityID cmd) w1) as [cur|e]; [|exact He].
  destruct (negb _); [exact He|]. destruct (planEvent _ _ _ _ _ _ _) as [[|ev st deleted]|e]; [exact He| |exact He].
  destruct (preStore _ _ _ _ _ _ _) as [ev1|e]; [|exact He].
  pose proof (commit_effects now c cmd ev1 st deleted w1) as Hc.
  destruct (commitEvent now c cmd ev1 st deleted w1) as [[ev2|e] w2]; cbn in Hc; [|destruct e; by eapply ef_trans].
  cbn [snd]. eapply ef_trans; [exact He|]. eapply ef_trans; [exact Hc|].
  eapply ef_trans; [apply build_effects|]. by apply hooks_effects.
Qed.
End Frames.

(** Tickets are kept apart from the entities. *)
Definition sameTickets {W : Type} `{TicketStore W} (w w' : W) : Prop := forall c id, TicketGet c id w' = TicketGet c id w.

(** A ticket store that is up. *)
Definition ticketsWork {W : Type} `{TicketStore W} : Prop := forall c t w, exists w' : W, TicketSave c t w = (Ok tt, w').

(** ** Settlement *)

Section Settle.
Context {W P : Type} `{TaskCodec P} `{TicketLaws W}.
Context `{EventRepository W} `{CurrentRepository W} `{SnapshotRepository W} `{CollectionRepository W}.
Context {TF : Effects (W := W) sameTickets}.
Variables grow dcap : nat -> nat.
Variable errorText : err -> string.
Variable wk : Worker (W := W).
Implicit Types (w : W) (c : ctx).

Lemma mark_to now c id status reason w t : ticketsWork -> id <> "" -> TicketGet c id w = Ok t ->
  CanTransition (tck_Status t) status = true \/ tck_Status t = status ->
  exists t', TicketGet c id (snd (Mark now c id status reason w)) = Ok t' /\ tck_Status t' = status /\
    (tck_Status t <> status -> tck_Error t' = reason).
Proof.
  intros Hw Hid Hg Hc. unfold Mark. apply str_eqb_neq in Hid as ->. rewrite Hg.
  destruct (str_eqb (tck_Status t) status) eqn:Es; cbn [orb].
  { apply str_eqb_eq in Es. exists t. split_and!; [done|done|]. by intros []. }
  apply str_eqb_neq in Es. destruct Hc as [Hc|]; [|done]. rewrite Hc. cbn [negb].
  set (t' := mkTicket _ status _ _ reason _ now). destruct (Hw c t' w) as [w' Hs]. rewrite Hs. cbn [snd].
  exists t'. split_and!; [|done|done]. apply ticket_saved in Hs. cbn in Hs. by rewrite (ticket_id _ _ _ _ Hg) in Hs.
Qed.

Lemma runTask_effects (R : W -> W -> Prop) {HR : Effects R} cr now c task w : hooksIn R (wk_ing wk) ->
  R w (snd (runTask grow dcap wk cr now c task w)).
Proof.
  intros Hh. unfold runTask, IngestState, IngestDiff, IngestDelete.
  destruct (str_eqb _ KindState); [by apply applyOne_effects|]. destruct (str_eqb _ KindDiff); [by apply applyOne_effects|].
  destruct (str_eqb _ KindDelete); [by apply applyOne_effects|]. apply ef_refl.
Qed.

End Settle.

Definition activeStatus (s : string) : Prop := s = TicketAccepted \/ s = TicketProcessing.

(** What [handle] leaves of a delivery that was pending as [p]. *)
Definition settled {P : Type} (d : Delivery P) (p : pending) (q q' : queue P) (acked : bool) : Prop :=
  if acked then pendOf q' (d_Shard d) !! d_ID d = None
  else q' = q /\ forall now minIdle, (minIdle <= now - pd_since p)%Z ->
    exists d', In d' (fst (QReclaim now minIdle (d_Shard d) q')) /\
      d_Message d' = d_Message (pd_d p) /\ d_Deliveries d' = (d_Deliveries (pd_d p) + 1)%Z.

Lemma reclaim_finds {P : Type} now minIdle sh (q : queue P) id p : (minIdle <= now - pd_since p)%Z ->
  pendOf q sh !! id = Some p -> In (pd_d (bump now minIdle p)) (fst (QReclaim now minIdle sh q)).
Proof.
  intros Hi Hl. unfold QReclaim. cbn [fst]. apply in_map_iff. exists (id, p). split; [done|].
  apply filter_In. split; [by apply list_elem_of_In, elem_of_map_to_list|]. by apply Z.leb_le.
Qed.

Lemma settled_ack {P : Type} (d : Delivery P) p (q : queue P) : inRangeQ q (d_Shard d) ->
  length (q_pend q) = Z.to_nat (q_shards q) -> settled d p q (QAck d q) true.
Proof.
  intros Hr Hl. unfold settled, QAck. rewrite (pendOf_set q _ _ _ Hl Hr (proj1 Hr)), decide_True by done. apply lookup_delete_eq.
Qed.

Lemma settled_keep {P : Type} (d : Delivery P) p (q : queue P) : pendOf q (d_Shard d) !! d_ID d = Some p -> settled d p q q false.
Proof.
  intros Hp. split; [done|]. intros now minIdle Hi. exists (pd_d (bump now minIdle p)).
  split; [by eapply reclaim_finds|]. unfold bump. apply Z.leb_le in Hi. by rewrite Hi.
Qed.

(** C10: The worker settles what it handles.  With a ticket store that is up and hooks that
    leave tickets alone, one [handle] of a pending delivery ends in one of three ways, told
    by the ingester's answer: the write succeeded, the delivery is acknowledged and the
    ticket is stored; it failed for good (undecodable kind, unapplicable diff, fail-closed
    plugin), the delivery is acknowledged and the ticket is failed with the error's text;
    or it failed otherwise, the ticket stays in processing, the queue is unchanged and the
    next reclaim hands the same message out again, counted once more. *)
Theorem worker_settles {W P : Type} `{TaskCodec P} `{TicketLaws W} `{EventRepository W} `{CurrentRepository W}
    `{SnapshotRepository W} `{CollectionRepository W} {TF : Effects (W := W) sameTickets}
    (grow dcap : nat -> nat) (errorText : err -> string) (wk : Worker (W := W))
    (now nowNano : Z) (c : ctx) (d : Delivery P) (p : pending) (r : running (W := W) (P := P)) (task : Task) (t : Ticket) :
  ticketsWork (W := W) -> hooksIn sameTickets (wk_ing wk) ->
  (forall set, wk_metrics wk = Some set -> forall q s w, sameTickets w (set q s w)) -> wk_tickets wk = true ->
  Decode (msg_Payload (d_Message d)) = Some task -> task_TicketID task <> "" ->
  inRangeQ (rn_queue r) (d_Shard d) -> length (q_pend (rn_queue r)) = Z.to_nat (q_shards (rn_queue r)) ->
  pendOf (rn_queue r) (d_Shard d) !! d_ID d = Some p ->
  let tctx := NewContext c (taskPrincipal task) in
  TicketGet tctx (task_TicketID task) (rn_world r) = Ok t -> activeStatus (tck_Status t) ->
  let w1 := markTicket wk now tctx (task_TicketID task) TicketProcessing "" (rn_world r) in
  let answer := fst (fst (runTask grow dcap wk (rn_cfg r) now tctx task w1)) in
  let r' := handle grow dcap errorText wk now nowNano c d r in
  exists t', TicketGet tctx (task_TicketID task) (rn_world r') = Ok t' /\
    match answer with
    | Ok _ => settled d p (rn_queue r) (rn_queue r') true /\ tck_Status t' = TicketStored
    | Err e =>
        if isPermanent e
        then settled d p (rn_queue r) (rn_queue r') true /\ tck_Status t' = TicketFailed /\ tck_Error t' = errorText e
        else settled d p (rn_queue r) (rn_queue r') false /\ tck_Status t' = TicketProcessing
    end.
Proof.
  intros Hup Hh Hm Htk Hdec Hid Hr Hlen Hp tctx Hg Hact w1 answer r'.
  assert (forall status reason w, markTicket wk now tctx (task_TicketID task) status reason w = snd (Mark now tctx (task_TicketID task) status reason w)) as Hmk.
  { intros status reason w. unfold markTicket. apply str_eqb_neq in Hid. by rewrite Htk, Hid. }
  destruct (mark_to now tctx (task_TicketID task) TicketProcessing "" (rn_world r) t Hup Hid Hg) as (t1 & Hg1 & Hs1 & _).
  { destruct Hact as [-> | ->]; [by left|by right]. }
  unfold r', answer, handle, process. rewrite Hdec. fold tctx w1.
  pose proof (runTask_effects grow dcap wk sameTickets (rn_cfg r) now tctx task w1 Hh) as Hf.
  destruct (runTask grow dcap wk (rn_cfg r) now tctx task w1) as [[[res|e] cr'] w2]; cbn [fst snd] in *.
  all: assert (TicketGet tctx (task_TicketID task) w2 = Ok t1) as Hg2 by (rewrite Hf; unfold w1; by rewrite Hmk).
  - destruct (mark_to now tctx (task_TicketID task) TicketStored "" w2 t1 Hup Hid Hg2) as (t2 & Hg3 & Hs3 & _); [rewrite Hs1; by left|].
    exists t2. cbn [rn_queue rn_world]. split; [|by split; [apply settled_ack|]]. unfold recordLag.
    rewrite Hmk. destruct (wk_metrics wk) as [set|]; [|done]. destruct (lagDuration _ _); [|done]. by rewrite (Hm set eq_refl).
  - destruct (isPermanent e).
    + destruct (mark_to now tctx (task_TicketID task) TicketFailed (errorText e) w2 t1 Hup Hid Hg2) as (t2 & Hg3 & Hs3 & He3); [rewrite Hs1; by left|].
      exists t2. cbn [rn_queue rn_world]. rewrite Hmk. split_and!; [done|by apply settled_ack|done|]. apply He3. by rewrite Hs1.
    + exists t1. cbn [rn_queue rn_world]. split_and!; [done|by apply settled_keep|done].
Qed.

(** ** Redelivery *)

(** An event with this client id is in the collection's history. *)
Definition recorded {W : Type} `{StoreLaws W} (w : W) (c : ctx) (coll id : string) : Prop :=
  exists eid ev, In ev (history w c coll eid) /\ ev_EventID ev = id.

(** The unique index on the event id of a collection: an insert that repeats an id stores
    nothing, whatever error it reports. *)
Class EventIDLaws (W : Type) `{StoreLaws W} := {
  append_recorded : forall c coll now ev w ev' w', AppendEvent c coll now ev w = (Ok ev', w') ->
    recorded w' c coll (ev_EventID ev);
  append_repeat : forall c coll now ev w r w', ev_EventID ev <> "" -> recorded w c coll (ev_EventID ev) ->
    AppendEvent c coll now ev w = (r, w') -> (exists e, r = Err e) /\ sameStore c w w';
  snap_records : forall c coll sn w id, recorded w c coll id -> recorded (snd (SnapSave c coll sn w)) c coll id }.

(** Tickets are not entities. *)
Class TicketsApart (W : Type) `{StoreLaws W} `{TicketStore W} := {
  ticket_save_apart : forall c t w, sameStore c w (snd (TicketSave c t w)) }.

Section Redelivery.
Context {W P : Type} `{TaskCodec P} `{TicketStore W} `{StoreLaws W} `{CollectionRepository W}.
Context {CF : ConfigFrame W} {EL : EventIDLaws W} {TA : TicketsApart W}.
Variables grow dcap : nat -> nat.
Variable errorText : err -> string.
Implicit Types (w : W) (c : ctx).

Lemma recorded_same c w w' coll id : sameStore c w w' -> recorded w c coll id -> recorded w' c coll id.
Proof. intros Hs (eid & ev & Hin & E). exists eid, ev. by rewrite (proj1 (Hs coll eid)). Qed.

Lemma mark_apart wk now c id status reason w : sameStore c w (markTicket wk now c id status reason w).
Proof.
  unfold markTicket. destruct (_ || _); [apply sameStore_refl|]. unfold Mark. destruct (str_eqb id ""); [apply sameStore_refl|].
  destruct (TicketGet c id w) as [t|e]; [|destruct e; apply sameStore_refl]. destruct (_ || _); [apply sameStore_refl|]. apply ticket_save_apart.
Qed.

Lemma planned_event now cfg kind cmd cur ev st deleted :
  planEvent grow dcap now cfg kind cmd cur = Ok (Planned ev st deleted) ->
  exists op changes, ev = buildEvent now cmd op changes.
Proof.
  unfold planEvent. destruct (baseState cur) as [base v].
  destruct (str_eqb kind KindState); [destruct (optDiff _ _ _); [done|]; intros [= <- _ _]; by eexists _, _|].
  destruct (str_eqb kind KindDiff).
  - destruct (str_eqb _ OpDelete); [intros [= <- _ _]; by eexists _, _|]. destruct (ic_Changes cmd) as [chs|].
    + destruct (ApplyShared _ _ _ _) as [[[| | | | | | |m] chs']|]; try done. destruct chs'; [done|]. intros [= <- _ _]. by eexists _, _.
    + destruct (str_eqb _ OpCreate); [|done]. destruct (optDiff _ _ _); [done|]. intros [= <- _ _]. by eexists _, _.
  - destruct (str_eqb kind KindDelete); [|done]. intros [= <- _ _]. by eexists _, _.
Qed.

(** Up to the commit a write changes no entity; the commit appends an event with the
    command's id. *)
Lemma applyOne_recorded ing cr now c kind cmd w : ic_EventID cmd <> "" ->
  recorded w c (ic_Collection cmd) (ic_EventID cmd) ->
  sameStore c w (snd (applyOne grow dcap ing cr now c kind cmd w)).
Proof.
  intros Hid Hrec. unfold applyOne, prepare. pose proof (ensure_frame cr now c (ic_Collection cmd) w) as He.
  destruct (EnsureCollection cr now c (ic_Collection cmd) w) as [[[cfg|e] cr1] w1]; [|exact He]. cbn in He.
  destruct (load_current c (ic_Collection cmd) (ic_EntityID cmd) w1) as [cur|e]; [|exact He].
  destruct (negb _); [exact He|]. destruct (planEvent _ _ _ _ _ _ _) as [[|ev st deleted]|e] eqn:Epl; [exact He| |exact He].
  destruct (preStore _ _ _ _ _ _ _) as [ev1|e] eqn:Eps; [|exact He].
  assert (ev_EventID ev1 = ic_EventID cmd) as Eid.
  { apply preStore_core in Eps. destruct (planned_event _ _ _ _ _ _ _ _ Epl) as (op & chs & ->).
    unfold sameCore in Eps. cbn in Eps. naive_solver. }
  unfold commitEvent. destruct (AppendEvent c (ic_Collection cmd) now ev1 w1) as [r w2] eqn:Ea.
  apply append_repeat in Ea as [[e ->] Hs]; [|congruence|rewrite Eid; by eapply recorded_same].
  destruct e; by eapply sameStore_trans.
Qed.

Lemma process_recorded wk cr now c d w task :
  Decode (msg_Payload (d_Message d)) = Some task -> ic_EventID (task_Command task) <> "" ->
  let tctx := NewContext c (taskPrincipal task) in
  recorded w tctx (ic_Collection (task_Command task)) (ic_EventID (task_Command task)) ->
  sameStore tctx w (snd (process grow dcap errorText wk cr now c d w)).
Proof.
  intros Hdec Hid tctx Hrec. unfold process. rewrite Hdec. fold tctx.
  set (w1 := markTicket wk now tctx (task_TicketID task) TicketProcessing "" w).
  assert (sameStore tctx w w1) as Hm1 by apply mark_apart.
  assert (sameStore tctx w1 (snd (runTask grow dcap wk cr now tctx task w1))) as Hm2.
  { apply (recorded_same _ _ _ _ _ Hm1) in Hrec. unfold runTask, IngestState, IngestDiff, IngestDelete.
    destruct (str_eqb _ KindState); [by apply applyOne_recorded|]. destruct (str_eqb _ KindDiff); [by apply applyOne_recorded|].
    destruct (str_eqb _ KindDelete); [by apply applyOne_recorded|]. apply sameStore_refl. }
  destruct (runTask grow dcap wk cr now tctx task w1) as [[[res|e] cr'] w2]; cbn [snd] in Hm2 |- *.
  - do 2 (eapply sameStore_trans; [eassumption|]). apply mark_apart.
  - destruct (isPermanent e); cbn [snd]; [do 2 (eapply sameStore_trans; [eassumption|]); apply mark_apart|by eapply sameStore_trans].
Qed.

(** A write that reports a stored event left it in the history. *)
Lemma applyOne_stored ing cr now c kind cmd w res cr' w' : effectsFrame ing ->
  applyOne grow dcap ing cr now c kind cmd w = (Ok res, cr', w') -> ir_NoChanges res = false -> ir_Deduplicated res = false ->
  recorded w' c (ic_Collection cmd) (ic_EventID cmd).
Proof.
  intros Hfx. unfold applyOne. destruct (prepare cr now c cmd w) as [[[[cfg cur]|e] cr1] w1]; [|done].
  destruct (negb _); [done|]. destruct (planEvent _ _ _ _ _ _ _) as [[|ev st deleted]|e] eqn:Epl; [by intros [= <- _ _]| |done].
  destruct (preStore _ _ _ _ _ _ _) as [ev1|e] eqn:Eps; [|done].
  assert (ev_EventID ev1 = ic_EventID cmd) as Eid.
  { apply preStore_core in Eps. destruct (planned_event _ _ _ _ _ _ _ _ Epl) as (op & chs & ->).
    unfold sameCore in Eps. cbn in Eps. naive_solver. }
  unfold commitEvent. destruct (AppendEvent c (ic_Collection cmd) now ev1 w1) as [[ev'|e] w2] eqn:Ea;
    [|destruct e; try done; by intros [= <- _ _]].
  apply append_recorded in Ea. rewrite Eid in Ea.
  destruct (CurUpsert c _ _ w2) as [[[]|e] w3] eqn:Eu; [|by destruct e; try done; intros [= <- _ _]].
  intros [= _ _ <-] _ _. eapply recorded_same; [by apply effects_same|]. unfold Build.
  assert (recorded w3 c (ic_Collection cmd) (ic_EventID cmd)) as Hr3.
  { destruct Ea as (eid & rb & Hin & E). exists eid, rb. by rewrite (proj1 (proj2 (cur_upsert_frame _ _ _ _ _ _ Eu))). }
  destruct (_ || _); [done|]. by apply snap_records.
Qed.

Lemma runTask_stored wk cr now c task w res cr' w' : effectsFrame (wk_ing wk) ->
  runTask grow dcap wk cr now c task w = (Ok res, cr', w') -> ir_NoChanges res = false -> ir_Deduplicated res = false ->
  recorded w' c (ic_Collection (task_Command task)) (ic_EventID (task_Command task)).
Proof.
  intros Hfx. unfold runTask, IngestState, IngestDiff, IngestDelete.
  destruct (str_eqb _ KindState); [by apply applyOne_stored|]. destruct (str_eqb _ KindDiff); [by apply applyOne_stored|].
  destruct (str_eqb _ KindDelete); [by apply applyOne_stored|done].
Qed.

(** Redeliveries of one message, each at its own time and with whatever configuration
    cache the consumer has. *)
Definition redeliver wk c d (w : W) (runs : list (ConfigResolver * time)) : W :=
  fold_left (fun w x => snd (process (P := P) grow dcap errorText wk (fst x) (snd x) c d w)) runs w.

Lemma redeliver_same wk c d task w runs :
  Decode (msg_Payload (d_Message d)) = Some task -> ic_EventID (task_Command task) <> "" ->
  let tctx := NewContext c (taskPrincipal task) in
  recorded w tctx (ic_Collection (task_Command task)) (ic_EventID (task_Command task)) ->
  sameStore tctx w (redeliver wk c d w runs).
Proof.
  intros Hdec Hid tctx. revert w. induction runs as [|[cr now] runs IH]; intros w Hrec; [apply sameStore_refl|]. cbn [redeliver fold_left fst snd].
  pose proof (process_recorded wk cr now c d w task Hdec Hid Hrec) as Hm1.
  eapply sameStore_trans; [exact Hm1|]. apply IH. by eapply recorded_same.
Qed.
End Redelivery.

(** C11: A redelivered message is not stored twice.  When a processing of a message with an
    event id reports a stored write, the event is in the history; and from the moment an
    event with that id is there, however it got there and whatever the outcome of the run
    that stored it, any number of redeliveries of the message, at any times, with any
    configuration caches and any of the three kinds of command, leave every history, every
    current state and every snapshot of the tenant as they are. *)
Theorem redelivery_stores_once {W P : Type} `{TaskCodec P} `{TicketStore W} `{StoreLaws W} `{CollectionRepository W}
    {CF : ConfigFrame W} {EL : EventIDLaws W} {TA : TicketsApart W}
    (grow dcap : nat -> nat) (errorText : err -> string) (wk : Worker (W := W)) (c : ctx) (d : Delivery P) (task : Task) :
  effectsFrame (wk_ing wk) ->
  Decode (msg_Payload (d_Message d)) = Some task -> ic_EventID (task_Command task) <> "" ->
  let tctx := NewContext c (taskPrincipal task) in
  let cmd := task_Command task in
  (forall cr now w res cr' w', runTask grow dcap wk cr now tctx task w = (Ok res, cr', w') ->
     ir_NoChanges res = false -> ir_Deduplicated res = false -> recorded w' tctx (ic_Collection cmd) (ic_EventID cmd)) /\
  (forall w runs, recorded w tctx (ic_Collection cmd) (ic_EventID cmd) ->
     sameStore tctx w (redeliver grow dcap errorText wk c d w runs)).
Proof.
  intros Hfx Hdec Hid tctx cmd. split.
  - intros cr now w res cr' w'. by apply runTask_stored.
  - intros w runs Hrec. by eapply redeliver_same.
Qed.

(** ** The stores in memory *)

#[export] Instance am_ticket_effects : Effects (W := asyncMem) sameTickets.
Proof.
  split; try done.
  - intros w1 w2 w3 Ha Hb c id. by rewrite Hb, Ha.
  - intros c coll now ev w c' id. cbn. unfold onStore, memAppend. by destruct (memDup _ _ _ _).
Qed.

Lemma am_tickets_work : ticketsWork (W := asyncMem).
Proof. intros c t w. by eexists. Qed.

#[export] Instance am_store_laws : StoreLaws asyncMem.
Proof.
  refine {| history w := history (am_store w); currentOf w := currentOf (am_store w); snapsOf w := snapsOf (am_store w);
            resolution := fun t => t |}.
  all: unfold AppendEvent, LastEvent, ListEvents, CurGet, CurUpsert, SnapSave, SnapNearest,
    am_events_repo, am_current_repo, am_snap_repo, onStore.
  - intros c coll now ev w ev' w'. destruct (mem_event_repo.(AppendEvent) c coll now ev (am_store w)) as [r m] eqn:E.
    intros [= -> <-]. cbn [am_store]. exact (append_ok _ _ _ _ _ _ _ E).
  - intros c coll now ev w w'. destruct (mem_event_repo.(AppendEvent) c coll now ev (am_store w)) as [r m] eqn:E.
    intros [= -> <-]. exact (append_dup _ _ _ _ _ _ E).
  - intros w. apply history_entity.
  - intros c coll eid w. apply last_event.
  - intros c coll f w. apply list_events.
  - intros c coll eid w. apply cur_get.
  - intros c coll st w w'. destruct (mem_current_repo.(CurUpsert) c coll st (am_store w)) as [r m] eqn:E.
    intros [= -> <-]. exact (cur_upsert _ _ _ _ _ E).
  - intros c coll st w r w'. destruct (mem_current_repo.(CurUpsert) c coll st (am_store w)) as [r0 m] eqn:E.
    intros [= -> <-]. exact (cur_upsert_frame _ _ _ _ _ _ E).
  - intros c coll sn w r w'. destruct (mem_snap_repo.(SnapSave) c coll sn (am_store w)) as [r0 m] eqn:E.
    intros [= -> <-]. exact (snap_save _ _ _ _ _ _ E).
  - intros c coll eid v w s. apply snap_nearest.
Defined.

#[export] Instance am_config_frame : ConfigFrame asyncMem.
Proof. split; done. Defined.

#[export] Instance am_apart : TicketsApart asyncMem.
Proof. split. done. Qed.

Lemma memDup_recorded (w : mem) c coll id : id <> "" ->
  memDup c coll id w = true <-> exists eid ev, In ev (memHistory w c coll eid) /\ ev_EventID ev = id.
Proof.
  intros Hid. unfold memDup. apply str_eqb_neq in Hid as ->. cbn [negb andb]. rewrite existsb_exists. split.
  - intros ([s ev] & Hin & [Hs He]%andb_true_iff). cbn in *. exists (ev_EntityID ev), ev. split; [|by apply str_eqb_eq].
    apply in_map_iff. exists (s, ev). split; [done|]. apply filter_In. split; [done|]. unfold evHere. cbn. by rewrite Hs, str_eqb_refl.
  - intros (eid & ev & Hin & E). apply in_map_iff in Hin as ([s ev0] & E0 & Hin). cbn in E0. subst.
    apply filter_In in Hin as [Hin He]. apply andb_true_iff in He as [Hs _]. cbn in Hs.
    exists (s, ev). split; [done|]. cbn. by rewrite Hs, str_eqb_refl.
Qed.

#[export] Instance am_event_ids : EventIDLaws asyncMem.
Proof.
  split.
  - intros c coll now ev w ev' w' Ha. cbn in Ha. unfold onStore, memAppend in Ha.
    destruct (memDup c coll (ev_EventID ev) (am_store w)); [done|]. injection Ha as _ <-.
    exists (ev_EntityID ev). eexists. split.
    + change (history ?w0) with (memHistory (am_store w0)). cbn [am_store]. rewrite memHistory_snoc. unfold evHere. cbn [fst snd]. rewrite stampStored_entity. cbn [setVersion ev_EntityID].
      rewrite !str_eqb_refl. cbn [andb]. apply in_app_iff. right. by left.
    + unfold stampStored. by destruct (ev_TSStored _ =? 0)%Z.
  - intros c coll now ev w r w' Hid Hrec Ha. cbn in Ha. unfold onStore, memAppend in Ha.
    apply (memDup_recorded _ _ _ _ Hid) in Hrec. rewrite Hrec in Ha. injection Ha as <- <-. split; [by eexists|].
    by destruct w.
  - done.
Qed.

(** ** Runs *)

Definition ex_grow (n : nat) : nat := (2 * n)%nat.
Definition ex_wk : Worker (W := asyncMem) := mkWorker ex_sync true None (Worker.withDefaults (mkOptions 0 0 "")).
Definition ex_text (e : err) : string := match e with ErrInvalidDiff => "diff does not apply" | _ => "failed" end.

(** The command queued under a ticket, and the queue that holds the message. *)
Definition ex_submit (ticket : string) (cmd : IngestCommand) (s : queue Task * asyncMem) : queue Task * asyncMem :=
  let w := snd (enqueue ex_async ticket 5 5 ex_ctx KindState ReliabilityDurable cmd (snd s)) in
  match last (am_queue w) with
  | Some m => match QPublish m (fst s) with Some (_, q) => (q, w) | None => (fst s, w) end
  | None => (fst s, w)
  end.

Definition ex_start (s : queue Task * asyncMem) : running := mkRunning (fst s) (NewConfigResolver true 0) (snd s).
Definition ex_consume (now : time) (r : running) : running := consume ex_grow id ex_text ex_wk now now None 0 r.
Definition ex_reclaim (now : time) (r : running) : running := reclaim ex_grow id ex_text ex_wk now now None 0 r.

Definition ex_write (eid event_id : string) (v : Z) (expected : option Z) : IngestCommand :=
  mkCommand "crm.deals" eid "" "" expected "u1" "crm" 0 event_id "" "" None (Some [("a", JInt64 v)]) None None.

Definition ex_status (ticket : string) (w : asyncMem) : string :=
  match TicketGet ex_ctx ticket w with Ok t => tck_Status t | Err _ => "" end.

(** The first of the messages, handed out. *)
Definition ex_taken (s : queue Task * asyncMem) : option (Delivery Task * running) :=
  match QNext 6 0 (fst s) with
  | Some (d, q) => Some (d, mkRunning q (NewConfigResolver true 0) (snd s))
  | None => None
  end.

Definition ex_one : queue Task * asyncMem := ex_submit "tkt_1" (ex_write "deal-1" "e1" 1 None) (New 1, am0).
Definition ex_delivery : Delivery Task :=
  match ex_taken ex_one with Some (d, _) => d | None => mkDelivery (mkMessage "" (mkTask (mkTenantRef "" "" "") "" "" "" (ex_acmd "" "" "")) []) "" 0 0 end.
Definition ex_running : running := match ex_taken ex_one with Some (_, r) => r | None => ex_start ex_one end.
Definition ex_task : Task := msg_Payload (d_Message ex_delivery).

Lemma worker_settles_witness :
  let r' := handle ex_grow id ex_text ex_wk 7 7 None ex_delivery ex_running in
  pendOf (rn_queue r') 0 !! "1" = None /\ ex_status "tkt_1" (rn_world r') = TicketStored /\
  length (mem_events (am_store (rn_world r'))) = 1%nat.
Proof.
  intros r'.
  destruct (worker_settles ex_grow id ex_text ex_wk 7 7 None ex_delivery (mkPending ex_delivery 6) ex_running ex_task
    (mkTicket "tkt_1" TicketAccepted "crm.deals" "deal-1" "" 5 5)) as (t' & Hg & Hm).
  - exact am_tickets_work.
  - split; intros x Hx; discriminate Hx.
  - intros s Hs. discriminate Hs.
  - reflexivity.
  - reflexivity.
  - vm_compute. discriminate.
  - vm_compute. split; congruence.
  - reflexivity.
  - vm_compute. reflexivity.
  - vm_compute. reflexivity.
  - left. reflexivity.
  - fold r' in Hg, Hm.
    assert (exists a, fst (fst (runTask ex_grow id ex_wk (rn_cfg ex_running) 7 (NewContext None (taskPrincipal ex_task)) ex_task
      (markTicket ex_wk 7 (NewContext None (taskPrincipal ex_task)) (task_TicketID ex_task) TicketProcessing "" (rn_world ex_running)))) = Ok a) as [a Ha]
      by (eexists; vm_compute; reflexivity).
    rewrite Ha in Hm. destruct Hm as [Hs Ht]. split; [exact Hs|]. split; [|vm_compute; reflexivity].
    vm_compute. reflexivity.
Defined.

Lemma redelivery_stores_once_witness :
  let w1 := rn_world (handle ex_grow id ex_text ex_wk 7 7 None ex_delivery ex_running) in
  recorded w1 ex_ctx "crm.deals" "e1" /\
  history (redeliver ex_grow id ex_text ex_wk None ex_delivery w1 [(NewConfigResolver true 0, 8%Z); (NewConfigResolver false 9, 9%Z)]) ex_ctx "crm.deals" "deal-1" =
  history w1 ex_ctx "crm.deals" "deal-1".
Proof.
  intros w1.
  assert (recorded w1 ex_ctx "crm.deals" "e1") as Hr.
  { exists "deal-1". eexists. split; [left; reflexivity|reflexivity]. }
  split; [exact Hr|].
  destruct (redelivery_stores_once ex_grow id ex_text ex_wk None ex_delivery ex_task) as [_ Hs].
  - split; intros x Hx; discriminate Hx.
  - reflexivity.
  - vm_compute. discriminate.
  - exact (proj1 (Hs w1 [(NewConfigResolver true 0, 8%Z); (NewConfigResolver false 9, 9%Z)] Hr "crm.deals" "deal-1")).
Defined.

(** ** Three runs that end badly *)

(** The store of current states refuses every write. *)
Definition ex_curDown : CurrentRepository asyncMem := {|
  CurGet := am_current_repo.(CurGet);
  CurUpsert c coll st w := (Err (ErrInternal "mongo: upsert"), w) |}.

Definition ex_current (w : asyncMem) : option (Z * option state) :=
  option_map (fun st => (cs_Version st, cs_State st)) (currentOf w ex_ctx "crm.deals" "deal-1").
Definition ex_changes (w : asyncMem) : list (list Change) :=
  map ev_Changes (history w ex_ctx "crm.deals" "deal-1").

(** The first expects version 1 of an entity that does not exist; the second expects
    nothing. *)
Definition ex_two : queue Task * asyncMem :=
  ex_submit "tkt_2" (ex_write "deal-1" "e2" 2 None) (ex_submit "tkt_1" (ex_write "deal-1" "e1" 1 (Some 1%Z)) (New 1, am0)).
Definition ex_bothTried : running := ex_consume 8 (ex_consume 7 (ex_start ex_two)).
Definition ex_reordered : running := ex_reclaim 50000000000 ex_bothTried.

(** A write that expects a version the entity never has. *)
Definition ex_stale : queue Task * asyncMem := ex_submit "tkt_1" (ex_write "deal-1" "e1" 1 (Some 7%Z)) (New 1, am0).
Definition ex_staleTried : running := ex_consume 7 (ex_start ex_stale).

(** The event is stored, the current state is not; the redelivery runs on a store that is
    up again. *)
Definition ex_halfWritten : asyncMem :=
  snd (process (H2 := ex_curDown) ex_grow id ex_text ex_wk (NewConfigResolver true 0) 7 None ex_delivery (rn_world ex_running)).
Definition ex_retried : outcome * ConfigResolver * asyncMem :=
  process ex_grow id ex_text ex_wk (NewConfigResolver true 0) 8 None ex_delivery ex_halfWritten.

(** A write on an entity whose version is not the expected one fails, not for good, and
    stores nothing. *)
Lemma applyOne_stale cr now (c : ctx) kind cmd (w : asyncMem) v :
  ic_ExpectedVersion cmd = Some v -> snd (baseState (currentOf w c (ic_Collection cmd) (ic_EntityID cmd))) <> v ->
  exists e cr' w', applyOne ex_grow id ex_sync cr now c kind cmd w = (Err e, cr', w') /\ isPermanent e = false /\ sameStore c w w'.
Proof.
  intros Hv Hne. unfold applyOne, prepare. pose proof (ensure_frame cr now c (ic_Collection cmd) w) as He.
  assert (forall e cr' w', EnsureCollection cr now c (ic_Collection cmd) w = (Err e, cr', w') -> isPermanent e = false) as Hperm.
  { intros e cr' w'. unfold EnsureCollection, crGet, cacheKey, FromContext. destruct c as [p|]; [|by intros [= <- _ _]].
    destruct (cached _ _ _); [done|]. cbn. destruct (mget _ _); [done|]. destruct (negb _); [by intros [= <- _ _]|done]. }
  destruct (EnsureCollection cr now c (ic_Collection cmd) w) as [[[cfg|e] cr1] w1]; [|exists e, cr1, w1; split_and!; [done|by eapply Hperm|exact He]].
  cbn in He. unfold load_current. pose proof (cur_get c (ic_Collection cmd) (ic_EntityID cmd) w1) as Hg.
  assert (currentOf w1 c (ic_Collection cmd) (ic_EntityID cmd) = currentOf w c (ic_Collection cmd) (ic_EntityID cmd)) as Hcur by apply He.
  assert (forall cur, cur = currentOf w c (ic_Collection cmd) (ic_EntityID cmd) -> versionMatches (ic_ExpectedVersion cmd) (snd (baseState cur)) = false) as Hm.
  { intros cur ->. rewrite Hv. cbn. apply Z.eqb_neq. by apply not_eq_sym. }
  destruct (CurGet c (ic_Collection cmd) (ic_EntityID cmd) w1) as [st|e] eqn:Ec.
  - rewrite (Hm (Some st)) by congruence. by exists ErrVersionConflict, cr1, w1.
  - cbn in Ec. destruct (memCurrent _ _ _ _); [done|]. injection Ec as <-. rewrite (Hm None) by congruence.
    by exists ErrVersionConflict, cr1, w1.
Qed.
(** The state a stale write stays in: one pending delivery of the message, its ticket in
    processing, no entity. *)
Definition ex_stuck (m : Message Task) (r : running (W := asyncMem) (P := Task)) : Prop :=
  exists p, rn_queue r = mkQueue 1 [[]] [{["1" := p]}] 1 false /\
    d_Message (pd_d p) = m /\ d_ID (pd_d p) = "1" /\
    ex_status "tkt_1" (rn_world r) = TicketProcessing /\
    ex_changes (rn_world r) = [] /\ ex_current (rn_world r) = None.

(** The tenant as the worker rebuilds it: same database, no key. *)
Definition ex_wctx : ctx := NewContext None (mkPrincipal (p_Tenant ex_principal) (mkAPIKey [] [])).

Lemma ex_status_iff id s w : ex_status id w = s -> s <> "" -> exists t, TicketGet ex_wctx id w = Ok t /\ tck_Status t = s.
Proof.
  unfold ex_status. change (TicketGet ex_ctx id w) with (TicketGet ex_wctx id w).
  destruct (TicketGet ex_wctx id w) as [t|e]; [by exists t|congruence].
Qed.

Definition ex_staleTask : Task :=
  mkTask (tenantRef ex_principal) KindState ReliabilityDurable "tkt_1" (ex_write "deal-1" "e1" 1 (Some 7%Z)).

Lemma ex_stuck_handle m now d r : msg_Payload m = ex_staleTask -> d_Message d = m -> ex_stuck m r ->
  ex_stuck m (handle ex_grow id ex_text ex_wk now now None d r).
Proof.
  intros Em Hd (p & Hq & Hp & Hid & Hs & Hch & Hcur). destruct r as [q cr w]. cbn [rn_queue rn_world] in *.
  apply ex_status_iff in Hs as (t & Hg & Hst); [|done].
  assert (markTicket ex_wk now ex_wctx "tkt_1" TicketProcessing "" w = w) as Hmk.
  { unfold markTicket, Mark. change (negb (wk_tickets ex_wk) || str_eqb "tkt_1" "") with false. change (str_eqb "tkt_1" "") with false.
    cbv iota. by rewrite Hg, Hst, str_eqb_refl. }
  destruct (applyOne_stale cr now ex_wctx KindState (ex_write "deal-1" "e1" 1 (Some 7%Z)) w 7) as (e & cr' & w' & Ha & He & Hsame); [done| |].
  { change (ex_current w) with (option_map (fun st => (cs_Version st, cs_State st)) (currentOf w ex_wctx "crm.deals" "deal-1")) in Hcur.
    cbn [ic_Collection ic_EntityID ex_write]. by destruct (currentOf w ex_wctx "crm.deals" "deal-1"). }
  assert (handle ex_grow id ex_text ex_wk now now None d (mkRunning q cr w) = mkRunning q cr' w') as ->.
  { unfold handle, process. cbn [rn_cfg rn_world rn_queue]. rewrite Hd. cbn [Decode task_codec]. rewrite Em.
    change (NewContext None (taskPrincipal ex_staleTask)) with ex_wctx. change (task_TicketID ex_staleTask) with "tkt_1". rewrite Hmk.
    change (runTask ex_grow id ex_wk cr now ex_wctx ex_staleTask w)
      with (applyOne ex_grow id ex_sync cr now ex_wctx KindState (ex_write "deal-1" "e1" 1 (Some 7%Z)) w). by rewrite Ha, He. }
  exists p. cbn [rn_queue rn_world]. split_and!; try done.
  - pose proof (applyOne_effects sameTickets ex_grow id ex_sync cr now ex_wctx KindState (ex_write "deal-1" "e1" 1 (Some 7%Z)) w) as Ht.
    rewrite Ha in Ht. unfold ex_status. change (TicketGet ex_ctx "tkt_1" w') with (TicketGet ex_wctx "tkt_1" w').
    rewrite Ht; [by rewrite Hg|]. split; intros x Hx; discriminate Hx.
  - change (map ev_Changes (history w' ex_wctx "crm.deals" "deal-1") = []). by rewrite (proj1 (Hsame "crm.deals" "deal-1")).
  - change (option_map (fun st => (cs_Version st, cs_State st)) (currentOf w' ex_wctx "crm.deals" "deal-1") = None).
    by rewrite (proj1 (proj2 (Hsame "crm.deals" "deal-1"))).
Qed.

Lemma ex_stuck_reclaim m now r : msg_Payload m = ex_staleTask -> ex_stuck m r -> ex_stuck m (ex_reclaim now r).
Proof.
  intros Em (p & Hq & Hp & Hid & Hrest). unfold ex_reclaim, reclaim, QReclaim. rewrite Hq.
  change (pendOf (mkQueue 1 [[]] [{["1" := p]}] 1 false) 0) with ({["1" := p]} : gmap string pending).
  rewrite map_to_list_singleton, map_fmap_singleton.
  set (p' := bump now _ p). assert (d_Message (pd_d p') = m /\ d_ID (pd_d p') = "1") as [Hm Hi]
    by (unfold p'; destruct (bump_id now (ReclaimMinIdle (wk_opts ex_wk)) p) as [-> ->]; done).
  assert (ex_stuck m (mkRunning (mkQueue 1 [[]] [{["1" := p']}] 1 false) (rn_cfg r) (rn_world r))) as Hs by (exists p'; split; [done|]; split; [exact Hm|]; split; [exact Hi|exact Hrest]).
  change (setPend (mkQueue 1 [[]] [{["1" := p]}] 1 false) 0 {["1" := p']}) with (mkQueue (P := Task) 1 [[]] [{["1" := p']}] 1 false).
  cbn [List.filter snd]. destruct (_ <=? _)%Z; cbn [map handleAll fold_left snd]; [|exact Hs]. by apply ex_stuck_handle.
Qed.

(** Three runs of the worker that end badly.  (1) Two messages of one entity are
    queued in the order 1, 2; the first fails for now, the second is applied, and the
    reclaim then applies the first on top of it: the entity ends in the older state, and
    both tickets say stored.  (2) A queued write whose expected version does not match is
    treated as retryable: whenever and however often it is reclaimed, it stays pending, its ticket
    stays in processing and nothing is ever stored.  (3) The event is appended but the
    current state cannot be saved; the redelivery meets the duplicate event id, reports
    success and marks the ticket stored, with the current state still missing. *)
Theorem worker_anomalies :
  (map (fun d => task_TicketID (msg_Payload (d_Message d))) (chanOf (fst ex_two) 0) = ["tkt_1"; "tkt_2"] /\
   ex_current (rn_world ex_bothTried) = Some (1%Z, Some [("a", JInt64 2)]) /\
   ex_current (rn_world ex_reordered) = Some (2%Z, Some [("a", JInt64 1)]) /\
   ex_status "tkt_1" (rn_world ex_reordered) = TicketStored /\ ex_status "tkt_2" (rn_world ex_reordered) = TicketStored) /\
  (forall nows, let r := fold_left (fun r now => ex_reclaim now r) nows ex_staleTried in
     is_Some (pendOf (rn_queue r) 0 !! "1") /\ ex_status "tkt_1" (rn_world r) = TicketProcessing /\
     ex_changes (rn_world r) = [] /\ ex_current (rn_world r) = None) /\
  (ex_changes ex_halfWritten = [[mkChange "a" OpAdd JNull (JInt64 1)]] /\
   fst (fst ex_retried) = Processed /\ ex_status "tkt_1" (snd ex_retried) = TicketStored /\
   ex_current (snd ex_retried) = None /\ ex_changes (snd ex_retried) = ex_changes ex_halfWritten).
Proof.
  split; [vm_compute; split_and!; reflexivity|]. split; [|vm_compute; split_and!; reflexivity].
  assert (exists m, msg_Payload m = ex_staleTask /\ ex_stuck m ex_staleTried) as (m & Em & Hs).
  { eexists (mkMessage _ ex_staleTask _). split; [done|]. eexists (mkPending (mkDelivery _ _ _ _) _). vm_compute. split_and!; reflexivity. }
  intros nows r. assert (ex_stuck m r) as (p & Hq & _ & _ & Hst & Hch & Hcur).
  { unfold r. clear r. revert Hs. generalize ex_staleTried. induction nows as [|now nows IH]; intros r Hs; [exact Hs|]. apply IH. by apply ex_stuck_reclaim. }
  rewrite Hq. split_and!; try done; by exists p.
Qed.
