(* ===== verification/Batch.v ===== *)
(** * Fast-mode batches (internal/service/batch.go, internal/worker/batch.go)

    [IngestBatch] folds the writes of one flush per collection: it plans each write on the
    state the writes before it lead to, assigns versions itself, inserts all events at
    once, and then refreshes the current states and runs the side effects.  The batch
    worker groups a flush by tenant, settles one ticket per write and acknowledges
    everything.  Publishers, pumps and batch loops of one process are a step relation,
    whose invariant says where every accepted fast write is. *)

From stdpp Require Import base list strings gmap.
From Stdlib Require Import ZArith Lia.
From S2P Require Import Prelude GoMap Json Paths Diff DiffSound Domain Tenant Config Alias Repo Plugin Ingest Pipeline Numbers MemStore PipelineSound AsyncMem Queue Worker.

(** ** The service *)

Record BatchItem := mkItem { bi_Kind : string; bi_Command : IngestCommand }.

Record snapCandidate := mkCandidate {
  sc_entityID : string; sc_version : Z; sc_ts : time; sc_state : option state; sc_deleted : bool }.

(** What the fold over one collection's items carries: the entities' states as it
    advances, the states to save with the order they first appeared in, the chain's last
    events, the planned events with the item of each, the snapshot candidates, and the
    results by item. *)
Record foldState := mkFold {
  fo_running : list (string * option CurrentState);
  fo_finals : list (string * CurrentState);
  fo_finalOrder : list string;
  fo_lastEv : list (string * option Event);
  fo_events : list (nat * Event);
  fo_snaps : list snapCandidate;
  fo_errs : list (option err) }.

Definition fold0 (errs : list (option err)) : foldState := mkFold [] [] [] [] [] [] errs.

Definition failItem (k : nat) (e : err) (s : foldState) : foldState :=
  mkFold (fo_running s) (fo_finals s) (fo_finalOrder s) (fo_lastEv s) (fo_events s) (fo_snaps s) (<[k := Some e]> (fo_errs s)).
Definition setRunning (eid : string) (cur : option CurrentState) (s : foldState) : foldState :=
  mkFold (mset eid cur (fo_running s)) (fo_finals s) (fo_finalOrder s) (fo_lastEv s) (fo_events s) (fo_snaps s) (fo_errs s).
Definition setLastEv (eid : string) (ev : option Event) (s : foldState) : foldState :=
  mkFold (fo_running s) (fo_finals s) (fo_finalOrder s) (mset eid ev (fo_lastEv s)) (fo_events s) (fo_snaps s) (fo_errs s).

(** The event is part of the insert; its state becomes the entity's. *)
Definition pushEvent (k : nat) (eid : string) (nextV : Z) (ev : Event) (newState : option state) (deleted : bool) (s : foldState) : foldState :=
  let next := mkCurrentState eid nextV (ev_TSReceived ev) deleted newState in
  mkFold (mset eid (Some next) (fo_running s)) (mset eid next (fo_finals s))
    (match mget eid (fo_finals s) with Some _ => fo_finalOrder s | None => fo_finalOrder s ++ [eid] end)
    (fo_lastEv s) (fo_events s ++ [(k, ev)])
    (fo_snaps s ++ [mkCandidate eid nextV (ev_TSReceived ev) newState deleted]) (fo_errs s).

Section Batch.
Context {W : Type} `{EventRepository W} `{CurrentRepository W} `{SnapshotRepository W} `{CollectionRepository W}.
Variables grow dcap : nat -> nat.
Variable ing : Ingester W.

(** The load of an entity not seen yet in the batch; [None] when the item is skipped with
    an error already recorded. *)
Definition loadItem (c : ctx) (collection : string) (hasPre : bool) (w : W) (k : nat) (eid : string) (s : foldState) : option (option CurrentState) * foldState :=
  match mget eid (fo_running s) with
  | Some cur => (Some cur, s)
  | None =>
      match load_current c collection eid w with
      | Err e => (None, failItem k e s)
      | Ok cur =>
          let s := setRunning eid cur s in
          if hasPre then
            match lastEvent c collection eid w with
            | Err e => (None, failItem k e s)
            | Ok last => (Some cur, setLastEv eid last s)
            end
          else (Some cur, s)
      end
  end.

Definition nextVersion (cur : option CurrentState) : Z :=
  match cur with Some st => cs_Version st + 1 | None => 1 end.

(** One item of the fold; [clock] is the time read while it is planned. *)
Definition foldItem (c : ctx) (collection : string) (cfg : CollectionConfig) (w : W) (clock : time) (k : nat) (it : BatchItem) (s : foldState) : foldState :=
  let cmd := bi_Command it in
  let eid := ic_EntityID cmd in
  let hasPre := HasPreStore (in_plugins ing) cfg in
  match loadItem c collection hasPre w k eid s with
  | (None, s) => s
  | (Some cur, s) =>
      match planEvent grow dcap clock cfg (bi_Kind it) cmd cur with
      | Err e => failItem k e s
      | Ok NoChange => s
      | Ok (Planned ev newState deleted) =>
          let nextV := nextVersion cur in
          let ev := stampStored (setVersion ev nextV) clock in
          if hasPre then
            let prev := mkEntityView (default None (mget eid (fo_lastEv s))) cur in
            match fst (RunPreStore (in_plugins ing) cfg collection ev prev) with
            | Err e => failItem k e s
            | Ok ev => pushEvent k eid nextV ev newState deleted (setLastEv eid (Some ev) s)
            end
          else pushEvent k eid nextV ev newState deleted s
      end
  end.

Definition foldItems (c : ctx) (collection : string) (cfg : CollectionConfig) (w : W) (now : nat -> time) (items : list BatchItem) (idxs : list nat) (s : foldState) : foldState :=
  fold_left (fun s k => match items !! k with Some it => foldItem c collection cfg w (now k) k it s | None => s end) idxs s.

(** The refresh of the current states, in the order the entities first appeared. *)
Definition upsertFinals (c : ctx) (collection : string) (s : foldState) (w : W) : W :=
  fold_left (fun w eid => match mget eid (fo_finals s) with Some st => snd (CurUpsert c collection st w) | None => w end)
    (fo_finalOrder s) w.

Definition buildSnaps (c : ctx) (collection : string) (cfg : CollectionConfig) (snaps : list snapCandidate) (w : W) : W :=
  fold_left (fun w s => Build (in_snapshots ing) c collection (sc_entityID s) (sc_version s) (sc_ts s) (sc_state s) (sc_deleted s)
                          (cfg_SnapshotInterval cfg) w) snaps w.

Definition runEffects (c : ctx) (collection : string) (cfg : CollectionConfig) (evs : list Event) (w : W) : W :=
  fold_left (fun w ev => RunPostStore (in_plugins ing) c cfg ev (evaluateRules ing c collection ev w)) evs w.

Definition failAll (ks : list nat) (e : err) (errs : list (option err)) : list (option err) :=
  fold_left (fun errs k => <[k := Some e]> errs) ks errs.

Definition batchCollection (cr : ConfigResolver) (now : nat -> time) (c : ctx) (collection : string) (items : list BatchItem) (idxs : list nat) (errs : list (option err)) (w : W) : list (option err) * ConfigResolver * W :=
  match EnsureCollection cr (now O) c collection w with
  | (Err e, cr', w1) => (failAll idxs e errs, cr', w1)
  | (Ok cfg, cr', w1) =>
      let s := foldItems c collection cfg w1 now items idxs (fold0 errs) in
      match fo_events s with
      | [] => (fo_errs s, cr', w1)
      | _ =>
          match AppendEvents c collection (now O) (map snd (fo_events s)) w1 with
          | (Err e, w2) => (failAll (map fst (fo_events s)) e (fo_errs s), cr', w2)
          | (Ok evs, w2) =>
              (fo_errs s, cr', runEffects c collection cfg evs (buildSnaps c collection cfg (fo_snaps s) (upsertFinals c collection s w2)))
          end
      end
  end.

(** The items of each collection, the collections in the order they first appear. *)
Definition groupItems (items : list BatchItem) : list (string * list nat) :=
  fold_left (fun groups k =>
    match items !! k with
    | None => groups
    | Some it =>
        let coll := ic_Collection (bi_Command it) in
        if existsb (fun g => str_eqb (fst g) coll) groups
        then map (fun g => if str_eqb (fst g) coll then (fst g, snd g ++ [k]) else g) groups
        else groups ++ [(coll, [k])]
    end) (seq 0 (length items)) [].

Definition IngestBatch (cr : ConfigResolver) (now : nat -> time) (c : ctx) (items : list BatchItem) (w : W) : list (option err) * ConfigResolver * W :=
  fold_left (fun acc g =>
    let '(errs, cr, w) := acc in batchCollection cr now c (fst g) items (snd g) errs w)
    (groupItems items) (repeat None (length items), cr, w).

End Batch.

(** ** The batch worker *)

Record BatchOptions := mkBatchOptions { bo_Size : Z; bo_Linger : Z; bo_QueueName : string }.

Definition batchDefaults (o : BatchOptions) : BatchOptions :=
  mkBatchOptions (if (bo_Size o <=? 0)%Z then 500 else bo_Size o) (if (bo_Linger o <=? 0)%Z then 50000000 else bo_Linger o)
    (if str_eqb (bo_QueueName o) "" then "fast" else bo_QueueName o).

Record tenantGroup := mkGroup { tg_ref : TenantRef; tg_items : list BatchItem; tg_tickets : list string }.

Definition groupKey (r : TenantRef) : string := ref_ID r +:+ "|" +:+ ref_DBName r +:+ "|" +:+ ref_DBURI r.

Section BatchWorker.
Context {W P : Type} `{TaskCodec P} `{TicketStore W}.
Context `{EventRepository W} `{CurrentRepository W} `{SnapshotRepository W} `{CollectionRepository W}.
Variables grow dcap : nat -> nat.
Variable errorText : err -> string.

Record BatchWorker := mkBatchWorker {
  bw_ing : Ingester W; bw_tickets : bool; bw_metrics : option (string -> Z -> W -> W); bw_opts : BatchOptions }.

Variable bw : BatchWorker.

Definition addTask (key : string) (task : Task) (groups : list (string * tenantGroup)) : list (string * tenantGroup) :=
  let item := mkItem (task_Kind task) (task_Command task) in
  if existsb (fun g => str_eqb (fst g) key) groups
  then map (fun g => if str_eqb (fst g) key
                     then (fst g, mkGroup (tg_ref (snd g)) (tg_items (snd g) ++ [item]) (tg_tickets (snd g) ++ [task_TicketID task]))
                     else g) groups
  else groups ++ [(key, mkGroup (task_Tenant task) [item] [task_TicketID task])].

(** The groups in the order their tenants first appear; an undecodable payload is
    skipped. *)
Definition group (batch : list (Delivery P)) : list (string * tenantGroup) :=
  fold_left (fun groups d => match Decode (msg_Payload (d_Message d)) with
                             | None => groups
                             | Some task => addTask (groupKey (task_Tenant task)) task groups
                             end) batch [].

Definition settle (now : time) (c : ctx) (ticketID : string) (e : option err) (w : W) : W :=
  if negb (bw_tickets bw) || str_eqb ticketID "" then w
  else match e with
       | None => snd (Mark now c ticketID TicketStored "" w)
       | Some e => snd (Mark now c ticketID TicketFailed (errorText e) w)
       end.

Definition settleAll (now : time) (c : ctx) (tickets : list string) (errs : list (option err)) (w : W) : W :=
  fold_left (fun w te => settle now c (fst te) (snd te) w) (combine tickets errs) w.

Definition flushGroup (clock : nat -> time) (now : time) (c : ctx) (g : tenantGroup) (acc : ConfigResolver * W) : ConfigResolver * W :=
  let tctx := NewContext c (taskPrincipal (mkTask (tg_ref g) "" "" "" (mkCommand "" "" "" "" None "" "" 0 "" "" "" None None None None))) in
  let '(errs, cr', w') := IngestBatch grow dcap (bw_ing bw) (fst acc) clock tctx (tg_items g) (snd acc) in
  (cr', settleAll now tctx (tg_tickets g) errs w').

Definition batchLag (nowNano : Z) (batch : list (Delivery P)) (w : W) : W :=
  match bw_metrics bw, last batch with
  | Some set, Some d =>
      match lagDuration (default "" (mget AttrEnqueuedAt (msg_Attrs (d_Message d)))) nowNano with
      | Some lag => set (bo_QueueName (bw_opts bw)) lag w
      | None => w
      end
  | _, _ => w
  end.

(** [BatchWorker.flush]: the groups in turn, then every delivery is acknowledged. *)
Definition flush (clock : nat -> time) (now nowNano : Z) (c : ctx) (batch : list (Delivery P)) (r : running (W := W) (P := P)) : running (W := W) (P := P) :=
  let '(cr', w') := fold_left (fun acc g => flushGroup clock now c (snd g) acc) (group batch) (rn_cfg r, rn_world r) in
  mkRunning (fold_left (fun q d => QAck d q) batch (rn_queue r)) cr' (batchLag nowNano batch w').
End BatchWorker.

Arguments mkBatchWorker {W}.
Arguments bw_ing {W}.
Arguments bw_tickets {W}.
Arguments bw_metrics {W}.
Arguments bw_opts {W}.

(** ** The fast path from acceptance to flush (internal/worker/batch.go runShard, internal/queue/memory)

    The publishers of one process, the pumps of the memory queue and the shard loops of
    the batch worker as a step relation over the shared queue, with the two ways a loop
    ends on shutdown: the cancelled context, on which it flushes its buffer, and the
    closed channel, on which it does not.  A [select] with several ready cases takes any. *)

Section Fast.
Context {W P : Type} `{TaskCodec P} `{TicketStore W}.
Context `{EventRepository W} `{CurrentRepository W} `{SnapshotRepository W} `{CollectionRepository W}.
Variables grow dcap : nat -> nat.
Variable errorText : err -> string.
Variable bw : BatchWorker (W := W).

Abbreviation size := (bo_Size (bw_opts bw)).
Abbreviation flush := (Batch.flush grow dcap errorText bw).

Inductive fevent := FAccepted (d : Delivery P) | FFlushed (sh : Z) (batch : list (Delivery P)) | FDropped (d : Delivery P) | FCancelled (sh : Z) | FChannelClosed (sh : Z).

(** The buffers by shard; which loops and which pumps still run; the queue and the rest. *)
Record fstate := mkFState { fa_bufs : Z -> list (Delivery P); fa_live : Z -> bool; fa_pump : Z -> bool; fa_run : running (W := W) (P := P) }.

Definition set {A} (f : Z -> A) (sh : Z) (x : A) : Z -> A := fun s => if (s =? sh)%Z then x else f s.

Definition onQueue (r : running (W := W) (P := P)) (q : queue P) : running := mkRunning q (rn_cfg r) (rn_world r).

(** [flush] of [runShard]: nothing on an empty buffer. *)
Definition flushed (clock : nat -> time) (now nowNano : Z) (c : ctx) (buf : list (Delivery P)) (r : running) : running := match buf with [] => r | _ => flush clock now nowNano c buf r end.
Definition flushEvents (sh : Z) (buf : list (Delivery P)) : list fevent := match buf with [] => [] | _ => [FFlushed sh buf] end.

Definition shardOf (s : fstate) (sh : Z) : Prop := (0 <= sh < q_shards (rn_queue (fa_run s)))%Z.

Inductive fstep (s : fstate) : list fevent -> fstate -> Prop :=
| fs_publish msg d q : QPublish msg (rn_queue (fa_run s)) = Some (Ok d, q) -> fstep s [FAccepted d] (mkFState (fa_bufs s) (fa_live s) (fa_pump s) (onQueue (fa_run s) q))
| fs_buffer now sh d q : shardOf s sh -> fa_live s sh = true -> fa_pump s sh = true -> QNext now sh (rn_queue (fa_run s)) = Some (d, q) ->
    (Z.of_nat (length (fa_bufs s sh ++ [d])) < size)%Z -> fstep s [] (mkFState (set (fa_bufs s) sh (fa_bufs s sh ++ [d])) (fa_live s) (fa_pump s) (onQueue (fa_run s) q))
| fs_full clock now nowNano c sh d q : shardOf s sh -> fa_live s sh = true -> fa_pump s sh = true -> QNext now sh (rn_queue (fa_run s)) = Some (d, q) ->
    (size <= Z.of_nat (length (fa_bufs s sh ++ [d])))%Z ->
    fstep s [FFlushed sh (fa_bufs s sh ++ [d])] (mkFState (set (fa_bufs s) sh []) (fa_live s) (fa_pump s) (flush clock now nowNano c (fa_bufs s sh ++ [d]) (onQueue (fa_run s) q)))
| fs_linger clock now nowNano c sh : shardOf s sh -> fa_live s sh = true ->
    fstep s (flushEvents sh (fa_bufs s sh)) (mkFState (set (fa_bufs s) sh []) (fa_live s) (fa_pump s) (flushed clock now nowNano c (fa_bufs s sh) (fa_run s)))
| fs_drop now sh d q : shardOf s sh -> fa_pump s sh = true -> QNext now sh (rn_queue (fa_run s)) = Some (d, q) ->   (* the pump stops with a message in hand *)
    fstep s [FDropped d] (mkFState (fa_bufs s) (fa_live s) (set (fa_pump s) sh false) (onQueue (fa_run s) q))
| fs_pumpEnds sh : fstep s [] (mkFState (fa_bufs s) (fa_live s) (set (fa_pump s) sh false) (fa_run s))
| fs_cancelled clock now nowNano c sh : shardOf s sh -> fa_live s sh = true ->
    fstep s (flushEvents sh (fa_bufs s sh) ++ [FCancelled sh]) (mkFState (set (fa_bufs s) sh []) (set (fa_live s) sh false) (fa_pump s) (flushed clock now nowNano c (fa_bufs s sh) (fa_run s)))
| fs_channelClosed sh : shardOf s sh -> fa_live s sh = true -> fa_pump s sh = false -> fstep s [FChannelClosed sh] (mkFState (fa_bufs s) (set (fa_live s) sh false) (fa_pump s) (fa_run s))
| fs_close : fstep s [] (mkFState (fa_bufs s) (fa_live s) (fa_pump s) (onQueue (fa_run s) (QClose (rn_queue (fa_run s))))).

Inductive frun (s0 : fstate) : list fevent -> fstate -> Prop :=
| frun_nil : frun s0 [] s0
| frun_snoc evs s es s' : frun s0 evs s -> fstep s es s' -> frun s0 (evs ++ es) s'.

Definition startFast (n : Z) (cr : ConfigResolver) (w : W) : fstate := mkFState (fun _ => []) (fun _ => true) (fun _ => true) (mkRunning (New n) cr w).

(** What the events say of a shard. *)
Definition acceptedOn (sh : Z) (evs : list fevent) : list (Delivery P) := flat_map (fun e => match e with FAccepted d => if (d_Shard d =? sh)%Z then [d] else [] | _ => [] end) evs.
Definition flushedOn (sh : Z) (evs : list fevent) : list (Delivery P) := flat_map (fun e => match e with FFlushed s b => if (s =? sh)%Z then b else [] | _ => [] end) evs.
Definition droppedOn (sh : Z) (evs : list fevent) : list (Delivery P) := flat_map (fun e => match e with FDropped d => if (d_Shard d =? sh)%Z then [d] else [] | _ => [] end) evs.

(** ** The invariant *)

(** The queue's own run, with what it has seen of every shard. *)
Record finv (n : Z) (evs : list fevent) (s : fstate) (tr : list (qevent P)) : Prop := {
  fi_run : qrun (New n) tr (rn_queue (fa_run s));
  fi_accepted : forall sh, publishedOn sh tr = acceptedOn sh evs;
  fi_delivered : forall sh, shardOf s sh -> deliveredOn sh tr = flushedOn sh evs ++ fa_bufs s sh ++ droppedOn sh evs;
  fi_dropped : forall sh, fa_pump s sh = true -> droppedOn sh evs = [];
  fi_acked : forall d, In (EAcked d) tr -> In d (flushedOn (d_Shard d) evs);
  fi_batches : forall sh b, In (FFlushed sh b) evs -> b <> [] /\ (Z.of_nat (length b) <= size)%Z;
  fi_nshards : q_shards (rn_queue (fa_run s)) = Z.max n 1 }.

Lemma step_shards (q q' : queue P) e : qstep q e q' -> q_shards q' = q_shards q.
Proof.
  intros [msg q1 d q2 E|msg q1 x q2 E|now sh q1 d q2 _ E|d q1 _|now mi sh q1 ds ds' q2 _ E _|q1]; try done.
  - unfold QPublish in E. destruct (q_closed q1); [done|]. destruct (_ <? _)%nat; [|done]. by injection E as _ <-.
  - unfold QPublish in E. destruct (q_closed q1); [by injection E as _ <-|]. by destruct (_ <? _)%nat.
  - unfold QNext in E. destruct (chanOf q1 sh); [done|]. injection E as _ <-. by destruct (q_closed q1).
  - by injection E as _ <-.
Qed.

Lemma acks_run n tr (q : queue P) buf : qrun (New n) tr q -> (forall d, In d buf -> inRangeQ q (d_Shard d)) -> qrun (New n) (tr ++ map EAcked buf) (fold_left (fun q d => QAck d q) buf q).
Proof.
  revert tr q. induction buf as [|d buf IH]; intros tr q Hr Hd; [by rewrite app_nil_r|]. cbn [map fold_left]. change (EAcked d :: map EAcked buf) with ([EAcked d] ++ map EAcked buf). rewrite app_assoc.
  apply IH; [|intros d' ?; apply (Hd d'); by right]. eapply qrun_snoc; [done|]. apply qs_ack, Hd. by left.
Qed.

Lemma acks_quiet sh (buf : list (Delivery P)) : publishedOn sh (map EAcked buf) = [] /\ deliveredOn sh (map EAcked buf) = [].
Proof. induction buf as [|d buf [IH1 IH2]]; done. Qed.

Lemma flush_queue clock now nowNano c buf r : rn_queue (flush clock now nowNano c buf r) = fold_left (fun q d => QAck d q) buf (rn_queue r).
Proof. unfold Batch.flush. by destruct (fold_left _ _ _). Qed.

Lemma flushed_queue clock now nowNano c buf r : rn_queue (flushed clock now nowNano c buf r) = fold_left (fun q d => QAck d q) buf (rn_queue r).
Proof. unfold flushed. destruct buf; [done|apply flush_queue]. Qed.

Lemma offers_app sh (tr tr' : list (qevent P)) : publishedOn sh (tr ++ tr') = publishedOn sh tr ++ publishedOn sh tr'. Proof. apply flat_map_app. Qed.
Lemma delivered_app sh (tr tr' : list (qevent P)) : deliveredOn sh (tr ++ tr') = deliveredOn sh tr ++ deliveredOn sh tr'. Proof. apply flat_map_app. Qed.
Lemma accepted_app sh evs es : acceptedOn sh (evs ++ es) = acceptedOn sh evs ++ acceptedOn sh es. Proof. apply flat_map_app. Qed.
Lemma flushed_app sh evs es : flushedOn sh (evs ++ es) = flushedOn sh evs ++ flushedOn sh es. Proof. apply flat_map_app. Qed.
Lemma dropped_app sh evs es : droppedOn sh (evs ++ es) = droppedOn sh evs ++ droppedOn sh es. Proof. apply flat_map_app. Qed.

Lemma flush_events sh buf s : flushedOn s (flushEvents sh buf) = (if (sh =? s)%Z then buf else []) /\ acceptedOn s (flushEvents sh buf) = [] /\ droppedOn s (flushEvents sh buf) = [].
Proof. unfold flushEvents. destruct buf as [|d buf]; cbn; [by destruct (sh =? s)%Z|]. rewrite app_nil_r. done. Qed.

Lemma set_same_at {A} (f : Z -> A) sh x : set f sh x sh = x. Proof. unfold set. by rewrite Z.eqb_refl. Qed.
Lemma set_other {A} (f : Z -> A) sh s x : s <> sh -> set f sh x s = f s. Proof. intros Hne. unfold set. apply Z.eqb_neq in Hne. by rewrite Hne. Qed.

(** A delivery handed over: to the buffer, or to a pump that stops. *)
Lemma inv_next n evs s tr now sh d q : finv n evs s tr -> shardOf s sh -> QNext now sh (rn_queue (fa_run s)) = Some (d, q) ->
  qrun (New n) (tr ++ [EDelivered d]) q /\ q_shards q = q_shards (rn_queue (fa_run s)) /\ d_Shard d = sh.
Proof.
  intros Hi Hs E. pose proof (qs_deliver now sh _ d q Hs E) as Hstep. split_and!; [by eapply qrun_snoc; [apply Hi|]|by eapply step_shards|].
  pose proof (qinv_run _ _ _ (fi_run _ _ _ _ Hi)) as Hq. unfold QNext in E. destruct (chanOf (rn_queue (fa_run s)) sh) as [|x rest] eqn:Ec; [done|]. injection E as <- _. apply (qi_home _ _ Hq sh); [done|]. rewrite Ec. by left.
Qed.

(** The buffer of a shard is acknowledged and emptied; [tr1] is the queue's run so far,
    the buffer what was handed over since the last flush. *)
Lemma inv_flush n evs s tr buf r' sh live : finv n evs s tr -> shardOf s sh -> fa_bufs s sh = buf ->
  rn_queue r' = fold_left (fun q d => QAck d q) buf (rn_queue (fa_run s)) -> (Z.of_nat (length buf) <= size)%Z ->
  finv n (evs ++ flushEvents sh buf) (mkFState (set (fa_bufs s) sh []) live (fa_pump s) r') (tr ++ map EAcked buf).
Proof.
  intros Hi Hs Hb Hq Hsz. destruct Hi as [I1 I2 I3 I4 I5 I6 I8].
  assert (forall d, In d buf -> In d (deliveredOn sh tr)) as Hbuf by (intros d Hd; rewrite I3, Hb by done; apply in_app_iff; right; apply in_app_iff; by left).
  assert (qrun (New n) (tr ++ map EAcked buf) (rn_queue r')) as Hrun by (rewrite Hq; apply acks_run; [done|]; intros d Hd; rewrite (deliveredOn_shard sh tr d (Hbuf d Hd)); exact Hs).
  assert (q_shards (rn_queue r') = q_shards (rn_queue (fa_run s))) as Hn by (rewrite Hq; clear; generalize (rn_queue (fa_run s)); induction buf as [|d buf IH]; intros q; [done|]; cbn [fold_left]; by rewrite IH).
  split; cbn [fa_bufs fa_live fa_pump fa_run]; unfold shardOf; cbn [fa_run]; rewrite ?Hn; [done| | | | | |congruence].
  - intros s'. rewrite offers_app, accepted_app. destruct (acks_quiet s' buf) as [-> _]. destruct (flush_events sh buf s') as (_ & -> & _). by rewrite !app_nil_r.
  - intros s' Hs'. specialize (I3 s' Hs'). rewrite delivered_app, flushed_app, dropped_app. destruct (acks_quiet s' buf) as [_ ->]. destruct (flush_events sh buf s') as (-> & _ & ->). rewrite !app_nil_r, I3.
    destruct (Z.eqb_spec sh s') as [->|Hne]; [by rewrite set_same_at, Hb, <- app_assoc|by rewrite set_other by congruence; rewrite app_nil_r].
  - intros s' Hp. rewrite dropped_app. destruct (flush_events sh buf s') as (_ & _ & ->). rewrite app_nil_r. by apply I4.
  - intros d [Hd|(d' & [= ->] & Hd)%in_map_iff]%in_app_iff; rewrite flushed_app, in_app_iff; [left; by apply I5|right].
    destruct (flush_events sh buf (d_Shard d)) as (-> & _). rewrite (deliveredOn_shard sh tr d (Hbuf d Hd)), Z.eqb_refl. done.
  - intros s' b [Hb'|Hb']%in_app_iff; [by apply (I6 s')|]. unfold flushEvents in Hb'. destruct buf as [|d buf]; [done|]. destruct Hb' as [[= <- <-]|[]]. split; done.
Qed.

(** A step of the queue that neither publishes nor delivers, or that the events describe. *)
Lemma inv_queue n evs s tr es qes bufs live pump r' : finv n evs s tr -> qrun (New n) (tr ++ qes) (rn_queue r') -> q_shards (rn_queue r') = q_shards (rn_queue (fa_run s)) ->
  (forall sh, publishedOn sh qes = acceptedOn sh es /\ flushedOn sh es = [] /\ (shardOf s sh -> fa_bufs s sh ++ droppedOn sh evs ++ deliveredOn sh qes = bufs sh ++ droppedOn sh evs ++ droppedOn sh es) /\
     (pump sh = true -> fa_pump s sh = true /\ droppedOn sh es = [])) ->
  (forall d, ~ In (EAcked d) qes) -> (forall sh b, ~ In (FFlushed sh b) es) -> finv n (evs ++ es) (mkFState bufs live pump r') (tr ++ qes).
Proof.
  intros [I1 I2 I3 I4 I5 I6 I8] Hrun Hn Hev Hack Hfl. split; cbn [fa_bufs fa_live fa_pump fa_run]; unfold shardOf; cbn [fa_run]; rewrite ?Hn; [done| | | | | |congruence].
  - intros sh. destruct (Hev sh) as (Hp & _). by rewrite offers_app, accepted_app, I2, Hp.
  - intros sh Hs. destruct (Hev sh) as (_ & Hf & Hd & _). specialize (I3 sh Hs). rewrite delivered_app, flushed_app, dropped_app, I3, Hf, app_nil_r. rewrite <- !app_assoc. f_equal. by apply Hd.
  - intros sh Hp. destruct (Hev sh) as (_ & _ & _ & Hd). destruct (Hd Hp) as [Hp' Hd']. by rewrite dropped_app, (I4 sh Hp'), Hd'.
  - intros d [Hd|Hd]%in_app_iff; [|by destruct (Hack d)]. rewrite flushed_app, in_app_iff. left. by apply I5.
  - intros sh b [Hb|Hb]%in_app_iff; [by apply (I6 sh)|by destruct (Hfl sh b)].
Qed.

Lemma inv_buffer n evs s tr now sh d q : finv n evs s tr -> shardOf s sh -> fa_pump s sh = true -> QNext now sh (rn_queue (fa_run s)) = Some (d, q) ->
  finv n evs (mkFState (set (fa_bufs s) sh (fa_bufs s sh ++ [d])) (fa_live s) (fa_pump s) (onQueue (fa_run s) q)) (tr ++ [EDelivered d]).
Proof.
  intros Hi Hs Hp E. destruct (inv_next n evs s tr now sh d q Hi Hs E) as (Hrun & Hn & Hd). rewrite <- (app_nil_r evs). apply (inv_queue n evs s tr [] [EDelivered d]); [done|done|done| |by intros d' [?|[]]|by intros sh' b []].
  intros sh'. split; [done|]. split; [done|]. split; [|done]. intros _. cbn [droppedOn flat_map]. rewrite app_nil_r. unfold deliveredOn. cbn [flat_map]. rewrite Hd, app_nil_r. destruct (Z.eqb_spec sh sh') as [->|Hne].
  - by rewrite set_same_at, (fi_dropped _ _ _ _ Hi sh' Hp), app_nil_r.
  - by rewrite set_other, app_nil_r by congruence.
Qed.

Lemma inv_bufs n evs bufs bufs' live pump r tr : (forall sh, bufs' sh = bufs sh) -> finv n evs (mkFState bufs live pump r) tr -> finv n evs (mkFState bufs' live pump r) tr.
Proof. intros Hb [I1 I2 I3 I4 I5 I6 I8]. split; try done. intros sh Hs. cbn [fa_bufs]. rewrite Hb. by apply I3. Qed.

Lemma fast_step n evs s tr es s' : (1 <= size)%Z -> (forall sh, Z.of_nat (length (fa_bufs s sh)) < size)%Z -> finv n evs s tr -> fstep s es s' ->
  (exists tr', finv n (evs ++ es) s' tr') /\ forall sh, (Z.of_nat (length (fa_bufs s' sh)) < size)%Z.
Proof.
  intros Hsz Hbufs Hi Hstep. assert (forall sh0 x sh, (Z.of_nat (length x) < size)%Z -> (Z.of_nat (length (set (fa_bufs s) sh0 x sh)) < size)%Z) as Hset by (intros sh0 x sh Hx; unfold set; by destruct (sh =? sh0)%Z).
  destruct Hstep as [msg d q E|now sh d q Hs _ Hp E Hl|clock now nowNano c sh d q Hs _ Hp E Hl|clock now nowNano c sh Hs _|now sh d q Hs Hp E|sh|clock now nowNano c sh Hs _|sh Hs _ Hp|]; cbn [fa_bufs]; (split; [|try done; try (intros sh'; apply Hset; cbn; lia || done)]).
  - pose proof (qs_publish msg _ d q E) as Hq. exists (tr ++ [EPublished d]). apply (inv_queue n evs s); [done|by eapply qrun_snoc; [apply Hi|]|by eapply step_shards| |by intros d' [?|[]]|by intros sh b [?|[]]].
    intros sh. split; [done|]. split; [done|]. split; [intros _; cbn; by rewrite app_nil_r|done].
  - exists (tr ++ [EDelivered d]). rewrite app_nil_r. by apply (inv_buffer n evs s tr now sh d q).
  - eexists. pose proof (inv_buffer n evs s tr now sh d q Hi Hs Hp E) as Hi'. set (s1 := mkFState _ _ _ _) in Hi'. assert (fa_bufs s1 sh = fa_bufs s sh ++ [d]) as Eb by apply set_same_at.
    assert (shardOf s1 sh) as Hs1 by (unfold shardOf; cbn; destruct (inv_next n evs s tr now sh d q Hi Hs E) as (_ & -> & _); exact Hs).
    pose proof (inv_flush n evs s1 _ (fa_bufs s sh ++ [d]) (flush clock now nowNano c (fa_bufs s sh ++ [d]) (onQueue (fa_run s) q)) sh (fa_live s) Hi' Hs1 Eb (flush_queue _ _ _ _ _ _)) as Hf.
    assert (flushEvents sh (fa_bufs s sh ++ [d]) = [FFlushed sh (fa_bufs s sh ++ [d])]) as Ee by (unfold flushEvents; by destruct (fa_bufs s sh)). rewrite Ee in Hf.
    eapply (inv_bufs _ _ (set (fa_bufs s1) sh [])); [intros sh'; unfold s1, set; cbn; by destruct (sh' =? sh)%Z|]. apply Hf. specialize (Hbufs sh). rewrite length_app. cbn [length]. lia.
  - eexists. apply (inv_flush n evs s); [done|done|done|apply flushed_queue|specialize (Hbufs sh); lia].
  - destruct (inv_next n evs s tr now sh d q Hi Hs E) as (Hrun & Hn & Hd). exists (tr ++ [EDelivered d]). apply (inv_queue n evs s); [done|done|done| |by intros d' [?|[]]|by intros sh' b [?|[]]].
    intros sh'. split; [done|]. split; [done|]. split; [done|]. intros Hp'. unfold droppedOn. cbn [flat_map]. rewrite Hd. destruct (Z.eqb_spec sh sh') as [->|Hne]; [by rewrite set_same_at in Hp'|]. by rewrite set_other in Hp' by congruence.
  - exists tr. rewrite <- (app_nil_r tr). apply (inv_queue n evs s); [done|rewrite app_nil_r; apply Hi|done| |by intros d' []|by intros sh' b []]. intros sh'. split; [done|]. split; [done|]. split; [done|]. unfold set. by destruct (sh' =? sh)%Z.
  - assert (Z.of_nat (length (fa_bufs s sh)) <= size)%Z as Hle by (specialize (Hbufs sh); lia).
    pose proof (inv_flush n evs s tr (fa_bufs s sh) (flushed clock now nowNano c (fa_bufs s sh) (fa_run s)) sh (fa_live s) Hi Hs eq_refl (flushed_queue _ _ _ _ _ _) Hle) as Hf.
    eexists (_ ++ []). rewrite app_assoc. eapply inv_queue; [exact Hf|rewrite app_nil_r; apply Hf|done| |by intros d' []|by intros sh' b [?|[]]]. intros sh'. done.
  - exists tr. rewrite <- (app_nil_r tr). apply (inv_queue n evs s); [done|rewrite app_nil_r; apply Hi|done| |by intros d' []|by intros sh' b [?|[]]]. intros sh'. done.
  - exists (tr ++ [EClosed]). apply (inv_queue n evs s); [done|eapply qrun_snoc; [apply Hi|apply qs_close]|done| |by intros d' [?|[]]|by intros sh' b []]. intros sh'. done.
Qed.

(** A loop that ended on the cancelled context has flushed its buffer. *)
Lemma cancelled_step evs s es s' : (forall sh, In (FCancelled sh) evs -> fa_live s sh = false /\ fa_bufs s sh = []) -> fstep s es s' ->
  forall sh, In (FCancelled sh) (evs ++ es) -> fa_live s' sh = false /\ fa_bufs s' sh = [].
Proof.
  intros Hinv Hstep sh Hin.
  assert (forall sh0 buf, ~ In (FCancelled sh) (flushEvents sh0 buf)) as Hfe by (intros sh0 [|d buf]; cbn; [tauto|by intros [?|[]]]).
  assert (forall sh0 x, fa_live s sh0 = true -> In (FCancelled sh) evs -> fa_live s sh = false /\ set (fa_bufs s) sh0 x sh = []) as Hset.
  { intros sh0 x Hl He. destruct (Hinv sh He) as [Hl' Hb]. split; [done|]. rewrite set_other; [done|]. intros ->. congruence. }
  destruct Hstep as [msg d q E|now sh0 d q Hs Hl Hp E _|clock now nowNano c sh0 d q Hs Hl Hp E _|clock now nowNano c sh0 Hs Hl|now sh0 d q Hs Hp E|sh0|clock now nowNano c sh0 Hs Hl|sh0 Hs Hl Hp|]; cbn [fa_live fa_bufs]; rewrite ?app_nil_r in Hin.
  - apply in_app_iff in Hin as [He|[?|[]]]; [by apply Hinv|done].
  - by apply Hset.
  - apply in_app_iff in Hin as [He|[?|[]]]; [by apply Hset|done].
  - apply in_app_iff in Hin as [He|He]; [by apply Hset|by destruct (Hfe _ _ He)].
  - apply in_app_iff in Hin as [He|[?|[]]]; [by apply Hinv|done].
  - by apply Hinv.
  - rewrite !in_app_iff in Hin. unfold set at 1. destruct (Z.eqb_spec sh sh0) as [->|Hne]; [by rewrite set_same_at|]. destruct Hin as [He|[He|[[= ->]|[]]]]; [by apply Hset|by destruct (Hfe _ _ He)|done].
  - apply in_app_iff in Hin as [He|[?|[]]]; [|done]. destruct (Hinv sh He). unfold set. by destruct (sh =? sh0)%Z.
  - by apply Hinv.
Qed.

(** A pump ends once, with one message at most. *)
Lemma dropped_step n evs s tr es s' sh : finv n evs s tr -> (length (droppedOn sh evs) <= 1)%nat -> fstep s es s' -> (length (droppedOn sh (evs ++ es)) <= 1)%nat.
Proof.
  intros Hi Hl Hstep. rewrite dropped_app, length_app. assert (droppedOn sh es = [] \/ exists now sh0 d q, es = [FDropped d] /\ shardOf s sh0 /\ fa_pump s sh0 = true /\ QNext now sh0 (rn_queue (fa_run s)) = Some (d, q)) as [->|(now & sh0 & d & q & -> & Hs & Hp & E)]; [|cbn [length]; lia|].
  { destruct Hstep as [| | |clock now nowNano c sh0 Hs Hl'|now sh0 d q Hs Hp E| |clock now nowNano c sh0 Hs Hl'| |]; try (by left); [left; apply flush_events|right; by exists now, sh0, d, q|left]. rewrite dropped_app. destruct (flush_events sh0 (fa_bufs s sh0) sh) as (_ & _ & ->). done. }
  destruct (inv_next n evs s tr now sh0 d q Hi Hs E) as (_ & _ & Hd). unfold droppedOn at 2. cbn [flat_map]. rewrite Hd. destruct (Z.eqb_spec sh0 sh) as [->|]; [rewrite (fi_dropped _ _ _ _ Hi sh Hp)|]; cbn [app length]; lia.
Qed.

Lemma run_inv n cr w evs s : (1 <= size)%Z -> frun (startFast n cr w) evs s ->
  (exists tr, finv n evs s tr) /\ (forall sh, (Z.of_nat (length (fa_bufs s sh)) < size)%Z) /\ (forall sh, In (FCancelled sh) evs -> fa_live s sh = false /\ fa_bufs s sh = []) /\ forall sh, (length (droppedOn sh evs) <= 1)%nat.
Proof.
  intros Hsz. induction 1 as [|evs s es s' _ ([tr Hi] & Hb & Hc & Hd) Hs].
  - split; [|split_and!; [intros sh; cbn; lia|done|intros sh; cbn; lia]]. exists []. split; try done; first [apply qrun_nil | cbn; lia].
  - destruct (fast_step n evs s tr es s' Hsz Hb Hi Hs) as [? ?]. split_and!; [done|done|by eapply cancelled_step|intros sh; by eapply dropped_step].
Qed.

(** ** Scripts *)

(** One step by name, for running examples. *)
Inductive fcmd := CPublish (msg : Message P) | CReceive (sh : Z) | CLinger (sh : Z) | CDrop (sh : Z) | CCancel (sh : Z) | CChannelClosed (sh : Z).

Definition inShards (s : fstate) (sh : Z) : bool := ((0 <=? sh) && (sh <? q_shards (rn_queue (fa_run s))))%Z.

Definition fexec (now : time) (c : fcmd) (s : fstate) : option (list fevent * fstate) :=
  let clock := fun _ : nat => now in
  match c with
  | CPublish msg => match QPublish msg (rn_queue (fa_run s)) with Some (Ok d, q) => Some ([FAccepted d], mkFState (fa_bufs s) (fa_live s) (fa_pump s) (onQueue (fa_run s) q)) | _ => None end
  | CReceive sh =>
      match QNext now sh (rn_queue (fa_run s)) with
      | Some (d, q) =>
          if negb (inShards s sh && fa_live s sh && fa_pump s sh) then None
          else let buf := fa_bufs s sh ++ [d] in
            if (Z.of_nat (length buf) <? size)%Z then Some ([], mkFState (set (fa_bufs s) sh buf) (fa_live s) (fa_pump s) (onQueue (fa_run s) q))
            else Some ([FFlushed sh buf], mkFState (set (fa_bufs s) sh []) (fa_live s) (fa_pump s) (flush clock now now None buf (onQueue (fa_run s) q)))
      | None => None
      end
  | CLinger sh => if inShards s sh && fa_live s sh then Some (flushEvents sh (fa_bufs s sh), mkFState (set (fa_bufs s) sh []) (fa_live s) (fa_pump s) (flushed clock now now None (fa_bufs s sh) (fa_run s))) else None
  | CDrop sh => match QNext now sh (rn_queue (fa_run s)) with
                | Some (d, q) => if inShards s sh && fa_pump s sh then Some ([FDropped d], mkFState (fa_bufs s) (fa_live s) (set (fa_pump s) sh false) (onQueue (fa_run s) q)) else None
                | None => None
                end
  | CCancel sh => if inShards s sh && fa_live s sh
                  then Some (flushEvents sh (fa_bufs s sh) ++ [FCancelled sh], mkFState (set (fa_bufs s) sh []) (set (fa_live s) sh false) (fa_pump s) (flushed clock now now None (fa_bufs s sh) (fa_run s))) else None
  | CChannelClosed sh => if inShards s sh && fa_live s sh && negb (fa_pump s sh) then Some ([FChannelClosed sh], mkFState (fa_bufs s) (set (fa_live s) sh false) (fa_pump s) (fa_run s)) else None
  end.

Lemma fexec_sound now c s es s' : fexec now c s = Some (es, s') -> fstep s es s'.
Proof.
  assert (forall sh, inShards s sh = true -> shardOf s sh) as Hsh by (intros sh [?%Z.leb_le ?%Z.ltb_lt]%andb_true_iff; by split).
  destruct c as [msg|sh|sh|sh|sh|sh]; cbn [fexec].
  - destruct (QPublish msg _) as [[[d|e] q]|] eqn:E; [|done..]. intros [= <- <-]. by eapply fs_publish.
  - destruct (QNext now sh _) as [[d q]|] eqn:E; [|done]. destruct (inShards s sh && fa_live s sh && fa_pump s sh) eqn:Eg; [|done]. cbn [negb]. apply andb_true_iff in Eg as [[G1 G2]%andb_true_iff G3].
    destruct (Z.ltb_spec (Z.of_nat (length (fa_bufs s sh ++ [d]))) size); intros [= <- <-]; [by eapply fs_buffer; [apply Hsh|..]|by eapply fs_full; [apply Hsh|..]].
  - destruct (inShards s sh && fa_live s sh) eqn:Eg; [|done]. apply andb_true_iff in Eg as [G1 G2]. intros [= <- <-]. by apply fs_linger; [apply Hsh|].
  - destruct (QNext now sh _) as [[d q]|] eqn:E; [|done]. destruct (inShards s sh && fa_pump s sh) eqn:Eg; [|done]. apply andb_true_iff in Eg as [G1 G2]. intros [= <- <-]. by eapply fs_drop; [apply Hsh|..].
  - destruct (inShards s sh && fa_live s sh) eqn:Eg; [|done]. apply andb_true_iff in Eg as [G1 G2]. intros [= <- <-]. by apply fs_cancelled; [apply Hsh|].
  - destruct (inShards s sh && fa_live s sh && negb (fa_pump s sh)) eqn:Eg; [|done]. apply andb_true_iff in Eg as [[G1 G2]%andb_true_iff G3%negb_true_iff]. intros [= <- <-]. by apply fs_channelClosed; [apply Hsh|..].
Qed.

Fixpoint fscript (now : time) (cs : list fcmd) (es : list fevent) (s : fstate) : option (list fevent * fstate) :=
  match cs with
  | [] => Some (es, s)
  | c :: cs' => match fexec now c s with Some (es', s') => fscript now cs' (es ++ es') s' | None => None end
  end.

Lemma fscript_sound now s0 cs : forall es s es' s', frun s0 es s -> fscript now cs es s = Some (es', s') -> frun s0 es' s'.
Proof.
  induction cs as [|c cs IH]; intros es s es' s' Hr; cbn [fscript]; [by intros [= <- <-]|]. destruct (fexec now c s) as [[es1 s1]|] eqn:E; [|done]. apply IH. eapply frun_snoc; [done|]. by eapply fexec_sound.
Qed.

(** C18: Where an accepted fast write is.  In any run of the publishers, the pumps and the
    shard loops of one process, with any timers, and with any order in which the loops
    and pumps end on shutdown: the writes accepted on a shard are, in order, those that
    were flushed, those in the shard's buffer, at most one its pump had in hand when it
    ended, and those still in the queue's channel.  Batches are not empty and never larger
    than the configured size, a running loop's buffer is below it, and a loop that ended
    on the cancelled context has left no buffer behind.  What a shutdown loses is thus the
    channel, the message in hand, and the buffer of a loop that found its channel closed
    first. *)
Theorem fast_fate (n : Z) (cr : ConfigResolver) (w : W) (evs : list fevent) (s : fstate) :
  (1 <= size)%Z -> frun (startFast n cr w) evs s ->
  forall sh, (0 <= sh < Z.max n 1)%Z ->
    acceptedOn sh evs = flushedOn sh evs ++ fa_bufs s sh ++ droppedOn sh evs ++ chanOf (rn_queue (fa_run s)) sh /\
    (fa_pump s sh = true -> droppedOn sh evs = []) /\ (length (droppedOn sh evs) <= 1)%nat /\
    (forall b, In (FFlushed sh b) evs -> b <> [] /\ (Z.of_nat (length b) <= size)%Z) /\
    (Z.of_nat (length (fa_bufs s sh)) < size)%Z /\ (In (FCancelled sh) evs -> fa_bufs s sh = []).
Proof.
  intros Hsz Hrun sh Hs. destruct (run_inv n cr w evs s Hsz Hrun) as ([tr [I1 I2 I3 I4 I5 I6 I8]] & Hb & Hc & Hd).
  assert (inRangeQ (rn_queue (fa_run s)) sh) as Hr by (unfold inRangeQ; by rewrite I8). pose proof (qi_fifo _ _ (qinv_run _ _ _ I1) sh Hr) as Hf. rewrite I2, I3 in Hf by exact Hr.
  split_and!; [by rewrite Hf, <- !app_assoc|apply I4|apply Hd|apply I6|apply Hb|intros He; by apply Hc].
Qed.
End Fast.

(** One shard, batches of two: two writes are flushed, then the pump ends with the fourth
    in hand, and the loop finds its channel closed with the third in its buffer. *)
Definition fastWorker : BatchWorker (W := asyncMem) := mkBatchWorker ex_sync true None (batchDefaults (mkBatchOptions 2 0 "fast")).
Definition fastMsg (eid : string) : Message Task := mkMessage ("acme|crm.deals|" +:+ eid) (mkTask (mkTenantRef "acme" "" "") KindState ReliabilityFast "" (ex_acmd eid "" ReliabilityFast)) [].
Definition fastScript : list (fcmd (P := Task)) := map (fun e => CPublish (fastMsg e)) ["a"; "b"; "c"; "d"; "e"] ++ [CReceive 0; CReceive 0; CReceive 0; CDrop 0; CChannelClosed 0].
Definition fastEnd : option (list fevent * fstate) := fscript (fun n => (2 * n)%nat) id (fun _ => "failed") fastWorker 9 fastScript [] (startFast 1 (NewConfigResolver true 0) am0).

Lemma fast_view : option_map (fun es => (map d_ID (acceptedOn 0 (fst es)), (map d_ID (flushedOn 0 (fst es)), map d_ID (fa_bufs (snd es) 0), map d_ID (droppedOn 0 (fst es)), map d_ID (chanOf (rn_queue (fa_run (snd es))) 0)))) fastEnd =
  Some (["1"; "2"; "3"; "4"; "5"], (["1"; "2"], ["3"], ["4"], ["5"])).
Proof. vm_compute. reflexivity. Qed.

Lemma fast_reached evs s : fastEnd = Some (evs, s) -> frun (fun n => (2 * n)%nat) id (fun _ => "failed") fastWorker (startFast 1 (NewConfigResolver true 0) am0) evs s.
Proof. unfold fastEnd. intros E. eapply fscript_sound; [apply frun_nil|exact E]. Qed.

Lemma fast_fate_witness : exists evs s, fastEnd = Some (evs, s) /\ map d_ID (acceptedOn 0 evs) = ["1"; "2"; "3"; "4"; "5"] /\
  acceptedOn 0 evs = flushedOn 0 evs ++ fa_bufs s 0 ++ droppedOn 0 evs ++ chanOf (rn_queue (fa_run s)) 0 /\
  (map d_ID (flushedOn 0 evs), map d_ID (fa_bufs s 0), map d_ID (droppedOn 0 evs), map d_ID (chanOf (rn_queue (fa_run s)) 0)) = (["1"; "2"], ["3"], ["4"], ["5"]).
Proof.
  pose proof fast_view as Hv. pose proof fast_reached as Hr. destruct fastEnd as [[evs s]|]; [|discriminate Hv]. exists evs, s. split; [reflexivity|]. cbn [option_map fst snd] in Hv. injection Hv as H1 H2 H3 H4 H5.
  split; [exact H1|]. split; [|rewrite H2, H3, H4, H5; reflexivity].
  assert (1 <= bo_Size (bw_opts fastWorker))%Z as Hsz by (vm_compute; discriminate). assert (0 <= 0 < Z.max 1 1)%Z as Hsh by (split; reflexivity || discriminate).
  exact (proj1 (fast_fate (fun n => (2 * n)%nat) id (fun _ => "failed") fastWorker 1 (NewConfigResolver true 0) am0 evs s Hsz (Hr evs s eq_refl) 0%Z Hsh)).
Defined.
