(* ===== verification/BatchSound.v ===== *)
(** * Batches keep the materializations honest

    The invariant of the fold: the state an entity has in the batch is what replaying its
    stored history followed by the events planned for it gives.  From it, a batch whose
    insert succeeds leaves every entity of the collection consistent. *)

From stdpp Require Import base list strings gmap.
From Stdlib Require Import ZArith Lia.
From S2P Require Import Prelude GoMap Json Paths Diff DiffSound Domain Tenant Config Alias AliasSound Repo Plugin Ingest DiffValues IngestSound MemStore Pipeline PipelineSound AsyncMem Numbers Queue Worker WorkerSound Batch.

(** ** Histories that replay alike *)

Definition sameEffect (a b : Event) : Prop :=
  ev_Version b = ev_Version a /\ ev_Op b = ev_Op a /\ ev_Changes b = ev_Changes a.

Lemma sameEffect_refl a : sameEffect a a.
Proof. by split_and!. Qed.

Lemma sameEffects_refl l : Forall2 sameEffect l l.
Proof. induction l; constructor; [apply sameEffect_refl|done]. Qed.

Lemma replay_same (l l' : list Event) : Forall2 sameEffect l l' ->
  forall work report deleted, replay work report deleted l' = replay work report deleted l.
Proof.
  induction 1 as [|a b l l' (_ & Eo & Ec) _ IH]; intros work report deleted; [done|]. cbn. rewrite Eo, Ec.
  destruct (str_eqb (ev_Op a) OpDelete); [apply IH|]. destruct (Apply _ _); [apply IH|done].
Qed.

Lemma reconstruct_same (l l' : list Event) : Forall2 sameEffect l l' -> Reconstruct None false l' = Reconstruct None false l.
Proof. intros Hf. unfold Reconstruct. by apply replay_same. Qed.

Lemma sameEffect_versions (l l' : list Event) : Forall2 sameEffect l l' -> map ev_Version l' = map ev_Version l.
Proof. induction 1 as [|a b l l' (Ev & _) _ IH]; cbn; [done|]. by rewrite Ev, IH. Qed.

Lemma gapfree_same (l l' : list Event) : Forall2 sameEffect l l' -> gapfree l -> gapfree l'.
Proof. unfold gapfree. intros Hf Hg. by rewrite (sameEffect_versions _ _ Hf), Hg, (Forall2_length _ _ _ Hf). Qed.

Lemma snapOK_same (l l' : list Event) s : Forall2 sameEffect l l' -> snapOK l s -> snapOK l' s.
Proof.
  intros Hf (n & Hn & Hv & Hr). exists n. rewrite <- (Forall2_length _ _ _ Hf). split_and!; [lia|lia|done|].
  rewrite <- Hr. apply reconstruct_same. by apply Forall2_take.
Qed.

(** The same view of the current state. *)
Definition sameCur (a b : option CurrentState) : Prop :=
  match a, b with
  | None, None => True
  | Some a, Some b => cs_Version b = cs_Version a /\ cs_Deleted b = cs_Deleted a /\ cs_State b = cs_State a
  | _, _ => False
  end.

Lemma sameCur_refl a : sameCur a a.
Proof. by destruct a. Qed.

Lemma consistent_ext hist hist' cur cur' snaps snaps' : Forall2 sameEffect hist hist' -> sameCur cur cur' ->
  Forall (snapOK hist) snaps' -> consistentData hist cur snaps -> consistentData hist' cur' snaps'.
Proof.
  intros Hf Hc Hs' (Hg & Hv & Hn & Hcl & Hr & Hs).
  assert (viewOf cur' = viewOf cur /\ snd (baseState cur') = snd (baseState cur) /\ (cur' = None <-> cur = None)) as (Ev & Eb & En).
  { destruct cur as [a|], cur' as [b|]; try done. destruct Hc as (E1 & E2 & E3). cbn. rewrite E1, E2, E3. destruct (cs_Deleted a); by split_and!. }
  unfold consistentData. rewrite Ev, Eb, En, (reconstruct_same _ _ Hf). split_and!; try done.
  - by eapply gapfree_same.
  - by rewrite <- (Forall2_length _ _ _ Hf).
  - rewrite Hn. split; intros ->; [by inversion Hf|by inversion Hf].
  - eapply Forall_impl; [exact Hs'|]. intros s. by apply snapOK_same.
Qed.

(** ** The fold *)

Definition evsOf (eid : string) (s : foldState) : list Event :=
  List.filter (fun ev => str_eqb (ev_EntityID ev) eid) (map snd (fo_events s)).

Lemma evsOf_push k eid v ev st del s eid' :
  evsOf eid' (pushEvent k eid v ev st del s) = evsOf eid' s ++ (if str_eqb (ev_EntityID ev) eid' then [ev] else []).
Proof. unfold evsOf, pushEvent. cbn. rewrite map_app, List.filter_app. cbn. by destruct (str_eqb (ev_EntityID ev) eid'). Qed.

(** A candidate describes one of the entity's versions. *)
Definition candidateOK (hist : list Event) (s : snapCandidate) : Prop :=
  clean (JObj (emptyIfNil (sc_state s))) = true /\
  snapOK hist (mkSnapshot (sc_entityID s) (sc_version s) (sc_ts s) (sc_deleted s) (sc_state s)).

Lemma planFaithful_same cur a b st del : ev_Op b = ev_Op a -> ev_Changes b = ev_Changes a ->
  planFaithful cur a st del -> planFaithful cur b st del.
Proof. unfold planFaithful. by intros -> ->. Qed.

Section Fold.
Context {W : Type} `{StoreLaws W} `{CollectionRepository W}.
Variables (grow dcap : nat -> nat) (ing : Ingester W) (c : ctx) (coll : string) (w : W).
Implicit Types (s : foldState) (eid : string).

Abbreviation hist0 := (history w c coll).

Definition curAt s eid : option CurrentState := default (currentOf w c coll eid) (mget eid (fo_running s)).

Record foldInv s : Prop := {
  fi_data : forall eid, consistentData (hist0 eid ++ evsOf eid s) (curAt s eid) (snapsOf w c coll eid);
  fi_none : forall eid, mget eid (fo_finals s) = None -> evsOf eid s = [] /\ curAt s eid = currentOf w c coll eid;
  fi_some : forall eid st, mget eid (fo_finals s) = Some st ->
    curAt s eid = Some st /\ cs_EntityID st = eid /\ clean (JObj (emptyIfNil (cs_State st))) = true;
  fi_order : forall eid, In eid (fo_finalOrder s) <-> mget eid (fo_finals s) <> None;
  fi_snaps : Forall (fun sc => candidateOK (hist0 (sc_entityID sc) ++ evsOf (sc_entityID sc) s) sc) (fo_snaps s);
  fi_wire : Forall (fun ev => Forall (fun ch => wire_json (Old ch) = true /\ wire_json (Diff.New ch) = true) (ev_Changes ev)) (map snd (fo_events s)) }.

Lemma foldInv_start errs : (forall eid, consistent w c coll eid) -> foldInv (fold0 errs).
Proof.
  intros Hc. constructor; cbn; try done.
  intros eid. rewrite app_nil_r. apply Hc.
Qed.

(** Only the errors, or what is remembered of an entity, change. *)
Lemma foldInv_frame s s' : fo_events s' = fo_events s -> fo_finals s' = fo_finals s -> fo_finalOrder s' = fo_finalOrder s ->
  fo_snaps s' = fo_snaps s -> (forall eid, curAt s' eid = curAt s eid) -> foldInv s -> foldInv s'.
Proof.
  intros E1 E2 E3 E4 E5 [Hd Hn Hs Ho Hsn Hw].
  assert (forall eid, evsOf eid s' = evsOf eid s) as Ee by (intros eid; unfold evsOf; by rewrite E1).
  constructor; rewrite ?E1, ?E2, ?E3, ?E4; intros; rewrite ?Ee, ?E5; auto.
  eapply Forall_impl; [exact Hsn|]. intros sc. cbn. by rewrite Ee.
Qed.

Lemma foldInv_push k eid ev st del s : foldInv s -> planFaithful (curAt s eid) ev st del -> ev_EntityID ev = eid ->
  ev_Version ev = nextVersion (curAt s eid) -> foldInv (pushEvent k eid (nextVersion (curAt s eid)) ev st del s).
Proof.
  intros [Hd Hn Hs Ho Hsn Hw] Hpf Eeid Ever. set (s' := pushEvent _ _ _ _ _ _ _).
  set (next := mkCurrentState eid (nextVersion (curAt s eid)) (ev_TSReceived ev) del st).
  assert (forall eid', eid' <> eid -> curAt s' eid' = curAt s eid') as Hother.
  { intros eid' Hne. unfold curAt, s', pushEvent. cbn. by rewrite mget_mset_ne by done. }
  assert (curAt s' eid = Some next) as Hself by (unfold curAt, s', pushEvent; cbn; by rewrite mget_mset_eq).
  assert (forall eid', eid' <> eid -> evsOf eid' s' = evsOf eid' s) as Heo.
  { intros eid' Hne. unfold s'. rewrite evsOf_push, Eeid. apply not_eq_sym, str_eqb_neq in Hne. by rewrite Hne, app_nil_r. }
  assert (evsOf eid s' = evsOf eid s ++ [ev]) as Hes by (unfold s'; by rewrite evsOf_push, Eeid, str_eqb_refl).
  assert (nextVersion (curAt s eid) = (lastVersionOf (hist0 eid ++ evsOf eid s) + 1)%Z) as Hnv.
  { destruct (Hd eid) as (Hg & Hbv & Hnil & _). rewrite (gapfree_last _ Hg). destruct (curAt s eid) as [st0|] eqn:Ec; cbn in *.
    - destruct (cs_Deleted st0); cbn in Hbv; lia.
    - apply proj1 in Hnil. rewrite Hnil by done. done. }
  assert (consistentData (hist0 eid ++ evsOf eid s') (curAt s' eid) (snapsOf w c coll eid)) as Hdata.
  { rewrite Hself, Hes, app_assoc. eapply consistent_snoc; [apply Hd|exact Hpf|congruence|done|done|done|done|done]. }
  constructor.
  - intros eid'. destruct (decide (eid' = eid)) as [->|Hne]; [exact Hdata|]. rewrite Heo, Hother by done. apply Hd.
  - intros eid'. unfold s' at 1, pushEvent. cbn [fo_finals]. destruct (decide (eid' = eid)) as [->|Hne]; [by rewrite mget_mset_eq|].
    rewrite mget_mset_ne by done. intros Hf. rewrite Heo, Hother by done. by apply Hn.
  - intros eid' st'. unfold s' at 1, pushEvent. cbn [fo_finals]. destruct (decide (eid' = eid)) as [->|Hne].
    + rewrite mget_mset_eq. intros [= <-]. rewrite Hself. split_and!; [done|done|]. apply Hpf.
    + rewrite mget_mset_ne by done. rewrite Hother by done. apply Hs.
  - intros eid'. unfold s', pushEvent. cbn [fo_finals fo_finalOrder]. destruct (decide (eid' = eid)) as [->|Hne].
    + rewrite mget_mset_eq. split; [done|]. intros _. destruct (mget eid (fo_finals s)) eqn:Ef; [apply Ho; by rewrite Ef|].
      apply in_app_iff. right. by left.
    + rewrite mget_mset_ne by done. rewrite <- Ho. destruct (mget eid (fo_finals s)); [done|]. rewrite in_app_iff. cbn. naive_solver.
  - unfold s' at 2, pushEvent. cbn [fo_snaps]. apply Forall_app. split.
    + eapply Forall_impl; [exact Hsn|]. intros sc [Hcl Hok]. split; [done|]. destruct (decide (sc_entityID sc = eid)) as [E|Hne].
      * rewrite E, Hes, app_assoc. rewrite E in Hok. by apply snapOK_snoc.
      * by rewrite Heo.
    + constructor; [|constructor]. cbn [sc_entityID]. split; [apply Hpf|]. destruct Hdata as (Hg & Hbv & _ & _ & Hr & _).
      exists (length (hist0 eid ++ evsOf eid s')). rewrite take_ge by lia. cbn [sn_Version sn_State sn_Deleted sc_state sc_deleted sc_version].
      rewrite Hself in Hr, Hbv. split_and!; [|done| |exact Hr].
      * rewrite Hes, !length_app. cbn. lia.
      * cbn in Hbv. by destruct del.
  - unfold s', pushEvent. cbn [fo_events]. rewrite map_app. apply Forall_app. split; [exact Hw|]. constructor; [apply Hpf|constructor].
Qed.

(** A full-state write or a delete, as in [Consistency.v]. *)
Definition plainItem (it : BatchItem) : Prop :=
  let cmd := bi_Command it in
  bi_Kind it = KindDelete \/
  bi_Kind it = KindState /\ ic_Op cmd <> OpDelete /\ clean (JObj (emptyIfNil (ic_State cmd))) = true.

Lemma loadItem_inv hasPre k eid s r s' : loadItem c coll hasPre w k eid s = (r, s') -> foldInv s ->
  foldInv s' /\ forall cur, r = Some cur -> cur = curAt s' eid.
Proof.
  unfold loadItem, curAt. destruct (mget eid (fo_running s)) as [cur|] eqn:El; [intros [= <- <-] Hi; split; [done|]; rewrite El; by intros cur' [= <-]|].
  assert (forall cur, load_current c coll eid w = Ok cur -> cur = currentOf w c coll eid) as Hload.
  { unfold load_current. pose proof (cur_get c coll eid w) as Hg. intros cur. destruct (CurGet c coll eid w) as [st|e]; [by intros [= <-]|].
    by destruct e; try done; intros [= <-]. }
  destruct (load_current c coll eid w) as [cur|e]; [|by intros [= <- <-] Hi; split; [eapply foldInv_frame; [..|exact Hi]|]].
  specialize (Hload cur eq_refl).
  assert (foldInv s -> foldInv (setRunning eid cur s)) as Hrun.
  { intros Hi. eapply foldInv_frame; [..|exact Hi]; try done. intros eid'. unfold curAt, setRunning. cbn.
    destruct (decide (eid' = eid)) as [->|Hne]; [by rewrite mget_mset_eq, El, Hload|by rewrite mget_mset_ne by done]. }
  destruct hasPre; [destruct (lastEvent c coll eid w) as [l|e]|]; intros [= <- <-] Hi; specialize (Hrun Hi).
  - split; [by eapply foldInv_frame; [..|exact Hrun]|]. cbn. rewrite mget_mset_eq. by intros cur' [= <-].
  - by split; [eapply foldInv_frame; [..|exact Hrun]|].
  - split; [done|]. cbn. rewrite mget_mset_eq. by intros cur' [= <-].
Qed.

Lemma foldItem_inv cfg clock k it s : cfg_ArrayKeys cfg = [] -> plainItem it -> foldInv s ->
  foldInv (foldItem grow dcap ing c coll cfg w clock k it s).
Proof.
  intros Hak Hpl Hi. unfold foldItem. set (eid := ic_EntityID (bi_Command it)).
  destruct (loadItem c coll _ w k eid s) as [[cur|] s1] eqn:El; destruct (loadItem_inv _ _ _ _ _ _ El Hi) as [Hi1 Hcur]; [|done].
  specialize (Hcur cur eq_refl).
  destruct (planEvent grow dcap clock cfg (bi_Kind it) (bi_Command it) cur) as [[|ev st del]|e] eqn:Ep; [done| |by eapply foldInv_frame; [..|exact Hi1]].
  assert (planFaithful cur ev st del /\ ev_EntityID ev = eid) as [Hpf Heid].
  { eapply plan_faithful; [exact Ep| |].
    - rewrite Hcur. apply (fi_data _ Hi1 eid).
    - destruct Hpl as [Hk|(Hk & Hop & Hcl)]; rewrite Hk; by split. }
  set (ev1 := stampStored (setVersion ev (nextVersion cur)) clock).
  assert (ev_Version ev1 = nextVersion cur /\ ev_Op ev1 = ev_Op ev /\ ev_Changes ev1 = ev_Changes ev /\ ev_EntityID ev1 = eid) as (V1 & O1 & C1 & I1).
  { unfold ev1, stampStored. by destruct (ev_TSStored _ =? 0)%Z. }
  destruct (HasPreStore (in_plugins ing) cfg).
  - destruct (fst (RunPreStore _ _ _ _ _)) as [ev2|e] eqn:Epre; [|by eapply foldInv_frame; [..|exact Hi1]].
    assert (sameCore ev1 ev2) as Hcore.
    { unfold RunPreStore in Epre. destruct (in_plugins ing) as [h|]; [|cbn in Epre; injection Epre as <-; apply sameCore_refl].
      destruct (runPre _ _ _ _ _) as [r ct] eqn:E. cbn in Epre. subst r. by eapply runPre_core. }
    destruct Hcore as (I2 & V2 & O2 & _ & _ & _ & _ & _ & _ & _ & C2 & _).
    assert (curAt (setLastEv eid (Some ev2) s1) eid = cur) as Ec by (rewrite Hcur; done).
    rewrite <- Ec. apply foldInv_push; [by eapply foldInv_frame; [..|exact Hi1]| |congruence|rewrite Ec; congruence].
    rewrite Ec. eapply planFaithful_same; [..|exact Hpf]; congruence.
  - rewrite Hcur. apply foldInv_push; [done| |done|congruence]. rewrite <- Hcur. by eapply planFaithful_same; [..|exact Hpf].
Qed.

Lemma foldItems_inv cfg now items idxs s : cfg_ArrayKeys cfg = [] -> Forall plainItem items -> foldInv s ->
  foldInv (foldItems grow dcap ing c coll cfg w now items idxs s).
Proof.
  intros Hak Hpl. unfold foldItems. revert s. induction idxs as [|k idxs IH]; intros s Hi; [done|]. cbn [fold_left]. apply IH.
  destruct (items !! k) as [it|] eqn:El; [|done]. apply foldItem_inv; [done| |done].
  eapply Forall_lookup_1; [exact Hpl|exact El].
Qed.
End Fold.

(** ** The insert and what follows it *)

(** A batch insert that succeeds appends to each history the events of that entity, when
    their versions continue it. *)
Class BatchLaws (W : Type) `{StoreLaws W} := {
  append_many : forall c coll now evs w evs' w', AppendEvents c coll now evs w = (Ok evs', w') ->
    Forall (fun ev => Forall (fun ch => wire_json (Old ch) = true /\ wire_json (Diff.New ch) = true) (ev_Changes ev)) evs ->
    (forall eid, gapfree (history w c coll eid) -> gapfree (history w c coll eid ++ List.filter (fun ev => str_eqb (ev_EntityID ev) eid) evs)) ->
    (forall eid, exists rbs, history w' c coll eid = history w c coll eid ++ rbs /\
       Forall2 sameEffect (List.filter (fun ev => str_eqb (ev_EntityID ev) eid) evs) rbs) /\
    (forall eid, currentOf w' c coll eid = currentOf w c coll eid) /\
    (forall eid, snapsOf w' c coll eid = snapsOf w c coll eid) }.

(** A current-state store that is up. *)
Definition upsertsWork {W : Type} `{CurrentRepository W} : Prop := forall c coll st w, exists w' : W, CurUpsert c coll st w = (Ok tt, w').

Section Commit.
Context {W : Type} `{StoreLaws W} `{CollectionRepository W} {CF : ConfigFrame W} {BL : BatchLaws W}.
Variables (grow dcap : nat -> nat) (ing : Ingester W) (c : ctx) (coll : string).
Implicit Types (s : foldState) (eid : string) (w : W).

Lemma upserts_spec (finals : list (string * CurrentState)) order w : upsertsWork (W := W) ->
  (forall eid st, mget eid finals = Some st -> cs_EntityID st = eid /\ clean (JObj (emptyIfNil (cs_State st))) = true) ->
  let w' := fold_left (fun w eid => match mget eid finals with Some st => snd (CurUpsert c coll st w) | None => w end) order w in
  forall eid, history w' c coll eid = history w c coll eid /\ snapsOf w' c coll eid = snapsOf w c coll eid /\
    match mget eid finals with
    | Some st => In eid order -> sameCur (Some st) (currentOf w' c coll eid)
    | None => currentOf w' c coll eid = currentOf w c coll eid
    end /\ (~ In eid order -> currentOf w' c coll eid = currentOf w c coll eid).
Proof.
  intros Hup Hfin. induction order as [|e order IH] using rev_ind; [cbn; intros eid; split_and!; try done; by destruct (mget eid finals)|].
  rewrite fold_left_app. cbn [fold_left]. set (w0 := fold_left _ order w) in *. cbv zeta. intros eid.
  destruct (IH eid) as (I1 & I2 & I3 & I4). destruct (mget e finals) as [st|] eqn:Ef.
  - destruct (Hfin e st Ef) as [Eid Hcl]. destruct (Hup c coll st w0) as [w1 Eu]. rewrite Eu. cbn [snd].
    destruct (cur_upsert_frame _ _ _ _ _ _ Eu) as (_ & Hh & Hs).
    destruct (cur_upsert _ _ _ _ _ Eu) as (Hcu & Hco); [by apply clean_wire|]. rewrite Hh, Hs, Eid in *.
    destruct (decide (eid = e)) as [->|Hne].
    + rewrite Ef, Hcu. split_and!; try done. intros Hni. exfalso. apply Hni, in_app_iff. right. by left.
    + rewrite Hco by done. split_and!; try done.
      * destruct (mget eid finals); [|done]. intros [Hin|[|[]]]%in_app_iff; [by apply I3|congruence].
      * intros Hni. apply I4. intros Hin. apply Hni, in_app_iff. by left.
  - split_and!; try done.
    + destruct (mget eid finals) eqn:Ef'; [|done]. intros [Hin|[<-|[]]]%in_app_iff; [by apply I3|congruence].
    + intros Hni. apply I4. intros Hin. apply Hni, in_app_iff. by left.
Qed.

Lemma buildSnaps_consistent cfg snaps w : (forall eid, consistent w c coll eid) ->
  Forall (fun sc => candidateOK (history w c coll (sc_entityID sc)) sc) snaps ->
  forall eid, consistent (buildSnaps ing c coll cfg snaps w) c coll eid.
Proof.
  unfold buildSnaps. revert w. induction snaps as [|sc snaps IH]; intros w Hc Hs; [done|]. cbn [fold_left].
  inversion Hs as [|? ? [Hcl Hok] Hs']; subst. unfold Build. destruct (_ || _); [by apply IH|].
  set (sn := mkSnapshot _ _ _ _ _) in *. destruct (SnapSave c coll sn w) as [r w1] eqn:Es. cbn [snd].
  destruct (snap_save _ _ _ _ _ _ Es) as (Hh & Hcu & Hsn); [by apply clean_wire|]. apply IH.
  - intros eid. unfold consistent. rewrite Hh, Hcu. eapply consistent_ext; [| |  |apply Hc].
    + apply sameEffects_refl.
    + apply sameCur_refl.
    + apply List.Forall_forall. intros s0 [Hin|[-> ->]]%Hsn; [|exact Hok].
      destruct (Hc eid) as (_ & _ & _ & _ & _ & Hf). rewrite List.Forall_forall in Hf. by apply Hf.
  - eapply Forall_impl; [exact Hs'|]. intros sc'. cbn. by rewrite Hh.
Qed.

Lemma runEffects_same cfg evs w : effectsFrame ing -> sameStore c w (runEffects ing c coll cfg evs w).
Proof.
  intros Hfx. unfold runEffects. revert w. induction evs as [|ev evs IH]; intros w; [apply sameStore_refl|]. cbn [fold_left].
  eapply sameStore_trans; [by apply effects_same|apply IH].
Qed.

(** The insert of a fold that satisfies the invariant. *)
Lemma commit_consistent cfg s w now evs w2 : effectsFrame ing -> upsertsWork (W := W) ->
  foldInv c coll w s -> AppendEvents c coll now (map snd (fo_events s)) w = (Ok evs, w2) ->
  forall eid, consistent (runEffects ing c coll cfg evs (buildSnaps ing c coll cfg (fo_snaps s) (upsertFinals c coll s w2))) c coll eid.
Proof.
  intros Hfx Hup [Hd Hn Hs Ho Hsn Hw] Ea eid. eapply consistent_same; [by apply runEffects_same|].
  destruct (append_many _ _ _ _ _ _ _ Ea Hw) as (Hh & Hcu & Hsp).
  { intros eid' _. apply (Hd eid'). }
  pose proof (upserts_spec (fo_finals s) (fo_finalOrder s) w2 Hup) as Hu. cbv zeta in Hu. fold (upsertFinals c coll s w2) in Hu.
  assert (forall eid, Forall2 sameEffect (history w c coll eid ++ evsOf eid s) (history (upsertFinals c coll s w2) c coll eid)) as Hhist.
  { intros eid'. destruct (Hu (fun e st Hf => proj2 (Hs e st Hf)) eid') as (-> & _). destruct (Hh eid') as (rbs & -> & Hf). apply Forall2_app; [apply sameEffects_refl|exact Hf]. }
  apply buildSnaps_consistent.
  - intros eid'. destruct (Hu (fun e st Hf => proj2 (Hs e st Hf)) eid') as (_ & Es' & Ec & _). eapply consistent_ext; [apply Hhist| | |apply Hd].
    + destruct (mget eid' (fo_finals s)) as [st|] eqn:Ef.
      * destruct (Hs eid' st Ef) as (-> & _). apply Ec. apply Ho. by rewrite Ef.
      * destruct (Hn eid' Ef) as [_ ->]. rewrite Ec, Hcu. apply sameCur_refl.
    + rewrite Es', Hsp. apply (Hd eid').
  - eapply Forall_impl; [exact Hsn|]. intros sc [Hcl Hok]. split; [done|]. by eapply snapOK_same.
Qed.
End Commit.

(** ** Properties *)


(** ** The stores in memory *)

Lemma filter_map_entity eid (l : list Event) now s c coll :
  str_eqb s (scope c coll) = true ->
  map snd (List.filter (evHere c coll eid) (map (pair s) (map (fun ev => stampStored ev now) l))) =
  map (fun ev => stampStored ev now) (List.filter (fun ev => str_eqb (ev_EntityID ev) eid) l).
Proof.
  intros Hs. induction l as [|ev l IH]; [done|]. cbn [map List.filter]. unfold evHere at 1. cbn [fst snd]. rewrite Hs, stampStored_entity. cbn [andb].
  destruct (str_eqb (ev_EntityID ev) eid); cbn [map]; by rewrite IH.
Qed.

Lemma stamp_effects (l : list Event) now : Forall2 sameEffect l (map (fun ev => stampStored ev now) l).
Proof. induction l as [|ev l IH]; cbn; constructor; [|done]. unfold sameEffect, stampStored. by destruct (ev_TSStored ev =? 0)%Z. Qed.

#[export] Instance am_batch_laws : BatchLaws asyncMem.
Proof.
  split. intros c coll now evs w evs' w' Ha _ _. cbn in Ha. unfold onStore, memAppendMany in Ha. injection Ha as _ <-.
  split_and!; try done. intros eid. exists (map (fun ev => stampStored ev now) (List.filter (fun ev => str_eqb (ev_EntityID ev) eid) evs)).
  split; [|apply stamp_effects]. change (history ?w0) with (memHistory (am_store w0)). cbn [am_store]. unfold memHistory at 1. cbn [mem_events].
  rewrite List.filter_app, map_app. f_equal. apply filter_map_entity. apply str_eqb_refl.
Qed.

Lemma am_upserts_work : upsertsWork (W := asyncMem).
Proof. intros c coll st w. by eexists. Qed.

Definition ex_item (cmd : IngestCommand) : BatchItem := mkItem KindState cmd.
Definition ex_batch (items : list BatchItem) (w : asyncMem) : list (option err) * ConfigResolver * asyncMem :=
  IngestBatch ex_grow id ex_sync (NewConfigResolver true 0) (fun _ => 9%Z) ex_ctx items w.

(** Two writes of one entity with one of another between them. *)
Definition ex_items : list BatchItem :=
  map ex_item [ex_write "deal-1" "e1" 1 None; ex_write "deal-2" "e2" 5 None; ex_write "deal-1" "e3" 2 None].


(** ** A refused insert *)

(** [insertMany] is ordered by default: the documents before the first one a unique index
    refuses are stored. *)
Fixpoint insertOrdered (c : ctx) (coll : string) (now : time) (evs : list Event) (w : mem) : res err (list Event) * mem :=
  match evs with
  | [] => (Ok [], w)
  | ev :: evs' =>
      if memDup c coll (ev_EventID ev) w || existsb (fun e => (ev_Version e =? ev_Version ev)%Z) (memHistory w c coll (ev_EntityID ev))
      then (Err (ErrInternal "mongo: append batch"), w)
      else
        let ev' := stampStored ev now in
        let w1 := mkMem (mem_events w ++ [(scope c coll, ev')]) (mem_current w) (mem_snaps w) (mem_configs w) in
        match insertOrdered c coll now evs' w1 with
        | (Ok out, w2) => (Ok (ev' :: out), w2)
        | (Err e, w2) => (Err e, w2)
        end
  end.

Definition am_ordered_repo : EventRepository asyncMem := {|
  AppendEvent := am_events_repo.(AppendEvent);
  AppendEvents c coll now evs := onStore (insertOrdered c coll now evs);
  LastEvent := am_events_repo.(LastEvent);
  ListEvents := am_events_repo.(ListEvents) |}.

Definition ex_orderedBatch (items : list BatchItem) (w : asyncMem) : list (option err) * ConfigResolver * asyncMem :=
  IngestBatch (H := am_ordered_repo) ex_grow id ex_sync (NewConfigResolver true 0) (fun _ => 9%Z) ex_ctx items w.

(** [deal-9] already has an event with the id e9. *)
Definition ex_before : asyncMem := snd (ex_orderedBatch [ex_item (ex_write "deal-9" "e9" 0 None)] am0).
Definition ex_refused : list (option err) * ConfigResolver * asyncMem :=
  ex_orderedBatch (map ex_item [ex_write "deal-1" "e1" 1 None; ex_write "deal-8" "e9" 5 None; ex_write "deal-2" "e2" 2 None]) ex_before.
Definition ex_after : list (option err) * ConfigResolver * asyncMem :=
  ex_orderedBatch [ex_item (ex_write "deal-1" "e4" 4 None)] (snd ex_refused).

(** A refused batch is half stored.  Where the batch insert stores what precedes the
    first refused document, as an ordered insertMany does: one repeated event id makes
    every write of the batch report an error, although the first of them was stored; the
    entity's current state was not saved, so the next batch assigns its version again and
    is refused as well.  And a batch ignores the expected version of its commands. *)
Theorem batch_half_stored :
  fst (fst ex_refused) = repeat (Some (ErrInternal "mongo: append batch")) 3 /\
  ex_changes (snd ex_refused) = [[mkChange "a" OpAdd JNull (JInt64 1)]] /\ ex_current (snd ex_refused) = None /\
  history (snd ex_refused) ex_ctx "crm.deals" "deal-2" = [] /\
  fst (fst ex_after) = [Some (ErrInternal "mongo: append batch")] /\ ex_changes (snd ex_after) = ex_changes (snd ex_refused) /\
  fst (fst (ex_batch [ex_item (ex_write "deal-1" "e1" 1 (Some 7%Z))] am0)) = [None].
Proof. vm_compute. split_and!; reflexivity. Qed.
