(* ===== verification/JsonText.v ===== *)
(** * JSON texts as the handlers read them ([encoding/json])

    The requests, the cursors and the stored payloads are JSON texts.  This file holds
    what the source uses of Go's decoder: the scanner with its nesting limit, kept as a
    syntax tree that remembers the source text ([json.RawMessage] is a slice of it),
    string unquoting, decoding into [any], and the decoding of an object into a struct,
    field by field, into the value that is there already. *)

From stdpp Require Import base list strings.
From Stdlib Require Import ZArith Lia Ascii.
From S2P Require Import Prelude GoMap Json Numbers Canonical Worker.

(** ** Syntax trees *)

(** Strings and keys are the text between the quotes; an array or object carries the
    text it was read from. *)
Inductive jtree :=
| TNull
| TBool (b : bool)
| TNum (lit : string)
| TStr (raw : string)
| TArr (raw : string) (l : list jtree)
| TObj (raw : string) (m : list (string * jtree)).

Definition quoted (s : string) : string := String quoteByte (s +:+ String quoteByte "").

(** The source text of a value, without the space around it. *)
Definition rawOf (t : jtree) : string :=
  match t with
  | TNull => "null"
  | TBool b => if b then "true" else "false"
  | TNum lit => lit
  | TStr raw => quoted raw
  | TArr raw _ => raw
  | TObj raw _ => raw
  end.

(** ** Tokens *)

Definition isWS (c : ascii) : bool := let b := byteOf c in ((b =? 32) || (b =? 9) || (b =? 13) || (b =? 10))%Z.

Fixpoint skipWS (s : string) : string :=
  match s with
  | String c s' => if isWS c then skipWS s' else s
  | EmptyString => s
  end.

Definition hexVal (c : ascii) : option Z :=
  let b := byteOf c in
  if ((48 <=? b) && (b <=? 57))%Z then Some (b - 48)%Z
  else if ((97 <=? b) && (b <=? 102))%Z then Some (b - 87)%Z
  else if ((65 <=? b) && (b <=? 70))%Z then Some (b - 55)%Z
  else None.

(** States of the scanner inside a string: plain text, after a backslash, and with
    hexadecimal digits still to come. *)
Inductive strState := InText | InEsc | InHex (n : nat).

Definition simpleEscape (c : ascii) : bool :=
  let b := byteOf c in
  ((b =? 98) || (b =? 102) || (b =? 110) || (b =? 114) || (b =? 116) || (b =? 92) || (b =? 47) || (b =? 34))%Z.

Definition cons1 (c : ascii) (r : option (string * string)) : option (string * string) :=
  match r with Some (a, rest) => Some (String c a, rest) | None => None end.

(** The text up to the closing quote, and what follows it. *)
Fixpoint scanString (st : strState) (s : string) : option (string * string) :=
  match s with
  | EmptyString => None
  | String c s' =>
      let b := byteOf c in
      match st with
      | InText =>
          if (b =? 34)%Z then Some (EmptyString, s')
          else if (b =? 92)%Z then cons1 c (scanString InEsc s')
          else if (b <? 32)%Z then None
          else cons1 c (scanString InText s')
      | InEsc =>
          if simpleEscape c then cons1 c (scanString InText s')
          else if (b =? 117)%Z then cons1 c (scanString (InHex 3) s')
          else None
      | InHex n =>
          match hexVal c with
          | None => None
          | Some _ => cons1 c (scanString (match n with O => InText | S n' => InHex n' end) s')
          end
      end
  end.

Fixpoint spanDigits (s : string) : string * string :=
  match s with
  | String c s' => if is_digit c then let '(a, r) := spanDigits s' in (String c a, r) else (EmptyString, s)
  | EmptyString => (EmptyString, EmptyString)
  end.

Definition headIs (b : Z) (s : string) : bool := match s with String c _ => (byteOf c =? b)%Z | EmptyString => false end.

(** A sign, the integer part, the fraction and the exponent of a number. *)
Definition scanInt (s : string) : option (string * string) :=
  match s with
  | String c s' =>
      if (byteOf c =? 48)%Z then Some (String c EmptyString, s')
      else if is_digit c then Some (spanDigits s)
      else None
  | EmptyString => None
  end.

Definition scanFrac (s : string) : option (string * string) :=
  match s with
  | String c s' =>
      if (byteOf c =? 46)%Z then
        match spanDigits s' with
        | (EmptyString, _) => None
        | (ds, r) => Some (String c ds, r)
        end
      else Some (EmptyString, s)
  | EmptyString => Some (EmptyString, s)
  end.

Definition scanExponent (s : string) : option (string * string) :=
  match s with
  | String c s' =>
      if (lower c =? 101)%Z then
        let '(sign, s2) := match s' with
                           | String d s2 => if ((byteOf d =? 43) || (byteOf d =? 45))%Z then (String d EmptyString, s2) else (EmptyString, s')
                           | EmptyString => (EmptyString, s')
                           end in
        match spanDigits s2 with
        | (EmptyString, _) => None
        | (ds, r) => Some (String c (sign +:+ ds), r)
        end
      else Some (EmptyString, s)
  | EmptyString => Some (EmptyString, s)
  end.

Definition scanNumber (s : string) : option (string * string) :=
  let '(sign, s0) := match s with
                     | String c s' => if (byteOf c =? 45)%Z then (String c EmptyString, s') else (EmptyString, s)
                     | EmptyString => (EmptyString, s)
                     end in
  match scanInt s0 with
  | None => None
  | Some (i, s1) =>
      match scanFrac s1 with
      | None => None
      | Some (f, s2) =>
          match scanExponent s2 with
          | None => None
          | Some (e, s3) => Some (sign +:+ i +:+ f +:+ e, s3)
          end
      end
  end.

(** ** Values *)

Definition maxNestingDepth : Z := 10000.

(** What [s] has before its suffix [rest]. *)
Definition consumed (s rest : string) : string := String.substring 0 (String.length s - String.length rest) s.

Definition withRaw (mk : string -> jtree) (s : string) (rest : string) : option (jtree * string) := Some (mk (consumed s rest), rest).

(** [depth] arrays and objects are open.  Every call but the first of an element consumes
    a byte, so twice the length of the text is enough fuel. *)
Fixpoint parseValue (fuel : nat) (depth : Z) (s : string) {struct fuel} : option (jtree * string) :=
  match fuel with
  | O => None
  | S fuel' =>
      match s with
      | EmptyString => None
      | String c s' =>
          let b := byteOf c in
          if (b =? 34)%Z then match scanString InText s' with Some (raw, r) => Some (TStr raw, r) | None => None end
          else if (b =? 123)%Z then
            if (maxNestingDepth <=? depth)%Z then None
            else
              let s1 := skipWS s' in
              if headIs 125 s1 then withRaw (fun raw => TObj raw []) s (String.substring 1 (String.length s1) s1)
              else match parseMembers fuel' (depth + 1)%Z s1 with
                   | Some (ms, r) => withRaw (fun raw => TObj raw ms) s r
                   | None => None
                   end
          else if (b =? 91)%Z then
            if (maxNestingDepth <=? depth)%Z then None
            else
              let s1 := skipWS s' in
              if headIs 93 s1 then withRaw (fun raw => TArr raw []) s (String.substring 1 (String.length s1) s1)
              else match parseElems fuel' (depth + 1)%Z s1 with
                   | Some (l, r) => withRaw (fun raw => TArr raw l) s r
                   | None => None
                   end
          else if (b =? 110)%Z then match drop_prefix "null" s with Some r => Some (TNull, r) | None => None end
          else if (b =? 116)%Z then match drop_prefix "true" s with Some r => Some (TBool true, r) | None => None end
          else if (b =? 102)%Z then match drop_prefix "false" s with Some r => Some (TBool false, r) | None => None end
          else match scanNumber s with Some (lit, r) => Some (TNum lit, r) | None => None end
      end
  end
(** Elements up to the closing bracket; [s] starts at the first byte of an element. *)
with parseElems (fuel : nat) (depth : Z) (s : string) {struct fuel} : option (list jtree * string) :=
  match fuel with
  | O => None
  | S fuel' =>
      match parseValue fuel' depth s with
      | None => None
      | Some (v, r) =>
          match skipWS r with
          | String c r' =>
              if (byteOf c =? 44)%Z then
                match parseElems fuel' depth (skipWS r') with
                | Some (l, r2) => Some (v :: l, r2)
                | None => None
                end
              else if (byteOf c =? 93)%Z then Some ([v], r')
              else None
          | EmptyString => None
          end
      end
  end
(** Members up to the closing brace; [s] starts at the opening quote of a key. *)
with parseMembers (fuel : nat) (depth : Z) (s : string) {struct fuel} : option (list (string * jtree) * string) :=
  match fuel with
  | O => None
  | S fuel' =>
      match s with
      | String q s' =>
          if (byteOf q =? 34)%Z then
            match scanString InText s' with
            | None => None
            | Some (k, r0) =>
                match skipWS r0 with
                | String col r1 =>
                    if (byteOf col =? 58)%Z then
                      match parseValue fuel' depth (skipWS r1) with
                      | None => None
                      | Some (v, r) =>
                          match skipWS r with
                          | String c r' =>
                              if (byteOf c =? 44)%Z then
                                match parseMembers fuel' depth (skipWS r') with
                                | Some (ms, r2) => Some ((k, v) :: ms, r2)
                                | None => None
                                end
                              else if (byteOf c =? 125)%Z then Some ([(k, v)], r')
                              else None
                          | EmptyString => None
                          end
                      end
                    else None
                | EmptyString => None
                end
            end
          else None
      | EmptyString => None
      end
  end.

Definition parseFuel (s : string) : nat := S (2 * String.length s).

(** The first value of a text and what follows it: what [Decoder.Decode] reads. *)
Definition parseFirst (s : string) : option (jtree * string) := let s := skipWS s in parseValue (parseFuel s) 0 s.

(** The only value of a text: [json.Unmarshal] checks the whole input first. *)
Definition parseWhole (s : string) : option jtree :=
  match parseFirst s with
  | Some (t, r) => if str_eqb (skipWS r) "" then Some t else None
  | None => None
  end.

(** ** Strings *)

Definition byteAt (z : Z) : ascii := ascii_of_N (Z.to_N z).

(** [utf8.EncodeRune]: a surrogate half or a code point out of range is U+FFFD. *)
Definition encodeRune (r : Z) : string :=
  let r := (if ((55296 <=? r) && (r <=? 57343)) || (1114111 <? r) then 65533 else r)%Z in
  if (r <? 128)%Z then String (byteAt r) ""
  else if (r <? 2048)%Z then String (byteAt (192 + r / 64)) (String (byteAt (128 + r mod 64)) "")
  else if (r <? 65536)%Z then
    String (byteAt (224 + r / 4096)) (String (byteAt (128 + r / 64 mod 64)) (String (byteAt (128 + r mod 64)) ""))
  else
    String (byteAt (240 + r / 262144)) (String (byteAt (128 + r / 4096 mod 64))
      (String (byteAt (128 + r / 64 mod 64)) (String (byteAt (128 + r mod 64)) ""))).

Fixpoint hexDigits (n : nat) (acc : Z) (s : string) : option Z :=
  match n, s with
  | O, _ => Some acc
  | S n', String c s' => match hexVal c with Some d => hexDigits n' (acc * 16 + d)%Z s' | None => None end
  | S _, EmptyString => None
  end.

(** [getu4]: the code unit of an escape at the head of the text. *)
Definition getu4 (s : string) : option Z :=
  match s with
  | String c (String d s') => if ((byteOf c =? 92) && (byteOf d =? 117))%Z then hexDigits 4 0 s' else None
  | _ => None
  end.

Definition isHigh (r : Z) : bool := ((55296 <=? r) && (r <? 56320))%Z.
Definition isLow (r : Z) : bool := ((56320 <=? r) && (r <? 57344))%Z.

(** The rune of the escape at the head of the text, and the bytes the escape takes. *)
Definition readEscape (s : string) : string * nat :=
  match getu4 s with
  | None => (EmptyString, 6)
  | Some rr =>
      match getu4 (String.substring 6 6 s) with
      | Some rr1 => if isHigh rr && isLow rr1 then (encodeRune (65536 + (rr - 55296) * 1024 + (rr1 - 56320)), 12) else (encodeRune rr, 6)
      | None => (encodeRune rr, 6)
      end
  end.

Definition unescape1 (c : ascii) : string :=
  let b := byteOf c in
  if (b =? 98)%Z then String (byteAt 8) ""
  else if (b =? 102)%Z then String (byteAt 12) ""
  else if (b =? 110)%Z then String (byteAt 10) ""
  else if (b =? 114)%Z then String (byteAt 13) ""
  else if (b =? 116)%Z then String (byteAt 9) ""
  else String c "".

(** U+FFFD in UTF-8. *)
Definition replacement : string := encodeRune 65533.

(** [unquote] on the text of a scanned string; [n] bytes of the current rune or escape
    remain, copied unless [skip]. *)
Fixpoint unquoteFrom (n : nat) (skip : bool) (s : string) : string :=
  match s with
  | EmptyString => EmptyString
  | String c s' =>
      match n with
      | S n' => if skip then unquoteFrom n' skip s' else String c (unquoteFrom n' skip s')
      | O =>
          if (byteOf c =? 92)%Z then
            match s' with
            | String d _ =>
                if (byteOf d =? 117)%Z then let '(r, w) := readEscape s in r +:+ unquoteFrom (w - 1) true s'
                else unescape1 d +:+ unquoteFrom 1 true s'
            | EmptyString => EmptyString
            end
          else if (byteOf c <? 128)%Z then String c (unquoteFrom 0 false s')
          else match runeWidth c s' with
               | None => replacement +:+ unquoteFrom 0 false s'
               | Some w => String c (unquoteFrom (w - 1) false s')
               end
      end
  end.

Definition unquote (raw : string) : string := unquoteFrom 0 false raw.

(** ** Decoding into [any] *)

Fixpoint toAny (t : jtree) : option json :=
  match t with
  | TNull => Some JNull
  | TBool b => Some (JBool b)
  | TNum lit => option_map JNum (ParseFloat lit)
  | TStr raw => Some (JStr (unquote raw))
  | TArr _ l =>
      option_map JArr
        ((fix go (l : list jtree) : option (list json) :=
            match l with
            | [] => Some []
            | x :: l' => match toAny x, go l' with Some a, Some b => Some (a :: b) | _, _ => None end
            end) l)
  | TObj _ m =>
      option_map JObj
        ((fix go (acc : list (string * json)) (m : list (string * jtree)) : option (list (string * json)) :=
            match m with
            | [] => Some acc
            | (k, x) :: m' => match toAny x with Some a => go (mset (unquote k) a acc) m' | None => None end
            end) [] m)
  end.

(** ** Decoding into typed values

    A decoder gets the value that is there already: [null] leaves it (a pointer, map or
    slice becomes nil), and a repeated key decodes into what the first one left. *)

Definition decoder (A : Type) : Type := A -> jtree -> option A.

Definition decString : decoder string := fun cur t =>
  match t with TNull => Some cur | TStr raw => Some (unquote raw) | _ => None end.

Definition decBool : decoder bool := fun cur t =>
  match t with TNull => Some cur | TBool b => Some b | _ => None end.

(** [int] and [int64]: the literal must be an integer that fits. *)
Definition decInt : decoder Z := fun cur t =>
  match t with TNull => Some cur | TNum lit => ParseInt lit | _ => None end.

Definition decAny : decoder json := fun _ t => toAny t.

(** [json.RawMessage]: any value, null included; nil when the key is absent. *)
Definition decRaw : decoder (option jtree) := fun _ t => Some (Some t).

Definition decPtr {A} (zero : A) (d : decoder A) : decoder (option A) := fun cur t =>
  match t with
  | TNull => Some None
  | _ => option_map Some (d (default zero cur) t)
  end.

(** [map[string]T]: elements are decoded afresh and a later key wins. *)
Fixpoint decEntries {A} (zero : A) (d : decoder A) (cur : list (string * A)) (m : list (string * jtree)) : option (list (string * A)) :=
  match m with
  | [] => Some cur
  | (k, x) :: m' => match d zero x with Some a => decEntries zero d (mset (unquote k) a cur) m' | None => None end
  end.

Definition decMap {A} (zero : A) (d : decoder A) : decoder (option (list (string * A))) := fun cur t =>
  match t with
  | TNull => Some None
  | TObj _ m => option_map Some (decEntries zero d (default [] cur) m)
  | _ => None
  end.

Definition decMapAny : decoder (option (list (string * json))) := decMap JNull decAny.

(** A slice is refilled from its start, over the elements it had. *)
Fixpoint decElems {A} (zero : A) (d : decoder A) (cur : list A) (l : list jtree) : option (list A) :=
  match l with
  | [] => Some []
  | x :: l' =>
      match d (match cur with c :: _ => c | [] => zero end) x, decElems zero d (tail cur) l' with
      | Some a, Some b => Some (a :: b)
      | _, _ => None
      end
  end.

Definition decSlice {A} (zero : A) (d : decoder A) : decoder (option (list A)) := fun cur t =>
  match t with
  | TNull => Some None
  | TArr _ l => option_map Some (decElems zero d (default [] cur) l)
  | _ => None
  end.

(** ** Structs *)

(** [foldName]: ASCII letters in upper case, and the two other runes that fold to one. *)
Fixpoint foldName (s : string) : string :=
  match s with
  | EmptyString => EmptyString
  | String c s' =>
      let b := byteOf c in
      let plain := String (if ((97 <=? b) && (b <=? 122))%Z then byteAt (b - 32) else c) (foldName s') in
      match s' with
      | String d s2 =>
          if ((b =? 197) && (byteOf d =? 191))%Z then String (byteAt 83) (foldName s2)
          else match s2 with
               | String e s3 => if ((b =? 226) && (byteOf d =? 132) && (byteOf e =? 170))%Z then String (byteAt 75) (foldName s3) else plain
               | EmptyString => plain
               end
      | EmptyString => plain
      end
  end.

Definition matchField (names : list string) (key : string) : option string :=
  match List.find (str_eqb key) names with
  | Some n => Some n
  | None => List.find (fun n => str_eqb (foldName n) (foldName key)) names
  end.

(** The fields in the order of the text; [strict] is [DisallowUnknownFields]. *)
Fixpoint decFields {S} (strict : bool) (names : list string) (set : string -> jtree -> S -> option S) (m : list (string * jtree)) (cur : S) : option S :=
  match m with
  | [] => Some cur
  | (k, t) :: m' =>
      match matchField names (unquote k) with
      | Some n => match set n t cur with Some cur' => decFields strict names set m' cur' | None => None end
      | None => if strict then None else decFields strict names set m' cur
      end
  end.

Definition decStruct {S} (strict : bool) (names : list string) (set : string -> jtree -> S -> option S) : decoder S := fun cur t =>
  match t with
  | TNull => Some cur
  | TObj _ m => decFields strict names set m cur
  | _ => None
  end.

(** [json.Unmarshal(text, &v)] and [Decoder.Decode(&v)] into a zero value. *)
Definition Unmarshal {A} (d : decoder A) (zero : A) (text : string) : option A :=
  match parseWhole text with Some t => d zero t | None => None end.

Definition DecodeFirst {A} (d : decoder A) (zero : A) (text : string) : option A :=
  match parseFirst text with Some (t, _) => d zero t | None => None end.

(** ** Runs *)

(** Texts are easier to read with another quote. *)
Fixpoint jtext (s : string) : string :=
  match s with
  | EmptyString => EmptyString
  | String c s' => String (if (byteOf c =? 39)%Z then quoteByte else c) (jtext s')
  end.

Example parse_object :
  parseWhole (jtext " {'a' : [1, -2.5e+3,null ], 'b\u0041':{ }} ") =
  Some (TObj (jtext "{'a' : [1, -2.5e+3,null ], 'b\u0041':{ }}") [("a", TArr "[1, -2.5e+3,null ]" [TNum "1"; TNum "-2.5e+3"; TNull]); ("b\u0041", TObj "{ }" [])]).
Proof. vm_compute. reflexivity. Qed.
Example parse_refused : map parseWhole [""; "01"; "[1,]"; jtext "{'a':1,}"; "1 2"; "nul"; jtext "'\x'"; "-"; "1."; jtext "'a"] = repeat None 10.
Proof. vm_compute. reflexivity. Qed.
Example unquote_runes : unquote "\u00e9\ud83d\ude00\ud83dx\n\/" = encodeRune 233 +:+ encodeRune 128512 +:+ replacement +:+ "x" +:+ String (byteAt 10) "/".
Proof. vm_compute. reflexivity. Qed.
Example any_last_wins : Unmarshal decAny JNull (jtext "{'b':true,'a':'x','b':[]}") = Some (JObj [("a", JStr "x"); ("b", JArr [])]).
Proof. vm_compute. reflexivity. Qed.
Example fold_kelvin : foldName (String "226" (String "132" (String "170" "ey"))) = "KEY". Proof. vm_compute. reflexivity. Qed.
