(* ===== verification/TimeText.v ===== *)
(** * Times and cursors as texts ([time.Parse], [encoding/base64])

    Timestamps reach the service as RFC 3339 texts, in JSON bodies (strictly) and in query
    parameters (with the liberties of [time.Parse]), and leave it in the form of
    [Canonical.formatRFC3339Nano]; the cursors of the listings are base64 over JSON.  The
    second half proves that these texts, and those of numbers, read back. *)

From stdpp Require Import base list strings.
From Stdlib Require Import ZArith Lia Ascii DecimalString DecimalPos DecimalZ DecimalFacts.
From S2P Require Import Prelude GoMap Json Paths Numbers Canonical Worker JsonText.

(** ** The calendar *)

Definition isLeap (y : Z) : bool := ((y mod 4 =? 0) && (negb (y mod 100 =? 0) || (y mod 400 =? 0)))%Z.

Definition monthLens (leap : bool) : list Z := [31; (if leap then 29 else 28); 31; 30; 31; 30; 31; 31; 30; 31; 30; 31]%Z.

Definition daysIn (y m : Z) : Z := nth (Z.to_nat (m - 1)) (monthLens (isLeap y)) 0%Z.

(** Days from January 1 of year 1 to a date. *)
Definition daysFrom (y m d : Z) : Z :=
  let y0 := (y - 1)%Z in
  (365 * y0 + y0 / 4 - y0 / 100 + y0 / 400 + fold_right Z.add 0 (take (Z.to_nat (m - 1)) (monthLens (isLeap y))) + d - 1)%Z.

Definition second : Z := 1000000000.

(** [time.Date] in UTC, less a zone offset in seconds. *)
Definition dateUTC (y mo d h mi sec nsec offset : Z) : Z :=
  ((daysFrom y mo d * 86400 + h * 3600 + mi * 60 + sec - offset) * second + nsec)%Z.

(** ** Parsing *)

(** Exactly [n] digits with a value in a range, and the rest. *)
Fixpoint takeDigits (n : nat) (acc : Z) (s : string) : option (Z * string) :=
  match n, s with
  | O, _ => Some (acc, s)
  | S n', String c s' => if is_digit c then takeDigits n' (acc * 10 + (byteOf c - 48))%Z s' else None
  | S _, EmptyString => None
  end.

Definition takeNum (n : nat) (lo hi : Z) (s : string) : option (Z * string) :=
  match takeDigits n 0 s with
  | Some (v, r) => if ((lo <=? v) && (v <=? hi))%Z then Some (v, r) else None
  | None => None
  end.

Definition expect (b : Z) (s : string) : option string :=
  match s with String c s' => if (byteOf c =? b)%Z then Some s' else None | EmptyString => None end.

(** Hours are two digits; [time.Parse] takes one. *)
Definition takeHour (strict : bool) (s : string) : option (Z * string) :=
  match s with
  | String c (String d _) => if strict || is_digit d then takeNum 2 0 23 s else takeNum 1 0 9 s
  | _ => None
  end.

(** The digits of a fraction, the first nine of which count. *)
Definition nanosOf (ds : string) : Z :=
  let ds := Json.FormatFloat.take_str 9 ds in
  match takeDigits (String.length ds) 0 ds with
  | Some (v, _) => (v * 10 ^ (9 - Z.of_nat (String.length ds)))%Z
  | None => 0%Z
  end.

Definition takeFraction (strict : bool) (s : string) : Z * string :=
  match s with
  | String c s' =>
      if ((byteOf c =? 46) || (negb strict && (byteOf c =? 44)))%Z then
        match spanDigits s' with
        | (EmptyString, _) => (0%Z, s)
        | (ds, r) => (nanosOf ds, r)
        end
      else (0%Z, s)
  | EmptyString => (0%Z, s)
  end.

(** The offset in seconds; it ends the text.  [time.Parse] takes 24 hours and 60 minutes. *)
Definition takeZone (strict : bool) (s : string) : option Z :=
  match s with
  | String c s' =>
      if (byteOf c =? 90)%Z then (if str_eqb s' "" then Some 0%Z else None)
      else if ((byteOf c =? 43) || (byteOf c =? 45))%Z then
        match takeNum 2 0 (if strict then 23 else 24) s' with
        | Some (h, s1) =>
            match expect 58 s1 with
            | Some s2 =>
                match takeNum 2 0 (if strict then 59 else 60) s2 with
                | Some (m, EmptyString) => Some ((if (byteOf c =? 45)%Z then -1 else 1) * ((h * 60 + m) * 60))%Z
                | _ => None
                end
            | None => None
            end
        | None => None
        end
      else None
  | EmptyString => None
  end.

(** [parseStrictRFC3339] and [time.Parse(time.RFC3339, _)]: the instant, in UTC. *)
Definition parseRFC3339 (strict : bool) (s : string) : option Z :=
  y ← takeNum 4 0 9999 s; s ← expect 45 y.2;
  mo ← takeNum 2 1 12 s; s ← expect 45 mo.2;
  d ← takeNum 2 1 (daysIn y.1 mo.1) s; s ← expect 84 d.2;
  h ← takeHour strict s; s ← expect 58 h.2;
  mi ← takeNum 2 0 59 s; s ← expect 58 mi.2;
  sec ← takeNum 2 0 59 s;
  let fr := takeFraction strict sec.2 in
  zone ← takeZone strict fr.2;
  Some (dateUTC y.1 mo.1 d.1 h.1 mi.1 sec.1 fr.1 zone).

(** [Time.UnmarshalJSON]: the text between the quotes is parsed as it is written. *)
Definition decTime : decoder Z := fun cur t =>
  match t with
  | TNull => Some cur
  | TStr raw => parseRFC3339 true raw
  | _ => None
  end.

(** [Time.MarshalJSON] refuses a year outside 0 to 9999. *)
Definition yearOf (t : Z) : Z := (civil (t / second / 86400)).1.1.

Definition marshalTime (t : Z) : option string :=
  if ((0 <=? yearOf t) && (yearOf t <=? 9999))%Z then Some (formatRFC3339Nano t) else None.

(** ** [json.Marshal] on strings: the encoder's default escapes HTML *)

Fixpoint escapeHTML (s : string) : string :=
  match s with
  | EmptyString => EmptyString
  | String c s' =>
      let b := byteOf c in
      if (b =? 60)%Z then "\u003c" +:+ escapeHTML s'
      else if (b =? 62)%Z then "\u003e" +:+ escapeHTML s'
      else if (b =? 38)%Z then "\u0026" +:+ escapeHTML s'
      else String c (escapeHTML s')
  end.

Definition marshalString (s : string) : string := escapeHTML (jsonString s).

(** ** [base64.RawURLEncoding] *)

Definition b64char (v : Z) : ascii :=
  if (v <? 26)%Z then byteAt (65 + v)
  else if (v <? 52)%Z then byteAt (71 + v)
  else if (v <? 62)%Z then byteAt (v - 4)
  else if (v =? 62)%Z then byteAt 45
  else byteAt 95.

Definition b64val (c : ascii) : option Z :=
  let b := byteOf c in
  if ((65 <=? b) && (b <=? 90))%Z then Some (b - 65)%Z
  else if ((97 <=? b) && (b <=? 122))%Z then Some (b - 71)%Z
  else if ((48 <=? b) && (b <=? 57))%Z then Some (b + 4)%Z
  else if (b =? 45)%Z then Some 62%Z
  else if (b =? 95)%Z then Some 63%Z
  else None.

Fixpoint EncodeToString (s : string) : string :=
  match s with
  | String a (String b (String c s')) =>
      let v := (byteOf a * 65536 + byteOf b * 256 + byteOf c)%Z in
      String (b64char (v / 262144)) (String (b64char (v / 4096 mod 64))
        (String (b64char (v / 64 mod 64)) (String (b64char (v mod 64)) (EncodeToString s'))))
  | String a (String b EmptyString) =>
      let v := (byteOf a * 65536 + byteOf b * 256)%Z in
      String (b64char (v / 262144)) (String (b64char (v / 4096 mod 64)) (String (b64char (v / 64 mod 64)) ""))
  | String a EmptyString =>
      let v := (byteOf a * 65536)%Z in
      String (b64char (v / 262144)) (String (b64char (v / 4096 mod 64)) "")
  | EmptyString => EmptyString
  end.

(** Line breaks in the input are skipped; the bits left over at the end are not checked. *)
Fixpoint sextets (s : string) : option (list Z) :=
  match s with
  | EmptyString => Some []
  | String c s' =>
      if ((byteOf c =? 10) || (byteOf c =? 13))%Z then sextets s'
      else match b64val c, sextets s' with Some v, Some l => Some (v :: l) | _, _ => None end
  end.

Fixpoint joinSextets (l : list Z) : option string :=
  match l with
  | a :: b :: c :: d :: l' =>
      let v := (a * 262144 + b * 4096 + c * 64 + d)%Z in
      option_map (fun s => String (byteAt (v / 65536)) (String (byteAt (v / 256 mod 256)) (String (byteAt (v mod 256)) s))) (joinSextets l')
  | [a; b; c] =>
      let v := (a * 262144 + b * 4096 + c * 64)%Z in
      Some (String (byteAt (v / 65536)) (String (byteAt (v / 256 mod 256)) ""))
  | [a; b] => let v := (a * 262144 + b * 4096)%Z in Some (String (byteAt (v / 65536)) "")
  | [_] => None
  | [] => Some EmptyString
  end.

Definition DecodeString (s : string) : option string := l ← sextets s; joinSextets l.

(** ** Runs *)

Example parse_epoch : parseRFC3339 true "1970-01-01T00:00:00Z" = Some (719162 * 86400 * second)%Z. Proof. vm_compute. reflexivity. Qed.
Example parse_offset : parseRFC3339 true "2000-02-29T02:32:03.045-01:30" = parseRFC3339 false "2000-02-29T4:02:03,045Z". Proof. vm_compute. reflexivity. Qed.
Example parse_strict : map (parseRFC3339 true) ["2000-02-29T4:02:03Z"; "2001-02-29T04:02:03Z"; "2000-02-29T04:02:03,1Z"; "2000-02-29T04:02:03"; "2000-02-29T04:02:03+24:00"] = repeat None 5.
Proof. vm_compute. reflexivity. Qed.
Example parse_lax : map (fun s => match parseRFC3339 false s with Some _ => true | None => false end) ["2000-02-29T04:02:03+24:60"; "2000-02-29t04:02:03Z"; "2000-02-29T04:02:60Z"] = [true; false; false].
Proof. vm_compute. reflexivity. Qed.
Example b64_runs : map EncodeToString [""; "f"; "fo"; "foo"; "foo>?"] = [""; "Zg"; "Zm8"; "Zm9v"; "Zm9vPj8"] /\ DecodeString "Zm9vPj8" = Some "foo>?" /\ DecodeString "Zm9vP" = None.
Proof. vm_compute. auto. Qed.

(** ** Texts that read back: numbers, times, base64

    [ParseInt] inverts [itoa], [parseRFC3339] inverts [formatRFC3339Nano] on the years it
    can write, [DecodeString] inverts [EncodeToString]. *)

(** ** Bytes *)

Lemma byteOf_range c : (0 <= byteOf c < 256)%Z.
Proof. unfold byteOf. pose proof (N_ascii_bounded c). lia. Qed.

Lemma byteAt_byteOf c : byteAt (byteOf c) = c.
Proof. unfold byteAt, byteOf. rewrite N2Z.id. apply ascii_N_embedding. Qed.

Lemma byteOf_byteAt z : (0 <= z < 256)%Z -> byteOf (byteAt z) = z.
Proof. intros Hz. unfold byteAt, byteOf. rewrite N_ascii_embedding by lia. lia. Qed.

Lemma is_digit_byte c : is_digit c = true <-> (48 <= byteOf c <= 57)%Z.
Proof. unfold is_digit, byteOf. rewrite andb_true_iff, !N.leb_le. lia. Qed.

(** ** Digits *)

Lemma digitsFrom_app acc s t : all_bytes is_digit s = true ->
  digitsFrom acc (s +:+ t) = match digitsFrom acc s with Some v => digitsFrom v t | None => None end.
Proof.
  revert acc. induction s as [|c s IH]; intros acc Hs; [done|]. cbn in Hs. apply andb_true_iff in Hs as [Hc Hs].
  rewrite app_cons_str. cbn [digitsFrom]. rewrite Hc. by apply IH.
Qed.

Lemma digitsFrom_bounds s acc : all_bytes is_digit s = true -> (0 <= acc)%Z ->
  exists v, digitsFrom acc s = Some v /\
    (acc * 10 ^ Z.of_nat (String.length s) <= v < (acc + 1) * 10 ^ Z.of_nat (String.length s))%Z.
Proof.
  revert acc. induction s as [|c s IH]; intros acc Hs Ha; [exists acc; cbn; split; [done|lia]|].
  cbn in Hs. apply andb_true_iff in Hs as [Hc Hs]. cbn [digitsFrom String.length]. rewrite Hc. apply is_digit_byte in Hc.
  destruct (IH (acc * 10 + (byteOf c - 48))%Z Hs ltac:(lia)) as (v & -> & Hv). exists v. split; [done|].
  rewrite Nat2Z.inj_succ, Z.pow_succ_r by lia. nia.
Qed.

Lemma takeDigits_digits s acc t : all_bytes is_digit s = true ->
  takeDigits (String.length s) acc (s +:+ t) = match digitsFrom acc s with Some v => Some (v, t) | None => None end.
Proof.
  revert acc. induction s as [|c s IH]; intros acc Hs; [done|]. cbn in Hs. apply andb_true_iff in Hs as [Hc Hs].
  rewrite app_cons_str. cbn [takeDigits digitsFrom String.length]. rewrite Hc. by apply IH.
Qed.

Lemma spanDigits_app s t : all_bytes is_digit s = true -> (match t with String c _ => is_digit c | EmptyString => false end) = false ->
  spanDigits (s +:+ t) = (s, t).
Proof.
  intros Hs Ht. induction s as [|c s IH]; cbn in Hs.
  - rewrite app_nil_l_str. destruct t as [|c t]; [done|]. cbn. by rewrite Ht.
  - apply andb_true_iff in Hs as [Hc Hs]. rewrite app_cons_str. cbn [spanDigits]. by rewrite Hc, IH.
Qed.

(** Evaluates the codes of literal bytes. *)
Ltac eval_bytes := repeat match goal with |- context [byteOf (Ascii ?a ?b ?c ?d ?e ?f ?g ?h)] =>
  let v := eval vm_compute in (byteOf (Ascii a b c d e f g h)) in change (byteOf (Ascii a b c d e f g h)) with v end.

(** The digits of a decimal numeral. *)
Lemma digitsFrom_acc (u : Decimal.uint) (p : positive) :
  digitsFrom (Zpos p) (NilEmpty.string_of_uint u) = Some (Zpos (Pos.of_uint_acc u p)).
Proof. revert p. induction u as [|u IH|u IH|u IH|u IH|u IH|u IH|u IH|u IH|u IH|u IH]; intros p; cbn -[Z.mul Z.add Pos.mul Pos.add]; try done; rewrite <- IH; f_equal; eval_bytes; lia. Qed.

Lemma digitsFrom_uint (u : Decimal.uint) : digitsFrom 0 (NilEmpty.string_of_uint u) = Some (Z.of_uint u).
Proof.
  unfold Z.of_uint. induction u as [|u IH|u IH|u IH|u IH|u IH|u IH|u IH|u IH|u IH|u IH]; cbn -[Z.mul Z.add Pos.mul Pos.add]; try done;
    by rewrite <- (digitsFrom_acc u).
Qed.

Lemma itoa_nat z : (0 <= z)%Z -> itoa z = NilZero.string_of_uint (N.to_uint (Z.to_N z)).
Proof. destruct z; cbn; [done|done|lia]. Qed.

Lemma itoa_neg p : itoa (Zneg p) = String "-"%char (itoa (Zpos p)).
Proof. done. Qed.

Lemma unorm_to_uint n : Decimal.unorm (N.to_uint n) = N.to_uint n.
Proof. by rewrite <- (DecimalN.Unsigned.to_of (N.to_uint n)), DecimalN.Unsigned.of_to. Qed.

(** A positive numeral starts with a digit that is not zero. *)
Lemma itoa_pos_head z : (0 < z)%Z -> exists c s, itoa z = String c s /\ is_digit c = true /\ (49 <= byteOf c)%Z /\ all_bytes is_digit s = true.
Proof.
  intros Hz. rewrite itoa_nat by lia. pose proof (unorm_to_uint (Z.to_N z)) as Hn. pose proof (uint_digits (N.to_uint (Z.to_N z))) as Hd.
  assert (N.to_uint (Z.to_N z) <> Decimal.D0 Decimal.Nil) as Hne.
  { intros E. apply (f_equal N.of_uint) in E. rewrite DecimalN.Unsigned.of_to in E. cbn in E. lia. }
  unfold NilZero.string_of_uint.
  destruct (N.to_uint (Z.to_N z)) as [|u|u|u|u|u|u|u|u|u|u] eqn:E; try discriminate Hn.
  { exfalso. unfold Decimal.unorm in Hn. rewrite DecimalFacts.nzhead_D0 in Hn. pose proof (DecimalFacts.nzhead_nonzero u u) as Hnz.
    destruct (Decimal.nzhead u); try discriminate Hn; [injection Hn as Hn; by subst u|congruence]. }
  all: cbn [NilEmpty.string_of_uint] in *; eexists _, _; split; [done|]; split; [done|]; split; [eval_bytes; lia|]; exact Hd.
Qed.

Lemma itoa_nonneg_digits z : (0 <= z)%Z -> all_bytes is_digit (itoa z) = true.
Proof.
  intros Hz. rewrite itoa_nat by lia. unfold NilZero.string_of_uint. pose proof (uint_digits (N.to_uint (Z.to_N z))) as Hd.
  by destruct (N.to_uint (Z.to_N z)).
Qed.

Lemma digitsFrom_itoa z : (0 <= z)%Z -> digitsFrom 0 (itoa z) = Some z.
Proof.
  intros Hz. rewrite itoa_nat by lia. pose proof (digitsFrom_uint (N.to_uint (Z.to_N z))) as Hd. unfold Z.of_uint in Hd.
  change (Pos.of_uint (N.to_uint (Z.to_N z))) with (N.of_uint (N.to_uint (Z.to_N z))) in Hd. rewrite DecimalN.Unsigned.of_to, Z2N.id in Hd by lia.
  unfold NilZero.string_of_uint. by destruct (N.to_uint (Z.to_N z)).
Qed.

Lemma itoa_nonempty z : exists c s, itoa z = String c s.
Proof.
  destruct (Z_lt_le_dec z 0) as [Hn|Hn]; [destruct z; try lia; rewrite itoa_neg; eauto|].
  destruct (Z.eq_dec z 0) as [->|Hne]; [by eexists _, _|]. destruct (itoa_pos_head z ltac:(lia)) as (c & s & -> & _). eauto.
Qed.

Lemma cutSign_digit c s : is_digit c = true -> cutSign (String c s) = (false, String c s).
Proof.
  intros Hc%is_digit_byte. unfold cutSign. by rewrite (proj2 (Z.eqb_neq _ 45)), (proj2 (Z.eqb_neq _ 43)) by lia.
Qed.

(** The printed form of a 64-bit integer is read back. *)
Lemma ParseInt_itoa z : (- 2 ^ 63 <= z < 2 ^ 63)%Z -> ParseInt (itoa z) = Some z.
Proof.
  intros Hz. unfold ParseInt. destruct (Z_lt_le_dec z 0) as [Hn|Hn].
  - destruct z as [|p|p]; try lia. rewrite itoa_neg. change (cutSign (String "-" (itoa (Z.pos p)))) with (true, itoa (Z.pos p)).
    cbv iota beta. destruct (itoa_nonempty (Z.pos p)) as (c & s & E). rewrite E. rewrite <- E, digitsFrom_itoa by lia.
    change (- Z.pos p)%Z with (Z.neg p). rewrite (proj2 (Z.leb_le _ _)), (proj2 (Z.ltb_lt _ _)) by lia. done.
  - destruct (itoa_nonempty z) as (c & s & E). pose proof (itoa_nonneg_digits z Hn) as Hd. pose proof (digitsFrom_itoa z Hn) as Hv.
    rewrite E in *. cbn in Hd. apply andb_true_iff in Hd as [Hc _]. rewrite cutSign_digit by done. rewrite Hv. 
    rewrite (proj2 (Z.leb_le _ _)), (proj2 (Z.ltb_lt _ _)) by lia. done.
Qed.

(** ** Padded numbers *)

Lemma all_digits_zeros n : all_bytes is_digit (FormatFloat.zeros n) = true.
Proof. by induction n. Qed.

Lemma length_zeros n : String.length (FormatFloat.zeros n) = n.
Proof. induction n as [|n IH]; [done|]. exact (f_equal S IH). Qed.

Lemma digitsFrom_zeros n s : digitsFrom 0 (FormatFloat.zeros n +:+ s) = digitsFrom 0 s.
Proof. induction n as [|n IH]; [done|]. cbn [FormatFloat.zeros]. rewrite app_cons_str. exact IH. Qed.

Lemma length_itoa z n : (0 <= z < 10 ^ Z.of_nat n)%Z -> (1 <= n)%nat -> (String.length (itoa z) <= n)%nat.
Proof.
  intros Hz Hn. destruct (Z.eq_dec z 0) as [->|Hne]; [exact Hn|].
  destruct (itoa_pos_head z ltac:(lia)) as (c & s & E & Hc & Hb & Hs). pose proof (digitsFrom_itoa z ltac:(lia)) as Hv. rewrite E in *.
  cbn [digitsFrom] in Hv. rewrite Hc in Hv. pose proof (proj1 (is_digit_byte c) Hc).
  destruct (digitsFrom_bounds s (0 * 10 + (byteOf c - 48))%Z Hs ltac:(lia)) as (v & Hv' & Hlo & _). rewrite Hv in Hv'. injection Hv' as <-.
  cbn [String.length]. apply Nat.le_succ_l. apply Nat2Z.inj_lt. apply (Z.pow_lt_mono_r_iff 10); [lia|lia|]. nia.
Qed.

Lemma pad_digits n z : (0 <= z)%Z -> all_bytes is_digit (pad n z) = true.
Proof. intros Hz. unfold pad. by rewrite all_bytes_app, all_digits_zeros, itoa_nonneg_digits. Qed.

Lemma length_pad n z : (0 <= z < 10 ^ Z.of_nat n)%Z -> (1 <= n)%nat -> String.length (pad n z) = n.
Proof.
  intros Hz Hn. unfold pad; cbv zeta. rewrite length_app_str, length_zeros. pose proof (length_itoa z n Hz Hn). lia.
Qed.

Lemma digitsFrom_pad n z : (0 <= z)%Z -> digitsFrom 0 (pad n z) = Some z.
Proof. intros Hz. unfold pad; cbv zeta. rewrite digitsFrom_zeros. by apply digitsFrom_itoa. Qed.

Lemma takeNum_pad n lo hi z t : (0 <= z < 10 ^ Z.of_nat n)%Z -> (1 <= n)%nat -> (lo <= z <= hi)%Z -> takeNum n lo hi (pad n z +:+ t) = Some (z, t).
Proof.
  intros Hz Hn Hr. unfold takeNum. rewrite <- (length_pad n z Hz Hn) at 1. rewrite takeDigits_digits by (apply pad_digits; lia).
  rewrite digitsFrom_pad by lia. rewrite (proj2 (Z.leb_le _ _)), (proj2 (Z.leb_le _ _)) by lia. done.
Qed.

(** ** The calendar *)

(** The position of a day in the 400-year cycle. *)
Record cycle (d n100 n4 n1 yday : Z) : Prop := {
  cy_sum : (d = 36524 * n100 + 1461 * n4 + 365 * n1 + yday)%Z;
  cy_100 : (0 <= n100 <= 3)%Z; cy_4 : (0 <= n4 <= 24)%Z; cy_1 : (0 <= n1 <= 3)%Z; cy_yday : (0 <= yday <= 365)%Z;
  cy_last : (yday = 365 -> n1 = 3 /\ (n4 <> 24 \/ n100 = 3))%Z }.

Lemma civil_cycle d : (0 <= d < 146097)%Z ->
  let n100 := Z.min (d / 36524) 3 in let d1 := (d - 36524 * n100)%Z in
  let n4 := (d1 / 1461)%Z in let d2 := (d1 - 1461 * n4)%Z in
  let n1 := Z.min (d2 / 365) 3 in cycle d n100 n4 n1 (d2 - 365 * n1)%Z.
Proof.
  intros Hd n100 d1 n4 d2 n1.
  assert (0 <= n100 <= 3 /\ 0 <= d1 <= 36524 /\ (n100 < 3 -> d1 < 36524))%Z as (H1 & H2 & H3).
  { subst n100 d1. pose proof (Z.div_mod d 36524 ltac:(lia)). pose proof (Z.mod_pos_bound d 36524 ltac:(lia)). lia. }
  assert (0 <= n4 <= 24 /\ 0 <= d2 < 1461)%Z as (H4 & H5).
  { subst n4 d2. pose proof (Z.div_mod d1 1461 ltac:(lia)). pose proof (Z.mod_pos_bound d1 1461 ltac:(lia)). lia. }
  assert (0 <= n1 <= 3 /\ 0 <= d2 - 365 * n1 <= 365 /\ (d2 - 365 * n1 = 365 -> n1 = 3 /\ d2 = 1460))%Z as (H6 & H7 & H8).
  { subst n1. pose proof (Z.div_mod d2 365 ltac:(lia)). pose proof (Z.mod_pos_bound d2 365 ltac:(lia)). lia. }
  constructor; lia.
Qed.

Lemma year_div era n100 n4 n1 : (0 <= n100 <= 3)%Z -> (0 <= n4 <= 24)%Z -> (0 <= n1 <= 3)%Z ->
  let y0 := (400 * era + 100 * n100 + 4 * n4 + n1)%Z in
  (y0 / 4 = 100 * era + 25 * n100 + n4 /\ y0 / 100 = 4 * era + n100 /\ y0 / 400 = era)%Z.
Proof.
  intros H100 H4 H1 y0. split_and!; symmetry; [apply (Z.div_unique_pos _ _ _ n1)|apply (Z.div_unique_pos _ _ _ (4 * n4 + n1))|apply (Z.div_unique_pos _ _ _ (100 * n100 + 4 * n4 + n1))];
    subst y0; lia.
Qed.

Lemma year_leap era n100 n4 n1 : (0 <= n100 <= 3)%Z -> (0 <= n4 <= 24)%Z -> (0 <= n1 <= 3)%Z ->
  isLeap (400 * era + 100 * n100 + 4 * n4 + n1 + 1)%Z = ((n1 =? 3) && (negb (n4 =? 24) || (n100 =? 3)))%Z.
Proof.
  intros H100 H4 H1. unfold isLeap. set (y := (_ + 1)%Z).
  assert (y mod 4 = if (n1 =? 3) then 0 else n1 + 1)%Z as ->.
  { destruct (Z.eqb_spec n1 3); symmetry; [apply (Z.mod_unique_pos _ _ (100 * era + 25 * n100 + n4 + 1))|apply (Z.mod_unique_pos _ _ (100 * era + 25 * n100 + n4))]; subst y; lia. }
  destruct (Z.eqb_spec n1 3) as [->|Hn1]; [|rewrite (proj2 (Z.eqb_neq _ 0)) by lia; done]. cbn [Z.eqb andb].
  assert (y mod 100 = if (n4 =? 24) then 0 else 4 * n4 + 4)%Z as ->.
  { destruct (Z.eqb_spec n4 24); symmetry; [apply (Z.mod_unique_pos _ _ (4 * era + n100 + 1))|apply (Z.mod_unique_pos _ _ (4 * era + n100))]; subst y; lia. }
  destruct (Z.eqb_spec n4 24) as [->|Hn4]; [|rewrite (proj2 (Z.eqb_neq _ 0)) by lia; done]. cbn [negb orb Z.eqb].
  assert (y mod 400 = if (n100 =? 3) then 0 else 100 * n100 + 100)%Z as ->.
  { destruct (Z.eqb_spec n100 3); symmetry; [apply (Z.mod_unique_pos _ _ (era + 1))|apply (Z.mod_unique_pos _ _ era)]; subst y; lia. }
  destruct (Z.eqb_spec n100 3) as [->|Hn]; [done|]. by rewrite (proj2 (Z.eqb_neq _ 0)) by lia.
Qed.

Definition validDate (ymd : Z * Z * Z) : Prop :=
  let '(y, m, d) := ymd in (1 <= m <= 12 /\ 1 <= d <= daysIn y m)%Z.

Ltac eval_month :=
  match goal with |- context [Z.to_nat ?x] => let n := eval vm_compute in (Z.to_nat x) in change (Z.to_nat x) with n end;
  unfold monthLens; cbn [nth take fold_right].

(** The walk through the months of a year. *)
Lemma month_walk (leap : bool) (yday : Z) : (0 <= yday)%Z -> (yday <= (if leap then 365 else 364))%Z ->
  let '(m, d) := monthFrom 1%Z [31; (if leap then 29 else 28); 31; 30; 31; 30; 31; 31; 30; 31; 30]%Z yday in
  (1 <= m <= 12 /\ 1 <= d <= nth (Z.to_nat (m - 1)) (monthLens leap) 0 /\
   fold_right Z.add 0 (take (Z.to_nat (m - 1)) (monthLens leap)) + d - 1 = yday)%Z.
Proof.
  intros H0 H1. destruct leap; cbn [monthFrom];
    repeat (match goal with |- context [if (?a <? ?b)%Z then _ else _] => destruct (Z.ltb_spec a b) end; [eval_month; lia|]); eval_month; lia.
Qed.

Lemma civil_daysFrom days : (let '(y, m, d) := civil days in daysFrom y m d = days) /\ validDate (civil days).
Proof.
  unfold civil. pose proof (Z.div_mod days 146097 ltac:(lia)) as Hdm. pose proof (Z.mod_pos_bound days 146097 ltac:(lia)) as Hb.
  set (era := (days / 146097)%Z) in *. pose proof (civil_cycle _ Hb) as Hc. cbv zeta in Hc |- *.
  set (d0 := (days mod 146097)%Z) in *. set (n100 := Z.min (d0 / 36524) 3) in *. set (d1 := (d0 - 36524 * n100)%Z) in *.
  set (n4 := (d1 / 1461)%Z) in *. set (d2 := (d1 - 1461 * n4)%Z) in *. set (n1 := Z.min (d2 / 365) 3) in *. set (yday := (d2 - 365 * n1)%Z) in *.
  clearbody yday n1 d2 n4 d1 n100. destruct Hc as [Hsum H100 H4 H1 Hy Hlast].
  rewrite <- (year_leap era n100 n4 n1 H100 H4 H1). set (year := (400 * era + 100 * n100 + 4 * n4 + n1 + 1)%Z).
  pose proof (year_leap era n100 n4 n1 H100 H4 H1) as Hleap. fold year in Hleap.
  assert (yday <= (if isLeap year then 365 else 364))%Z as Hle.
  { rewrite Hleap. destruct (Z.eq_dec yday 365) as [E|]; [|destruct (_ && _); lia].
    destruct (Hlast E) as [-> [Hn|Hn]]; rewrite Z.eqb_refl; cbn [andb].
    - rewrite (proj2 (Z.eqb_neq n4 24) Hn). cbn. lia.
    - rewrite Hn, Z.eqb_refl, orb_true_r. lia. }
  pose proof (month_walk (isLeap year) yday ltac:(lia) Hle) as Hm. destruct (monthFrom 1 _ yday) as [m d] in Hm |- *.
  destruct Hm as (Hm1 & Hm2 & Hm3). destruct (year_div era n100 n4 n1 H100 H4 H1) as (E4 & E100 & E400). split.
  - unfold daysFrom; cbv zeta. replace (year - 1)%Z with (400 * era + 100 * n100 + 4 * n4 + n1)%Z by (subst year; lia).
    rewrite E4, E100, E400. lia.
  - by split.
Qed.

(** ** RFC 3339 *)

Lemma trimZeros_zeros s : exists k, s = trimZeros s +:+ FormatFloat.zeros k.
Proof.
  induction s as [|c s (k & E)]; [by exists 0|]. cbn [trimZeros]. destruct (trimZeros s) as [|d t] eqn:Et.
  - destruct (Z.eqb_spec (byteOf c) 48) as [Ec|].
    + exists (S k). rewrite E. cbn [FormatFloat.zeros]. f_equal. by rewrite <- (byteAt_byteOf c), Ec.
    + exists k. rewrite E at 1. done.
  - exists k. rewrite E at 1. done.
Qed.

Lemma zeros_digitsFrom v k : digitsFrom v (FormatFloat.zeros k) = Some (v * 10 ^ Z.of_nat k)%Z.
Proof.
  revert v. induction k as [|k IH]; intros v; [cbn; f_equal; lia|]. change (digitsFrom (v * 10 + (byteOf "0" - 48)) (FormatFloat.zeros k) = Some (v * 10 ^ Z.of_nat (S k))%Z).
  rewrite IH. f_equal. eval_bytes. rewrite Nat2Z.inj_succ, Z.pow_succ_r by lia. lia.
Qed.

Lemma substring_all s : String.substring 0 (String.length s) s = s.
Proof. induction s as [|c s IH]; [done|]. cbn [String.length String.substring]. by rewrite IH. Qed.

Lemma substring_le s n : (String.length s <= n)%nat -> String.substring 0 n s = s.
Proof.
  revert n. induction s as [|c s IH]; intros n Hn; [by destruct n|]. destruct n as [|n]; cbn in *; [lia|]. by rewrite IH by lia.
Qed.

Lemma nanosOf_trim ns : (0 <= ns < 10 ^ 9)%Z -> nanosOf (trimZeros (pad 9 ns)) = ns /\ all_bytes is_digit (trimZeros (pad 9 ns)) = true.
Proof.
  intros Hns. destruct (trimZeros_zeros (pad 9 ns)) as (k & E). set (f := trimZeros (pad 9 ns)) in *.
  pose proof (pad_digits 9 ns ltac:(lia)) as Hd. rewrite E, all_bytes_app in Hd. apply andb_true_iff in Hd as [Hd _].
  pose proof (length_pad 9 ns Hns ltac:(lia)) as Hl. rewrite E, length_app_str, length_zeros in Hl.
  pose proof (digitsFrom_pad 9 ns ltac:(lia)) as Hv. rewrite E, digitsFrom_app in Hv by done.
  split; [|done]. unfold nanosOf, FormatFloat.take_str. rewrite substring_le by lia.
  pose proof (takeDigits_digits f 0 "" Hd) as Ht. rewrite app_nil_r_str in Ht. rewrite Ht.
  destruct (digitsFrom 0 f) as [v|]; [|done]. rewrite zeros_digitsFrom in Hv. injection Hv as <-. do 2 f_equal. lia.
Qed.

Lemma str_length_0 s : String.length s = 0 -> s = "".
Proof. by destruct s. Qed.

Lemma takeFraction_spec strict ns : (0 <= ns < 10 ^ 9)%Z -> takeFraction strict (fraction ns +:+ "Z") = (ns, "Z").
Proof.
  intros Hns. destruct (nanosOf_trim ns Hns) as [Hn Hd]. unfold fraction. destruct (str_eqb _ "") eqn:E.
  - apply str_eqb_eq in E. rewrite E in Hn. cbn in Hn. subst ns. by destruct strict.
  - set (f := trimZeros (pad 9 ns)) in *. rewrite app_assoc_str. cbn [takeFraction]. eval_bytes. cbn [Z.eqb Pos.eqb orb].
    change ("." +:+ (f +:+ "Z")) with (String "." (f +:+ "Z")). cbn [takeFraction]. eval_bytes. cbn [Z.eqb Pos.eqb orb].
    rewrite spanDigits_app by done. destruct f; [done|]. by rewrite Hn.
Qed.

Lemma takeHour_pad strict h t : (0 <= h < 24)%Z -> takeHour strict (pad 2 h +:+ t) = Some (h, t).
Proof.
  intros Hh. pose proof (length_pad 2 h ltac:(lia) ltac:(lia)) as Hl. pose proof (pad_digits 2 h ltac:(lia)) as Hd.
  pose proof (takeNum_pad 2 0 23 h t ltac:(lia) ltac:(lia) ltac:(lia)) as Ht. destruct (pad 2 h) as [|c [|d s]]; cbn in Hl; try lia.
  rewrite !app_cons_str in *. cbn [takeHour]. cbn in Hd. apply andb_true_iff in Hd as [_ Hd]. apply andb_true_iff in Hd as [-> _].
  by rewrite orb_true_r.
Qed.

Lemma expect_app b c t : byteOf c = b -> expect b (String c "" +:+ t) = Some t.
Proof. intros <-. rewrite app_cons_str, app_nil_l_str. cbn [expect]. by rewrite Z.eqb_refl. Qed.

(** What [formatRFC3339Nano] writes is read back, strictly or not. *)
Lemma parse_format strict t : (0 <= yearOf t <= 9999)%Z -> parseRFC3339 strict (formatRFC3339Nano t) = Some t.
Proof.
  intros Hy. unfold yearOf in Hy. unfold formatRFC3339Nano. change 1000000000%Z with second in *. cbv zeta.
  set (secs := (t / second)%Z) in *. destruct (civil_daysFrom (secs / 86400)) as [Hdf Hval].
  destruct (civil (secs / 86400)) as [[y mo] d] eqn:Ec. cbn [fst] in Hy. destruct Hval as [Hmo Hd].
  assert (daysIn y mo <= 31)%Z as H31.
  { unfold daysIn, monthLens. assert (mo = 1 \/ mo = 2 \/ mo = 3 \/ mo = 4 \/ mo = 5 \/ mo = 6 \/ mo = 7 \/ mo = 8 \/ mo = 9 \/ mo = 10 \/ mo = 11 \/ mo = 12)%Z as Hm by lia.
    repeat (destruct Hm as [->|Hm]; [cbn; by destruct (isLeap y)|]). subst. cbn. by destruct (isLeap y). }
  pose proof (Z.mod_pos_bound secs 86400 ltac:(lia)) as Hs. set (s := (secs mod 86400)%Z) in *.
  pose proof (Z.mod_pos_bound t second ltac:(unfold second; lia)) as Hns.
  assert (0 <= s / 3600 < 24)%Z as Hh by (split; [apply Z.div_pos; lia|apply Z.div_lt_upper_bound; lia]).
  pose proof (Z.mod_pos_bound (s / 60) 60 ltac:(lia)) as Hmi. pose proof (Z.mod_pos_bound s 60 ltac:(lia)) as Hsec.
  unfold parseRFC3339. repeat (first [rewrite takeNum_pad by lia|rewrite takeHour_pad by lia|rewrite expect_app by reflexivity]; cbn [mbind option_bind fst snd]).
  rewrite takeFraction_spec by exact Hns. cbn [fst snd]. change (takeZone strict "Z") with (Some 0%Z). cbn [mbind option_bind].
  f_equal. unfold dateUTC. rewrite Hdf.
  pose proof (Z.div_mod secs 86400 ltac:(lia)) as E1. fold s in E1. pose proof (Z.div_mod s 3600 ltac:(lia)) as E2.
  pose proof (Z.div_mod s 60 ltac:(lia)) as E3. pose proof (Z.div_mod (s / 60) 60 ltac:(lia)) as E4. rewrite Z.div_div in E4 by lia.
  change (60 * 60)%Z with 3600%Z in E4. pose proof (Z.div_mod t second ltac:(unfold second; lia)) as E5. fold secs in E5.
  clearbody s secs. lia.
Qed.

(** Hence what [Time.MarshalJSON] writes, [Time.UnmarshalJSON] reads. *)
Lemma marshalTime_parse strict t s : marshalTime t = Some s -> parseRFC3339 strict s = Some t.
Proof.
  unfold marshalTime. destruct (_ && _) eqn:E; [|done]. intros [= <-]. apply andb_true_iff in E as [?%Z.leb_le ?%Z.leb_le]. by apply parse_format.
Qed.

(** ** base64 *)

Lemma b64_val_char v : (0 <= v < 64)%Z -> b64val (b64char v) = Some v.
Proof.
  intros Hv. assert (forallb (fun n => match b64val (b64char (Z.of_nat n)) with Some v => (v =? Z.of_nat n)%Z | None => false end) (seq 0 64) = true) as Hall by (vm_compute; reflexivity).
  rewrite forallb_forall in Hall. specialize (Hall (Z.to_nat v)). rewrite Z2Nat.id in Hall by lia.
  specialize (Hall ltac:(apply in_seq; lia)). destruct (b64val (b64char v)) as [w|]; [|done]. apply Z.eqb_eq in Hall. by subst.
Qed.

Lemma b64_char_plain v : (0 <= v < 64)%Z -> ((byteOf (b64char v) =? 10) || (byteOf (b64char v) =? 13))%Z = false.
Proof.
  intros Hv. assert (forallb (fun n => negb ((byteOf (b64char (Z.of_nat n)) =? 10) || (byteOf (b64char (Z.of_nat n)) =? 13))%Z) (seq 0 64) = true) as Hall by (vm_compute; reflexivity).
  rewrite forallb_forall in Hall. specialize (Hall (Z.to_nat v)). rewrite Z2Nat.id in Hall by lia.
  specialize (Hall ltac:(apply in_seq; lia)). by apply negb_true_iff in Hall.
Qed.

Lemma sextets_cons v s : (0 <= v < 64)%Z -> sextets (String (b64char v) s) = match sextets s with Some l => Some (v :: l) | None => None end.
Proof. intros Hv. cbn [sextets]. by rewrite b64_char_plain, b64_val_char. Qed.

(** Induction by groups of three bytes. *)
Lemma triples_ind (P : string -> Prop) : P "" -> (forall a, P (String a "")) -> (forall a b, P (String a (String b ""))) ->
  (forall a b c s, P s -> P (String a (String b (String c s)))) -> forall s, P s.
Proof.
  intros H0 H1 H2 H3. fix IH 1. intros [|a [|b [|c s]]]; [apply H0|apply H1|apply H2|apply H3, IH].
Qed.

Lemma byteAt_val c z : z = byteOf c -> byteAt z = c.
Proof. intros ->. apply byteAt_byteOf. Qed.

Lemma decode_encode s : DecodeString (EncodeToString s) = Some s.
Proof.
  unfold DecodeString. assert (exists l, sextets (EncodeToString s) = Some l /\ joinSextets l = Some s) as (l & -> & Hj); [|exact Hj].
  induction s as [|a|a b|a b c s (l & El & Ej)] using triples_ind.
  - by exists [].
  - pose proof (byteOf_range a). cbn [EncodeToString]. eexists. rewrite !sextets_cons by (first [apply Z.mod_pos_bound; lia | split; [apply Z.div_pos; lia|apply Z.div_lt_upper_bound; lia]]).
    cbn [sextets]. split; [reflexivity|]. cbn [joinSextets]. f_equal. f_equal. apply byteAt_val. Z.to_euclidean_division_equations; lia.
  - pose proof (byteOf_range a). pose proof (byteOf_range b). cbn [EncodeToString]. eexists. rewrite !sextets_cons by (first [apply Z.mod_pos_bound; lia | split; [apply Z.div_pos; lia|apply Z.div_lt_upper_bound; lia]]).
    cbn [sextets]. split; [reflexivity|]. cbn [joinSextets]. f_equal. f_equal; [|f_equal]; apply byteAt_val; Z.to_euclidean_division_equations; lia.
  - pose proof (byteOf_range a). pose proof (byteOf_range b). pose proof (byteOf_range c). cbn [EncodeToString]. eexists.
    rewrite !sextets_cons by (first [apply Z.mod_pos_bound; lia | split; [apply Z.div_pos; lia|apply Z.div_lt_upper_bound; lia]]).
    rewrite El. split; [reflexivity|]. cbn [joinSextets]. rewrite Ej. cbn [option_map].
    f_equal. f_equal; [|f_equal; [|f_equal]]; apply byteAt_val; Z.to_euclidean_division_equations; lia.
Qed.

(** A fact about the 64 characters holds of every encoded text. *)
Lemma encode_all (f : ascii -> bool) s : forallb (fun n => f (b64char (Z.of_nat n))) (seq 0 64) = true -> all_bytes f (EncodeToString s) = true.
Proof.
  intros Hall. assert (forall v, (0 <= v < 64)%Z -> f (b64char v) = true) as Hf.
  { intros v Hv. rewrite forallb_forall in Hall. specialize (Hall (Z.to_nat v)). rewrite Z2Nat.id in Hall by lia. apply Hall, in_seq. lia. }
  induction s as [|a|a b|a b c s IH] using triples_ind; [done| | |];
    pose proof (byteOf_range a); try pose proof (byteOf_range b); try pose proof (byteOf_range c); cbn [EncodeToString all_bytes];
    rewrite !Hf by (first [apply Z.mod_pos_bound; lia | split; [apply Z.div_pos; lia|apply Z.div_lt_upper_bound; lia]]); done.
Qed.

Lemma encode_length s : (String.length (EncodeToString s) mod 4 <> 1)%nat.
Proof.
  induction s as [|a|a b|a b c s IH] using triples_ind; [done..|]. cbn [EncodeToString String.length].
  change (S (S (S (S (String.length (EncodeToString s)))))) with (4 + String.length (EncodeToString s))%nat. rewrite Nat.add_comm. rewrite <- (Nat.mul_1_l 4), Nat.Div0.mod_add. exact IH.
Qed.
