(* ===== verification/JsonSound.v ===== *)
(** * JSON texts that read back

    A string written by [json.Marshal] is scanned up to its closing quote and unquoted to
    the string it came from, with invalid UTF-8 replaced; a compact text is parsed to the
    tree it prints; and the fuel of the parser is enough for every text. *)

From stdpp Require Import base list strings.
From Stdlib Require Import ZArith Lia Ascii.
From S2P Require Import Prelude GoMap Json Paths Numbers Canonical Worker JsonText TimeText.

(** ** UTF-8 *)

(** The string with every invalid byte replaced by U+FFFD. *)
Fixpoint coerceFrom (n : nat) (s : string) : string :=
  match s with
  | EmptyString => EmptyString
  | String c s' =>
      match n with
      | S n' => String c (coerceFrom n' s')
      | O =>
          if (byteOf c <? 128)%Z then String c (coerceFrom 0 s')
          else match runeWidth c s' with
               | None => replacement +:+ coerceFrom 0 s'
               | Some w => String c (coerceFrom (w - 1) s')
               end
      end
  end.

Fixpoint validFrom (n : nat) (s : string) : bool :=
  match s with
  | EmptyString => true
  | String c s' =>
      match n with
      | S n' => validFrom n' s'
      | O => if (byteOf c <? 128)%Z then validFrom 0 s'
             else match runeWidth c s' with None => false | Some w => validFrom (w - 1) s' end
      end
  end.

(** [utf8.ValidString]. *)
Definition ValidString (s : string) : bool := validFrom 0 s.

Lemma coerce_valid s : ValidString s = true -> coerceFrom 0 s = s.
Proof.
  unfold ValidString. generalize 0. induction s as [|c s IH]; intros n Hv; [done|]. cbn in *. destruct n as [|n]; [|by rewrite IH].
  destruct (byteOf c <? 128)%Z; [by rewrite IH|]. destruct (runeWidth c s); [by rewrite IH|done].
Qed.

Fixpoint highBytes (s : string) : bool :=
  match s with EmptyString => true | String c s' => negb (byteOf c <? 128)%Z && highBytes s' end.

Lemma highBytes_app s t : highBytes (s +:+ t) = highBytes s && highBytes t.
Proof. induction s as [|c s IH]; [done|]. rewrite app_cons_str. cbn. by rewrite IH, andb_assoc. Qed.

(** The width of a rune depends on its own bytes, which are all high. *)
Lemma runeWidth_prefix c s w : runeWidth c s = Some w ->
  exists p r, s = p +:+ r /\ String.length p = (w - 1)%nat /\ highBytes p = true /\ forall x, runeWidth c (p +:+ x) = Some w.
Proof.
  intros Hw. pose proof (runeWidth_cont c s w Hw) as Hc. unfold runeWidth in Hw. destruct s as [|c1 s1]; [done|].
  destruct ((194 <=? byteOf c)%Z && (byteOf c <=? 223)%Z) eqn:E2.
  { destruct (inRange 128 191 c1) eqn:I1; [|done]. injection Hw as <-. destruct Hc as [H1 _].
    exists (String c1 ""), s1. split_and!; [done|done|cbn; by rewrite H1|]. intros x. rewrite app_cons_str. unfold runeWidth. by rewrite E2, I1. }
  destruct s1 as [|c2 s2]; [done|]. destruct ((224 <=? byteOf c)%Z && (byteOf c <=? 239)%Z) eqn:E3.
  { destruct (inRange _ _ c1) eqn:I1; [|done]. destruct (inRange 128 191 c2) eqn:I2; [|done]. injection Hw as <-. destruct Hc as (H1 & H2 & _).
    exists (String c1 (String c2 "")), s2. split_and!; [done|done|cbn; by rewrite H1, H2|].
    intros x. rewrite !app_cons_str. unfold runeWidth. by rewrite E2, E3, I1, I2. }
  destruct s2 as [|c3 s3]; [done|]. destruct ((240 <=? byteOf c)%Z && (byteOf c <=? 244)%Z) eqn:E4; [|done].
  destruct (inRange _ _ c1) eqn:I1; [|done]. destruct (inRange 128 191 c2) eqn:I2; [|done]. destruct (inRange 128 191 c3) eqn:I3; [|done].
  injection Hw as <-. destruct Hc as (H1 & H2 & H3 & _).
  exists (String c1 (String c2 (String c3 ""))), s3. split_and!; [done|done|cbn; by rewrite H1, H2, H3|].
  intros x. rewrite !app_cons_str. unfold runeWidth. by rewrite E2, E3, E4, I1, I2, I3.
Qed.

(** ** Copies of high bytes *)

Lemma escapeFrom_copy p r : highBytes p = true -> escapeFrom (String.length p) false (p +:+ r) = p +:+ escapeFrom 0 false r.
Proof.
  induction p as [|c p IH]; intros Hp; [done|]. cbn in Hp. apply andb_true_iff in Hp as [_ Hp]. rewrite !app_cons_str. cbn [String.length escapeFrom]. by rewrite IH.
Qed.

Lemma coerceFrom_copy p r : coerceFrom (String.length p) (p +:+ r) = p +:+ coerceFrom 0 r.
Proof. induction p as [|c p IH]; [done|]. rewrite !app_cons_str. cbn [String.length coerceFrom]. by rewrite IH. Qed.

Lemma unquoteFrom_copy p r : unquoteFrom (String.length p) false (p +:+ r) = p +:+ unquoteFrom 0 false r.
Proof. induction p as [|c p IH]; [done|]. rewrite !app_cons_str. cbn [String.length unquoteFrom]. by rewrite IH. Qed.

Lemma escapeHTML_app s t : escapeHTML (s +:+ t) = escapeHTML s +:+ escapeHTML t.
Proof.
  induction s as [|c s IH]; [done|]. rewrite app_cons_str. cbn [escapeHTML]. rewrite IH.
  destruct (byteOf c =? 60)%Z; [done|]. destruct (byteOf c =? 62)%Z; [done|]. by destruct (byteOf c =? 38)%Z.
Qed.

Lemma escapeHTML_high s : highBytes s = true -> escapeHTML s = s.
Proof.
  induction s as [|c s IH]; [done|]. cbn. intros [Hc%negb_true_iff%Z.ltb_ge Hs]%andb_true_iff.
  rewrite !(proj2 (Z.eqb_neq _ _)) by lia. by rewrite IH.
Qed.

(** ** Escaped text, as the scanner and [unquote] see it *)

Definition prepend (e : string) (r : option (string * string)) : option (string * string) :=
  match r with Some (a, rest) => Some (e +:+ a, rest) | None => None end.

(** A piece of text inside a string that the scanner passes. *)
Definition plainText (e : string) : Prop := forall x, scanString InText (e +:+ x) = prepend e (scanString InText x).

Lemma prepend_app e f r : prepend (e +:+ f) r = prepend e (prepend f r).
Proof. destruct r as [[a rest]|]; [|done]. cbn. by rewrite app_assoc_str. Qed.

Lemma plainText_nil : plainText "".
Proof. intros x. rewrite app_nil_l_str. by destruct (scanString InText x) as [[a r]|]. Qed.

Lemma plainText_app e f : plainText e -> plainText f -> plainText (e +:+ f).
Proof. intros He Hf x. by rewrite app_assoc_str, He, Hf, prepend_app. Qed.

Lemma plainText_high e : highBytes e = true -> plainText e.
Proof.
  induction e as [|c e IH]; [intros _; apply plainText_nil|]. cbn. intros [Hc%negb_true_iff%Z.ltb_ge He]%andb_true_iff x.
  rewrite app_cons_str. cbn [scanString]. rewrite (proj2 (Z.eqb_neq _ 34)), (proj2 (Z.eqb_neq _ 92)), (proj2 (Z.ltb_ge _ 32)) by lia.
  rewrite (IH He). by destruct (scanString InText x) as [[a r]|].
Qed.

(** The state of the scanner after a text without closing quote. *)
Fixpoint runState (st : strState) (s : string) : option strState :=
  match s with
  | EmptyString => Some st
  | String c s' =>
      match st with
      | InText => if (byteOf c =? 34)%Z then None else if (byteOf c =? 92)%Z then runState InEsc s' else if (byteOf c <? 32)%Z then None else runState InText s'
      | InEsc => if simpleEscape c then runState InText s' else if (byteOf c =? 117)%Z then runState (InHex 3) s' else None
      | InHex n => match hexVal c with None => None | Some _ => runState (match n with O => InText | S n' => InHex n' end) s' end
      end
  end.

Lemma prepend_cons c e r : prepend (String c e) r = cons1 c (prepend e r).
Proof. by destruct r as [[a rest]|]. Qed.

Lemma runState_scan e st st' x : runState st e = Some st' -> scanString st (e +:+ x) = prepend e (scanString st' x).
Proof.
  revert st. induction e as [|c e IH]; intros st; cbn [runState].
  - intros [= ->]. rewrite app_nil_l_str. by destruct (scanString st' x) as [[a r]|].
  - rewrite app_cons_str, prepend_cons. cbn [scanString]. destruct st as [| |n].
    + destruct (byteOf c =? 34)%Z; [done|]. destruct (byteOf c =? 92)%Z; [intros H; by rewrite (IH _ H)|].
      destruct (byteOf c <? 32)%Z; [done|]. intros H. by rewrite (IH _ H).
    + destruct (simpleEscape c); [intros H; by rewrite (IH _ H)|]. destruct (byteOf c =? 117)%Z; [|done]. intros H. by rewrite (IH _ H).
    + destruct (hexVal c); [|done]. intros H. by rewrite (IH _ H).
Qed.

Lemma plainText_run e : runState InText e = Some InText -> plainText e.
Proof. intros He x. by apply runState_scan. Qed.

(** The three forms of an encoded ASCII byte: itself, a short escape, a long escape. *)
Definition asciiForm (c : ascii) : bool :=
  match escapeHTML (escapeAscii c) with
  | String d EmptyString => (byteOf d =? byteOf c)%Z && negb (byteOf c =? 92)%Z
  | String b (String d EmptyString) => (byteOf b =? 92)%Z && negb (byteOf d =? 117)%Z && str_eqb (unescape1 d) (String c "")
  | String b (String u (String h1 (String h2 (String h3 (String h4 EmptyString))))) =>
      (byteOf b =? 92)%Z && (byteOf u =? 117)%Z &&
      match hexDigits 4 0 (String h1 (String h2 (String h3 (String h4 "")))) with
      | Some z => str_eqb (encodeRune z) (String c "") && negb (isHigh z)
      | None => false
      end
  | _ => false
  end.

Definition asciiPieces : bool :=
  forallb (fun n => let c := byteAt (Z.of_nat n) in
             match runState InText (escapeHTML (escapeAscii c)) with Some InText => asciiForm c | _ => false end) (seq 0 128).

Lemma ascii_forms c : (byteOf c <? 128)%Z = true -> plainText (escapeHTML (escapeAscii c)) /\ asciiForm c = true.
Proof.
  intros Hc%Z.ltb_lt. assert (asciiPieces = true) as H by (vm_compute; reflexivity). unfold asciiPieces in H. rewrite forallb_forall in H.
  pose proof (byteOf_range c). specialize (H (Z.to_nat (byteOf c)) ltac:(apply in_seq; lia)). rewrite Z2Nat.id, byteAt_byteOf in H by lia.
  destruct (runState InText (escapeHTML (escapeAscii c))) as [[]|] eqn:E; try done. split; [by apply plainText_run|done].
Qed.

Lemma hexDigits_app n acc h x v : String.length h = n -> hexDigits n acc h = Some v -> hexDigits n acc (h +:+ x) = Some v.
Proof.
  revert n acc. induction h as [|c h IH]; intros n acc <- Hv; [done|]. rewrite app_cons_str. cbn [hexDigits String.length] in *.
  destruct (hexVal c); [|done]. by apply IH.
Qed.

Lemma byteOf_inj c d : byteOf c = byteOf d -> c = d.
Proof. intros H. by rewrite <- (byteAt_byteOf c), H, byteAt_byteOf. Qed.

Lemma unquote_skip0 b s : unquoteFrom 0 b s = unquoteFrom 0 false s.
Proof. by destruct s. Qed.

Lemma escape_skip0 b s : escapeFrom 0 b s = escapeFrom 0 false s.
Proof. by destruct s. Qed.

(** What the encoder writes for an ASCII byte reads back. *)
Lemma ascii_unquote c x : (byteOf c <? 128)%Z = true -> unquoteFrom 0 false (escapeHTML (escapeAscii c) +:+ x) = String c (unquoteFrom 0 false x).
Proof.
  intros Hc. destruct (ascii_forms c Hc) as [_ Hf]. unfold asciiForm in Hf.
  destruct (escapeHTML (escapeAscii c)) as [|b [|d [|h1 [|h2 [|h3 [|h4 [|? ?]]]]]]]; try done.
  - apply andb_true_iff in Hf as [Hb%Z.eqb_eq%byteOf_inj Hn%negb_true_iff]. subst b. rewrite app_cons_str, app_nil_l_str. cbn [unquoteFrom]. by rewrite Hn, Hc.
  - rewrite !andb_true_iff in Hf. destruct Hf as [[Hb Hn%negb_true_iff] Hu%str_eqb_eq]. rewrite !app_cons_str, app_nil_l_str. cbn [unquoteFrom].
    rewrite Hb, Hn, Hu, unquote_skip0. reflexivity.
  - rewrite !andb_true_iff in Hf. destruct Hf as [[Hb Hu] Hz]. destruct (hexDigits _ _ _) as [z|] eqn:Eh; [|done].
    apply andb_true_iff in Hz as [Hz%str_eqb_eq Hh%negb_true_iff]. set (h := String h1 (String h2 (String h3 (String h4 "")))) in *.
    change (String b (String d h) +:+ x) with (String b (String d (h +:+ x))). cbn [unquoteFrom]. rewrite Hb, Hu.
    assert (readEscape (String b (String d (h +:+ x))) = (encodeRune z, 6)) as Hr.
    { unfold readEscape. change (getu4 (String b (String d (h +:+ x)))) with (if ((byteOf b =? 92) && (byteOf d =? 117))%Z then hexDigits 4 0 (h +:+ x) else None).
      rewrite Hb, Hu. cbn [andb]. rewrite (hexDigits_app 4 0 h x z eq_refl Eh). destruct (getu4 _); [by rewrite Hh|done]. }
    rewrite Hr, Hz. unfold h. rewrite !app_cons_str, app_nil_l_str. cbn [unquoteFrom Nat.sub]. by rewrite unquote_skip0.
Qed.

Lemma unicode_piece e h z x : e = "\u" +:+ h -> String.length h = 4 -> hexDigits 4 0 h = Some z -> isHigh z = false ->
  unquoteFrom 0 false (e +:+ x) = encodeRune z +:+ unquoteFrom 0 false x.
Proof.
  intros -> Hl Hz Hh. rewrite app_assoc_str. change ("\u" +:+ h +:+ x) with (String "\"%char (String "u"%char (h +:+ x))). cbn [unquoteFrom].
  change (byteOf "\" =? 92)%Z with true. change (byteOf "u" =? 117)%Z with true. cbv iota.
  assert (readEscape (String "\" (String "u" (h +:+ x))) = (encodeRune z, 6)) as ->.
  { unfold readEscape. change (getu4 (String "\" (String "u" (h +:+ x)))) with (hexDigits 4 0 (h +:+ x)).
    rewrite (hexDigits_app 4 0 h x z Hl Hz). destruct (getu4 _); [by rewrite Hh|done]. }
  destruct h as [|h1 [|h2 [|h3 [|h4 [|? ?]]]]]; try discriminate Hl. rewrite !app_cons_str, app_nil_l_str. cbn [unquoteFrom Nat.sub]. by rewrite unquote_skip0.
Qed.

(** ** Strings *)

Lemma lineSep_bytes c s esc : lineSep c s = Some esc ->
  exists c1 c2 r, s = String c1 (String c2 r) /\ c = byteAt 226 /\ c1 = byteAt 128 /\
    ((c2 = byteAt 168 /\ esc = "\u2028") \/ (c2 = byteAt 169 /\ esc = "\u2029")).
Proof.
  unfold lineSep. destruct s as [|c1 [|c2 r]]; try done. destruct (_ && _) eqn:E; [|done]. intros [= <-].
  rewrite !andb_true_iff, orb_true_iff, !Z.eqb_eq in E. destruct E as [[E0 E1] E2]. exists c1, c2, r.
  split_and!; [done|by rewrite <- E0, byteAt_byteOf|by rewrite <- E1, byteAt_byteOf|].
  destruct E2 as [E2|E2]; rewrite E2; [left|right]; by rewrite <- (byteAt_byteOf c2), E2.
Qed.

(** The text between the quotes of a marshalled string: it is passed by the scanner and
    unquotes to the string, with invalid bytes replaced. *)
Lemma escape_text s : let e := escapeHTML (escapeFrom 0 false s) in
  plainText e /\ forall x, unquoteFrom 0 false (e +:+ x) = coerceFrom 0 s +:+ unquoteFrom 0 false x.
Proof.
  induction s as [s IH] using (induction_ltof1 _ String.length). unfold ltof in IH. destruct s as [|c s]; cbv zeta.
  { split; [apply plainText_nil|done]. }
  cbn [escapeFrom coerceFrom]. destruct (byteOf c <? 128)%Z eqn:Eb.
  { destruct (IH s ltac:(cbn; lia)) as [IH1 IH2]. destruct (ascii_forms c Eb) as [Hp _]. rewrite escapeHTML_app. split; [by apply plainText_app|].
    intros x. by rewrite app_assoc_str, ascii_unquote, IH2. }
  destruct (runeWidth c s) as [w|] eqn:Ew.
  2:{ destruct (IH s ltac:(cbn; lia)) as [IH1 IH2]. rewrite escapeHTML_app. split; [apply plainText_app; [by apply plainText_run|done]|].
      intros x. rewrite app_assoc_str. rewrite (unicode_piece _ "fffd" 65533) by reflexivity. by rewrite IH2, app_assoc_str. }
  destruct (lineSep c s) as [esc|] eqn:El.
  - apply lineSep_bytes in El as (c1 & c2 & r & -> & -> & -> & Hc2). 
    assert (w = 3) as -> by (destruct Hc2 as [[-> _]|[-> _]]; vm_compute in Ew; congruence).
    destruct (IH r ltac:(cbn; lia)) as [IH1 IH2]. cbn [escapeFrom coerceFrom Nat.sub]. rewrite escape_skip0, escapeHTML_app.
    destruct Hc2 as [[-> ->]|[-> ->]]; (split; [apply plainText_app; [by apply plainText_run|done]|]); intros x.
    + rewrite app_assoc_str, (unicode_piece _ "2028" 8232) by reflexivity. by rewrite IH2.
    + rewrite app_assoc_str, (unicode_piece _ "2029" 8233) by reflexivity. by rewrite IH2.
  - destruct (runeWidth_prefix c s w Ew) as (p & r & -> & Hl & Hp & Hx). destruct (IH r ltac:(cbn; rewrite length_app_str; lia)) as [IH1 IH2].
    rewrite <- Hl, escapeFrom_copy, coerceFrom_copy by done. apply Z.ltb_ge in Eb as Eb'.
    assert (escapeHTML (String c (p +:+ escapeFrom 0 false r)) = String c (p +:+ escapeHTML (escapeFrom 0 false r))) as ->.
    { cbn [escapeHTML]. rewrite !(proj2 (Z.eqb_neq _ _)) by lia. by rewrite escapeHTML_app, escapeHTML_high. }
    split.
    + apply (plainText_app (String c p)); [|done]. apply plainText_high. cbn. by rewrite Eb.
    + intros x. rewrite !app_cons_str, !app_assoc_str. cbn [unquoteFrom]. rewrite (proj2 (Z.eqb_neq _ 92)) by lia. by rewrite Eb, Hx, <- Hl, unquoteFrom_copy, IH2.
Qed.

Lemma marshalString_quoted s : marshalString s = quoted (escapeHTML (escapeFrom 0 false s)).
Proof. unfold marshalString, jsonString, quoted. cbn [escapeHTML]. change (byteOf quoteByte =? 60)%Z with false. change (byteOf quoteByte =? 62)%Z with false.
  change (byteOf quoteByte =? 38)%Z with false. cbv iota. by rewrite escapeHTML_app. Qed.

Lemma scanString_quote e x : plainText e -> scanString InText (e +:+ String quoteByte x) = Some (e, x).
Proof. intros He. rewrite He. change (prepend e (Some ("", x)) = Some (e, x)). unfold prepend. by rewrite app_nil_r_str. Qed.

Lemma unquote_marshal s : unquote (escapeHTML (escapeFrom 0 false s)) = coerceFrom 0 s.
Proof. destruct (escape_text s) as [_ H]. specialize (H ""). change (unquoteFrom 0 false "") with "" in H. by rewrite !app_nil_r_str in H. Qed.

(** ** Compact texts *)

(** What may follow a number. *)
Definition endsNumber (x : string) : bool :=
  match x with
  | EmptyString => true
  | String c _ => negb (is_digit c || (byteOf c =? 46) || (lower c =? 101))%Z
  end.

(** A literal that is read as one number whatever follows, and dispatched as one. *)
Definition numLit (lit : string) : Prop :=
  (exists c s, lit = String c s /\ (is_digit c || (byteOf c =? 45)%Z) = true) /\
  forall x, endsNumber x = true -> scanNumber (lit +:+ x) = Some (lit, x).

(** Trees that carry the compact text of themselves. *)
Fixpoint canon (t : jtree) : Prop :=
  match t with
  | TNull | TBool _ => True
  | TNum lit => numLit lit
  | TStr raw => plainText raw
  | TArr raw l =>
      raw = "[" +:+ joinWith "," (map rawOf l) +:+ "]" /\
      (fix go (l : list jtree) : Prop := match l with [] => True | v :: l' => canon v /\ go l' end) l
  | TObj raw m =>
      raw = "{" +:+ joinWith "," (map (fun kv => quoted kv.1 +:+ ":" +:+ rawOf kv.2) m) +:+ "}" /\
      (fix go (m : list (string * jtree)) : Prop := match m with [] => True | (k, v) :: m' => plainText k /\ canon v /\ go m' end) m
  end.

Fixpoint height (t : jtree) : Z :=
  match t with
  | TArr _ l => 1 + (fix go (l : list jtree) : Z := match l with [] => 0 | v :: l' => Z.max (height v) (go l') end) l
  | TObj _ m => 1 + (fix go (m : list (string * jtree)) : Z := match m with [] => 0 | (_, v) :: m' => Z.max (height v) (go m') end) m
  | _ => 0
  end%Z.

Fixpoint canonList (l : list jtree) : Prop := match l with [] => True | v :: l' => canon v /\ canonList l' end.
Fixpoint canonMembers (m : list (string * jtree)) : Prop := match m with [] => True | (k, v) :: m' => plainText k /\ canon v /\ canonMembers m' end.
Fixpoint heights (l : list jtree) : Z := match l with [] => 0 | v :: l' => Z.max (height v) (heights l') end%Z.
Definition member (kv : string * jtree) : string := quoted kv.1 +:+ ":" +:+ rawOf kv.2.

(** Equations of the parser. *)
Lemma parseElems_eq f d s : parseElems (S f) d s =
  match parseValue f d s with
  | None => None
  | Some (v, r) =>
      match skipWS r with
      | String c r' =>
          if (byteOf c =? 44)%Z then match parseElems f d (skipWS r') with Some (l, r2) => Some (v :: l, r2) | None => None end
          else if (byteOf c =? 93)%Z then Some ([v], r') else None
      | EmptyString => None
      end
  end.
Proof. done. Qed.

Lemma rawOf_head t : canon t -> exists c s, rawOf t = String c s /\ isWS c = false /\ (byteOf c =? 93)%Z = false /\ (byteOf c =? 125)%Z = false.
Proof.
  destruct t as [|b|lit|raw|raw l|raw m]; cbn [canon rawOf].
  - intros _. by eexists _, _.
  - intros _. destruct b; by eexists _, _.
  - intros [(c & s & -> & Hc) _]. exists c, s. split; [done|]. unfold isWS. apply orb_true_iff in Hc as [Hc%is_digit_byte|Hc%Z.eqb_eq].
    + rewrite !(proj2 (Z.eqb_neq _ _)) by lia. done.
    + rewrite Hc. done.
  - intros _. by eexists _, _.
  - intros [-> _]. by eexists _, _.
  - intros [-> _]. by eexists _, _.
Qed.

Lemma skipWS_raw t x : canon t -> skipWS (rawOf t +:+ x) = rawOf t +:+ x.
Proof. intros Ht. destruct (rawOf_head t Ht) as (c & s & -> & Hw & _). rewrite app_cons_str. cbn [skipWS]. by rewrite Hw. Qed.

Lemma consumed_app s x : consumed (s +:+ x) x = s.
Proof.
  unfold consumed. rewrite length_app_str. replace (_ + _ - _) with (String.length s) by lia.
  induction s as [|c s IH]; [by destruct x|]. rewrite app_cons_str. cbn [String.length String.substring]. by rewrite IH.
Qed.

Lemma tail_string c s : String.substring 1 (String.length (String c s)) (String c s) = s.
Proof. cbn [String.length String.substring]. apply substring_le. lia. Qed.

Definition parses (t : jtree) : Prop := canon t -> forall fuel depth x,
  (2 * String.length (rawOf t) <= fuel)%nat -> (0 <= depth)%Z -> (depth + height t <= maxNestingDepth)%Z -> endsNumber x = true ->
  parseValue fuel depth (rawOf t +:+ x) = Some (t, x).

Lemma parses_elems l : l <> [] -> Forall parses l -> canonList l -> forall fuel depth x,
  (2 * String.length (joinWith "," (map rawOf l)) + 1 <= fuel)%nat -> (0 <= depth)%Z -> (depth + heights l <= maxNestingDepth)%Z ->
  parseElems fuel depth (joinWith "," (map rawOf l) +:+ String "]" x) = Some (l, x).
Proof.
  intros Hne HF. induction HF as [|v l Hv HF IH]; [done|]. intros [Hcv Hcl] fuel depth x Hf Hd Hh. clear Hne.
  destruct fuel as [|fuel]; [lia|]. rewrite parseElems_eq. destruct l as [|w l].
  - cbn [map joinWith] in *. rewrite Hv by (try done; cbn [heights] in Hh; lia). reflexivity.
  - change (joinWith "," (map rawOf (v :: w :: l))) with (rawOf v +:+ "," +:+ joinWith "," (map rawOf (w :: l))) in *.
    rewrite !length_app_str in Hf. cbn [String.length] in Hf. cbn [heights] in Hh. rewrite !app_assoc_str.
    rewrite Hv by (try done; cbn [heights]; lia).
    change ("," +:+ joinWith "," (map rawOf (w :: l)) +:+ String "]" x) with (String "," (joinWith "," (map rawOf (w :: l)) +:+ String "]" x)).
    change (skipWS (String "," ?y)) with (String "," y).
    assert (skipWS (joinWith "," (map rawOf (w :: l)) +:+ String "]" x) = joinWith "," (map rawOf (w :: l)) +:+ String "]" x) as E.
    { destruct l as [|w' l]; [by apply skipWS_raw, Hcl|].
      change (joinWith "," (map rawOf (w :: w' :: l))) with (rawOf w +:+ "," +:+ joinWith "," (map rawOf (w' :: l))).
      rewrite app_assoc_str. by apply skipWS_raw, Hcl. }
    change (byteOf "," =? 44)%Z with true. cbv iota. rewrite E, IH; [done|done|done|lia|done|cbn [heights]; lia].
Qed.

Lemma parseMembers_eq f d s : parseMembers (S f) d s =
  match s with
  | String q s' =>
      if (byteOf q =? 34)%Z then
        match scanString InText s' with
        | None => None
        | Some (k, r0) =>
            match skipWS r0 with
            | String col r1 =>
                if (byteOf col =? 58)%Z then
                  match parseValue f d (skipWS r1) with
                  | None => None
                  | Some (v, r) =>
                      match skipWS r with
                      | String c r' =>
                          if (byteOf c =? 44)%Z then match parseMembers f d (skipWS r') with Some (ms, r2) => Some ((k, v) :: ms, r2) | None => None end
                          else if (byteOf c =? 125)%Z then Some ([(k, v)], r') else None
                      | EmptyString => None
                      end
                  end
                else None
            | EmptyString => None
            end
        end
      else None
  | EmptyString => None
  end.
Proof. done. Qed.

Fixpoint mheights (m : list (string * jtree)) : Z := match m with [] => 0 | (_, v) :: m' => Z.max (height v) (mheights m') end%Z.

(** One member: the parser is past it, at what follows its value. *)
Lemma member_step f d k v y : plainText k -> canon v -> parseMembers (S f) d (member (k, v) +:+ y) =
  match parseValue f d (rawOf v +:+ y) with
  | None => None
  | Some (v, r) =>
      match skipWS r with
      | String c r' =>
          if (byteOf c =? 44)%Z then match parseMembers f d (skipWS r') with Some (ms, r2) => Some ((k, v) :: ms, r2) | None => None end
          else if (byteOf c =? 125)%Z then Some ([(k, v)], r') else None
      | EmptyString => None
      end
  end.
Proof.
  intros Hk Hv. unfold member, quoted. cbn [fst snd]. rewrite parseMembers_eq, !app_assoc_str, !app_cons_str, !app_assoc_str, !app_cons_str, app_nil_l_str.
  change (byteOf quoteByte =? 34)%Z with true. cbv iota. rewrite scanString_quote by done.
  rewrite app_nil_l_str. change (skipWS (String ":" ?z)) with (String ":" z). change (byteOf ":" =? 58)%Z with true. cbv iota.
  by rewrite (skipWS_raw v y Hv).
Qed.

Lemma parses_members m : m <> [] -> Forall (fun kv => parses kv.2) m -> canonMembers m -> forall fuel depth x,
  (2 * String.length (joinWith "," (map member m)) + 1 <= fuel)%nat -> (0 <= depth)%Z -> (depth + mheights m <= maxNestingDepth)%Z ->
  parseMembers fuel depth (joinWith "," (map member m) +:+ String "}" x) = Some (m, x).
Proof.
  intros Hne HF. induction HF as [|[k v] m Hv HF IH]; [done|]. intros (Hck & Hcv & Hcm) fuel depth x Hf Hd Hh. clear Hne.
  assert (forall y, String.length (member (k, v) +:+ y) = (3 + String.length k + String.length (rawOf v) + String.length y)%nat) as Hlen.
  { intros y. unfold member, quoted. cbn [fst snd]. rewrite !length_app_str. cbn [String.length]. rewrite length_app_str. cbn [String.length]. lia. }
  cbn [snd mheights] in *. destruct fuel as [|fuel]; [lia|]. destruct m as [|[k2 v2] m].
  - cbn [map joinWith] in *. pose proof (Hlen "") as Hl. rewrite app_nil_r_str in Hl. rewrite member_step by done.
    rewrite Hv by (try done; cbn [String.length] in *; lia). reflexivity.
  - change (joinWith "," (map member ((k, v) :: (k2, v2) :: m))) with (member (k, v) +:+ "," +:+ joinWith "," (map member ((k2, v2) :: m))) in *.
    rewrite Hlen in Hf. cbn [String.length] in Hf. rewrite length_app_str in Hf. cbn [String.length] in Hf. rewrite !app_assoc_str, member_step by done.
    rewrite Hv by (try done; lia). set (rest := joinWith "," (map member ((k2, v2) :: m))) in *.
    change ("," +:+ rest +:+ String "}" x) with (String "," (rest +:+ String "}" x)). change (skipWS (String "," ?y)) with (String "," y).
    change (byteOf "," =? 44)%Z with true. cbv iota.
    assert (exists y, rest = String quoteByte y) as [y Ey].
    { unfold rest. destruct m as [|? ?]; [by eexists|]. by eexists. }
    assert (skipWS (rest +:+ String "}" x) = rest +:+ String "}" x) as -> by (rewrite Ey; reflexivity).
    rewrite IH; [done|done|done|lia|done|lia].
Qed.

(** Induction on trees, through the nested lists. *)
Section TreeInd.
Variable P : jtree -> Prop.
Hypotheses (Hnull : P TNull) (Hbool : forall b, P (TBool b)) (Hnum : forall lit, P (TNum lit)) (Hstr : forall raw, P (TStr raw)).
Hypothesis Harr : forall raw l, Forall P l -> P (TArr raw l).
Hypothesis Hobj : forall raw m, Forall (fun kv => P kv.2) m -> P (TObj raw m).

Fixpoint jtree_ind' (t : jtree) : P t :=
  match t with
  | TNull => Hnull
  | TBool b => Hbool b
  | TNum lit => Hnum lit
  | TStr raw => Hstr raw
  | TArr raw l => Harr raw l ((fix go (l : list jtree) : Forall P l := match l with [] => Forall_nil_2 _ | v :: l' => Forall_cons_2 _ _ _ (jtree_ind' v) (go l') end) l)
  | TObj raw m => Hobj raw m ((fix go (m : list (string * jtree)) : Forall (fun kv => P kv.2) m :=
                                match m with [] => Forall_nil_2 _ | kv :: m' => Forall_cons_2 _ _ _ (jtree_ind' kv.2) (go m') end) m)
  end.
End TreeInd.

Lemma canon_list raw l : canon (TArr raw l) -> raw = "[" +:+ joinWith "," (map rawOf l) +:+ "]" /\ canonList l.
Proof. intros [-> Hc]. split; [done|]. by induction l as [|v l IH]; [|destruct Hc; split; [|apply IH]]. Qed.

Lemma canon_members raw m : canon (TObj raw m) -> raw = "{" +:+ joinWith "," (map member m) +:+ "}" /\ canonMembers m.
Proof. intros [-> Hc]. split; [done|]. induction m as [|[k v] m IH]; [done|]. destruct Hc as (? & ? & ?). split_and!; [done|done|by apply IH]. Qed.

Lemma height_arr raw l : height (TArr raw l) = (1 + heights l)%Z.
Proof. cbn. f_equal. Qed.

Lemma height_obj raw m : height (TObj raw m) = (1 + mheights m)%Z.
Proof. cbn. f_equal. Qed.

Lemma heights_nonneg l : (0 <= heights l)%Z.
Proof. induction l as [|v l IH]; cbn; lia. Qed.

Lemma mheights_nonneg m : (0 <= mheights m)%Z.
Proof. induction m as [|[k v] m IH]; cbn; lia. Qed.

Lemma parse_canon t : parses t.
Proof.
  induction t as [|b|lit|raw|raw l IH|raw m IH] using jtree_ind'; intros Hc fuel depth x Hf Hd Hh Hx.
  - destruct fuel as [|fuel]; [cbn in Hf; lia|]. reflexivity.
  - destruct fuel as [|fuel]; [destruct b; cbn in Hf; lia|]. by destruct b.
  - destruct Hc as [(c & s & -> & Hc) Hn]. destruct fuel as [|fuel]; [cbn in Hf; lia|]. cbn [rawOf] in *. specialize (Hn x Hx).
    rewrite app_cons_str in *. cbn [parseValue]. apply orb_true_iff in Hc as [Hc%is_digit_byte|Hc%Z.eqb_eq].
    + rewrite !(proj2 (Z.eqb_neq _ _)) by lia. by rewrite Hn.
    + rewrite Hc. cbn [Z.eqb Pos.eqb]. by rewrite Hn.
  - destruct fuel as [|fuel]; [cbn in Hf; lia|]. cbn [rawOf canon] in *. unfold quoted. rewrite app_cons_str, app_assoc_str, app_cons_str, app_nil_l_str.
    cbn [parseValue]. change (byteOf quoteByte =? 34)%Z with true. cbv iota. by rewrite scanString_quote.
  - apply canon_list in Hc as [-> Hcl]. cbn [rawOf] in *. rewrite height_arr in Hh.
    rewrite !length_app_str in Hf. cbn [String.length] in Hf. destruct fuel as [|fuel]; [lia|].
    assert (0 <= heights l)%Z as H0 by apply heights_nonneg.
    rewrite !app_assoc_str. change ("[" +:+ ?a) with (String "[" a). change ("]" +:+ x) with (String "]" x). cbn [parseValue].
    change (byteOf "[" =? 34)%Z with false. change (byteOf "[" =? 123)%Z with false. change (byteOf "[" =? 91)%Z with true. cbv iota.
    rewrite (proj2 (Z.leb_gt _ _)) by lia.
    assert (forall a, withRaw (fun raw => TArr raw a) (String "[" (joinWith "," (map rawOf l) +:+ String "]" x)) x =
              Some (TArr ("[" +:+ joinWith "," (map rawOf l) +:+ "]") a, x)) as Hraw.
    { intros a. unfold withRaw. pose proof (consumed_app ("[" +:+ joinWith "," (map rawOf l) +:+ "]") x) as E. rewrite !app_assoc_str in E.
      change ("[" +:+ joinWith "," (map rawOf l) +:+ "]" +:+ x) with (String "[" (joinWith "," (map rawOf l) +:+ String "]" x)) in E. by rewrite E. }
    destruct l as [|v l].
    + change (skipWS (joinWith "," (map rawOf []) +:+ String "]" x)) with (String "]" x). change (headIs 93 (String "]" x)) with true. cbv iota.
      rewrite tail_string. apply Hraw.
    + assert (skipWS (joinWith "," (map rawOf (v :: l)) +:+ String "]" x) = joinWith "," (map rawOf (v :: l)) +:+ String "]" x /\
              headIs 93 (joinWith "," (map rawOf (v :: l)) +:+ String "]" x) = false) as [-> ->].
      { destruct (rawOf_head v (proj1 Hcl)) as (c & s & E & Hw & H93 & _).
        assert (exists y, joinWith "," (map rawOf (v :: l)) +:+ String "]" x = String c y) as [y ->].
        { destruct l as [|w l]; cbn [map joinWith]; rewrite E; by eexists. }
        cbn [skipWS headIs]. by rewrite Hw, H93. }
      rewrite parses_elems by (try done; lia). apply Hraw.
  - apply canon_members in Hc as [-> Hcm]. cbn [rawOf] in *. rewrite height_obj in Hh.
    rewrite !length_app_str in Hf. cbn [String.length] in Hf. destruct fuel as [|fuel]; [lia|].
    assert (0 <= mheights m)%Z as H0 by apply mheights_nonneg.
    rewrite !app_assoc_str. change ("{" +:+ ?a) with (String "{" a). change ("}" +:+ x) with (String "}" x). cbn [parseValue].
    change (byteOf "{" =? 34)%Z with false. change (byteOf "{" =? 123)%Z with true. cbv iota. rewrite (proj2 (Z.leb_gt _ _)) by lia.
    assert (forall a, withRaw (fun raw => TObj raw a) (String "{" (joinWith "," (map member m) +:+ String "}" x)) x =
              Some (TObj ("{" +:+ joinWith "," (map member m) +:+ "}") a, x)) as Hraw.
    { intros a. unfold withRaw. pose proof (consumed_app ("{" +:+ joinWith "," (map member m) +:+ "}") x) as E. rewrite !app_assoc_str in E.
      change ("{" +:+ joinWith "," (map member m) +:+ "}" +:+ x) with (String "{" (joinWith "," (map member m) +:+ String "}" x)) in E. by rewrite E. }
    destruct m as [|[k v] m].
    + change (skipWS (joinWith "," (map member []) +:+ String "}" x)) with (String "}" x). change (headIs 125 (String "}" x)) with true. cbv iota.
      rewrite tail_string. apply Hraw.
    + assert (exists y, joinWith "," (map member ((k, v) :: m)) +:+ String "}" x = String quoteByte y) as [y Ey] by (destruct m; by eexists).
      rewrite Ey. change (skipWS (String quoteByte y)) with (String quoteByte y). change (headIs 125 (String quoteByte y)) with false. cbv iota.
      rewrite <- Ey, parses_members by (try done; lia). apply Hraw.
Qed.

(** The texts the encoder writes are read as the trees they print. *)
Lemma parseFirst_canon t : canon t -> (height t <= maxNestingDepth)%Z -> parseFirst (rawOf t) = Some (t, "").
Proof.
  intros Hc Hh. unfold parseFirst, parseFuel. cbv zeta. pose proof (skipWS_raw t "" Hc) as Hw. rewrite !app_nil_r_str in Hw. rewrite Hw.
  pose proof (parse_canon t Hc (S (2 * String.length (rawOf t))) 0%Z "" ltac:(lia) ltac:(lia) ltac:(lia) eq_refl) as Hp. by rewrite app_nil_r_str in Hp.
Qed.

Lemma parseWhole_canon t : canon t -> (height t <= maxNestingDepth)%Z -> parseWhole (rawOf t) = Some t.
Proof. intros Hc Hh. unfold parseWhole. by rewrite parseFirst_canon. Qed.

(** ** The fuel of the parser *)

Local Abbreviation len := String.length.

Lemma len_skipWS s : (len (skipWS s) <= len s)%nat.
Proof. induction s as [|c s IH]; [done|]. cbn. destruct (isWS c); cbn; lia. Qed.

Lemma len_scanString st s a r : scanString st s = Some (a, r) -> (len r < len s)%nat.
Proof.
  revert st a. induction s as [|c s IH]; intros st a; [done|]. cbn [scanString len].
  assert (forall st', cons1 c (scanString st' s) = Some (a, r) -> (len r < S (len s))%nat) as Hcons.
  { intros st'. destruct (scanString st' s) as [[b q]|] eqn:E; [|done]. intros [= _ <-]. apply IH in E. lia. }
  destruct st as [| |n].
  - destruct (_ =? 34)%Z; [intros [= _ <-]; lia|]. destruct (_ =? 92)%Z; [apply Hcons|]. destruct (_ <? 32)%Z; [done|apply Hcons].
  - destruct (simpleEscape c); [apply Hcons|]. destruct (_ =? 117)%Z; [apply Hcons|done].
  - destruct (hexVal c); [apply Hcons|done].
Qed.

Lemma len_drop_prefix p s r : drop_prefix p s = Some r -> (len r + len p = len s)%nat.
Proof.
  revert s. induction p as [|c p IH]; intros s; [intros [= <-]; cbn; lia|]. destruct s as [|d s]; [done|]. cbn [drop_prefix len].
  destruct (Ascii.eqb c d); [|done]. intros H%IH. lia.
Qed.

Lemma len_spanDigits s : (len (spanDigits s).1 + len (spanDigits s).2 = len s)%nat.
Proof. induction s as [|c s IH]; [done|]. cbn. destruct (is_digit c); [|done]. destruct (spanDigits s). cbn in *. lia. Qed.

Lemma len_scanInt s i r : scanInt s = Some (i, r) -> (len r < len s)%nat.
Proof.
  unfold scanInt. destruct s as [|c s]; [done|]. destruct (_ =? 48)%Z; [intros [= _ <-]; cbn; lia|]. destruct (is_digit c) eqn:E; [|done].
  intros [= H]. pose proof (len_spanDigits (String c s)) as Hl. cbn in H, Hl. rewrite E in H, Hl. destruct (spanDigits s). injection H as _ <-. cbn in *. lia.
Qed.

Lemma len_scanFrac s i r : scanFrac s = Some (i, r) -> (len r <= len s)%nat.
Proof.
  unfold scanFrac. destruct s as [|c s]; [intros [= _ <-]; lia|]. destruct (_ =? 46)%Z; [|intros [= _ <-]; lia].
  pose proof (len_spanDigits s) as Hl. destruct (spanDigits s) as [[|? ?] r0]; [done|]. intros [= _ <-]. cbn in *. lia.
Qed.

Lemma len_scanExponent s i r : scanExponent s = Some (i, r) -> (len r <= len s)%nat.
Proof.
  unfold scanExponent. destruct s as [|c s]; [intros [= _ <-]; lia|]. destruct (_ =? 101)%Z; [|intros [= _ <-]; lia].
  set (p := match s with EmptyString => _ | String _ _ => _ end). assert (len p.2 <= len s)%nat as Hp.
  { subst p. destruct s as [|d s]; [done|]. destruct (_ || _); cbn; lia. }
  destruct p as [sign s2]. pose proof (len_spanDigits s2) as Hl. destruct (spanDigits s2) as [[|? ?] r0]; [done|]. intros [= _ <-]. cbn in *. lia.
Qed.

Lemma len_scanNumber s i r : scanNumber s = Some (i, r) -> (len r < len s)%nat.
Proof.
  unfold scanNumber. set (p := match s with EmptyString => _ | String _ _ => _ end). assert (len p.2 <= len s)%nat as Hp.
  { subst p. destruct s as [|d s]; [done|]. destruct (_ =? 45)%Z; cbn; lia. }
  destruct p as [sign s0]. destruct (scanInt s0) as [[i1 s1]|] eqn:E1; [|done]. destruct (scanFrac s1) as [[f s2]|] eqn:E2; [|done].
  destruct (scanExponent s2) as [[e s3]|] eqn:E3; [|done]. intros [= _ <-].
  apply len_scanInt in E1. apply len_scanFrac in E2. apply len_scanExponent in E3. cbn in *. lia.
Qed.

Lemma len_tail s : (len (String.substring 1 (len s) s) <= len s - 1)%nat.
Proof. destruct s as [|c s]; [done|]. rewrite tail_string. cbn. lia. Qed.

(** Each function leaves less than it was given. *)
Lemma parse_consumes f : (forall d s v r, parseValue f d s = Some (v, r) -> (len r < len s)%nat) /\
  (forall d s l r, parseElems f d s = Some (l, r) -> (len r < len s)%nat) /\ (forall d s m r, parseMembers f d s = Some (m, r) -> (len r < len s)%nat).
Proof.
  induction f as [|f (IHv & IHe & IHm)]; [done|]. split_and!; intros d s v r.
  - destruct s as [|c s]; [done|]. cbn [parseValue]. pose proof (len_skipWS s) as Hw. pose proof (len_tail (skipWS s)) as Ht.
    destruct (_ =? 34)%Z; [destruct (scanString InText s) as [[a q]|] eqn:E; [|done]; intros [= _ <-]; apply len_scanString in E; cbn; lia|].
    destruct (_ =? 123)%Z.
    { destruct (_ <=? d)%Z; [done|]. destruct (headIs 125 _) eqn:E125; [intros [= _ <-]; cbn; lia|]. destruct (parseMembers f _ _) as [[m q]|] eqn:E; [|done].
      intros [= _ <-]. apply IHm in E. cbn. lia. }
    destruct (_ =? 91)%Z.
    { destruct (_ <=? d)%Z; [done|]. destruct (headIs 93 _) eqn:E93; [intros [= _ <-]; cbn; lia|]. destruct (parseElems f _ _) as [[m q]|] eqn:E; [|done].
      intros [= _ <-]. apply IHe in E. cbn. lia. }
    destruct (_ =? 110)%Z; [destruct (drop_prefix _ _) eqn:E; [|done]; intros [= _ <-]; apply len_drop_prefix in E; cbn in *; lia|].
    destruct (_ =? 116)%Z; [destruct (drop_prefix _ _) eqn:E; [|done]; intros [= _ <-]; apply len_drop_prefix in E; cbn in *; lia|].
    destruct (_ =? 102)%Z; [destruct (drop_prefix _ _) eqn:E; [|done]; intros [= _ <-]; apply len_drop_prefix in E; cbn in *; lia|].
    destruct (scanNumber _) as [[? ?]|] eqn:E; [|done]. intros [= _ <-]. by apply len_scanNumber in E.
  - rewrite parseElems_eq. destruct (parseValue f d s) as [[x q]|] eqn:E; [|done]. apply IHv in E. pose proof (len_skipWS q) as Hw.
    destruct (skipWS q) as [|c q']; [done|]. cbn in Hw. destruct (_ =? 44)%Z.
    + destruct (parseElems f d _) as [[l q2]|] eqn:E2; [|done]. intros [= _ <-]. apply IHe in E2. pose proof (len_skipWS q'). lia.
    + destruct (_ =? 93)%Z; [|done]. intros [= _ <-]. lia.
  - rewrite parseMembers_eq. destruct s as [|q s]; [done|]. destruct (_ =? 34)%Z; [|done]. destruct (scanString InText s) as [[k r0]|] eqn:Ek; [|done].
    apply len_scanString in Ek. pose proof (len_skipWS r0) as Hw0. destruct (skipWS r0) as [|col r1]; [done|]. destruct (_ =? 58)%Z; [|done].
    destruct (parseValue f d _) as [[x y]|] eqn:E; [|done]. apply IHv in E. pose proof (len_skipWS r1). pose proof (len_skipWS y) as Hw.
    destruct (skipWS y) as [|c y']; [done|]. cbn in Hw, Hw0 |- *. destruct (_ =? 44)%Z.
    + destruct (parseMembers f d _) as [[l q2]|] eqn:E2; [|done]. intros [= _ <-]. apply IHm in E2. pose proof (len_skipWS y'). lia.
    + destruct (_ =? 125)%Z; [|done]. intros [= _ <-]. lia.
Qed.

Lemma parse_stable f : (forall d s, (2 * len s < f)%nat -> parseValue (S f) d s = parseValue f d s) /\
  (forall d s, (2 * len s + 1 < f)%nat -> parseElems (S f) d s = parseElems f d s) /\
  (forall d s, (2 * len s < f)%nat -> parseMembers (S f) d s = parseMembers f d s).
Proof.
  induction f as [|f (IHv & IHe & IHm)]; [split_and!; intros; lia|]. destruct (parse_consumes f) as (Cv & Ce & Cm). split_and!; intros d s Hf.
  - destruct s as [|c s]; [done|]. pose proof (len_skipWS s). cbn in Hf.
    change (parseValue (S (S f)) d (String c s)) with (ltac:(let t := eval cbn [parseValue] in (parseValue (S (S f)) d (String c s)) in exact t)).
    change (parseValue (S f) d (String c s)) with (ltac:(let t := eval cbn [parseValue] in (parseValue (S f) d (String c s)) in exact t)).
    rewrite IHm by lia. rewrite IHe by lia. done.
  - rewrite (parseElems_eq (S f)), (parseElems_eq f), IHv by lia. destruct (parseValue f d s) as [[x q]|] eqn:E; [|done]. apply Cv in E.
    pose proof (len_skipWS q) as Hw. destruct (skipWS q) as [|c q']; [done|]. cbn in Hw. pose proof (len_skipWS q'). by rewrite IHe by lia.
  - rewrite (parseMembers_eq (S f)), (parseMembers_eq f). destruct s as [|q s]; [done|]. destruct (_ =? 34)%Z; [|done].
    destruct (scanString InText s) as [[k r0]|] eqn:Ek; [|done]. apply len_scanString in Ek. pose proof (len_skipWS r0) as Hw0.
    destruct (skipWS r0) as [|col r1]; [done|]. destruct (_ =? 58)%Z; [|done]. cbn in Hf, Hw0. pose proof (len_skipWS r1). rewrite IHv by lia.
    destruct (parseValue f d _) as [[x y]|] eqn:E; [|done]. apply Cv in E. pose proof (len_skipWS y) as Hw.
    destruct (skipWS y) as [|c y']; [done|]. cbn in Hw. pose proof (len_skipWS y'). by rewrite IHm by lia.
Qed.

(** More fuel changes nothing: a text is refused for its syntax or its depth only. *)
Lemma parse_fuel_enough f s : (parseFuel s <= f)%nat -> parseValue f 0%Z s = parseValue (parseFuel s) 0%Z s.
Proof.
  unfold parseFuel. intros Hf. induction Hf as [|f Hf IH]; [done|]. rewrite (proj1 (parse_stable f)) by lia. exact IH.
Qed.
