(* ===== verification/Http.v ===== *)
(** * Requests and responses (internal/server: handlers.go, auth.go, the routes of http.go)

    A handler is a function from the request and the world to a response and a world.
    What the router of [chi] contributes, the path parameters and the request id, are
    fields of the request; [net/http], [net/url] and [encoding/json] are modelled as far
    as the handlers use them. *)

From stdpp Require Import base list strings.
From Stdlib Require Import ZArith Lia Ascii.
From S2P Require Import Prelude GoMap Json Numbers Canonical Domain Tenant Config Worker JsonText TimeText.

(** ** Requests *)

(** [rq_BodyFails]: reading the body fails after the bytes of [rq_Body]. *)
Record request := mkRequest {
  rq_Header : string -> string;       (* [Header.Get], "" when absent *)
  rq_URLParam : string -> string;     (* [chi.URLParam] *)
  rq_RawQuery : string;
  rq_Body : string;
  rq_BodyFails : bool;
  rq_RemoteAddr : string;
  rq_RequestID : string;              (* [middleware.GetReqID] *)
  rq_Context : ctx }.

Definition WithContext (r : request) (c : ctx) : request :=
  mkRequest (rq_Header r) (rq_URLParam r) (rq_RawQuery r) (rq_Body r) (rq_BodyFails r) (rq_RemoteAddr r) (rq_RequestID r) c.

(** [io.ReadAll(io.LimitReader(body, n))]: at most [n] bytes, [None] for a failed read. *)
Definition readUpTo (n : Z) (r : request) : option string :=
  if (n <=? Z.of_nat (String.length (rq_Body r)))%Z then Some (String.substring 0 (Z.to_nat n) (rq_Body r))
  else if rq_BodyFails r then None
  else Some (rq_Body r).

(** *** [url.ParseQuery] *)

(** [QueryUnescape]: [n] digits of the current escape are still skipped. *)
Fixpoint queryUnescape (n : nat) (s : string) : option string :=
  match s with
  | EmptyString => Some EmptyString
  | String c s' =>
      match n with
      | S n' => queryUnescape n' s'
      | O =>
          if (byteOf c =? 37)%Z then
            match s' with
            | String h (String l _) =>
                match hexVal h, hexVal l, queryUnescape 2 s' with
                | Some a, Some b, Some t => Some (String (byteAt (a * 16 + b)) t)
                | _, _, _ => None
                end
            | _ => None
            end
          else option_map (String (if (byteOf c =? 43)%Z then byteAt 32 else c)) (queryUnescape 0 s')
      end
  end.

Definition queryPair (field : string) : option (string * string) :=
  if has_byte ";" field || str_eqb field "" then None
  else
    let '(k, v) := match cut "=" field with Some kv => kv | None => (field, "") end in
    match queryUnescape 0 k, queryUnescape 0 v with
    | Some k', Some v' => Some (k', v')
    | _, _ => None
    end.

(** [URL.Query]: malformed pairs are dropped. *)
Definition parseQuery (raw : string) : list (string * string) :=
  flat_map (fun f => match queryPair f with Some kv => [kv] | None => [] end) (split_on "&" raw).

Definition queryHas (k : string) (q : list (string * string)) : bool := existsb (fun kv => str_eqb (fst kv) k) q.
Definition queryGet (k : string) (q : list (string * string)) : string :=
  match List.find (fun kv => str_eqb (fst kv) k) q with Some kv => snd kv | None => "" end.

(** *** [net.SplitHostPort] *)

(** The text before and after the last occurrence of a byte. *)
Fixpoint cutLast (c : ascii) (s : string) : option (string * string) :=
  match s with
  | EmptyString => None
  | String d s' =>
      match cutLast c s' with
      | Some (a, b) => Some (String d a, b)
      | None => if Ascii.eqb c d then Some (EmptyString, s') else None
      end
  end.

Definition SplitHost (hostport : string) : option string :=
  match cutLast ":" hostport with
  | None => None
  | Some (before, port) =>
      if has_byte "[" port || has_byte "]" port then None
      else match before with
           | String c rest =>
               if Ascii.eqb c "[" then
                 match cut "]" rest with
                 | Some (host, after) => if str_eqb after "" && negb (has_byte "[" host) then Some host else None
                 | None => None
                 end
               else if has_byte ":" before || has_byte "[" before || has_byte "]" before then None
               else Some before
           | EmptyString => Some EmptyString
           end
  end.

Definition clientIP (r : request) : string :=
  match SplitHost (rq_RemoteAddr r) with Some host => host | None => rq_RemoteAddr r end.

(** ** Responses *)

(** The Go values handed to [writeJSON]; [GAny] is a decoded [any]. *)
Inductive gvalue :=
| GNull
| GBool (b : bool)
| GInt (z : Z)
| GStr (s : string)
| GTime (t : time)
| GAny (j : json)
| GRaw (text : string)
| GArr (l : list gvalue)
| GObj (m : list (string * gvalue)).

Record response := mkResponse { rs_Status : Z; rs_RetryAfter : option string; rs_Value : option gvalue }.

Definition writeJSON (status : Z) (v : gvalue) : response := mkResponse status None (Some v).
Definition writeError (status : Z) (msg : string) : response := writeJSON status (GObj [("error", GStr msg)]).
Definition noContent (status : Z) : response := mkResponse status None None.

(** [json.Compact] on a valid raw value. *)
Fixpoint compactTree (t : jtree) : string :=
  match t with
  | TArr _ l => "[" +:+ joinWith "," (map compactTree l) +:+ "]"
  | TObj _ m => "{" +:+ joinWith "," (map (fun kv => quoted (fst kv) +:+ ":" +:+ compactTree (snd kv)) m) +:+ "}"
  | _ => rawOf t
  end.

(** U+2028 and U+2029 inside a compacted raw value. *)
Fixpoint escapeSeps (s : string) : string :=
  match s with
  | EmptyString => EmptyString
  | String c s' =>
      match s' with
      | String d (String e r) =>
          if ((byteOf c =? 226) && (byteOf d =? 128) && (byteOf e =? 168))%Z then "\u2028" +:+ escapeSeps r
          else if ((byteOf c =? 226) && (byteOf d =? 128) && (byteOf e =? 169))%Z then "\u2029" +:+ escapeSeps r
          else String c (escapeSeps s')
      | _ => String c (escapeSeps s')
      end
  end.

(** The text of a body; [None] is an encoding error. *)
Fixpoint marshal (v : gvalue) : option string :=
  match v with
  | GNull => Some "null"
  | GBool b => Some (if b then "true" else "false")
  | GInt z => Some (itoa z)
  | GStr s => Some (marshalString s)
  | GTime t => option_map quoted (marshalTime t)
  | GAny j => option_map escapeHTML (jsonEncode j)
  | GRaw text => option_map (fun t => escapeSeps (escapeHTML (compactTree t))) (parseWhole text)
  | GArr l =>
      option_map (fun ss => "[" +:+ joinWith "," ss +:+ "]")
        ((fix go (l : list gvalue) : option (list string) :=
            match l with
            | [] => Some []
            | x :: l' => match marshal x, go l' with Some a, Some b => Some (a :: b) | _, _ => None end
            end) l)
  | GObj m =>
      option_map (fun ss => "{" +:+ joinWith "," ss +:+ "}")
        ((fix go (m : list (string * gvalue)) : option (list string) :=
            match m with
            | [] => Some []
            | (k, x) :: m' => match marshal x, go m' with Some a, Some b => Some ((marshalString k +:+ ":" +:+ a) :: b) | _, _ => None end
            end) m)
  end.

(** The bytes of the body: [Encode] writes nothing when the value cannot be encoded, and
    its error is dropped; a body ends in a line feed. *)
Definition bodyOf (rs : response) : string :=
  match rs_Value rs with
  | None => ""
  | Some v => match marshal v with Some s => s +:+ String (byteAt 10) "" | None => "" end
  end.

(** ** Handlers *)

Definition handler (W : Type) : Type := request -> W -> response * W.

(** [strings.EqualFold] against an ASCII text whose letters have no other fold. *)
Definition equalFold (s t : string) : bool := str_eqb (foldName s) (foldName t).

Definition bearerToken (r : request) : string :=
  let h := rq_Header r "Authorization" in
  if (String.length h <? 7)%nat || negb (equalFold (String.substring 0 7 h) "Bearer ") then ""
  else trim_space (String.substring 7 (String.length h - 7) h).

(** [KeyResolver], and the context the resolved principal is put on. *)
Definition RequireAuth {W : Type} (resolve : string -> res tenantErr Principal) (next : handler W) : handler W := fun r w =>
  match resolve (bearerToken r) with
  | Err ErrNoKey => (writeError 401 "missing API key", w)
  | Err _ => (writeError 401 "invalid API key", w)
  | Ok p => next (WithContext r (NewContext (rq_Context r) p)) w
  end.

Definition RequireScope {W : Type} (s : string) (next : handler W) : handler W := fun r w =>
  match FromContext (rq_Context r) with
  | None => (writeError 401 "missing API key", w)
  | Some p => if HasScope p s then next r w else (writeError 403 "insufficient scope", w)
  end.

(** ** Runs *)

Definition ex_headers (l : list (string * string)) (name : string) : string :=
  match List.find (fun kv => str_eqb (fst kv) name) l with Some kv => snd kv | None => "" end.

Definition ex_request (headers params : list (string * string)) (query body : string) : request :=
  mkRequest (ex_headers headers) (ex_headers params) query body false "10.0.0.7:52100" "req-1" None.

Example query_run : parseQuery "a=1&b=%41+x&c&a=2&bad=%4&;=1&=v" = [("a", "1"); ("b", "A x"); ("c", ""); ("a", "2"); ("", "v")].
Proof. vm_compute. reflexivity. Qed.
Example split_hosts : map SplitHost ["10.0.0.7:80"; "[::1]:80"; "::1:80"; "nohost"; ":9"; "[::1]x:9"] = [Some "10.0.0.7"; Some "::1"; None; None; Some ""; None].
Proof. vm_compute. reflexivity. Qed.
Example bearer_run : map (fun h => bearerToken (ex_request [("Authorization", h)] [] "" "")) ["Bearer  k1 "; "bEARER k2"; "Basic k3"; "Bear"; ""] = ["k1"; "k2"; ""; ""; ""].
Proof. vm_compute. reflexivity. Qed.
Example body_run : bodyOf (writeError 400 "a<b") = jtext "{'error':'a\u003cb'}" +:+ String (byteAt 10) "". Proof. vm_compute. reflexivity. Qed.
