(* ===== verification/ServerIngest.v ===== *)
(** * The write endpoints (internal/server/ingest.go, flow.go)

    POST .../state, .../diff and .../delete: the path and the body are checked and mapped
    to a command, and the answer of the use-case to a status.  The use-case is the
    interface [IngestService]. *)

From stdpp Require Import base list strings.
From Stdlib Require Import ZArith Lia Ascii.
From S2P Require Import Prelude GoMap Json Paths Diff DiffSound Domain Tenant Config Names Ingest Numbers Worker JsonText TimeText Http.

Definition modeHeader : string := "X-Letopis-Mode".
Definition idempotencyKeyHeader : string := "Idempotency-Key".

Class IngestService (W : Type) := {
  svcConfig : ctx -> string -> W -> res err CollectionConfig * W;
  svcWrite : string -> ctx -> IngestCommand -> W -> res err IngestResult * W }.

(** ** Wire types *)

Record flowRefInput := mkRefInput {
  fi_ActivityID : string; fi_Collection : string; fi_EntityID : string; fi_Version : option Z; fi_EventID : string }.
Definition refInput0 : flowRefInput := mkRefInput "" "" "" None "".

Definition decFlowRef : decoder flowRefInput :=
  decStruct false ["activity_id"; "collection"; "entity_id"; "version"; "event_id"] (fun f t v =>
    let '(mkRefInput a c e ver ev) := v in
    if str_eqb f "activity_id" then a ← decString a t; Some (mkRefInput a c e ver ev)
    else if str_eqb f "collection" then c ← decString c t; Some (mkRefInput a c e ver ev)
    else if str_eqb f "entity_id" then e ← decString e t; Some (mkRefInput a c e ver ev)
    else if str_eqb f "version" then ver ← decPtr 0%Z decInt ver t; Some (mkRefInput a c e ver ev)
    else ev ← decString ev t; Some (mkRefInput a c e ver ev)).

Record flowBlockInput := mkFlowInput { fb_FlowID : string; fb_CausedBy : option (list flowRefInput); fb_Step : string }.

Definition decFlowBlock : decoder flowBlockInput :=
  decStruct false ["flow_id"; "caused_by"; "step"] (fun f t v =>
    let '(mkFlowInput i c s) := v in
    if str_eqb f "flow_id" then i ← decString i t; Some (mkFlowInput i c s)
    else if str_eqb f "caused_by" then c ← decSlice refInput0 decFlowRef c t; Some (mkFlowInput i c s)
    else s ← decString s t; Some (mkFlowInput i c s)).

Record changeInput := mkChangeInput { ci_Path : string; ci_Op : string; ci_Old : json; ci_New : json }.

Definition decChange : decoder changeInput :=
  decStruct false ["path"; "op"; "old"; "new"] (fun f t v =>
    let '(mkChangeInput p o old new) := v in
    if str_eqb f "path" then p ← decString p t; Some (mkChangeInput p o old new)
    else if str_eqb f "op" then o ← decString o t; Some (mkChangeInput p o old new)
    else if str_eqb f "old" then old ← decAny old t; Some (mkChangeInput p o old new)
    else new ← decAny new t; Some (mkChangeInput p o old new)).

Record ingestRequest := mkIngestRequest {
  ig_EventID : string; ig_Op : string; ig_ExpectedVersion : option Z; ig_AuthorID : string; ig_TSSource : option time;
  ig_Source : string; ig_Meta : option state; ig_Flow : option flowBlockInput; ig_State : option state;
  ig_Changes : option (list changeInput) }.
Definition ingestRequest0 : ingestRequest := mkIngestRequest "" "" None "" None "" None None None None.

Definition decIngest : decoder ingestRequest :=
  decStruct false ["event_id"; "op"; "expected_version"; "author_id"; "ts_source"; "source"; "meta"; "flow"; "state"; "changes"] (fun f t v =>
    let '(mkIngestRequest i o x a ts s m fl st ch) := v in
    if str_eqb f "event_id" then i ← decString i t; Some (mkIngestRequest i o x a ts s m fl st ch)
    else if str_eqb f "op" then o ← decString o t; Some (mkIngestRequest i o x a ts s m fl st ch)
    else if str_eqb f "expected_version" then x ← decPtr 0%Z decInt x t; Some (mkIngestRequest i o x a ts s m fl st ch)
    else if str_eqb f "author_id" then a ← decString a t; Some (mkIngestRequest i o x a ts s m fl st ch)
    else if str_eqb f "ts_source" then ts ← decPtr 0%Z decTime ts t; Some (mkIngestRequest i o x a ts s m fl st ch)
    else if str_eqb f "source" then s ← decString s t; Some (mkIngestRequest i o x a ts s m fl st ch)
    else if str_eqb f "meta" then m ← decMapAny m t; Some (mkIngestRequest i o x a ts s m fl st ch)
    else if str_eqb f "flow" then fl ← decPtr (mkFlowInput "" None "") decFlowBlock fl t; Some (mkIngestRequest i o x a ts s m fl st ch)
    else if str_eqb f "state" then st ← decMapAny st t; Some (mkIngestRequest i o x a ts s m fl st ch)
    else ch ← decSlice (mkChangeInput "" "" JNull JNull) decChange ch t; Some (mkIngestRequest i o x a ts s m fl st ch)).

(** ** Mapping: an error is the message of a 400 *)

Fixpoint mapRefs (refs : list flowRefInput) : res string (list FlowRef) :=
  match refs with
  | [] => Ok []
  | r :: refs' =>
      let hasActivity := negb (str_eqb (fi_ActivityID r) "") in
      let hasEntity := negb (str_eqb (fi_Collection r) "") && negb (str_eqb (fi_EntityID r) "") in
      if negb hasActivity && negb hasEntity then Err "flow ref must have activity_id or collection+entity_id"
      else (rest <- mapRefs refs'; Ok (mkFlowRef (fi_ActivityID r) (fi_Collection r) (fi_EntityID r) (default 0%Z (fi_Version r)) (fi_EventID r) :: rest))%go
  end.

Definition mapFlowRefsE (refs : option (list flowRefInput)) : res string (list FlowRef) := mapRefs (default [] refs).

Definition mapFlowBlockE (b : option flowBlockInput) : res string (option Flow) :=
  match b with
  | None => Ok None
  | Some b => (causedBy <- mapFlowRefsE (fb_CausedBy b); Ok (Some (mkFlow (fb_FlowID b) causedBy (fb_Step b))))%go
  end.

Definition changeOps (op : string) : option Op :=
  if str_eqb op "add" then Some OpAdd
  else if str_eqb op "change" then Some OpChange
  else if str_eqb op "remove" then Some OpRemove
  else None.

Fixpoint mapChangesE (l : list changeInput) : res string (list Change) :=
  match l with
  | [] => Ok []
  | c :: l' =>
      match changeOps (ci_Op c) with
      | None => Err ("invalid change op " +:+ ci_Op c +:+ " (want add, change or remove)")
      | Some op => (rest <- mapChangesE l'; Ok (mkChange (ci_Path c) op (ci_Old c) (ci_New c) :: rest))%go
      end
  end.

Definition parseOpE (op : string) : res string string :=
  if str_eqb op "" || str_eqb op OpCreate || str_eqb op OpUpdate || str_eqb op OpDelete then Ok op
  else Err ("invalid op " +:+ op +:+ " (want create, update or delete)").

Definition parseMode (r : request) : res string string :=
  let v := rq_Header r modeHeader in
  if str_eqb v "" then Ok ""
  else if ValidReliabilityMode v then Ok v
  else Err ("invalid " +:+ modeHeader +:+ " (want strict, durable or fast)").

(** ** Checks: an error is the response *)

Definition bad {A : Type} (x : res string A) : res response A := match x with Ok a => Ok a | Err msg => Err (writeError 400 msg) end.

(** [collectionNameRE] is the storage naming rule. *)
Definition validCollectionName (name : string) : bool := logicalName name.

Definition canAccess (r : request) (collection : string) : res response unit :=
  match FromContext (rq_Context r) with
  | None => Err (writeError 401 "missing API key")
  | Some p => if CanAccess p collection then Ok tt else Err (writeError 403 "collection not allowed")
  end.

Definition pathParams (r : request) : res response (string * string) :=
  let collection := rq_URLParam r "collection" in
  let entityID := rq_URLParam r "entityId" in
  if negb (validCollectionName collection) then Err (writeError 400 "invalid collection name")
  else if str_eqb entityID "" then Err (writeError 400 "entity_id is required")
  else Ok (collection, entityID).

(** One byte more than the limit is read, to tell a body at the limit from one over it. *)
Definition readLimited (r : request) (max : Z) : res response string :=
  let max := if (max <=? 0)%Z then DefaultMaxEventSizeBytes else max in
  match readUpTo (wrap64 (max + 1)) r with
  | None => Err (writeError 400 "cannot read request body")
  | Some body => if (max <? Z.of_nat (String.length body))%Z then Err (writeError 413 "event exceeds max_event_size_bytes") else Ok body
  end.

(** ** Responses *)

(** Whole seconds, rounded up; nothing for a hint that is not positive. *)
Definition retryAfter (d : Z) : option string :=
  if (d <=? 0)%Z then None else Some (itoa (Z.quot (wrap64 (d + second - 1)) second)).

Definition writeIngestError (e : err) : response :=
  match e with
  | ErrAutoCreateDisabled => writeError 404 "collection does not exist"
  | ErrVersionConflict => writeError 409 "version conflict"
  | ErrInvalidDiff => writeError 400 "diff does not apply to current state"
  | ErrFailClosed _ => writeError 422 "write rejected by a plugin"
  | ErrBackpressure d => mkResponse 429 (retryAfter d) (Some (GObj [("error", GStr "queue at capacity, retry later")]))
  | ErrQueueUnavailable => writeError 503 "queue unavailable, retry later"
  | _ => writeError 500 "internal error"
  end.

Definition respond (r : res err IngestResult) : response :=
  match r with
  | Err e => writeIngestError e
  | Ok x =>
      if ir_Async x then writeJSON 202 (GObj [("status", GStr "accepted"); ("ticket_id", GStr (ir_Ticket x))])
      else if ir_NoChanges x then writeJSON 200 (GObj [("status", GStr "no_changes")])
      else if ir_Deduplicated x then writeJSON 200 (GObj [("status", GStr "duplicate")])
      else writeJSON 201 (GObj [("changes_count", GInt (ir_ChangesCount x)); ("entity_id", GStr (ir_EntityID x)); ("version", GInt (ir_Version x))])
  end.

(** ** Commands *)

Definition mapChangeList (l : option (list changeInput)) : res string (option (list Change)) :=
  match l with None => Ok None | Some l => (cs <- mapChangesE l; Ok (Some cs))%go end.

(** [buildCommand]; the state is set by the caller. *)
Definition buildCommand (r : request) (collection entityID : string) (req : ingestRequest) (op : string) : res response IngestCommand :=
  let eventID := if str_eqb (ig_EventID req) "" then rq_Header r idempotencyKeyHeader else ig_EventID req in
  (mode <- bad (parseMode r);
   flow <- bad (mapFlowBlockE (ig_Flow req));
   changes <- bad (mapChangeList (ig_Changes req));
   Ok (mkCommand collection entityID op mode (ig_ExpectedVersion req) (ig_AuthorID req) (ig_Source req) (default 0%Z (ig_TSSource req))
         eventID (rq_RequestID r) (clientIP r) (ig_Meta req) None changes flow))%go.

Definition withState (cmd : IngestCommand) (st : option state) : IngestCommand :=
  mkCommand (ic_Collection cmd) (ic_EntityID cmd) (ic_Op cmd) (ic_Mode cmd) (ic_ExpectedVersion cmd) (ic_Author cmd) (ic_Source cmd) (ic_TSSource cmd)
    (ic_EventID cmd) (ic_RequestID cmd) (ic_ClientIP cmd) (ic_Meta cmd) st (ic_Changes cmd) (ic_Flow cmd).

(** What each endpoint adds to the mapping of the shared fields. *)
Definition stateCommand (r : request) (collection entityID : string) (req : ingestRequest) : res response IngestCommand :=
  (op <- bad (parseOpE (ig_Op req));
   match ig_State req with
   | None => Err (writeError 400 "state is required")
   | Some st => cmd <- buildCommand r collection entityID req op; Ok (withState cmd (Some st))
   end)%go.

Definition diffCommand (r : request) (collection entityID : string) (req : ingestRequest) : res response IngestCommand :=
  (op <- bad (parseOpE (ig_Op req));
   cmd <- buildCommand r collection entityID req op;
   match str_eqb op OpCreate, ig_State req with
   | true, Some st => Ok (withState cmd (Some st))
   | _, _ =>
       if str_eqb op OpDelete then Ok cmd
       else match ic_Changes cmd with None => Err (writeError 400 "changes is required") | Some _ => Ok cmd end
   end)%go.

Definition deleteCommand (r : request) (collection entityID : string) (req : ingestRequest) : res response IngestCommand :=
  if negb (str_eqb (ig_Op req) "") && negb (str_eqb (ig_Op req) OpDelete) then Err (writeError 400 ("delete endpoint does not accept op " +:+ ig_Op req))
  else buildCommand r collection entityID req OpDelete.

(** ** Handlers *)

Section Handlers.
Context {W : Type} `{IngestService W}.

(** [ingestHandlers.read]: the configuration is resolved, and the collection provisioned,
    before the body is looked at. *)
Definition readRequest (r : request) (collection : string) (w : W) : res response ingestRequest * W :=
  match canAccess r collection with
  | Err rs => (Err rs, w)
  | Ok _ =>
      match svcConfig (rq_Context r) collection w with
      | (Err e, w1) => (Err (writeIngestError e), w1)
      | (Ok cfg, w1) =>
          (match readLimited r (cfg_MaxEventSizeBytes cfg) with
           | Err rs => Err rs
           | Ok body =>
               match Unmarshal decIngest ingestRequest0 body with
               | None => Err (writeError 400 "invalid JSON body")
               | Some req => Ok req
               end
           end, w1)
      end
  end.

(** The three handlers differ in their kind and in the mapping of the request. *)
Definition ingestWith (kind : string) (toCommand : request -> string -> string -> ingestRequest -> res response IngestCommand) : handler W := fun r w =>
  match pathParams r with
  | Err rs => (rs, w)
  | Ok (collection, entityID) =>
      match readRequest r collection w with
      | (Err rs, w1) => (rs, w1)
      | (Ok req, w1) =>
          match toCommand r collection entityID req with
          | Err rs => (rs, w1)
          | Ok cmd => let '(x, w2) := svcWrite kind (rq_Context r) cmd w1 in (respond x, w2)
          end
      end
  end.

Definition handleState : handler W := ingestWith KindState stateCommand.
Definition handleDiff : handler W := ingestWith KindDiff diffCommand.
Definition handleDelete : handler W := ingestWith KindDelete deleteCommand.
End Handlers.
