(* ===== verification/ServerBatch.v ===== *)
(** * The batch endpoint (internal/server/batch.go)

    POST /events:batch: each element is checked and mapped on its own; what fails becomes
    a reject with its index, the rest goes to [BatchIngester.Ingest]. *)

From stdpp Require Import base list strings.
From Stdlib Require Import ZArith Lia Ascii.
From S2P Require Import Prelude GoMap Json Paths Diff DiffSound Domain Tenant Config Names Ingest Pipeline Numbers Worker JsonText TimeText Http ServerIngest.

Definition maxBatchItems : Z := 1000.
Definition maxBatchBodyBytes : Z := Z.shiftl 32 20.

Class BatchService (W : Type) := {
  svcBatch : ctx -> list BatchEntry -> list BatchReject -> string -> W -> res err BatchResult * W }.

Definition batchKinds (t : string) : option string :=
  if str_eqb t "state" then Some KindState else if str_eqb t "diff" then Some KindDiff else if str_eqb t "delete" then Some KindDelete else None.

Record batchItemRequest := mkBatchItem { bi_Collection : string; bi_EntityID : string; bi_Type : string; bi_Payload : option jtree }.

Definition decBatchItem : decoder batchItemRequest :=
  decStruct false ["collection"; "entity_id"; "type"; "payload"] (fun f t v =>
    let '(mkBatchItem c e ty p) := v in
    if str_eqb f "collection" then c ← decString c t; Some (mkBatchItem c e ty p)
    else if str_eqb f "entity_id" then e ← decString e t; Some (mkBatchItem c e ty p)
    else if str_eqb f "type" then ty ← decString ty t; Some (mkBatchItem c e ty p)
    else p ← decRaw p t; Some (mkBatchItem c e ty p)).

(** The request is its only field, the events. *)
Definition decBatch : decoder (option (list batchItemRequest)) :=
  decStruct false ["events"] (fun _ t v => decSlice (mkBatchItem "" "" "" None) decBatchItem v t).

(** [buildBatchCommand]: an error is the message of an [invalid_payload] reject. *)
Definition buildBatchCommand (item : batchItemRequest) (req : ingestRequest) (kind mode reqID ip : string) : res string IngestCommand :=
  (op <- parseOpE (ig_Op req);
   flow <- mapFlowBlockE (ig_Flow req);
   let cmd (op : string) (st : option state) (changes : option (list Change)) :=
     mkCommand (bi_Collection item) (bi_EntityID item) op mode (ig_ExpectedVersion req) (ig_AuthorID req) (ig_Source req) (default 0%Z (ig_TSSource req))
       (ig_EventID req) reqID ip (ig_Meta req) st changes flow in
   if str_eqb kind KindState then
     match ig_State req with None => Err "state is required" | Some st => Ok (cmd op (Some st) None) end
   else if str_eqb kind KindDiff then
     changes <- mapChangeList (ig_Changes req);
     match str_eqb op OpCreate, ig_State req with
     | true, Some st => Ok (cmd op (Some st) changes)
     | _, _ =>
         if str_eqb op OpDelete then Ok (cmd op None changes)
         else match changes with None => Err "changes is required" | Some _ => Ok (cmd op None changes) end
     end
   else if str_eqb kind KindDelete then
     if negb (str_eqb (ig_Op req) "") && negb (str_eqb (ig_Op req) OpDelete) then Err ("delete item does not accept op " +:+ ig_Op req)
     else Ok (cmd OpDelete None None)
   else Ok (cmd op None None))%go.

Definition buildBatchEntry (p : Principal) (item : batchItemRequest) (index : Z) (mode reqID ip : string) : res BatchReject BatchEntry :=
  let reject code msg := Err (mkReject index code msg) in
  if negb (validCollectionName (bi_Collection item)) then reject "invalid_collection" "invalid collection name"
  else if negb (CanAccess p (bi_Collection item)) then reject "forbidden" "collection not allowed"
  else if str_eqb (bi_EntityID item) "" then reject "invalid_entity_id" "entity_id is required"
  else
    match batchKinds (bi_Type item) with
    | None => reject "invalid_type" ("invalid type " +:+ bi_Type item +:+ " (want state, diff or delete)")
    | Some kind =>
        match bi_Payload item with
        | None => reject "invalid_payload" "payload is required"
        | Some t =>
            match Unmarshal decIngest ingestRequest0 (rawOf t) with
            | None => reject "invalid_payload" "invalid payload"
            | Some req =>
                match buildBatchCommand item req kind mode reqID ip with
                | Err msg => reject "invalid_payload" msg
                | Ok cmd => Ok (mkEntry index kind cmd (Z.of_nat (String.length (rawOf t))))
                end
            end
        end
    end.

(** The entries and the rejects, in the order of the elements. *)
Fixpoint buildEntries (p : Principal) (items : list batchItemRequest) (index : Z) (mode reqID ip : string) : list BatchEntry * list BatchReject :=
  match items with
  | [] => ([], [])
  | item :: items' =>
      let '(es, rjs) := buildEntries p items' (index + 1)%Z mode reqID ip in
      match buildBatchEntry p item index mode reqID ip with
      | Ok e => (e :: es, rjs)
      | Err rj => (es, rj :: rjs)
      end
  end.

Definition batchResponse (x : BatchResult) : gvalue :=
  GObj [("ticket_id", GStr (bt_Ticket x)); ("accepted", GInt (bt_Accepted x));
        ("rejected", GArr (map (fun rj => GObj [("index", GInt (rej_Index rj)); ("error", GObj [("code", GStr (rej_Code rj)); ("message", GStr (rej_Message rj))])]) (bt_Rejected x)))].

Definition handleBatch {W : Type} `{BatchService W} : handler W := fun r w =>
  match FromContext (rq_Context r) with
  | None => (writeError 401 "missing API key", w)
  | Some p =>
      match (mode <- bad (parseMode r); body <- readLimited r maxBatchBodyBytes;
             match Unmarshal decBatch None body with
             | None => Err (writeError 400 "invalid JSON body")
             | Some events =>
                 let events := default [] events in
                 if (Z.of_nat (length events) =? 0)%Z then Err (writeError 400 "events must contain at least one event")
                 else if (maxBatchItems <? Z.of_nat (length events))%Z then Err (writeError 400 "batch exceeds 1000 events")
                 else Ok (mode, events)
             end)%go with
      | Err rs => (rs, w)
      | Ok (mode, events) =>
          let '(entries, rejects) := buildEntries p events 0 mode (rq_RequestID r) (clientIP r) in
          match svcBatch (rq_Context r) entries rejects mode w with
          | (Err e, w1) => (writeIngestError e, w1)
          | (Ok x, w1) => (writeJSON 202 (batchResponse x), w1)
          end
      end
  end.
