(* ===== verification/WireSound.v ===== *)
(** * Bodies that read back

    The tree a marshalled value is read as: a body written by the server (or by a client
    that uses the same encoder) decodes from that tree, so that a theorem about a decoder
    applied to a printed value no longer mentions text. *)

From stdpp Require Import base list strings.
From Stdlib Require Import ZArith Lia Ascii.
From Corelib Require Import SpecFloat.
From S2P Require Import Prelude GoMap Json Numbers Canonical Worker JsonText TimeText JsonSound Http.

(** ** Number literals *)

#[export] Instance float_eq_dec : EqDecision float64.
Proof. solve_decision. Defined.

(** Nothing of a number is left where one may end. *)
Lemma ends_scan x : endsNumber x = true -> scanFrac x = Some ("", x) /\ scanExponent x = Some ("", x).
Proof.
  destruct x as [|d x]; [done|]. cbn [endsNumber scanFrac scanExponent]. intros [[_ ->]%orb_false_iff ->]%negb_true_iff%orb_false_iff. done.
Qed.

Lemma ends_digit x : endsNumber x = true -> (match x with String c _ => is_digit c | EmptyString => false end) = false.
Proof. destruct x as [|d x]; [done|]. cbn. intros [[-> _]%orb_false_iff _]%negb_true_iff%orb_false_iff. done. Qed.

(** An unsigned integer, and one after a sign. *)
Definition natural (s : string) : Prop := exists c t, s = String c t /\ is_digit c = true /\ forall x, endsNumber x = true -> scanInt (s +:+ x) = Some (s, x).

Lemma natural_num s : natural s -> numLit s /\ numLit (String "-" s).
Proof.
  intros (c & t & -> & Hc & Hs). pose proof (proj1 (is_digit_byte c) Hc) as Hb. split; split.
  - exists c, t. by rewrite Hc.
  - intros x Hx. specialize (Hs x Hx). rewrite app_cons_str in *. unfold scanNumber. rewrite (proj2 (Z.eqb_neq _ 45)) by lia. rewrite Hs.
    destruct (ends_scan x Hx) as [-> ->]. by rewrite app_nil_l_str, !app_nil_r_str.
  - by eexists _, _.
  - intros x Hx. specialize (Hs x Hx). rewrite app_cons_str. unfold scanNumber. change (byteOf "-" =? 45)%Z with true. cbv iota. rewrite Hs.
    destruct (ends_scan x Hx) as [-> ->]. by rewrite !app_nil_r_str.
Qed.

Lemma natural_itoa z : (0 <= z)%Z -> natural (itoa z).
Proof.
  intros Hz. destruct (Z.eq_dec z 0) as [->|Hne]; [by eexists _, _|]. destruct (itoa_pos_head z ltac:(lia)) as (c & s & -> & Hc & Hlo & Hs).
  exists c, s. split_and!; [done|done|]. intros x Hx. rewrite app_cons_str. cbn [scanInt]. rewrite (proj2 (Z.eqb_neq _ 48)), Hc by lia.
  rewrite <- app_cons_str, spanDigits_app; [done|cbn; by rewrite Hc|by apply ends_digit].
Qed.

Lemma itoa_num z : numLit (itoa z).
Proof.
  destruct (Z_lt_le_dec z 0) as [Hn|Hn]; [|by apply natural_num, natural_itoa].
  destruct z as [|p|p]; try lia. rewrite itoa_neg. by apply natural_num, natural_itoa.
Qed.

(** The scanners with more text behind. *)
Section More.
Variable x : string.
Hypothesis Hx : endsNumber x = true.

Lemma spanDigits_more s a r : spanDigits s = (a, r) -> spanDigits (s +:+ x) = (a, r +:+ x).
Proof.
  revert a. induction s as [|c s IH]; intros a; cbn [spanDigits].
  - intros [= <- <-]. rewrite !app_nil_l_str. apply (spanDigits_app "" x eq_refl), ends_digit, Hx.
  - rewrite app_cons_str. cbn [spanDigits]. destruct (is_digit c) eqn:E; [|by intros [= <- <-]].
    destruct (spanDigits s) as [b r'] eqn:Es. intros [= <- ->]. by rewrite (IH b eq_refl).
Qed.

Lemma scanInt_more s a r : scanInt s = Some (a, r) -> scanInt (s +:+ x) = Some (a, r +:+ x).
Proof.
  destruct s as [|c s]; [done|]. rewrite app_cons_str. cbn [scanInt]. destruct (_ =? 48)%Z; [by intros [= <- <-]|]. destruct (is_digit c); [|done].
  intros [= H]. rewrite <- app_cons_str. f_equal. by apply spanDigits_more.
Qed.

Lemma scanFrac_more s a r : scanFrac s = Some (a, r) -> scanFrac (s +:+ x) = Some (a, r +:+ x).
Proof.
  destruct s as [|c s]; [cbn; intros [= <- <-]; rewrite app_nil_l_str; by apply ends_scan|]. rewrite app_cons_str. cbn [scanFrac].
  destruct (_ =? 46)%Z; [|by intros [= <- <-]]. destruct (spanDigits s) as [b r'] eqn:E. rewrite (spanDigits_more s b r' E).
  destruct b; [done|]. by intros [= <- <-].
Qed.

Lemma scanExponent_more s a r : scanExponent s = Some (a, r) -> scanExponent (s +:+ x) = Some (a, r +:+ x).
Proof.
  destruct s as [|c s]; [cbn; intros [= <- <-]; rewrite app_nil_l_str; by apply ends_scan|]. rewrite app_cons_str. cbn [scanExponent].
  destruct (_ =? 101)%Z; [|by intros [= <- <-]]. destruct s as [|d s]; [done|]. rewrite app_cons_str.
  destruct (_ || _).
  - destruct (spanDigits s) as [b r'] eqn:E. rewrite (spanDigits_more s b r' E). destruct b; [done|]. by intros [= <- <-].
  - destruct (spanDigits (String d s)) as [b r'] eqn:E. apply spanDigits_more in E. rewrite app_cons_str in E. rewrite E. destruct b; [done|]. by intros [= <- <-].
Qed.

Lemma scanNumber_more s a r : scanNumber s = Some (a, r) -> scanNumber (s +:+ x) = Some (a, r +:+ x).
Proof.
  unfold scanNumber. destruct s as [|c s]; [done|]. rewrite app_cons_str.
  set (s0 := if (byteOf c =? 45)%Z then (String c "", s) else ("", String c s)).
  assert ((if (byteOf c =? 45)%Z then (String c "", s +:+ x) else ("", String c (s +:+ x))) = (s0.1, s0.2 +:+ x)) as -> by (subst s0; by destruct (_ =? 45)%Z).
  destruct s0 as [sign t]. cbn [fst snd]. destruct (scanInt t) as [[i s1]|] eqn:E1; [|done]. rewrite (scanInt_more _ _ _ E1).
  destruct (scanFrac s1) as [[f s2]|] eqn:E2; [|done]. rewrite (scanFrac_more _ _ _ E2).
  destruct (scanExponent s2) as [[e s3]|] eqn:E3; [|done]. rewrite (scanExponent_more _ _ _ E3). by intros [= <- <-].
Qed.
End More.

(** A text that is one number is one in every context. *)
Lemma numLit_scan s : scanNumber s = Some (s, "") -> numLit s.
Proof.
  intros Hs. split; [|intros x Hx; apply (scanNumber_more x Hx) in Hs; by rewrite app_nil_l_str in Hs].
  destruct s as [|c s]; [done|]. exists c, s. split; [done|]. unfold scanNumber in Hs. destruct (byteOf c =? 45)%Z; [by rewrite orb_true_r|].
  cbn [scanInt] in Hs. destruct (byteOf c =? 48)%Z eqn:E; [|by destruct (is_digit c)].
  apply Z.eqb_eq in E. apply orb_true_iff. left. apply is_digit_byte. lia.
Qed.

(** ** Documents *)

(** The literal of a number reads back as the number. *)
Definition numBack (f : float64) : bool :=
  match jsonFloat f with
  | Some s => bool_decide (scanNumber s = Some (s, "")) && str_eqb (escapeHTML s) s && bool_decide (ParseFloat s = Some f)
  | None => false
  end.

Fixpoint sortedKeys (ks : list string) : bool :=
  match ks with
  | [] => true
  | k :: ks' => match ks' with [] => true | k' :: _ => str_ltb k k' end && sortedKeys ks'
  end.

(** Documents as a decoder makes them: valid UTF-8, sorted keys, numbers that read back. *)
Fixpoint plainJson (j : json) : bool :=
  match j with
  | JNull | JBool _ => true
  | JNum f => numBack f
  | JStr s => ValidString s
  | JArr l => forallb plainJson l
  | JObj m => sortedKeys (map fst m) && forallb (fun kv => ValidString kv.1 && plainJson kv.2) m
  | JInt _ | JInt64 _ => false
  end.

Definition inner (s : string) : string := escapeHTML (escapeFrom 0 false s).
Definition arrTree (ts : list jtree) : jtree := TArr ("[" +:+ joinWith "," (map rawOf ts) +:+ "]") ts.
Definition objTree (ts : list (string * jtree)) : jtree := TObj ("{" +:+ joinWith "," (map member ts) +:+ "}") ts.

Fixpoint anyTree (j : json) : jtree :=
  match j with
  | JNull => TNull
  | JBool b => TBool b
  | JNum f => TNum (default "" (jsonFloat f))
  | JInt z | JInt64 z => TNum (itoa z)
  | JStr s => TStr (inner s)
  | JArr l => arrTree (map anyTree l)
  | JObj m => objTree (map (fun kv => (inner kv.1, anyTree kv.2)) m)
  end.

Lemma inner_plain s : plainText (inner s).
Proof. apply escape_text. Qed.

Lemma unquote_inner s : ValidString s = true -> unquote (inner s) = s.
Proof. intros Hs. unfold inner. by rewrite unquote_marshal, coerce_valid. Qed.

Lemma escapeHTML_quoted s : escapeHTML (jsonString s) = quoted (inner s).
Proof. apply marshalString_quoted. Qed.

Lemma escapeHTML_join ss : escapeHTML (joinWith "," ss) = joinWith "," (map escapeHTML ss).
Proof.
  induction ss as [|s ss IH]; [done|]. destruct ss as [|s' ss]; [done|]. cbn [joinWith map] in *. by rewrite !escapeHTML_app, IH.
Qed.

Lemma canon_arr ts : Forall canon ts -> canon (arrTree ts).
Proof. intros H. split; [done|]. by induction H. Qed.

Lemma canon_obj ts : Forall (fun kv => plainText kv.1 /\ canon kv.2) ts -> canon (objTree ts).
Proof. intros H. split; [done|]. induction H as [|[k v] ts [? ?] _ IH]; [done|]. by split_and!. Qed.

Lemma escapeHTML_itoa z : escapeHTML (itoa z) = itoa z.
Proof.
  assert (forall s, all_bytes is_digit s = true -> escapeHTML s = s) as Hd.
  { induction s as [|c s IH]; [done|]. cbn. intros [Hc Hs]%andb_true_iff. pose proof (proj1 (is_digit_byte c) Hc).
    rewrite !(proj2 (Z.eqb_neq _ _)) by lia. by rewrite IH. }
  destruct (Z_lt_le_dec z 0) as [Hn|Hn]; [|by apply Hd, itoa_nonneg_digits].
  destruct z as [|p|p]; try lia. rewrite itoa_neg. change (String "-" ?a) with ("-" +:+ a). by rewrite escapeHTML_app, (Hd (itoa (Zpos p))) by by apply itoa_nonneg_digits.
Qed.

(** The trees of the encoder's texts. *)
Definition printed (j : json) : Prop := option_map escapeHTML (jsonEncode j) = Some (rawOf (anyTree j)) /\ canon (anyTree j).

Lemma printed_list l : Forall printed l ->
  option_map (map escapeHTML) (encodeList l) = Some (map rawOf (map anyTree l)).
Proof.
  induction 1 as [|j l [Hj _] _ IH]; [done|]. cbn [encodeList map]. destruct (jsonEncode j); [|done]. destruct (encodeList l); [|done].
  cbn in *. congruence.
Qed.

Lemma printed_fields m : Forall (fun kv => printed kv.2) m ->
  option_map (map (fun e => escapeHTML (entry e.1 e.2))) (encodeFields m) = Some (map member (map (fun kv => (inner kv.1, anyTree kv.2)) m)).
Proof.
  induction 1 as [|[k j] m [Hj _] _ IH]; [done|]. cbn [encodeFields map fst snd] in *. destruct (jsonEncode j) as [a|]; [|done]. destruct (encodeFields m); [|done].
  cbn [option_map map fst snd] in *. apply (inj Some) in IH, Hj. rewrite IH. f_equal. f_equal. unfold entry, member.
  cbn [fst snd]. by rewrite !escapeHTML_app, escapeHTML_quoted, <- Hj.
Qed.

Lemma anyTree_printed j : plainJson j = true -> printed j.
Proof.
  induction j as [|b|f|z|z|s|l IH|m IH] using json_ind'; cbn [plainJson]; intros Hp; unfold printed; try done.
  - by destruct b.
  - cbn. unfold numBack in Hp. destruct (jsonFloat f) as [s|]; [|done]. cbn. apply andb_true_iff in Hp as [[Hs%bool_decide_eq_true He%str_eqb_eq]%andb_true_iff _].
    split; [by rewrite He|by apply numLit_scan].
  - cbn [jsonEncode option_map anyTree rawOf]. rewrite escapeHTML_quoted. split; [done|apply inner_plain].
  - assert (Forall printed l) as Hl.
    { apply Forall_forall. intros x Hx. rewrite forallb_forall in Hp. rewrite Forall_forall in IH. apply IH; [done|]. apply Hp. by apply list_elem_of_In. }
    rewrite jsonEncode_arr. pose proof (printed_list l Hl) as E. destruct (encodeList l) as [ss|]; [|done]. cbn [option_map] in *. apply (inj Some) in E.
    split; [|apply canon_arr, Forall_map; eapply Forall_impl; [exact Hl|]; by intros ? []]. 
    rewrite !escapeHTML_app, escapeHTML_join, E. done.
  - apply andb_true_iff in Hp as [_ Hp]. assert (Forall (fun kv => printed kv.2) m) as Hm.
    { apply Forall_forall. intros x Hx. rewrite forallb_forall in Hp. rewrite Forall_forall in IH. apply IH; [done|].
      apply list_elem_of_In, Hp, andb_true_iff in Hx. by destruct Hx. }
    rewrite jsonEncode_obj. pose proof (printed_fields m Hm) as E. destruct (encodeFields m) as [es|]; [|done]. cbn [option_map] in *. apply (inj Some) in E.
    split; [|apply canon_obj, Forall_map; eapply Forall_impl; [exact Hm|]; intros kv [_ ?]; split; [apply inner_plain|done]].
    rewrite !escapeHTML_app, escapeHTML_join, map_map, E. done.
Qed.

(** ** Reading a document back *)

Lemma sortedKeys_msorted {V} (m : list (string * V)) : sortedKeys (map fst m) = true -> msorted m.
Proof.
  intros H. apply Sorted.Sorted_StronglySorted; [intros a b c; apply str_ltb_trans|]. unfold mkeys.
  induction (map fst m) as [|k ks IH]; [constructor|]. cbn in H. apply andb_true_iff in H as [H1 H2]. constructor; [by apply IH|].
  destruct ks; by constructor.
Qed.

Lemma mset_snoc {V} (m : list (string * V)) k v : Forall (fun e => str_lt e.1 k) m -> mset k v m = m ++ [(k, v)].
Proof.
  induction 1 as [|[k' v'] m H _ IH]; [done|]. cbn in *. rewrite (str_ltb_asym k' k) by done.
  apply str_ltb_neq, not_eq_sym, str_eqb_neq in H. by rewrite H, IH.
Qed.

(** The loops of [toAny]. *)
Fixpoint toAnys (l : list jtree) : option (list json) :=
  match l with [] => Some [] | x :: l' => match toAny x, toAnys l' with Some a, Some b => Some (a :: b) | _, _ => None end end.

Fixpoint toAnyFields (acc : list (string * json)) (m : list (string * jtree)) : option (list (string * json)) :=
  match m with [] => Some acc | (k, x) :: m' => match toAny x with Some a => toAnyFields (mset (unquote k) a acc) m' | None => None end end.

Lemma toAny_arr raw l : toAny (TArr raw l) = option_map JArr (toAnys l).
Proof. reflexivity. Qed.

Lemma toAny_obj raw m : toAny (TObj raw m) = option_map JObj (toAnyFields [] m).
Proof. reflexivity. Qed.

(** The keys that were set are below the next one. *)
Lemma sorted_before {V} (acc m : list (string * V)) k v : msorted (acc ++ (k, v) :: m) -> Forall (fun e => str_lt e.1 k) acc.
Proof.
  unfold msorted, mkeys. intros Hs. induction acc as [|[k' v'] acc IH]; [constructor|]. cbn in Hs. apply Sorted.StronglySorted_inv in Hs as [Hs Hf].
  constructor; [|by apply IH]. rewrite map_app in Hf. apply List.Forall_app in Hf as [_ Hf]. by inversion Hf.
Qed.

Lemma toAnyFields_sorted m acc : msorted (acc ++ m) -> Forall (fun kv => ValidString kv.1 = true /\ toAny (anyTree kv.2) = Some kv.2) m ->
  toAnyFields acc (map (fun kv => (inner kv.1, anyTree kv.2)) m) = Some (acc ++ m).
Proof.
  intros Hs Hm. revert acc Hs. induction Hm as [|[k x] m [Hk Hx] _ IH]; intros acc Hs; [by rewrite app_nil_r|].
  cbn [map toAnyFields fst snd] in *. rewrite Hx, unquote_inner, mset_snoc by (done || by eapply sorted_before).
  rewrite IH; by rewrite <- app_assoc.
Qed.

Lemma toAny_tree j : plainJson j = true -> toAny (anyTree j) = Some j.
Proof.
  induction j as [|b|f|z|z|s|l IH|m IH] using json_ind'; cbn [plainJson]; intros Hp; try done.
  - cbn. unfold numBack in Hp. destruct (jsonFloat f) as [s|]; [|done]. apply andb_true_iff in Hp as [_ Hp%bool_decide_eq_true]. cbn. by rewrite Hp.
  - cbn. by rewrite unquote_inner.
  - cbn [anyTree]. unfold arrTree. rewrite toAny_arr. assert (toAnys (map anyTree l) = Some l) as ->; [|done].
    induction IH as [|x l Hx _ IH]; [done|]. cbn in *. apply andb_true_iff in Hp as [Hp1 Hp2]. by rewrite Hx, IH.
  - apply andb_true_iff in Hp as [Hs Hp]. cbn [anyTree]. unfold objTree. rewrite toAny_obj.
    rewrite toAnyFields_sorted; [done|by apply sortedKeys_msorted|]. rewrite forallb_forall in Hp. rewrite Forall_forall in *.
    intros kv Hkv. specialize (IH kv Hkv). apply list_elem_of_In, Hp, andb_true_iff in Hkv as [? ?]. auto.
Qed.

(** ** Response values *)

Fixpoint treeOf (v : gvalue) : jtree :=
  match v with
  | GNull | GRaw _ => TNull
  | GBool b => TBool b
  | GInt z => TNum (itoa z)
  | GStr s => TStr (inner s)
  | GTime t => TStr (default "" (marshalTime t))
  | GAny j => anyTree j
  | GArr l => arrTree (map treeOf l)
  | GObj m => objTree (map (fun kv => (inner kv.1, treeOf kv.2)) m)
  end.

(** Values the encoder accepts and a reader understands. *)
Fixpoint wireOK (v : gvalue) : bool :=
  match v with
  | GTime t => ((0 <=? yearOf t) && (yearOf t <=? 9999))%Z
  | GAny j => plainJson j
  | GRaw _ => false
  | GArr l => forallb wireOK l
  | GObj m => forallb (fun kv => wireOK kv.2) m
  | _ => true
  end.

Section GValueInd.
Context (P : gvalue -> Prop).
Context (Hnull : P GNull) (Hbool : forall b, P (GBool b)) (Hint : forall z, P (GInt z)) (Hstr : forall s, P (GStr s)).
Context (Htime : forall t, P (GTime t)) (Hany : forall j, P (GAny j)) (Hraw : forall s, P (GRaw s)).
Context (Harr : forall l, Forall P l -> P (GArr l)) (Hobj : forall m, Forall (fun e => P e.2) m -> P (GObj m)).

Fixpoint gvalue_ind' (v : gvalue) : P v :=
  match v with
  | GNull => Hnull | GBool b => Hbool b | GInt z => Hint z | GStr s => Hstr s | GTime t => Htime t | GAny j => Hany j | GRaw s => Hraw s
  | GArr l => Harr l ((fix go (l : list gvalue) : Forall P l := match l with [] => Forall_nil_2 _ | x :: l' => Forall_cons_2 _ _ _ (gvalue_ind' x) (go l') end) l)
  | GObj m => Hobj m ((fix go (m : list (string * gvalue)) : Forall (fun e => P e.2) m :=
                         match m with [] => Forall_nil_2 _ | e :: m' => Forall_cons_2 _ e _ (gvalue_ind' e.2) (go m') end) m)
  end.
End GValueInd.

(** A formatted time is plain text. *)
Definition timeByte (c : ascii) : bool := is_digit c || existsb (Ascii.eqb c) ["-"; ":"; "."; "T"; "Z"]%char.

Lemma plainText_time s : all_bytes timeByte s = true -> plainText s.
Proof.
  intros Hs. apply plainText_run. induction s as [|c s IH]; [done|]. cbn in Hs. apply andb_true_iff in Hs as [Hc Hs].
  assert ((byteOf c =? 34) = false /\ (byteOf c =? 92) = false /\ (byteOf c <? 32) = false)%Z as (E1 & E2 & E3).
  { unfold timeByte in Hc. apply orb_true_iff in Hc as [Hc%is_digit_byte|Hc].
    - rewrite !(proj2 (Z.eqb_neq _ _)), (proj2 (Z.ltb_ge _ _)) by lia. done.
    - cbn in Hc. rewrite !orb_true_iff, !Ascii.eqb_eq in Hc. by destruct Hc as [->|[->|[->|[->|[->|]]]]]. }
  cbn [runState]. rewrite E1, E2, E3. by apply IH.
Qed.

Lemma time_pad n z : (0 <= z)%Z -> all_bytes timeByte (pad n z) = true.
Proof. intros Hz. eapply all_bytes_impl; [|by apply pad_digits]. intros c Hc. unfold timeByte. by rewrite Hc. Qed.

Lemma time_fraction ns : (0 <= ns < 10 ^ 9)%Z -> all_bytes timeByte (fraction ns) = true.
Proof.
  intros Hns. unfold fraction. destruct (str_eqb _ ""); [done|]. rewrite all_bytes_app. change (all_bytes timeByte ".") with true. cbn [andb].
  eapply all_bytes_impl; [|by apply nanosOf_trim]. intros c Hc. unfold timeByte. by rewrite Hc.
Qed.

Lemma time_plain t s : marshalTime t = Some s -> plainText s.
Proof.
  unfold marshalTime. destruct (_ && _) eqn:E; [|done]. intros [= <-]. apply andb_true_iff in E as [Hy%Z.leb_le _]. apply plainText_time.
  unfold yearOf, second in Hy. unfold formatRFC3339Nano. cbv zeta. destruct (civil_daysFrom (t / 1000000000 / 86400)) as [_ Hval].
  destruct (civil (t / 1000000000 / 86400)) as [[y mo] d]. cbn [fst] in Hy. destruct Hval as [Hmo Hd].
  pose proof (Z.mod_pos_bound (t / 1000000000) 86400 ltac:(lia)) as Hs. set (sec := ((t / 1000000000) mod 86400)%Z) in *.
  assert (0 <= sec / 3600)%Z by (apply Z.div_pos; lia). pose proof (Z.mod_pos_bound (sec / 60) 60 ltac:(lia)). pose proof (Z.mod_pos_bound sec 60 ltac:(lia)).
  pose proof (Z.mod_pos_bound t 1000000000 ltac:(lia)).
  rewrite !all_bytes_app, !time_pad, time_fraction by lia. done.
Qed.

(** The loops of [marshal]. *)
Fixpoint marshalAll (l : list gvalue) : option (list string) :=
  match l with [] => Some [] | x :: l' => match marshal x, marshalAll l' with Some a, Some b => Some (a :: b) | _, _ => None end end.

Fixpoint marshalMembers (m : list (string * gvalue)) : option (list string) :=
  match m with
  | [] => Some []
  | (k, x) :: m' => match marshal x, marshalMembers m' with Some a, Some b => Some ((marshalString k +:+ ":" +:+ a) :: b) | _, _ => None end
  end.

Lemma marshal_arr l : marshal (GArr l) = option_map (fun ss => "[" +:+ joinWith "," ss +:+ "]") (marshalAll l).
Proof. reflexivity. Qed.

Lemma marshal_obj m : marshal (GObj m) = option_map (fun ss => "{" +:+ joinWith "," ss +:+ "}") (marshalMembers m).
Proof. reflexivity. Qed.

Definition encodes (v : gvalue) : Prop := marshal v = Some (rawOf (treeOf v)) /\ canon (treeOf v).

Lemma encodes_all l : Forall encodes l -> marshalAll l = Some (map rawOf (map treeOf l)).
Proof. induction 1 as [|x l [Hx _] _ IH]; [done|]. cbn [marshalAll map]. by rewrite Hx, IH. Qed.

Lemma encodes_members m : Forall (fun kv => encodes kv.2) m -> marshalMembers m = Some (map member (map (fun kv => (inner kv.1, treeOf kv.2)) m)).
Proof.
  induction 1 as [|[k x] m [Hx _] _ IH]; [done|]. cbn [marshalMembers map fst snd] in *. rewrite Hx, IH, marshalString_quoted. done.
Qed.

(** An accepted value is written as the text of its tree. *)
Lemma marshal_tree v : wireOK v = true -> encodes v.
Proof.
  induction v as [|b|z|s|t|j|s|l IH|m IH] using gvalue_ind'; cbn [wireOK]; intros Hw; unfold encodes; try done.
  - split; [done|apply itoa_num].
  - cbn [marshal treeOf rawOf canon]. rewrite marshalString_quoted. split; [done|apply inner_plain].
  - cbn [marshal treeOf rawOf canon]. destruct (marshalTime t) as [s|] eqn:E; [split; [done|by eapply time_plain]|].
    unfold marshalTime in E. by rewrite Hw in E.
  - cbn [marshal treeOf]. by apply anyTree_printed.
  - assert (Forall encodes l) as Hl.
    { rewrite forallb_forall in Hw. rewrite Forall_forall in *. intros x Hx. apply IH; [done|]. apply Hw. by apply list_elem_of_In. }
    rewrite marshal_arr, encodes_all by done. split; [done|]. apply canon_arr, Forall_map. eapply Forall_impl; [exact Hl|]. by intros ? [].
  - assert (Forall (fun kv => encodes kv.2) m) as Hm.
    { rewrite forallb_forall in Hw. rewrite Forall_forall in *. intros x Hx. apply IH; [done|]. apply (Hw x). by apply list_elem_of_In. }
    rewrite marshal_obj, encodes_members by done. split; [done|]. apply canon_obj, Forall_map. eapply Forall_impl; [exact Hm|].
    intros kv [_ ?]. split; [apply inner_plain|done].
Qed.

(** Hence a decoder run on a written body is run on the tree of the value. *)
Theorem Unmarshal_marshal {A} (d : decoder A) zero v s : wireOK v = true -> (height (treeOf v) <= maxNestingDepth)%Z ->
  marshal v = Some s -> Unmarshal d zero s = d zero (treeOf v).
Proof.
  intros Hw Hh Hs. destruct (marshal_tree v Hw) as [E Hc]. rewrite E in Hs. injection Hs as <-. unfold Unmarshal. by rewrite parseWhole_canon.
Qed.

Theorem DecodeFirst_marshal {A} (d : decoder A) zero v s : wireOK v = true -> (height (treeOf v) <= maxNestingDepth)%Z ->
  marshal v = Some s -> DecodeFirst d zero s = d zero (treeOf v).
Proof.
  intros Hw Hh Hs. destruct (marshal_tree v Hw) as [E Hc]. rewrite E in Hs. injection Hs as <-. unfold DecodeFirst. by rewrite parseFirst_canon.
Qed.

(** The ranges of an [int64] and of a time that JSON can carry. *)
Definition int64 (z : Z) : bool := ((- 2 ^ 63 <=? z) && (z <? 2 ^ 63))%Z.
Definition jsonTime (t : Z) : bool := ((0 <=? yearOf t) && (yearOf t <=? 9999))%Z.

(** Decoders on the trees of values. *)
Lemma decString_tree cur s : ValidString s = true -> decString cur (treeOf (GStr s)) = Some s.
Proof. intros Hs. cbn. by rewrite unquote_inner. Qed.

Lemma decInt_tree cur z : (- 2 ^ 63 <= z < 2 ^ 63)%Z -> decInt cur (treeOf (GInt z)) = Some z.
Proof. apply ParseInt_itoa. Qed.

Lemma decTime_tree cur t : jsonTime t = true -> decTime cur (treeOf (GTime t)) = Some t.
Proof.
  unfold jsonTime. intros Ht. cbn. destruct (marshalTime t) as [s|] eqn:E; [by apply (marshalTime_parse true) in E|]. unfold marshalTime in E. by rewrite Ht in E.
Qed.

(** Decoding a written object, field by field. *)
Fixpoint setFields {S} (set : string -> jtree -> S -> option S) (m : list (string * gvalue)) (cur : S) : option S :=
  match m with
  | [] => Some cur
  | (k, v) :: m' => match set k (treeOf v) cur with Some cur' => setFields set m' cur' | None => None end
  end.

Definition knownKeys (names : list string) (m : list (string * gvalue)) : bool :=
  forallb (fun kv => ValidString kv.1 && match matchField names kv.1 with Some n => str_eqb n kv.1 | None => false end) m.

Lemma decStruct_tree {S} strict names (set : string -> jtree -> S -> option S) m cur : knownKeys names m = true ->
  decStruct strict names set cur (treeOf (GObj m)) = setFields set m cur.
Proof.
  intros Hk. cbn [treeOf decStruct objTree]. revert cur. induction m as [|[k v] m IH]; intros cur; [done|].
  cbn in Hk. apply andb_true_iff in Hk as [[Hv Hf]%andb_true_iff Hk]. cbn [map fst snd decFields setFields]. rewrite unquote_inner by done.
  destruct (matchField names k) as [n|]; [|done]. apply str_eqb_eq in Hf as ->. destruct (set k (treeOf v) cur) as [cur'|]; [|done]. by apply IH.
Qed.

Lemma decMapAny_tree cur m : plainJson (JObj m) = true -> decMapAny cur (anyTree (JObj m)) = Some (Some (fold_left (fun acc kv => mset kv.1 kv.2 acc) m (default [] cur))).
Proof.
  intros Hp. cbn [plainJson] in Hp. apply andb_true_iff in Hp as [_ Hp]. unfold decMapAny, decMap. cbn [anyTree objTree]. generalize (default [] cur) as acc.
  intros acc. assert (decEntries JNull decAny acc (map (fun kv => (inner kv.1, anyTree kv.2)) m) = Some (fold_left (fun acc kv => mset kv.1 kv.2 acc) m acc)) as ->; [|done].
  revert acc. induction m as [|[k v] m IH]; intros acc; [done|]. cbn in Hp. apply andb_true_iff in Hp as [[Hk Hv]%andb_true_iff Hm].
  cbn [map fst snd decEntries fold_left]. unfold decAny at 1. rewrite toAny_tree, unquote_inner by done. by apply IH.
Qed.

Lemma fold_mset_sorted {V} (m acc : list (string * V)) : msorted (acc ++ m) -> fold_left (fun acc kv => mset kv.1 kv.2 acc) m acc = acc ++ m.
Proof.
  revert acc. induction m as [|[k v] m IH]; intros acc Hs; [by rewrite app_nil_r|]. cbn [fold_left fst snd]. rewrite mset_snoc by (by eapply sorted_before).
  rewrite IH; by rewrite <- app_assoc.
Qed.

(** A written map, read into a nil one. *)
Lemma decMapAny_nil m : plainJson (JObj m) = true -> decMapAny None (anyTree (JObj m)) = Some (Some m).
Proof.
  intros Hp. rewrite decMapAny_tree by done. cbn [default]. rewrite fold_mset_sorted; [done|]. cbn [plainJson app] in *.
  apply andb_true_iff in Hp as [Hs _]. by apply sortedKeys_msorted.
Qed.

(** A written slice, read into a nil one. *)
Lemma decSlice_tree {A} zero (d : decoder A) (f : A -> gvalue) l : (forall x, x ∈ l -> d zero (treeOf (f x)) = Some x) ->
  decSlice zero d None (treeOf (GArr (map f l))) = Some (Some l).
Proof.
  intros Hd. cbn [treeOf decSlice arrTree default]. rewrite map_map. assert (decElems zero d [] (map (fun x => treeOf (f x)) l) = Some l) as ->; [|done].
  induction l as [|x l IH]; [done|]. cbn [map decElems tail]. rewrite Hd by left. rewrite IH; [done|]. intros y Hy. apply Hd. by right.
Qed.
