(* ===== verification/TaskWire.v ===== *)
(** * The task envelope (internal/service/envelope.go)

    A queued write as JSON: [Encode] and [Decode] over the structs of the envelope, an
    instance of the codec the pipeline and the worker are written against.  A time is
    written in UTC here; the program keeps the offset a client sent, which denotes the
    same instant. *)

From stdpp Require Import base list strings.
From Stdlib Require Import ZArith Lia Ascii.
From S2P Require Import Prelude GoMap Json Paths Diff DiffSound Domain Tenant Config Names Ingest Pipeline Numbers Canonical Worker JsonText TimeText Http.

(** ** Encoding: the fields in the order of the structs, a nil map, slice or pointer as null *)

Definition orNull {A : Type} (f : A -> gvalue) (v : option A) : gvalue := match v with Some x => f x | None => GNull end.
Definition omitEmpty (k s : string) : list (string * gvalue) := if str_eqb s "" then [] else [(k, GStr s)].
Definition mapValue (m : state) : gvalue := GAny (JObj m).

Definition changeValue (c : Change) : gvalue :=
  GObj [("Path", GStr (Path c)); ("Op", GStr (opText (ChOp c))); ("Old", GAny (Old c)); ("New", GAny (New c))].

Definition flowRefValue (r : FlowRef) : gvalue :=
  GObj [("ActivityID", GStr (fr_ActivityID r)); ("Collection", GStr (fr_Collection r)); ("EntityID", GStr (fr_EntityID r));
        ("Version", GInt (fr_Version r)); ("EventID", GStr (fr_EventID r))].

(** An empty list of causes is a nil slice. *)
Definition causesValue (l : list FlowRef) : gvalue := match l with [] => GNull | _ => GArr (map flowRefValue l) end.
Definition flowValue (f : Flow) : gvalue :=
  GObj [("ID", GStr (fl_ID f)); ("CausedBy", causesValue (fl_CausedBy f)); ("Step", GStr (fl_Step f))].

Definition commandValue (c : IngestCommand) : gvalue :=
  GObj [("Collection", GStr (ic_Collection c)); ("EntityID", GStr (ic_EntityID c)); ("Op", GStr (ic_Op c)); ("Mode", GStr (ic_Mode c));
        ("ExpectedVersion", orNull GInt (ic_ExpectedVersion c)); ("Author", GStr (ic_Author c)); ("Source", GStr (ic_Source c)); ("TSSource", GTime (ic_TSSource c));
        ("EventID", GStr (ic_EventID c)); ("RequestID", GStr (ic_RequestID c)); ("ClientIP", GStr (ic_ClientIP c)); ("Meta", orNull mapValue (ic_Meta c));
        ("State", orNull mapValue (ic_State c)); ("Changes", orNull (fun l => GArr (map changeValue l)) (ic_Changes c)); ("Flow", orNull flowValue (ic_Flow c))].

Definition tenantValue (t : TenantRef) : gvalue :=
  GObj (("id", GStr (ref_ID t)) :: omitEmpty "db_uri" (ref_DBURI t) ++ omitEmpty "db_name" (ref_DBName t)).

Definition taskValue (t : Task) : gvalue :=
  GObj ([("tenant", tenantValue (task_Tenant t)); ("kind", GStr (task_Kind t)); ("mode", GStr (task_Mode t))] ++
        omitEmpty "ticket_id" (task_TicketID t) ++ [("command", commandValue (task_Command t))]).

Definition encodeTask (t : Task) : option string := marshal (taskValue t).

(** ** Decoding *)

Definition textOp (s : string) : Op :=
  if str_eqb s "add" then OpAdd else if str_eqb s "change" then OpChange else if str_eqb s "remove" then OpRemove else OpOther s.

Definition decOp : decoder Op := fun cur t => option_map textOp (decString (opText cur) t).

Definition decTaskChange : decoder Change :=
  decStruct false ["Path"; "Op"; "Old"; "New"] (fun f t v =>
    let '(mkChange p o old new) := v in
    if str_eqb f "Path" then p ← decString p t; Some (mkChange p o old new)
    else if str_eqb f "Op" then o ← decOp o t; Some (mkChange p o old new)
    else if str_eqb f "Old" then old ← decAny old t; Some (mkChange p o old new)
    else new ← decAny new t; Some (mkChange p o old new)).

Definition decTaskRef : decoder FlowRef :=
  decStruct false ["ActivityID"; "Collection"; "EntityID"; "Version"; "EventID"] (fun f t v =>
    let '(mkFlowRef a c e ver ev) := v in
    if str_eqb f "ActivityID" then a ← decString a t; Some (mkFlowRef a c e ver ev)
    else if str_eqb f "Collection" then c ← decString c t; Some (mkFlowRef a c e ver ev)
    else if str_eqb f "EntityID" then e ← decString e t; Some (mkFlowRef a c e ver ev)
    else if str_eqb f "Version" then ver ← decInt ver t; Some (mkFlowRef a c e ver ev)
    else ev ← decString ev t; Some (mkFlowRef a c e ver ev)).

Definition ref0 : FlowRef := mkFlowRef "" "" "" 0 "".
Definition change0 : Change := mkChange "" (OpOther "") JNull JNull.

Definition decTaskFlow : decoder Flow :=
  decStruct false ["ID"; "CausedBy"; "Step"] (fun f t v =>
    let '(mkFlow i c s) := v in
    if str_eqb f "ID" then i ← decString i t; Some (mkFlow i c s)
    else if str_eqb f "CausedBy" then c ← decSlice ref0 decTaskRef (Some c) t; Some (mkFlow i (default [] c) s)
    else s ← decString s t; Some (mkFlow i c s)).

Definition decCommand : decoder IngestCommand :=
  decStruct false ["Collection"; "EntityID"; "Op"; "Mode"; "ExpectedVersion"; "Author"; "Source"; "TSSource"; "EventID"; "RequestID"; "ClientIP"; "Meta"; "State"; "Changes"; "Flow"] (fun f t v =>
    let '(mkCommand co e o m x a s ts i r ip me st ch fl) := v in
    if str_eqb f "Collection" then co ← decString co t; Some (mkCommand co e o m x a s ts i r ip me st ch fl)
    else if str_eqb f "EntityID" then e ← decString e t; Some (mkCommand co e o m x a s ts i r ip me st ch fl)
    else if str_eqb f "Op" then o ← decString o t; Some (mkCommand co e o m x a s ts i r ip me st ch fl)
    else if str_eqb f "Mode" then m ← decString m t; Some (mkCommand co e o m x a s ts i r ip me st ch fl)
    else if str_eqb f "ExpectedVersion" then x ← decPtr 0%Z decInt x t; Some (mkCommand co e o m x a s ts i r ip me st ch fl)
    else if str_eqb f "Author" then a ← decString a t; Some (mkCommand co e o m x a s ts i r ip me st ch fl)
    else if str_eqb f "Source" then s ← decString s t; Some (mkCommand co e o m x a s ts i r ip me st ch fl)
    else if str_eqb f "TSSource" then ts ← decTime ts t; Some (mkCommand co e o m x a s ts i r ip me st ch fl)
    else if str_eqb f "EventID" then i ← decString i t; Some (mkCommand co e o m x a s ts i r ip me st ch fl)
    else if str_eqb f "RequestID" then r ← decString r t; Some (mkCommand co e o m x a s ts i r ip me st ch fl)
    else if str_eqb f "ClientIP" then ip ← decString ip t; Some (mkCommand co e o m x a s ts i r ip me st ch fl)
    else if str_eqb f "Meta" then me ← decMapAny me t; Some (mkCommand co e o m x a s ts i r ip me st ch fl)
    else if str_eqb f "State" then st ← decMapAny st t; Some (mkCommand co e o m x a s ts i r ip me st ch fl)
    else if str_eqb f "Changes" then ch ← decSlice change0 decTaskChange ch t; Some (mkCommand co e o m x a s ts i r ip me st ch fl)
    else fl ← decPtr (mkFlow "" [] "") decTaskFlow fl t; Some (mkCommand co e o m x a s ts i r ip me st ch fl)).

Definition decTenantRef : decoder TenantRef :=
  decStruct false ["id"; "db_uri"; "db_name"] (fun f t v =>
    let '(mkTenantRef i u n) := v in
    if str_eqb f "id" then i ← decString i t; Some (mkTenantRef i u n)
    else if str_eqb f "db_uri" then u ← decString u t; Some (mkTenantRef i u n)
    else n ← decString n t; Some (mkTenantRef i u n)).

Definition command0 : IngestCommand := mkCommand "" "" "" "" None "" "" 0 "" "" "" None None None None.
Definition task0 : Task := mkTask (mkTenantRef "" "" "") "" "" "" command0.

Definition decTask : decoder Task :=
  decStruct false ["tenant"; "kind"; "mode"; "ticket_id"; "command"] (fun f t v =>
    let '(mkTask tn k m ti c) := v in
    if str_eqb f "tenant" then tn ← decTenantRef tn t; Some (mkTask tn k m ti c)
    else if str_eqb f "kind" then k ← decString k t; Some (mkTask tn k m ti c)
    else if str_eqb f "mode" then m ← decString m t; Some (mkTask tn k m ti c)
    else if str_eqb f "ticket_id" then ti ← decString ti t; Some (mkTask tn k m ti c)
    else c ← decCommand c t; Some (mkTask tn k m ti c)).

Definition decodeTask (payload : string) : option Task := Unmarshal decTask task0 payload.

#[export] Instance jsonTaskCodec : TaskCodec string := { Encode := encodeTask; Decode := decodeTask }.
