(* ===== verification/TaskSound.v ===== *)
(** * The envelope survives the queue

    What the worker decodes from a message is the task that was accepted. *)

From stdpp Require Import base list strings.
From Stdlib Require Import ZArith Lia Ascii.
From S2P Require Import Prelude GoMap Json Paths Diff DiffSound Domain Tenant Config Names Ingest Pipeline Numbers Canonical Worker JsonText TimeText JsonSound Http WireSound TaskWire.

(** ** Tasks that JSON can carry *)

Definition orTrue {A : Type} (f : A -> bool) (v : option A) : bool := match v with Some x => f x | None => true end.

Definition wireChange (c : Change) : bool :=
  ValidString (Path c) && ValidString (opText (ChOp c)) && bool_decide (textOp (opText (ChOp c)) = ChOp c) && plainJson (Old c) && plainJson (New c).
Definition wireRef (r : FlowRef) : bool :=
  ValidString (fr_ActivityID r) && ValidString (fr_Collection r) && ValidString (fr_EntityID r) && int64 (fr_Version r) && ValidString (fr_EventID r).
Definition wireFlow (f : Flow) : bool := ValidString (fl_ID f) && forallb wireRef (fl_CausedBy f) && ValidString (fl_Step f).
Definition wireCommand (c : IngestCommand) : bool :=
  forallb ValidString [ic_Collection c; ic_EntityID c; ic_Op c; ic_Mode c; ic_Author c; ic_Source c; ic_EventID c; ic_RequestID c; ic_ClientIP c] &&
  orTrue int64 (ic_ExpectedVersion c) && jsonTime (ic_TSSource c) && orTrue (fun m => plainJson (JObj m)) (ic_Meta c) && orTrue (fun m => plainJson (JObj m)) (ic_State c) &&
  orTrue (forallb wireChange) (ic_Changes c) && orTrue wireFlow (ic_Flow c).
Definition wireTask (t : Task) : bool :=
  forallb ValidString [ref_ID (task_Tenant t); ref_DBURI (task_Tenant t); ref_DBName (task_Tenant t); task_Kind t; task_Mode t; task_TicketID t] && wireCommand (task_Command t).

(** ** Part by part *)

Ltac wire_facts := repeat match goal with
  | H : (_ && _) = true |- _ => apply andb_true_iff in H; destruct H
  | H : forallb _ (_ :: _) = true |- _ => cbn [forallb] in H
  | H : int64 _ = true |- _ => unfold int64 in H
  | H : (_ <=? _)%Z = true |- _ => apply Z.leb_le in H
  | H : (_ <? _)%Z = true |- _ => apply Z.ltb_lt in H
  end.

(** One field: the setter chosen by its name, then the decoder of its type. *)
Ltac set_field := cbn [setFields]; cbv beta iota;
  repeat match goal with |- context [str_eqb ?a ?b] => let v := eval vm_compute in (str_eqb a b) in change (str_eqb a b) with v end; cbv iota.
Ltac read_fields := repeat (set_field; first
  [ rewrite decString_tree by done | rewrite decInt_tree by lia | rewrite decTime_tree by done ]; cbn [mbind option_bind]).

Lemma change_read c cur : wireChange c = true -> decTaskChange cur (treeOf (changeValue c)) = Some c.
Proof.
  destruct c as [p o old new], cur as [p0 o0 old0 new0]. unfold wireChange. cbn [Path ChOp Old New]. intros Hw. wire_facts. unfold decTaskChange, changeValue.
  rewrite decStruct_tree by reflexivity. read_fields. cbn [Path ChOp Old New]. unfold decOp. rewrite decString_tree by done. cbn [option_map mbind option_bind].
  set_field. unfold decAny. cbn [treeOf]. rewrite toAny_tree by done. cbn [mbind option_bind]. set_field. cbn [treeOf]. rewrite toAny_tree by done. cbn [mbind option_bind setFields].
  by match goal with H : bool_decide _ = true |- _ => apply bool_decide_eq_true in H as -> end.
Qed.

Lemma ref_read r cur : wireRef r = true -> decTaskRef cur (treeOf (flowRefValue r)) = Some r.
Proof.
  destruct r as [a c e ver ev], cur as [a0 c0 e0 ver0 ev0]. unfold wireRef. cbn [fr_ActivityID fr_Collection fr_EntityID fr_Version fr_EventID]. intros Hw. wire_facts.
  unfold decTaskRef, flowRefValue. rewrite decStruct_tree by reflexivity. cbn [fr_ActivityID fr_Collection fr_EntityID fr_Version fr_EventID]. by read_fields.
Qed.

Lemma flow_read f : wireFlow f = true -> decTaskFlow (mkFlow "" [] "") (treeOf (flowValue f)) = Some f.
Proof.
  destruct f as [i c s]. unfold wireFlow. cbn [fl_ID fl_CausedBy fl_Step]. intros Hw. wire_facts. unfold decTaskFlow, flowValue. cbn [fl_ID fl_CausedBy fl_Step].
  rewrite decStruct_tree by (by destruct c). read_fields.
  assert (decSlice ref0 decTaskRef (Some []) (treeOf (causesValue c)) = Some (match c with [] => None | _ => Some c end)) as E.
  { destruct c as [|r c]; [done|]. change (decSlice ref0 decTaskRef (Some [])) with (decSlice ref0 decTaskRef None). apply decSlice_tree.
    intros x Hx. apply ref_read. match goal with H : forallb wireRef _ = true |- _ => rewrite forallb_forall in H; apply H end. by apply list_elem_of_In. }
  set_field. rewrite E. cbn [mbind option_bind]. set_field. rewrite decString_tree by done. cbn [mbind option_bind setFields]. by destruct c.
Qed.

Lemma command_read c : wireCommand c = true -> decCommand command0 (treeOf (commandValue c)) = Some c.
Proof.
  destruct c as [co e o m x a s ts i r ip me st ch fl]. unfold wireCommand. 
  cbn [ic_Collection ic_EntityID ic_Op ic_Mode ic_ExpectedVersion ic_Author ic_Source ic_TSSource ic_EventID ic_RequestID ic_ClientIP ic_Meta ic_State ic_Changes ic_Flow].
  intros Hw. wire_facts. unfold decCommand, commandValue.
  cbn [ic_Collection ic_EntityID ic_Op ic_Mode ic_ExpectedVersion ic_Author ic_Source ic_TSSource ic_EventID ic_RequestID ic_ClientIP ic_Meta ic_State ic_Changes ic_Flow].
  rewrite decStruct_tree by reflexivity. unfold command0. read_fields.
  assert (decPtr 0%Z decInt None (treeOf (orNull GInt x)) = Some x) as ->.
  { destruct x as [z|]; [|done]. cbn [orTrue] in *. wire_facts. cbn [orNull]. unfold decPtr. cbn [treeOf]. pose proof (decInt_tree 0 z ltac:(lia)) as E. cbn [treeOf] in E. cbn [default]. by rewrite E. }
  cbn [mbind option_bind]. read_fields.
  assert (forall mm, orTrue (fun m => plainJson (JObj m)) mm = true -> decMapAny None (treeOf (orNull mapValue mm)) = Some mm) as Hmap.
  { intros [mm|] Hmm; [|done]. by apply decMapAny_nil. }
  rewrite Hmap by done. cbn [mbind option_bind]. set_field. rewrite Hmap by done. cbn [mbind option_bind]. set_field.
  assert (decSlice change0 decTaskChange None (treeOf (orNull (fun l => GArr (map changeValue l)) ch)) = Some ch) as ->.
  { destruct ch as [l|]; [|done]. cbn [orTrue orNull] in *. apply decSlice_tree. intros y Hy. apply change_read.
    match goal with H : forallb wireChange _ = true |- _ => rewrite forallb_forall in H; apply H end. by apply list_elem_of_In. }
  cbn [mbind option_bind]. set_field.
  assert (decPtr (mkFlow "" [] "") decTaskFlow None (treeOf (orNull flowValue fl)) = Some fl) as ->; [|done].
  destruct fl as [f|]; [|done]. cbn [orTrue orNull] in *. unfold decPtr. cbn [default]. pose proof (flow_read f ltac:(done)) as E. unfold flowValue in *. cbn [treeOf objTree] in *. by rewrite E.
Qed.

(** ** The whole task *)

Lemma wire_command c : wireCommand c = true -> wireOK (commandValue c) = true.
Proof.
  destruct c as [co e o m x a s ts i r ip me st ch fl]. unfold wireCommand.
  cbn [ic_Collection ic_EntityID ic_Op ic_Mode ic_ExpectedVersion ic_Author ic_Source ic_TSSource ic_EventID ic_RequestID ic_ClientIP ic_Meta ic_State ic_Changes ic_Flow].
  intros Hw. repeat match goal with H : (_ && _) = true |- _ => apply andb_true_iff in H; destruct H end.
  unfold commandValue. cbn [ic_Collection ic_EntityID ic_Op ic_Mode ic_ExpectedVersion ic_Author ic_Source ic_TSSource ic_EventID ic_RequestID ic_ClientIP ic_Meta ic_State ic_Changes ic_Flow].
  assert (wireOK (orNull GInt x) = true) as E1 by (by destruct x).
  assert (forall mm, orTrue (fun m => plainJson (JObj m)) mm = true -> wireOK (orNull mapValue mm) = true) as E2 by (by intros [mm|]).
  assert (wireOK (orNull (fun l => GArr (map changeValue l)) ch) = true) as E3.
  { destruct ch as [l|]; [|done]. cbn [orTrue orNull wireOK] in *. rewrite forallb_forall in *. intros v (c & <- & Hc)%in_map_iff.
    match goal with H : forall x, In x l -> wireChange x = true |- _ => specialize (H c Hc); unfold wireChange in H end. wire_facts.
    unfold changeValue. cbn [wireOK forallb snd]. by repeat (apply andb_true_iff; split). }
  assert (wireOK (orNull flowValue fl) = true) as E4.
  { destruct fl as [f|]; [|done]. cbn. unfold causesValue. destruct (fl_CausedBy f) as [|r0 l]; [done|]. cbn [wireOK]. rewrite !andb_true_r. apply forallb_forall. by intros v (y & <- & _)%in_map_iff. }
  unfold jsonTime in *. cbn [wireOK forallb snd] in *. rewrite E1, E3, E4, !E2 by done. cbn [andb]. by rewrite ?andb_true_r.
Qed.

Lemma wire_task t : wireTask t = true -> wireOK (taskValue t) = true.
Proof.
  unfold wireTask. intros [_ Hc%wire_command]%andb_true_iff. unfold taskValue, tenantValue, omitEmpty.
  cbn [wireOK]. rewrite !forallb_app. cbn [forallb snd wireOK]. rewrite Hc.
  destruct (str_eqb (ref_DBURI _) ""), (str_eqb (ref_DBName _) ""), (str_eqb (task_TicketID t) ""); done.
Qed.

Lemma tenant_read t cur : ValidString (ref_ID t) = true -> ValidString (ref_DBURI t) = true -> ValidString (ref_DBName t) = true ->
  ref_DBURI cur = "" -> ref_DBName cur = "" -> decTenantRef cur (treeOf (tenantValue t)) = Some t.
Proof.
  destruct t as [i u n], cur as [i0 u0 n0]. cbn [ref_ID ref_DBURI ref_DBName]. intros Hi Hu Hn -> ->. unfold decTenantRef, tenantValue, omitEmpty. cbn [ref_ID ref_DBURI ref_DBName].
  destruct (str_eqb u "") eqn:Eu, (str_eqb n "") eqn:En; rewrite decStruct_tree by reflexivity; cbn [app]; read_fields; cbn [setFields];
    try apply str_eqb_eq in Eu; try apply str_eqb_eq in En; by subst.
Qed.

Lemma task_read t : wireTask t = true -> decTask task0 (treeOf (taskValue t)) = Some t.
Proof.
  unfold wireTask. intros [Hs Hc]%andb_true_iff. cbn [forallb] in Hs. wire_facts. destruct t as [tn k m ti c]. cbn [task_Tenant task_Kind task_Mode task_TicketID task_Command] in *.
  unfold decTask, taskValue, omitEmpty, task0. cbn [task_Tenant task_Kind task_Mode task_TicketID task_Command]. destruct (str_eqb ti "") eqn:Et.
  - rewrite decStruct_tree by reflexivity. cbn [app]. set_field. rewrite tenant_read by done. cbn [mbind option_bind]. read_fields. set_field. rewrite command_read by done.
    apply str_eqb_eq in Et as ->. done.
  - rewrite decStruct_tree by reflexivity. cbn [app]. set_field. rewrite tenant_read by done. cbn [mbind option_bind]. read_fields. set_field. by rewrite command_read.
Qed.

Lemma task_roundtrip t : wireTask t = true -> (height (treeOf (taskValue t)) <= maxNestingDepth)%Z -> exists s, Encode (P := string) t = Some s /\ Decode s = Some t.
Proof.
  intros Hw Hh. pose proof (wire_task t Hw) as Ho. destruct (marshal_tree _ Ho) as [Hm _]. exists (rawOf (treeOf (taskValue t))).
  split; [exact Hm|]. change (Decode ?s) with (Unmarshal decTask task0 s). rewrite (Unmarshal_marshal _ _ _ _ Ho Hh Hm). by apply task_read.
Qed.

(** The worker gets the write that was accepted.  A task whose strings are valid UTF-8
    and whose documents hold numbers that print and parse to themselves is encoded, and
    what [Publish] hands to the queue it chooses is a message under the shard key of the
    entity whose payload decodes to that very task: tenant, kind, mode, ticket and every
    field of the command, absent ones included. *)
Theorem published_task_decodes {W : Type} (pipe : Pipeline (W := W) (P := string)) (nowNano : Z) (mode : string) (task : Task) (w w' : W) (x : res err string) :
  wireTask task = true -> (height (treeOf (taskValue task)) <= maxNestingDepth)%Z -> Publish pipe nowNano mode task w = (x, w') ->
  exists q msg r, (q = pl_durable pipe \/ pl_fast pipe = Some q) /\ q msg w = (r, w') /\
    (forall used, x = Ok used -> r = Ok tt) /\
    msg_Key msg = ShardKey (ref_ID (task_Tenant task)) (ic_Collection (task_Command task)) (ic_EntityID (task_Command task)) /\ Decode (msg_Payload msg) = Some task.
Proof.
  intros Hw Hh. destruct (task_roundtrip task Hw Hh) as (s & He & Hd). unfold Publish. rewrite He.
  set (msg := mkMessage _ s _).
  assert (exists q used, (match pl_fast pipe with Some f => if str_eqb mode ReliabilityFast then (f, ReliabilityFast) else (pl_durable pipe, ReliabilityDurable) | None => (pl_durable pipe, ReliabilityDurable) end) = (q, used) /\
    (q = pl_durable pipe \/ pl_fast pipe = Some q)) as (q & used & -> & Hq).
  { destruct (pl_fast pipe); [|by eexists _, _; split; [|left]]. destruct (str_eqb mode ReliabilityFast); eexists _, _; (split; [reflexivity|]); [by right|by left]. }
  destruct (q msg w) as [r w1] eqn:Eq. intros Hx. exists q, msg, r.
  destruct r as [[]|e]; injection Hx as <- <-; split_and!; try done.
Qed.

(** ** A run *)

Definition ex_queue (m : Message string) (w : list (Message string)) : res err unit * list (Message string) := (Ok tt, w ++ [m]).
Definition ex_envelope : Task :=
  mkTask (mkTenantRef "acme" "" "hm_acme") KindDiff ReliabilityDurable "tkt_1"
    (mkCommand "crm.deals" "deal-1" "update" "" (Some 7%Z) "u1" "" (719162 * 86400 * 1000000000 + 1500000)%Z "e1" "req-1" "10.0.0.7"
       (Some [("k<", JStr "a&b")]) None (Some [mkChange "stage" OpChange (JStr "new") (JStr "won"); mkChange "amount" OpAdd JNull (JNum (intToFloat 1250))])
       (Some (mkFlow "f1" [mkFlowRef "" "crm.leads" "lead-1" 2 ""] "convert"))).

Lemma published_task_decodes_witness :
  exists msg, Publish (mkPipeline ex_queue None) 5 ReliabilityDurable ex_envelope [] = (Ok ReliabilityDurable, [msg]) /\
    msg_Key msg = "acme|crm.deals|deal-1" /\ Decode (msg_Payload msg) = Some ex_envelope.
Proof.
  destruct (Publish (mkPipeline ex_queue None) 5 ReliabilityDurable ex_envelope []) as [x w'] eqn:E.
  destruct (published_task_decodes (mkPipeline ex_queue None) 5 ReliabilityDurable ex_envelope [] w' x) as (q & msg & r & Hq & Hr & _ & Hk & Hd).
  - vm_compute. reflexivity.
  - vm_compute. discriminate.
  - exact E.
  - exists msg. destruct Hq as [->|Hq]; [|discriminate Hq]. cbn in Hr. injection Hr as <- <-.
    assert (x = Ok ReliabilityDurable) as -> by (vm_compute in E; injection E as <- _; reflexivity). split_and!; [reflexivity|exact Hk|exact Hd].
Defined.
