(* ===== verification/JsonPatch.v ===== *)
(** * The JSON Patch export (internal/diff/jsonpatch.go)

    A native diff as an RFC 6902 patch. *)

From stdpp Require Import base list strings.
From Stdlib Require Import ZArith Lia Ascii.
From S2P Require Import Prelude GoMap Json Paths Diff.

Record JSONPatchOp := mkPatchOp { po_Op : string; po_Path : string; po_Value : json }.

Definition escapePointer (seg : string) : string := replace_all "/" "~1" (replace_all "~" "~0" seg).

(** The segments of a path as pointer tokens; a keyed selector has none. *)
Fixpoint pointerSegs (segs : list string) : option string :=
  match segs with
  | [] => Some ""
  | seg :: segs' =>
      if has_byte "[" seg then None
      else option_map (fun t => "/" +:+ escapePointer seg +:+ t) (pointerSegs segs')
  end.

Definition pointerFromPath (path : string) : option string :=
  if str_eqb path "" then Some "" else pointerSegs (split_on "." path).

Fixpoint ToJSONPatch (changes : list Change) : option (list JSONPatchOp) :=
  match changes with
  | [] => Some []
  | ch :: changes' =>
      match pointerFromPath (Path ch) with
      | None => None
      | Some ptr =>
          match (match ChOp ch with
                 | OpAdd => Some (mkPatchOp "add" ptr (New ch))
                 | OpChange => Some (mkPatchOp "replace" ptr (New ch))
                 | OpRemove => Some (mkPatchOp "remove" ptr JNull)
                 | OpOther _ => None
                 end), ToJSONPatch changes' with
          | Some op, Some ops => Some (op :: ops)
          | _, _ => None
          end
      end
  end.

(** [JSONPatchOp.MarshalJSON]: the members, sorted. *)
Definition patchMembers (o : JSONPatchOp) : list (string * json) :=
  [("op", JStr (po_Op o)); ("path", JStr (po_Path o))] ++ (if str_eqb (po_Op o) "remove" then [] else [("value", po_Value o)]).
