(* ===== verification/ServerRead.v ===== *)
(** * The read endpoints (internal/server/read.go)

    GET .../history and .../state: query parsing, cursors and the rendering of events. *)

From stdpp Require Import base list strings.
From Stdlib Require Import ZArith Lia Ascii.
From S2P Require Import Prelude GoMap Json Paths Diff DiffSound Domain Tenant Config Names Alias Repo Plugin Ingest Read Numbers Canonical Worker JsonText TimeText JsonPatch Http ServerIngest.

Class ReadService (W : Type) := {
  svcHistory : ctx -> string -> EventFilter -> W -> res err (list Event);
  svcCurrent : ctx -> string -> string -> W -> res err CurrentState;
  svcStateAt : ctx -> string -> string -> PointInTimeQuery -> W -> res err ReconstructedState }.

Definition defaultHistoryLimit : Z := 100.
Definition maxHistoryLimit : Z := 1000.

(** ** Cursors *)

(** [json.Marshal] of a cursor; on an error the text is empty, and so is the cursor. *)
Definition marshalCursor (members : list (string * gvalue)) : string := EncodeToString (default "" (marshal (GObj members))).

Definition encodeCursor (p : Position) : string := marshalCursor [("v", GInt (pos_Version p)); ("ts", GTime (pos_TS p))].

Definition decCursor : decoder Position :=
  decStruct false ["v"; "ts"] (fun f t p =>
    let '(mkPosition v ts) := p in
    if str_eqb f "v" then v ← decInt v t; Some (mkPosition v ts)
    else ts ← decTime ts t; Some (mkPosition v ts)).

Definition decodeCursor (s : string) : option Position := raw ← DecodeString s; Unmarshal decCursor (mkPosition 0 0) raw.

(** ** Queries: an error is the message of a 400 *)

Definition parseOrderBy (v : string) : res string string :=
  if str_eqb v "" || str_eqb v "version" then Ok OrderVersion
  else if str_eqb v "ts_source" then Ok OrderSource
  else if str_eqb v "ts_received" then Ok OrderReceived
  else Err "invalid order_by (want version, ts_source or ts_received)".

Definition parseOrder (v : string) : res string string :=
  if str_eqb v "" || str_eqb v "desc" then Ok OrderDesc
  else if str_eqb v "asc" then Ok OrderAsc
  else Err "invalid order (want asc or desc)".

(** A time bound of the history; absent is the zero time. *)
Definition parseBound (key : string) (q : list (string * string)) : res string time :=
  let v := queryGet key q in
  if str_eqb v "" then Ok 0%Z
  else match parseRFC3339 false v with Some t => Ok t | None => Err ("invalid " +:+ key +:+ " (want RFC3339)") end.

Definition parseLimit (v : string) : res string Z :=
  if str_eqb v "" then Ok defaultHistoryLimit
  else match ParseInt v with
       | Some n => if (n <=? 0)%Z then Err "invalid limit" else Ok (Z.min n maxHistoryLimit)
       | None => Err "invalid limit"
       end.

Definition parseCursor {A : Type} (decode : string -> option A) (v : string) : res string (option A) :=
  if str_eqb v "" then Ok None
  else match decode v with Some p => Ok (Some p) | None => Err "invalid cursor" end.

Definition parseFormat (v : string) : res string string :=
  if str_eqb v "" || str_eqb v "native" then Ok "native"
  else if str_eqb v "json-patch" then Ok v
  else Err "invalid format (want native or json-patch)".

Definition parseHistoryQuery (r : request) (entityID : string) : res string (EventFilter * string) :=
  let q := parseQuery (rq_RawQuery r) in
  (orderBy <- parseOrderBy (queryGet "order_by" q);
   order <- parseOrder (queryGet "order" q);
   op <- parseOpE (queryGet "op" q);
   from <- parseBound "from" q;
   to_ <- parseBound "to" q;
   limit <- parseLimit (queryGet "limit" q);
   after_ <- parseCursor decodeCursor (queryGet "cursor" q);
   format <- parseFormat (queryGet "format" q);
   Ok (mkFilter entityID from to_ (queryGet "author_id" q) op (queryGet "path" q) (queryGet "source" q) orderBy order limit after_ 0, format))%go.

(** [None] is a read of the current state. *)
Definition parseStateQuery (r : request) : res string (option PointInTimeQuery) :=
  let q := parseQuery (rq_RawQuery r) in
  if queryHas "at_source" q then Err "at_source is not supported (reserved for ordering: source)"
  else if queryHas "version" q && queryHas "at" q then Err "version and at are mutually exclusive"
  else if queryHas "version" q then
    match ParseInt (queryGet "version" q) with
    | Some v => if (v <? 1)%Z then Err "invalid version (want integer ≥ 1)" else Ok (Some (mkQuery (Some v) None))
    | None => Err "invalid version (want integer ≥ 1)"
    end
  else if queryHas "at" q then
    match parseRFC3339 false (queryGet "at" q) with
    | Some t => Ok (Some (mkQuery None (Some t)))
    | None => Err "invalid at (want RFC3339)"
    end
  else Ok None.

(** ** Rendering *)

Definition nativeChange (c : Change) : gvalue :=
  let member k v := (k, GAny v) in
  GObj (match ChOp c with
        | OpAdd => [member "new" (New c); ("op", GStr "add"); ("path", GStr (Path c))]
        | OpRemove => [member "old" (Old c); ("op", GStr "remove"); ("path", GStr (Path c))]
        | o => [member "new" (New c); member "old" (Old c); ("op", GStr (opText o)); ("path", GStr (Path c))]
        end).

Definition projectChanges (changes : list Change) (format : string) : option (list gvalue) :=
  if str_eqb format "json-patch" then option_map (map (fun o => GObj (map (fun kv => (fst kv, GAny (snd kv))) (patchMembers o)))) (ToJSONPatch changes)
  else Some (map nativeChange changes).

Definition optional (present : bool) (k : string) (v : gvalue) : list (string * gvalue) := if present then [(k, v)] else [].
Definition nonEmpty (s : string) : bool := negb (str_eqb s "").

(** The members in key order, as the encoder writes a map. *)
Definition eventToDTO (ev : Event) (changes : list gvalue) : gvalue :=
  GObj (optional (nonEmpty (ev_Author ev)) "author_id" (GStr (ev_Author ev)) ++
        [("changes", GArr changes)] ++
        match ev_Integrity ev with
        | Some i => [("integrity", GObj ([("hash", GStr (it_Hash i))] ++ optional (nonEmpty (it_PrevHash i)) "prev_hash" (GStr (it_PrevHash i))))]
        | None => []
        end ++
        match ev_Meta ev with Some m => [("meta", GAny (JObj m))] | None => [] end ++
        [("op", GStr (ev_Op ev))] ++
        optional (nonEmpty (ev_Source ev)) "source" (GStr (ev_Source ev)) ++
        [("ts_received", GTime (ev_TSReceived ev))] ++
        optional (negb (ev_TSSource ev =? 0)%Z) "ts_source" (GTime (ev_TSSource ev)) ++
        [("ts_stored", GTime (ev_TSStored ev)); ("version", GInt (ev_Version ev))]).

Fixpoint renderEvents (events : list Event) (format : string) : option (list gvalue) :=
  match events with
  | [] => Some []
  | ev :: events' =>
      match projectChanges (ev_Changes ev) format, renderEvents events' format with
      | Some cs, Some l => Some (eventToDTO ev cs :: l)
      | _, _ => None
      end
  end.

(** The cursor of a full page; [None] is the last page. *)
Definition nextCursor (events : list Event) (f : EventFilter) : option string :=
  if ((0 <? f_Limit f) && (Z.of_nat (length events) =? f_Limit f))%Z
  then option_map (fun ev => encodeCursor (positionOf ev (f_OrderBy f))) (last events)
  else None.

Definition cursorValue (c : option string) : gvalue := match c with Some s => GStr s | None => GNull end.

Definition historyBody (entityID : string) (events : list Event) (f : EventFilter) (format : string) : res response gvalue :=
  match renderEvents events format with
  | None => Err (writeError 400 "collection uses keyed arrays; not exportable to json-patch")
  | Some out => Ok (GObj [("entity_id", GStr entityID); ("events", GArr out); ("next_cursor", cursorValue (nextCursor events f))])
  end.

Definition stateValue (s : option state) : gvalue := GAny (match s with Some m => JObj m | None => JNull end).

Definition currentBody (st : CurrentState) : gvalue :=
  GObj [("deleted", GBool (cs_Deleted st)); ("entity_id", GStr (cs_EntityID st)); ("state", stateValue (cs_State st));
        ("ts", GTime (cs_TS st)); ("version", GInt (cs_Version st))].

Definition stateAtBody (x : ReconstructedState) : gvalue :=
  GObj [("deleted", GBool (rs_Deleted x)); ("entity_id", GStr (rs_EntityID x));
        ("reconstructed_from", GObj [("events_applied", GInt (rs_EventsApplied x));
           ("snapshot_version", if (0 <? rs_SnapshotVersion x)%Z then GInt (rs_SnapshotVersion x) else GNull)]);
        ("state", GAny (JObj (rs_State x))); ("ts", GTime (rs_TS x)); ("version", GInt (rs_Version x))].

(** ** Handlers *)

Definition readError (e : err) : response :=
  match e with ErrNotFound => writeError 404 "entity not found" | _ => writeError 500 "internal error" end.

Section Handlers.
Context {W : Type} `{ReadService W}.

(** The reads leave the world alone. *)
Definition handleHistory (r : request) (w : W) : response :=
  match (params <- pathParams r;
         let '(collection, entityID) := params in
         _ <- canAccess r collection;
         query <- bad (parseHistoryQuery r entityID);
         let '(f, format) := query in
         match svcHistory (rq_Context r) collection f w with
         | Err _ => Err (writeError 500 "internal error")
         | Ok events => historyBody entityID events f format
         end)%go with
  | Err rs => rs
  | Ok body => writeJSON 200 body
  end.

Definition handleReadState (r : request) (w : W) : response :=
  match (params <- pathParams r;
         let '(collection, entityID) := params in
         _ <- canAccess r collection;
         query <- bad (parseStateQuery r);
         match query with
         | Some q => match svcStateAt (rq_Context r) collection entityID q w with Err e => Err (readError e) | Ok x => Ok (stateAtBody x) end
         | None => match svcCurrent (rq_Context r) collection entityID w with Err e => Err (readError e) | Ok st => Ok (currentBody st) end
         end)%go with
  | Err rs => rs
  | Ok body => writeJSON 200 body
  end.
End Handlers.
