(* ===== verification/ServerFlow.v ===== *)
(** * The activity and flow endpoints (internal/server/activity.go, flow.go) *)

From stdpp Require Import base list strings.
From Stdlib Require Import ZArith Lia Ascii.
From S2P Require Import Prelude GoMap Json Paths Diff DiffSound Domain Tenant Config Names Alias Repo Plugin Ingest Mapping Mongo Flow Numbers Canonical Worker JsonText TimeText Http ServerIngest ServerRead.

Class ActivityService (W : Type) := {
  svcRecord : ctx -> RecordActivityCommand -> W -> res err RecordActivityResult * W;
  svcFlow : ctx -> string -> option FlowPosition -> Z -> W -> res err FlowResult }.

Record activityRequest := mkActivityRequest {
  ar_ActivityID : string; ar_Type : string; ar_FlowID : string; ar_AuthorID : string; ar_Source : string; ar_TSSource : option time;
  ar_CausedBy : option (list flowRefInput); ar_Refs : option (list flowRefInput); ar_Data : option state; ar_Meta : option state }.
Definition activityRequest0 : activityRequest := mkActivityRequest "" "" "" "" "" None None None None None.

Definition decActivity : decoder activityRequest :=
  decStruct false ["activity_id"; "type"; "flow_id"; "author_id"; "source"; "ts_source"; "caused_by"; "refs"; "data"; "meta"] (fun f t v =>
    let '(mkActivityRequest i ty fl a s ts cb rf d m) := v in
    if str_eqb f "activity_id" then i ← decString i t; Some (mkActivityRequest i ty fl a s ts cb rf d m)
    else if str_eqb f "type" then ty ← decString ty t; Some (mkActivityRequest i ty fl a s ts cb rf d m)
    else if str_eqb f "flow_id" then fl ← decString fl t; Some (mkActivityRequest i ty fl a s ts cb rf d m)
    else if str_eqb f "author_id" then a ← decString a t; Some (mkActivityRequest i ty fl a s ts cb rf d m)
    else if str_eqb f "source" then s ← decString s t; Some (mkActivityRequest i ty fl a s ts cb rf d m)
    else if str_eqb f "ts_source" then ts ← decPtr 0%Z decTime ts t; Some (mkActivityRequest i ty fl a s ts cb rf d m)
    else if str_eqb f "caused_by" then cb ← decSlice refInput0 decFlowRef cb t; Some (mkActivityRequest i ty fl a s ts cb rf d m)
    else if str_eqb f "refs" then rf ← decSlice refInput0 decFlowRef rf t; Some (mkActivityRequest i ty fl a s ts cb rf d m)
    else if str_eqb f "data" then d ← decMapAny d t; Some (mkActivityRequest i ty fl a s ts cb rf d m)
    else m ← decMapAny m t; Some (mkActivityRequest i ty fl a s ts cb rf d m)).

(** ** Recording *)

(** The size cap is the default event size; no collection, so no mask. *)
Definition recordCommand (r : request) : res response RecordActivityCommand :=
  (body <- readLimited r 0;
   match Unmarshal decActivity activityRequest0 body with
   | None => Err (writeError 400 "invalid JSON body")
   | Some req =>
       causedBy <- bad (mapFlowRefsE (ar_CausedBy req));
       refs <- bad (mapFlowRefsE (ar_Refs req));
       Ok (mkRecordActivity (ar_ActivityID req) (ar_Type req) (ar_FlowID req) causedBy refs (ar_AuthorID req) (ar_Source req)
             (default 0%Z (ar_TSSource req)) (anyState (ar_Data req)) (anyState (ar_Meta req)))
   end)%go.

Definition handleRecord {W : Type} `{ActivityService W} : handler W := fun r w =>
  match recordCommand r with
  | Err rs => (rs, w)
  | Ok cmd =>
      match svcRecord (rq_Context r) cmd w with
      | (Err _, w1) => (writeError 500 "internal error", w1)
      | (Ok x, w1) => (writeJSON 201 (GObj [("activity_id", GStr (rr_ActivityID x)); ("flow_id", GStr (rr_FlowID x))]), w1)
      end
  end.

(** ** Flows *)

Definition encodeFlowCursor (p : FlowPosition) : string := marshalCursor [("ts", GTime (fp_TS p)); ("id", GStr (fp_ID p))].

Definition decFlowCursor : decoder FlowPosition :=
  decStruct false ["ts"; "id"] (fun f t p =>
    let '(mkFlowPosition ts i) := p in
    if str_eqb f "ts" then ts ← decTime ts t; Some (mkFlowPosition ts i)
    else i ← decString i t; Some (mkFlowPosition ts i)).

Definition decodeFlowCursor (s : string) : option FlowPosition := raw ← DecodeString s; Unmarshal decFlowCursor (mkFlowPosition 0 "") raw.

Definition flowRefToDTO (r : FlowRef) : gvalue :=
  GObj (optional (nonEmpty (fr_ActivityID r)) "activity_id" (GStr (fr_ActivityID r)) ++
        optional (nonEmpty (fr_Collection r)) "collection" (GStr (fr_Collection r)) ++
        optional (nonEmpty (fr_EntityID r)) "entity_id" (GStr (fr_EntityID r)) ++
        optional (nonEmpty (fr_EventID r)) "event_id" (GStr (fr_EventID r)) ++
        optional (negb (fr_Version r =? 0)%Z) "version" (GInt (fr_Version r))).

Definition flowRefsToDTO (refs : list FlowRef) : gvalue := GArr (map flowRefToDTO refs).

(** Insertion of a member by key, as the encoder orders a map. *)
Fixpoint insertMember (kv : string * gvalue) (m : list (string * gvalue)) : list (string * gvalue) :=
  match m with
  | [] => [kv]
  | x :: m' => if str_ltb (fst kv) (fst x) then kv :: m else x :: insertMember kv m'
  end.

(** A driver value: documents in their own order, maps by key. *)
Fixpoint anyValue (v : anyv) : gvalue :=
  match v with
  | AScal j => GAny j
  | AD l => GObj (map (fun kv => (fst kv, anyValue (snd kv))) l)
  | AM l | AMap l => GObj (fold_right insertMember [] (map (fun kv => (fst kv, anyValue (snd kv))) l))
  | AA l | AArr l => GArr (map anyValue l)
  end.

Definition flowNodeToDTO (n : FlowNode) : gvalue :=
  match n with
  | NodeActivity a =>
      GObj ([("activity_id", GStr (ac_ActivityID a)); ("caused_by", flowRefsToDTO (ac_CausedBy a))] ++
            match ac_Data a with Some d => [("data", anyValue (AMap d))] | None => [] end ++
            [("kind", GStr "activity"); ("refs", flowRefsToDTO (ac_Refs a)); ("ts_received", GTime (ac_TSReceived a))] ++
            optional (nonEmpty (ac_Type a)) "type" (GStr (ac_Type a)))
  | NodeEvent collection ev =>
      GObj ([("caused_by", match ev_Flow ev with Some f => flowRefsToDTO (fl_CausedBy f) | None => GArr [] end);
             ("collection", GStr collection); ("entity_id", GStr (ev_EntityID ev)); ("kind", GStr "event"); ("op", GStr (ev_Op ev))] ++
            match ev_Flow ev with Some f => optional (nonEmpty (fl_Step f)) "step" (GStr (fl_Step f)) | None => [] end ++
            [("ts_received", GTime (ev_TSReceived ev)); ("version", GInt (ev_Version ev))])
  end.

Definition flowBody (x : FlowResult) : gvalue :=
  GObj [("flow_id", GStr (Flow.fr_FlowID x)); ("next_cursor", cursorValue (option_map encodeFlowCursor (fr_Next x))); ("nodes", GArr (map flowNodeToDTO (fr_Nodes x)))].

Definition handleFlow {W : Type} `{ActivityService W} (r : request) (w : W) : response :=
  let flowID := rq_URLParam r "flowId" in
  let q := parseQuery (rq_RawQuery r) in
  if str_eqb flowID "" then writeError 400 "flow_id is required"
  else
    match (limit <- parseLimit (queryGet "limit" q); after_ <- parseCursor decodeFlowCursor (queryGet "cursor" q); Ok (limit, after_))%go with
    | Err msg => writeError 400 msg
    | Ok (limit, after_) =>
        match svcFlow (rq_Context r) flowID after_ limit w with
        | Err _ => writeError 500 "internal error"
        | Ok x => writeJSON 200 (flowBody x)
        end
    end.
