(* ===== verification/ServerPaging.v ===== *)
(** * Following the cursors of the read API

    A cursor decodes to the position it was made from, a request that carries the cursor of
    a page asks for what follows that page, and a client that follows [next_cursor] until it
    is null has read the history once, in order. *)

From stdpp Require Import base list strings sorting.
From Stdlib Require Import ZArith Lia Ascii.
From S2P Require Import Prelude GoMap Json Paths Diff DiffSound Domain Tenant Config Names Alias Repo Mapping Mongo MongoLaws Paging MongoMem MongoSound Plugin Ingest Read Flow Numbers Canonical Worker JsonText TimeText JsonSound Http ServerIngest WireSound JsonPatch ServerRead ServerFlow.

(** ** Cursors *)


Lemma marshalCursor_read {A} (d : decoder A) zero m : forallb (fun kv => wireOK kv.2) m = true -> (height (treeOf (GObj m)) <= maxNestingDepth)%Z ->
  (raw ← DecodeString (marshalCursor m); Unmarshal d zero raw) = d zero (treeOf (GObj m)).
Proof.
  intros Hw Hh. unfold marshalCursor. destruct (marshal_tree (GObj m) Hw) as [E _]. rewrite E. cbn [default]. rewrite decode_encode.
  cbn [mbind option_bind]. by rewrite (Unmarshal_marshal d zero (GObj m)).
Qed.

(** A cursor is read back as the position it encodes. *)
Lemma cursor_roundtrip (p : Position) : int64 (pos_Version p) = true -> jsonTime (pos_TS p) = true -> decodeCursor (encodeCursor p) = Some p.
Proof.
  destruct p as [v ts]. cbn [pos_Version pos_TS]. intros Hv%andb_true_iff Ht. unfold decodeCursor, encodeCursor. cbn [pos_Version pos_TS].
  rewrite marshalCursor_read; [|cbn [forallb wireOK snd]; unfold jsonTime in Ht; by rewrite Ht|cbn; unfold maxNestingDepth; lia].
  unfold decCursor. rewrite decStruct_tree by reflexivity. cbn [setFields]. change (str_eqb "v" "v") with true. change (str_eqb "ts" "v") with false. cbv iota.
  rewrite decInt_tree by lia. cbn [mbind option_bind]. by rewrite decTime_tree.
Qed.

Lemma flow_cursor_roundtrip (p : FlowPosition) : jsonTime (fp_TS p) = true -> ValidString (fp_ID p) = true -> decodeFlowCursor (encodeFlowCursor p) = Some p.
Proof.
  destruct p as [ts i]. cbn [fp_TS fp_ID]. intros Ht Hi. unfold decodeFlowCursor, encodeFlowCursor. cbn [fp_TS fp_ID].
  rewrite marshalCursor_read; [|cbn [forallb wireOK snd]; unfold jsonTime in Ht; by rewrite Ht|cbn; unfold maxNestingDepth; lia].
  unfold decFlowCursor. rewrite decStruct_tree by reflexivity. cbn [setFields]. change (str_eqb "ts" "ts") with true. change (str_eqb "id" "ts") with false. cbv iota.
  rewrite decTime_tree by done. cbn [mbind option_bind]. by rewrite decString_tree.
Qed.

(** ** Cursors in a query string *)

(** The bytes of a cursor mean themselves in a query. *)
Definition queryByte (c : ascii) : bool := negb (existsb (Ascii.eqb c) ["&"; ";"; "%"; "+"; "="]%char).

Lemma encode_query s : all_bytes queryByte (EncodeToString s) = true.
Proof. apply encode_all. vm_compute. reflexivity. Qed.

Lemma query_plain s c : all_bytes queryByte s = true -> existsb (Ascii.eqb c) ["&"; ";"; "%"; "+"; "="]%char = true -> has_byte c s = false.
Proof.
  intros Hs Hc. induction s as [|d s IH]; [done|]. cbn in Hs. apply andb_true_iff in Hs as [Hd Hs]. cbn [has_byte].
  destruct (Ascii.eqb c d) eqn:E; [|by apply IH]. apply Ascii.eqb_eq in E as ->. unfold queryByte in Hd. by rewrite Hc in Hd.
Qed.

Lemma queryUnescape_plain s : all_bytes queryByte s = true -> queryUnescape 0 s = Some s.
Proof.
  induction s as [|c s IH]; [done|]. cbn [all_bytes]. intros [Hc Hs]%andb_true_iff. cbn [queryUnescape].
  assert ((byteOf c =? 37) = false /\ (byteOf c =? 43) = false)%Z as [-> ->].
  { unfold queryByte in Hc. split; apply Z.eqb_neq; intros E; rewrite <- (byteAt_byteOf c), E in Hc; vm_compute in Hc; discriminate. }
  by rewrite (IH Hs).
Qed.

Definition withCursorParam (raw c : string) : string := raw +:+ "&cursor=" +:+ c.

Lemma parseQuery_cursor raw c : all_bytes queryByte c = true -> parseQuery (withCursorParam raw c) = parseQuery raw ++ [("cursor", c)].
Proof.
  intros Hc. unfold parseQuery, withCursorParam. change ("&cursor=" +:+ c) with (String "&" ("cursor=" +:+ c)).
  rewrite split_on_snoc by (rewrite has_byte_app; cbn; by apply query_plain). rewrite flat_map_app. f_equal. cbn [flat_map].
  assert (queryPair ("cursor=" +:+ c) = Some ("cursor", c)) as ->; [|done].
  unfold queryPair. rewrite has_byte_app, (query_plain c ";") by done. cbn [orb has_byte Ascii.eqb Bool.eqb]. change (str_eqb ("cursor=" +:+ c) "") with false. cbv iota.
  change (has_byte ";" "cursor=") with false. cbv iota. change ("cursor=" +:+ c) with ("cursor" +:+ String "=" c). rewrite cut_app by done.
  by rewrite queryUnescape_plain, queryUnescape_plain.
Qed.

Lemma queryGet_cursor q c : queryHas "cursor" q = false -> queryGet "cursor" (q ++ [("cursor", c)]) = c.
Proof.
  unfold queryGet, queryHas. induction q as [|[k v] q IH]; [done|]. cbn [existsb app List.find fst]. intros [E Hq]%orb_false_iff. by rewrite E, IH.
Qed.

Lemma queryGet_other k q c : k <> "cursor" -> queryGet k (q ++ [("cursor", c)]) = queryGet k q.
Proof.
  intros Hk. unfold queryGet. induction q as [|[k' v] q IH]; cbn [app List.find fst].
  - assert (str_eqb "cursor" k = false) as -> by (apply str_eqb_neq; congruence). done.
  - by destruct (str_eqb k' k).
Qed.

Lemma queryGet_absent k q : queryHas k q = false -> queryGet k q = "".
Proof.
  unfold queryGet, queryHas. induction q as [|[k' v] q IH]; [done|]. cbn [existsb List.find fst]. intros [E Hq]%orb_false_iff. by rewrite E, IH.
Qed.

(** ** The next page *)

Definition withQuery (r : request) (raw : string) : request :=
  mkRequest (rq_Header r) (rq_URLParam r) raw (rq_Body r) (rq_BodyFails r) (rq_RemoteAddr r) (rq_RequestID r) (rq_Context r).

(** The request of a page: the first has no cursor, the others the one they were given. *)
Definition pageRequest (r : request) (cursor : option string) : request :=
  match cursor with None => r | Some c => withQuery r (withCursorParam (rq_RawQuery r) c) end.

(** The encoded cursor is not empty: the empty text is no cursor. *)
Lemma encodeCursor_query p : all_bytes queryByte (encodeCursor p) = true.
Proof. apply encode_query. Qed.

Lemma parseCursor_roundtrip p : int64 (pos_Version p) = true -> jsonTime (pos_TS p) = true -> parseCursor decodeCursor (encodeCursor p) = Ok (Some p).
Proof.
  intros Hv Ht. pose proof (cursor_roundtrip p Hv Ht) as E. unfold parseCursor. destruct (str_eqb (encodeCursor p) "") eqn:E0; [|by rewrite E].
  apply str_eqb_eq in E0. by rewrite E0 in E.
Qed.

Lemma bind_ok {E A B} (x : res E A) (k : A -> res E B) b : (v <- x; k v)%go = Ok b -> exists a, x = Ok a /\ k a = Ok b.
Proof. destruct x; [|done]. cbn. eauto. Qed.

Lemma parseLimit_pos v n : parseLimit v = Ok n -> (0 < n)%Z.
Proof.
  unfold parseLimit, defaultHistoryLimit. destruct (str_eqb v ""); [intros [= <-]; lia|]. destruct (ParseInt v) as [z|]; [|done].
  destruct (z <=? 0)%Z eqn:E; [done|]. intros [= <-]. unfold maxHistoryLimit. lia.
Qed.
Ltac next_bind H := apply bind_ok in H as (? & ? & H).

Lemma parse_first r eid f format : parseHistoryQuery r eid = Ok (f, format) -> queryHas "cursor" (parseQuery (rq_RawQuery r)) = false ->
  f_EntityID f = eid /\ (0 < f_Limit f)%Z /\ f_After f = None /\ f_MaxVersion f = 0%Z.
Proof.
  unfold parseHistoryQuery. intros H Hc. cbv zeta in H. rewrite (queryGet_absent "cursor") in H by done. do 8 next_bind H.
  injection H as <- <-. cbn. split_and!; [done|by eapply parseLimit_pos| |done]. cbn in *. congruence.
Qed.

(** A request with the cursor of a position asks for what is after it, all else equal. *)
Lemma parse_next r eid f format p : parseHistoryQuery r eid = Ok (f, format) -> queryHas "cursor" (parseQuery (rq_RawQuery r)) = false ->
  int64 (pos_Version p) = true -> jsonTime (pos_TS p) = true ->
  parseHistoryQuery (pageRequest r (Some (encodeCursor p))) eid = Ok (withCursor f (Some p) (f_Limit f), format).
Proof.
  intros H Hc Hv Ht. pose proof H as H0. unfold parseHistoryQuery in H0 |- *. cbn [pageRequest withQuery rq_RawQuery]. cbv zeta in *.
  rewrite parseQuery_cursor by apply encodeCursor_query. unfold parseBound in *. rewrite !(queryGet_other _ (parseQuery _)) by done. rewrite queryGet_cursor, !(queryGet_other _ (parseQuery _)) by done.
  rewrite parseCursor_roundtrip by done. rewrite (queryGet_absent "cursor") in H0 by done.
  do 6 (apply bind_ok in H0 as (? & E & H0); rewrite E; clear E). apply bind_ok in H0 as (? & _ & H0). apply bind_ok in H0 as (? & E & H0). rewrite E.
  injection H0 as <- <-. done.
Qed.

(** ** Walking a history *)

Definition memberOf (k : string) (rs : response) : option gvalue :=
  match rs_Value rs with Some (GObj m) => option_map snd (List.find (fun kv => str_eqb (fst kv) k) m) | _ => None end.
Definition pageEvents (rs : response) : list gvalue := match memberOf "events" rs with Some (GArr l) => l | _ => [] end.
Definition pageCursor (rs : response) : option string := match memberOf "next_cursor" rs with Some (GStr s) => Some s | _ => None end.

(** The pages a client gets by following the cursor until it is null; [None] when [n]
    requests were not enough. *)
Fixpoint walkHistory {W : Type} `{ReadService W} (n : nat) (r : request) (w : W) (cursor : option string) : option (list (list gvalue)) :=
  match n with
  | O => None
  | S n' =>
      let rs := handleHistory (pageRequest r cursor) w in
      match pageCursor rs with
      | None => Some [pageEvents rs]
      | Some c => option_map (cons (pageEvents rs)) (walkHistory n' r w (Some c))
      end
  end.

(** What an event needs to be a cursor. *)
Definition cursorEvent (ev : Event) : bool := int64 (ev_Version ev) && jsonTime (ev_TSSource ev) && jsonTime (ev_TSReceived ev).

Lemma cursorEvent_position ev o : cursorEvent ev = true -> int64 (pos_Version (positionOf ev o)) = true /\ jsonTime (pos_TS (positionOf ev o)) = true.
Proof.
  intros [[Hv Hs]%andb_true_iff Hr]%andb_true_iff. unfold positionOf. destruct (str_eqb o OrderSource); [done|]. by destruct (str_eqb o OrderReceived).
Qed.

Lemma render_take n evs format out : renderEvents evs format = Some out -> renderEvents (take n evs) format = Some (take n out).
Proof.
  revert n out. induction evs as [|ev evs IH]; intros n out; cbn [renderEvents]; [intros [= <-]; by rewrite !take_nil|].
  destruct (projectChanges _ _) as [cs|] eqn:Ec; [|done]. destruct (renderEvents evs format) as [l|]; [|done]. intros [= <-].
  destruct n as [|n]; [done|]. cbn [take renderEvents]. by rewrite Ec, (IH n l).
Qed.

Lemma render_drop n evs format out : renderEvents evs format = Some out -> renderEvents (drop n evs) format = Some (drop n out).
Proof.
  revert n out. induction evs as [|ev evs IH]; intros n out; cbn [renderEvents]; [intros [= <-]; by rewrite !drop_nil|].
  destruct (projectChanges _ _) as [cs|] eqn:Ec; [|done]. destruct (renderEvents evs format) as [l|] eqn:El; [|done]. intros [= <-].
  destruct n as [|n]; [cbn [drop renderEvents]; by rewrite Ec, El|]. cbn [drop]. by apply IH.
Qed.

Lemma render_length evs format out : renderEvents evs format = Some out -> length out = length evs.
Proof.
  revert out. induction evs as [|ev evs IH]; intros out; cbn [renderEvents]; [by intros [= <-]|].
  destruct (projectChanges _ _); [|done]. destruct (renderEvents evs format) as [o|]; [|done]. intros [= <-]. cbn. by rewrite (IH o).
Qed.

Section Walk.
Context {W : Type} `{MongoLaws W} `{ReadService W}.
Variables (dbFor : ctx -> res err database) (r : request) (w : W) (db : database).
Variables (collection eid format : string) (f : EventFilter) (all : list Event) (out : list gvalue).

Hypothesis Hpath : pathParams r = Ok (collection, eid).
Hypothesis Hmask : canAccess r collection = Ok tt.
Hypothesis Hquery : parseHistoryQuery r eid = Ok (f, format).
Hypothesis Hfirst : queryHas "cursor" (parseQuery (rq_RawQuery r)) = false.
Hypothesis Hdb : dbFor (rq_Context r) = Ok db.
Hypothesis Huniq : uniqueVersions eid (docs w db (eventsCollection collection)).
(** The use-case is the listing of the repository, and no listing fails. *)
Hypothesis Hservice : forall g, svcHistory (rq_Context r) collection g w = repoListEvents dbFor (rq_Context r) collection g w.
Hypothesis Hlist : forall after, exists page, repoListEvents dbFor (rq_Context r) collection (withCursor f after (f_Limit f)) w = Ok page.
Hypothesis Hall : repoListEvents dbFor (rq_Context r) collection (withCursor f None 0) w = Ok all.
Hypothesis Hevents : forallb cursorEvent all = true.
Hypothesis Hout : renderEvents all format = Some out.

(** The filter of the page at index [k]. *)
Definition pageFilter (k : nat) : EventFilter :=
  withCursor f (match k with O => None | S j => option_map (fun ev => positionOf ev (f_OrderBy f)) (all !! j) end) (f_Limit f).
Definition pageAt (k : nat) : option string :=
  match k with O => None | S j => option_map (fun ev => encodeCursor (positionOf ev (f_OrderBy f))) (all !! j) end.

Lemma query_at k : k <= length all -> parseHistoryQuery (pageRequest r (pageAt k)) eid = Ok (pageFilter k, format).
Proof.
  intros Hk. destruct k as [|j]; unfold pageAt, pageFilter; cbn [pageRequest].
  - rewrite Hquery. destruct (parse_first r eid f format Hquery Hfirst) as (_ & _ & Ha & _). destruct f. cbn in *. by subst.
  - destruct (lookup_lt_is_Some_2 all j) as [ev Hev]; [lia|]. rewrite Hev. cbn [option_map].
    rewrite forallb_forall in Hevents. destruct (cursorEvent_position ev (f_OrderBy f)) as [Hv Ht].
    { apply Hevents. apply list_elem_of_In. by eapply list_elem_of_lookup_2. }
    by apply parse_next.
Qed.

Lemma list_at k : k <= length all ->
  repoListEvents dbFor (rq_Context r) collection (pageFilter k) w = Ok (take (Z.to_nat (f_Limit f)) (drop k all)).
Proof.
  intros Hk. destruct (parse_first r eid f format Hquery Hfirst) as (He & Hl & _ & _).
  assert (eid <> "") as Hne.
  { unfold pathParams in Hpath. destruct (negb _); [done|]. destruct (str_eqb (rq_URLParam r "entityId") "") eqn:E; [done|].
    injection Hpath as _ <-. by apply str_eqb_neq in E. }
  assert (take (Z.to_nat (f_Limit f)) (drop k all) = limited (historyLimit (withCursor f None (f_Limit f))) (drop k all)) as ->.
  { unfold limited, historyLimit. cbn [withCursor f_Limit]. by rewrite !(proj2 (Z.ltb_lt 0 (f_Limit f)) Hl). }
  destruct k as [|j]; unfold pageFilter.
  - destruct (Hlist None) as [page Hp]. rewrite Hp. f_equal. eapply first_page; try done; by rewrite He.
  - destruct (lookup_lt_is_Some_2 all j) as [ev Hev]; [lia|]. rewrite Hev. cbn [option_map].
    destruct (Hlist (Some (positionOf ev (f_OrderBy f)))) as [page Hp]. rewrite Hp. f_equal. eapply paging_step; try done; by rewrite He.
Qed.

Lemma page_at k : k <= length all ->
  let rs := handleHistory (pageRequest r (pageAt k)) w in
  let size := Z.to_nat (f_Limit f) in
  pageEvents rs = take size (drop k out) /\ pageCursor rs = (if decide (k + size <= length all) then pageAt (k + size) else None).
Proof.
  intros Hk. cbv zeta. destruct (parse_first r eid f format Hquery Hfirst) as (_ & Hl & _ & _). unfold handleHistory.
  assert (pathParams (pageRequest r (pageAt k)) = pathParams r) as -> by (by destruct (pageAt k)). rewrite Hpath.
  assert (canAccess (pageRequest r (pageAt k)) collection = canAccess r collection) as -> by (by destruct (pageAt k)). rewrite Hmask.
  rewrite query_at by done. cbn [bad]. assert (rq_Context (pageRequest r (pageAt k)) = rq_Context r) as -> by (by destruct (pageAt k)).
  rewrite Hservice, list_at by done. unfold historyBody. rewrite (render_take _ _ _ _ (render_drop k _ _ _ Hout)).
  unfold pageEvents, pageCursor, memberOf. cbn [rs_Value writeJSON List.find fst snd option_map].
  change (str_eqb "entity_id" "events") with false. change (str_eqb "events" "events") with true. change (str_eqb "entity_id" "next_cursor") with false.
  change (str_eqb "events" "next_cursor") with false. change (str_eqb "next_cursor" "next_cursor") with true. cbv iota. cbn [option_map snd]. split; [done|].
  unfold nextCursor. change (f_Limit (pageFilter k)) with (f_Limit f). rewrite (proj2 (Z.ltb_lt 0 (f_Limit f)) Hl), length_take, length_drop. cbn [andb].
  set (size := Z.to_nat (f_Limit f)). case_decide as Hd.
  - rewrite (proj2 (Z.eqb_eq _ _)) by lia. destruct size as [|n] eqn:En; [lia|]. unfold pageAt. rewrite <- plus_n_Sm.
    rewrite last_lookup, length_take, length_drop. replace (Nat.pred (S n `min` (length all - k))) with n by lia.
    rewrite lookup_take_lt, lookup_drop by lia. change (f_OrderBy (pageFilter k)) with (f_OrderBy f). by destruct (all !! (k + n)).
  - by rewrite (proj2 (Z.eqb_neq _ _)) by lia.
Qed.

Lemma walk_from n k : k <= length all -> length all - k < n ->
  exists pages, walkHistory n r w (pageAt k) = Some pages /\ concat pages = drop k out /\
    Forall (fun page => length page <= Z.to_nat (f_Limit f)) pages /\ length pages * Z.to_nat (f_Limit f) <= length all - k + Z.to_nat (f_Limit f).
Proof.
  destruct (parse_first r eid f format Hquery Hfirst) as (_ & Hl & _ & _). revert k. induction n as [|n IH]; intros k Hk Hn; [lia|].
  cbn [walkHistory]. destruct (page_at k Hk) as [-> ->]. pose proof (render_length _ _ _ Hout) as Hlen. case_decide as Hd.
  - assert (exists c, pageAt (k + Z.to_nat (f_Limit f)) = Some c) as [c Hc].
    { destruct (Z.to_nat (f_Limit f)) as [|m] eqn:E; [lia|]. unfold pageAt. rewrite <- plus_n_Sm.
      destruct (lookup_lt_is_Some_2 all (k + m)) as [ev ->]; [lia|]. by eexists. }
    destruct (IH (k + Z.to_nat (f_Limit f)) Hd ltac:(lia)) as (pages & Hp & Hcat & HF & Hsz). rewrite Hc in *. rewrite Hp.
    eexists. split; [reflexivity|]. cbn [concat length]. rewrite Hcat, <- drop_drop, take_drop. split_and!; [done| |lia].
    constructor; [rewrite length_take; lia|done].
  - eexists. split; [reflexivity|]. cbn [concat length]. rewrite app_nil_r, take_ge by (rewrite length_drop; lia).
    split_and!; [done| |lia]. constructor; [rewrite length_drop; lia|done].
Qed.

(** C8: Following the cursors of the history endpoint.  A client that repeats its first
    request with the [next_cursor] of each answer, until it is null, gets the events of
    the full listing under the same filter, ordering and format, each once and in order;
    no page exceeds the limit, and at most one request more than the full pages is made.
    The cursor travels as JSON, base64 and a query parameter, and timestamps may repeat. *)
Theorem history_walk :
  exists pages, walkHistory (S (length all)) r w None = Some pages /\ concat pages = out /\
    Forall (fun page => length page <= Z.to_nat (f_Limit f)) pages /\ (length pages - 1) * Z.to_nat (f_Limit f) <= length all.
Proof. destruct (walk_from (S (length all)) 0) as (pages & Hp & Hcat & HF & Hsz); [lia|lia|]. exists pages. split_and!; [done|done|done|nia]. Qed.
End Walk.

(** ** A run *)

#[local] Instance ex_reads : ReadService (list eventDoc) := {
  svcHistory c coll f w := repoListEvents ex_dbFor c coll f w;
  svcCurrent c coll eid w := Err ErrNotFound;
  svcStateAt c coll eid q w := Err ErrNotFound }.

Definition ex_reader : Principal := mkPrincipal (mkTenant "acme" (mkDatabase "" "")) (mkAPIKey [ScopeRead] ["crm.*"]).
Definition ex_pages : request :=
  WithContext (ex_request [] [("collection", "crm.deals"); ("entityId", "deal-1")] "limit=1&order_by=ts_received" "") (NewContext None ex_reader).
Definition ex_all : list Event := match repoListEvents ex_dbFor None "crm.deals" (withCursor ex_filter None 0) ex_w with Ok l => l | Err _ => [] end.

Example walk_run : option_map (map (@length gvalue)) (walkHistory 3 ex_pages ex_w None) = Some [1; 1; 0].
Proof. vm_compute. reflexivity. Qed.

Lemma decoded_all (ds : list eventDoc) : Forall (fun d => exists ev, fromEventDoc d = Ok ev) ds -> exists l, fromEventDocs ds = Ok l.
Proof.
  induction 1 as [|d ds [ev Hev] _ [l Hl]]; [by exists []|]. exists (ev :: l). cbn [fromEventDocs]. by rewrite Hev, Hl.
Qed.

Lemma filtered_all {A : Type} (P : A -> Prop) p l : Forall P l -> Forall P (List.filter p l).
Proof. induction 1 as [|x l Hx _ IH]; [constructor|]. cbn. destruct (p x); [by constructor|done]. Qed.

Lemma ex_listing g : exists page, repoListEvents ex_dbFor (rq_Context ex_pages) "crm.deals" g ex_w = Ok page.
Proof.
  assert (exists S, memFind (historyFilter g) (historySort g) ex_w = Ok S) as [S HS].
  { unfold memFind. assert (properSort (historySort g) = true) as ->; [|by eexists].
    unfold historySort. destruct (sortField_cases (f_OrderBy g)) as [-> |[-> | ->]]; by destruct (str_eqb (f_Order g) OrderDesc). }
  assert (repoListEvents ex_dbFor (rq_Context ex_pages) "crm.deals" g ex_w = fromEventDocs (limited (historyLimit g) S)) as ->.
  { unfold repoListEvents, withColl. change (validateLogical "crm.deals") with (@Ok err unit tt). cbv beta iota.
    change (ex_dbFor (rq_Context ex_pages)) with (@Ok err database ex_db). cbv beta iota. cbn [Find memDriver]. by rewrite HS. }
  apply decoded_all. assert (Forall (fun d => exists ev, fromEventDoc d = Ok ev) ex_w) as Hw.
  { vm_compute. repeat constructor; eexists; reflexivity. }
  assert (Forall (fun d => exists ev, fromEventDoc d = Ok ev) S) as HF.
  { unfold memFind in HS. destruct (properSort _); [|done]. apply (f_equal (fun x => match x with Ok l => l | Err _ => [] end)) in HS. cbv beta iota in HS.
    rewrite <- HS, (merge_sort_Permutation (docLe (historySort g))). by apply filtered_all. }
  unfold limited. destruct (0 <? _)%Z; [by apply Forall_take|done].
Qed.

Lemma history_walk_witness :
  exists pages out, walkHistory 3 ex_pages ex_w None = Some pages /\ concat pages = out /\ length out = 2 /\ length pages = 3.
Proof.
  destruct (parseHistoryQuery ex_pages "deal-1") as [[f format]|] eqn:E; [|vm_compute in E; discriminate].
  destruct (renderEvents ex_all format) as [out|] eqn:Eo; [|vm_compute in E; injection E as <- <-; vm_compute in Eo; discriminate].
  destruct (history_walk ex_dbFor ex_pages ex_w ex_db "crm.deals" "deal-1" format f ex_all out) as (pages & Hp & Hc & _).
  all: try (vm_compute; reflexivity).
  all: try exact E.
  - apply (bool_decide_unpack _). vm_compute. exact I.
  - intros after. apply ex_listing.
  - vm_compute in E. injection E as <- <-. vm_compute. reflexivity.
  - exact Eo.
  - exists pages, out. split_and!; [exact Hp|exact Hc| |].
    + rewrite (render_length _ _ _ Eo). vm_compute. reflexivity.
    + assert (option_map (@length _) (walkHistory (S (length ex_all)) ex_pages ex_w None) = Some 3) as Hl by (vm_compute; reflexivity).
      rewrite Hp in Hl. injection Hl as Hl. exact Hl.
Defined.
