(* ===== verification/ServerRules.v ===== *)
(** * The rule endpoints (internal/server/rules.go)

    The wire form of rules: the operator of a scalar condition is a key of its object, and
    a combinator, a negation or a match replaces it. *)

From stdpp Require Import base list strings.
From Stdlib Require Import ZArith Lia Ascii.
From S2P Require Import Prelude GoMap Json Paths Diff DiffSound Domain Tenant Config Names Numbers Plugin Repo Rules RulesEngine Canonical Worker JsonText TimeText Http ServerIngest ServerRead.

(** ** Wire types *)

Record matchDTO := mkMatchDTO { md_Path : string; md_Op : string; md_Old : option jtree; md_New : option jtree }.

(** The operators of a scalar leaf, each a raw value that may be absent. *)
Record operators := mkOperators {
  o_Eq : option jtree; o_Ne : option jtree; o_In : option jtree; o_Gt : option jtree; o_Gte : option jtree;
  o_Lt : option jtree; o_Lte : option jtree; o_Regex : option jtree; o_Exists : option jtree }.
Definition operators0 : operators := mkOperators None None None None None None None None None.

Inductive conditionDTO := mkConditionDTO {
  cn_All : option (list conditionDTO);
  cn_Any : option (list conditionDTO);
  cn_Not : option conditionDTO;
  cn_Field : string;
  cn_Ops : operators;
  cn_Match : option matchDTO }.
Definition conditionDTO0 : conditionDTO := mkConditionDTO None None None "" operators0 None.

Record retryDTO := mkRetryDTO { rt_MaxAttempts : Z; rt_Backoff : string }.
Record actionDTO := mkActionDTO {
  at_Type : string; at_URL : string; at_SecretRef : string; at_TimeoutMS : Z; at_Retry : option retryDTO; at_Level : string }.
Record ruleRequest := mkRuleRequest { rr_Name : string; rr_Enabled : bool; rr_Condition : conditionDTO; rr_Actions : option (list actionDTO) }.

(** ** Decoding, unknown fields refused *)

Definition decMatch : decoder matchDTO :=
  decStruct true ["path"; "op"; "old"; "new"] (fun f t v =>
    let '(mkMatchDTO p o old new) := v in
    if str_eqb f "path" then p ← decString p t; Some (mkMatchDTO p o old new)
    else if str_eqb f "op" then o ← decString o t; Some (mkMatchDTO p o old new)
    else if str_eqb f "old" then old ← decRaw old t; Some (mkMatchDTO p o old new)
    else new ← decRaw new t; Some (mkMatchDTO p o old new)).

Definition setOperator (f : string) (t : jtree) (o : operators) : operators :=
  let '(mkOperators eq ne i gt gte lt lte re ex) := o in
  if str_eqb f "eq" then mkOperators (Some t) ne i gt gte lt lte re ex
  else if str_eqb f "ne" then mkOperators eq (Some t) i gt gte lt lte re ex
  else if str_eqb f "in" then mkOperators eq ne (Some t) gt gte lt lte re ex
  else if str_eqb f "gt" then mkOperators eq ne i (Some t) gte lt lte re ex
  else if str_eqb f "gte" then mkOperators eq ne i gt (Some t) lt lte re ex
  else if str_eqb f "lt" then mkOperators eq ne i gt gte (Some t) lte re ex
  else if str_eqb f "lte" then mkOperators eq ne i gt gte lt (Some t) re ex
  else if str_eqb f "regex" then mkOperators eq ne i gt gte lt lte (Some t) ex
  else mkOperators eq ne i gt gte lt lte re (Some t).

Definition conditionFields : list string :=
  ["all"; "any"; "not"; "field"; "eq"; "ne"; "in"; "gt"; "gte"; "lt"; "lte"; "regex"; "exists"; "match"].

(** [decStruct], [decSlice] and [decPtr] on a type that contains itself. *)
Fixpoint decCondition (cur : conditionDTO) (t : jtree) {struct t} : option conditionDTO :=
  let elems := fix elems (cur : list conditionDTO) (l : list jtree) {struct l} : option (list conditionDTO) :=
    match l with
    | [] => Some []
    | x :: l' =>
        match decCondition (match cur with c :: _ => c | [] => conditionDTO0 end) x, elems (tail cur) l' with
        | Some a, Some b => Some (a :: b)
        | _, _ => None
        end
    end in
  match t with
  | TNull => Some cur
  | TObj _ m =>
      (fix go (m : list (string * jtree)) (cur : conditionDTO) {struct m} : option conditionDTO :=
         match m with
         | [] => Some cur
         | (k, x) :: m' =>
             match matchField conditionFields (unquote k) with
             | None => None
             | Some f =>
                 let '(mkConditionDTO all any no fld ops mt) := cur in
                 match (if str_eqb f "all" then
                          match x with
                          | TNull => Some (mkConditionDTO None any no fld ops mt)
                          | TArr _ l => l' ← elems (default [] all) l; Some (mkConditionDTO (Some l') any no fld ops mt)
                          | _ => None
                          end
                        else if str_eqb f "any" then
                          match x with
                          | TNull => Some (mkConditionDTO all None no fld ops mt)
                          | TArr _ l => l' ← elems (default [] any) l; Some (mkConditionDTO all (Some l') no fld ops mt)
                          | _ => None
                          end
                        else if str_eqb f "not" then
                          match x with
                          | TNull => Some (mkConditionDTO all any None fld ops mt)
                          | _ => c ← decCondition (default conditionDTO0 no) x; Some (mkConditionDTO all any (Some c) fld ops mt)
                          end
                        else if str_eqb f "field" then fld' ← decString fld x; Some (mkConditionDTO all any no fld' ops mt)
                        else if str_eqb f "match" then mt' ← decPtr (mkMatchDTO "" "" None None) decMatch mt x; Some (mkConditionDTO all any no fld ops mt')
                        else Some (mkConditionDTO all any no fld (setOperator f x ops) mt)) with
                 | Some cur' => go m' cur'
                 | None => None
                 end
             end
         end) m cur
  | _ => None
  end.

Definition decRetry : decoder retryDTO :=
  decStruct true ["max_attempts"; "backoff"] (fun f t v =>
    let '(mkRetryDTO n b) := v in
    if str_eqb f "max_attempts" then n ← decInt n t; Some (mkRetryDTO n b)
    else b ← decString b t; Some (mkRetryDTO n b)).

Definition decAction : decoder actionDTO :=
  decStruct true ["type"; "url"; "secret_ref"; "timeout_ms"; "retry"; "level"] (fun f t v =>
    let '(mkActionDTO ty u s n r l) := v in
    if str_eqb f "type" then ty ← decString ty t; Some (mkActionDTO ty u s n r l)
    else if str_eqb f "url" then u ← decString u t; Some (mkActionDTO ty u s n r l)
    else if str_eqb f "secret_ref" then s ← decString s t; Some (mkActionDTO ty u s n r l)
    else if str_eqb f "timeout_ms" then n ← decInt n t; Some (mkActionDTO ty u s n r l)
    else if str_eqb f "retry" then r ← decPtr (mkRetryDTO 0 "") decRetry r t; Some (mkActionDTO ty u s n r l)
    else l ← decString l t; Some (mkActionDTO ty u s n r l)).

Definition decRuleRequest : decoder ruleRequest :=
  decStruct true ["name"; "enabled"; "condition"; "actions"] (fun f t v =>
    let '(mkRuleRequest n e c a) := v in
    if str_eqb f "name" then n ← decString n t; Some (mkRuleRequest n e c a)
    else if str_eqb f "enabled" then e ← decBool e t; Some (mkRuleRequest n e c a)
    else if str_eqb f "condition" then c ← decCondition c t; Some (mkRuleRequest n e c a)
    else a ← decSlice (mkActionDTO "" "" "" 0 None "") decAction a t; Some (mkRuleRequest n e c a)).

(** ** From the wire *)

(** [decodeAny]: a number may be out of range. *)
Definition decodeAny (raw : jtree) : res string json :=
  match Unmarshal decAny JNull (rawOf raw) with Some v => Ok v | None => Err "invalid condition value" end.

Definition scalarOps (o : operators) : list (string * option jtree) :=
  [(OpEq, o_Eq o); (OpNe, o_Ne o); (OpIn, o_In o); (OpGt, o_Gt o); (OpGte, o_Gte o); (OpLt, o_Lt o); (OpLte, o_Lte o);
   (OpRegex, o_Regex o); (OpExists, o_Exists o)].

(** The first operator that is set counts; [exists] has no value. *)
Definition toScalar (d : conditionDTO) : res string Condition :=
  match List.find (fun so => isSome (snd so)) (scalarOps (cn_Ops d)) with
  | Some (op, Some raw) =>
      if str_eqb op OpExists then Ok (mkCondition None None None (cn_Field d) op JNull None)
      else (v <- decodeAny raw; Ok (mkCondition None None None (cn_Field d) op v None))%go
  | _ => Ok (mkCondition None None None (cn_Field d) "" JNull None)
  end.

Definition toCriterion (raw : option jtree) : res string (json * bool) :=
  match raw with None => Ok (JNull, false) | Some t => (v <- decodeAny t; Ok (v, true))%go end.

Definition toMatch (d : matchDTO) : res string Match :=
  (old <- toCriterion (md_Old d); new <- toCriterion (md_New d);
   Ok (mkMatch (md_Path d) (md_Op d) (fst old) (fst new) (snd old) (snd new)))%go.

Fixpoint toCondition (d : conditionDTO) : res string Condition :=
  match d with
  | mkConditionDTO all any no _ _ mt =>
      let list := fix list (ds : list conditionDTO) : res string (list Condition) :=
        match ds with
        | [] => Ok []
        | x :: ds' => (c <- toCondition x; cs <- list ds'; Ok (c :: cs))%go
        end in
      match all, any, no, mt with
      | Some l, _, _, _ => (cs <- list l; Ok (mkCondition (Some cs) None None "" "" JNull None))%go
      | None, Some l, _, _ => (cs <- list l; Ok (mkCondition None (Some cs) None "" "" JNull None))%go
      | None, None, Some x, _ => (c <- toCondition x; Ok (mkCondition None None (Some c) "" "" JNull None))%go
      | None, None, None, Some m => (m <- toMatch m; Ok (mkCondition None None None "" "" JNull (Some m)))%go
      | None, None, None, None => toScalar d
      end
  end.

Definition toAction (d : actionDTO) : Action :=
  if str_eqb (at_Type d) ActionWebhook then
    mkRuleAction (at_Type d) (Some (mkWebhook (at_URL d) (at_SecretRef d) (at_TimeoutMS d)
      (match at_Retry d with Some r => mkRetry (rt_MaxAttempts r) (rt_Backoff r) | None => mkRetry 0 "" end))) None ""
  else if str_eqb (at_Type d) ActionLog then mkRuleAction (at_Type d) None (Some (mkLogAction (at_Level d))) ""
  else mkRuleAction (at_Type d) None None "".

Definition decodeRuleRequest (r : request) : res string Rule :=
  match DecodeFirst decRuleRequest (mkRuleRequest "" false conditionDTO0 None) (rq_Body r) with
  | None => Err "invalid JSON body"
  | Some body =>
      (cond <- toCondition (rr_Condition body);
       Ok (mkRule "" (rr_Name body) (rr_Enabled body) cond (map toAction (default [] (rr_Actions body))) 0 0))%go
  end.

(** ** To the wire *)

Definition matchResponse (m : Match) : gvalue :=
  GObj ((if m_HasNew m then [("new", GAny (m_New m))] else []) ++ (if m_HasOld m then [("old", GAny (m_Old m))] else []) ++
        optional (nonEmpty (m_Op m)) "op" (GStr (m_Op m)) ++ [("path", GStr (m_Path m))]).

Fixpoint conditionResponse (c : Condition) : gvalue :=
  match c with
  | mkCondition (Some l) _ _ _ _ _ _ => GObj [("all", GArr (map conditionResponse l))]
  | mkCondition None (Some l) _ _ _ _ _ => GObj [("any", GArr (map conditionResponse l))]
  | mkCondition None None (Some x) _ _ _ _ => GObj [("not", conditionResponse x)]
  | mkCondition None None None _ _ _ (Some m) => GObj [("field", GStr "changes"); ("match", matchResponse m)]
  | mkCondition None None None f op v None =>
      GObj (if str_eqb op OpExists then mset "exists" (GBool true) [("field", GStr f)]
            else if str_eqb op "" then [("field", GStr f)]
            else mset op (GAny v) [("field", GStr f)])
  end.

Definition actionResponse (a : Action) : gvalue :=
  GObj (match a_Log a with Some l => [("level", GStr (Level l))] | None => [] end ++
        match a_Webhook a with
        | Some w =>
            (if (MaxAttempts (wh_Retry w) =? 0)%Z && str_eqb (Backoff (wh_Retry w)) "" then []
             else [("retry", GObj [("backoff", GStr (Backoff (wh_Retry w))); ("max_attempts", GInt (MaxAttempts (wh_Retry w)))])]) ++
            optional (nonEmpty (SecretRef w)) "secret_ref" (GStr (SecretRef w)) ++
            optional (0 <? TimeoutMS w)%Z "timeout_ms" (GInt (TimeoutMS w))
        | None => []
        end ++
        [("type", GStr (a_Type a))] ++
        match a_Webhook a with Some w => [("url", GStr (URL w))] | None => [] end).

Definition ruleResponse (r : Rule) : gvalue :=
  GObj ([("actions", GArr (map actionResponse (r_Actions r))); ("condition", conditionResponse (r_Condition r));
         ("enabled", GBool (r_Enabled r)); ("id", GStr (r_ID r)); ("name", GStr (r_Name r))] ++
        optional (negb (r_UpdatedAt r =? 0)%Z) "updated_at" (GTime (r_UpdatedAt r)) ++ [("version", GInt (r_Version r))]).

(** ** Handlers *)

(** [RuleService], with [ruleErrorText] the text of a [*rules.RuleError]. *)
Class RuleAPI (W : Type) := {
  apiCreate : ctx -> string -> Rule -> W -> res ruleSvcErr Rule * W;
  apiGet : ctx -> string -> string -> W -> res ruleSvcErr Rule;
  apiList : ctx -> string -> W -> res ruleSvcErr (list Rule);
  apiUpdate : ctx -> string -> string -> Rule -> W -> res ruleSvcErr Rule * W;
  apiDelete : ctx -> string -> string -> W -> res ruleSvcErr unit * W }.

Section Handlers.
Context {W : Type} `{RuleAPI W}.
Variable ruleErrorText : RuleError -> string.

(** [guard]: the collection mask; the name is not checked. *)
Definition guardRules (r : request) : res response string :=
  let collection := rq_URLParam r "collection" in
  (_ <- canAccess r collection; Ok collection)%go.

Definition writeRuleError (e : ruleSvcErr) : response :=
  match e with
  | RuleInvalid re => writeError 400 (ruleErrorText re)
  | RuleRepoErr ErrRuleNameConflict => writeError 409 "rule name already exists in collection"
  | RuleRepoErr ErrNotFound => writeError 404 "rule not found"
  | RuleRepoErr _ => writeError 500 "internal error"
  end.

Definition ruleAnswer (status : Z) (x : res ruleSvcErr Rule) : response :=
  match x with Err e => writeRuleError e | Ok rule => writeJSON status (GObj [("rule", ruleResponse rule)]) end.

Definition createRule : handler W := fun r w =>
  match (collection <- guardRules r; rule <- bad (decodeRuleRequest r); Ok (collection, rule))%go with
  | Err rs => (rs, w)
  | Ok (collection, rule) => let '(x, w1) := apiCreate (rq_Context r) collection rule w in (ruleAnswer 201 x, w1)
  end.

Definition listRules (r : request) (w : W) : response :=
  match guardRules r with
  | Err rs => rs
  | Ok collection =>
      match apiList (rq_Context r) collection w with
      | Err _ => writeError 500 "internal error"
      | Ok rs => writeJSON 200 (GObj [("rules", GArr (map ruleResponse rs))])
      end
  end.

Definition getRule (r : request) (w : W) : response :=
  match guardRules r with
  | Err rs => rs
  | Ok collection => ruleAnswer 200 (apiGet (rq_Context r) collection (rq_URLParam r "ruleId") w)
  end.

Definition updateRule : handler W := fun r w =>
  match (collection <- guardRules r; rule <- bad (decodeRuleRequest r); Ok (collection, rule))%go with
  | Err rs => (rs, w)
  | Ok (collection, rule) => let '(x, w1) := apiUpdate (rq_Context r) collection (rq_URLParam r "ruleId") rule w in (ruleAnswer 200 x, w1)
  end.

Definition delRule : handler W := fun r w =>
  match guardRules r with
  | Err rs => (rs, w)
  | Ok collection =>
      match apiDelete (rq_Context r) collection (rq_URLParam r "ruleId") w with
      | (Err e, w1) => (writeRuleError e, w1)
      | (Ok _, w1) => (noContent 204, w1)
      end
  end.
End Handlers.
