(* ===== verification/ServerAdmin.v ===== *)
(** * The administration endpoints (internal/server/config.go, collections.go, dlq.go, ticket.go)

    The wire form of a collection configuration and the handlers, then that the
    configuration the API shows can be sent back and shows the same. *)

From stdpp Require Import base list strings.
From Stdlib Require Import ZArith Lia Ascii.
From S2P Require Import Prelude GoMap Json Paths Diff DiffSound Domain Tenant Config Names Ingest Pipeline Numbers Canonical Worker JsonText TimeText JsonSound Http ServerIngest WireSound TaskSound ServerRead.

(** ** Collection configuration: the wire form *)

Record retentionRequest := mkRetentionRequest { rq_Type : string; rq_Days : Z; rq_Keep : Z }.
Record orderingRequest := mkOrderingRequest { oq_Mode : string; oq_ReorderWindowMS : Z }.
Record pluginRequest := mkPluginRequest { pq_Enabled : bool; pq_FailMode : string; pq_Params : option state }.

Record collectionConfigRequest := mkConfigRequest {
  cq_ReliabilityMode : option string; cq_SnapshotInterval : option Z; cq_Retention : option retentionRequest;
  cq_MaxEventSizeBytes : option Z; cq_FirstEventOp : option string; cq_Ordering : option orderingRequest;
  cq_ArrayKeys : option (list (string * string)); cq_Plugins : option (list (string * pluginRequest)) }.
Definition configRequest0 : collectionConfigRequest := mkConfigRequest None None None None None None None None.

Definition decRetention : decoder retentionRequest :=
  decStruct true ["type"; "days"; "keep"] (fun f t v =>
    let '(mkRetentionRequest ty d k) := v in
    if str_eqb f "type" then ty ← decString ty t; Some (mkRetentionRequest ty d k)
    else if str_eqb f "days" then d ← decInt d t; Some (mkRetentionRequest ty d k)
    else k ← decInt k t; Some (mkRetentionRequest ty d k)).

Definition decOrdering : decoder orderingRequest :=
  decStruct true ["mode"; "reorder_window_ms"] (fun f t v =>
    let '(mkOrderingRequest m r) := v in
    if str_eqb f "mode" then m ← decString m t; Some (mkOrderingRequest m r)
    else r ← decInt r t; Some (mkOrderingRequest m r)).

Definition decPlugin : decoder pluginRequest :=
  decStruct true ["enabled"; "fail_mode"; "params"] (fun f t v =>
    let '(mkPluginRequest e m p) := v in
    if str_eqb f "enabled" then e ← decBool e t; Some (mkPluginRequest e m p)
    else if str_eqb f "fail_mode" then m ← decString m t; Some (mkPluginRequest e m p)
    else p ← decMapAny p t; Some (mkPluginRequest e m p)).

Definition decConfig : decoder collectionConfigRequest :=
  decStruct true ["reliability_mode"; "snapshot_interval"; "retention"; "max_event_size_bytes"; "first_event_op"; "ordering"; "array_keys"; "plugins"] (fun f t v =>
    let '(mkConfigRequest rm si rt ms fe ord ak pl) := v in
    if str_eqb f "reliability_mode" then rm ← decPtr "" decString rm t; Some (mkConfigRequest rm si rt ms fe ord ak pl)
    else if str_eqb f "snapshot_interval" then si ← decPtr 0%Z decInt si t; Some (mkConfigRequest rm si rt ms fe ord ak pl)
    else if str_eqb f "retention" then rt ← decPtr (mkRetentionRequest "" 0 0) decRetention rt t; Some (mkConfigRequest rm si rt ms fe ord ak pl)
    else if str_eqb f "max_event_size_bytes" then ms ← decPtr 0%Z decInt ms t; Some (mkConfigRequest rm si rt ms fe ord ak pl)
    else if str_eqb f "first_event_op" then fe ← decPtr "" decString fe t; Some (mkConfigRequest rm si rt ms fe ord ak pl)
    else if str_eqb f "ordering" then ord ← decPtr (mkOrderingRequest "" 0) decOrdering ord t; Some (mkConfigRequest rm si rt ms fe ord ak pl)
    else if str_eqb f "array_keys" then ak ← decMap "" decString ak t; Some (mkConfigRequest rm si rt ms fe ord ak pl)
    else pl ← decMap (mkPluginRequest false "" None) decPlugin pl t; Some (mkConfigRequest rm si rt ms fe ord ak pl)).

(** An explicit number must be positive; an omitted one is left to the default. *)
Definition positive (field : string) (v : option Z) : res string Z :=
  match v with
  | None => Ok 0%Z
  | Some n => if (n <=? 0)%Z then Err (field +:+ " must be positive") else Ok n
  end.

Definition pluginConfig (p : pluginRequest) : PluginConfig := mkPluginConfig (pq_Enabled p) (pq_FailMode p) (pq_Params p).

Definition decodeConfigRequest (r : request) (collection : string) : res string CollectionConfig :=
  match DecodeFirst decConfig configRequest0 (rq_Body r) with
  | None => Err "invalid JSON body"
  | Some body =>
      (interval <- positive "snapshot_interval" (cq_SnapshotInterval body);
       size <- positive "max_event_size_bytes" (cq_MaxEventSizeBytes body);
       Ok (mkConfig collection (default "" (cq_ReliabilityMode body)) interval
             (match cq_Retention body with Some x => mkRetention (rq_Type x) (rq_Days x) (rq_Keep x) | None => mkRetention "" 0 0 end)
             size (default "" (cq_FirstEventOp body))
             (match cq_Ordering body with Some x => mkOrdering (oq_Mode x) (oq_ReorderWindowMS x) | None => mkOrdering "" 0 end)
             (default [] (cq_ArrayKeys body))
             (map (fun kv => (fst kv, pluginConfig (snd kv))) (default [] (cq_Plugins body)))))%go
  end.

(** ** Rendering *)

Definition pluginDTO (p : PluginConfig) : gvalue :=
  GObj ([("enabled", GBool (pc_Enabled p))] ++ optional (nonEmpty (pc_FailMode p)) "fail_mode" (GStr (pc_FailMode p)) ++
        match pc_Params p with Some ((_ :: _) as m) => [("params", GAny (JObj m))] | _ => [] end).

Definition collectionConfigDTO (cfg : CollectionConfig) : gvalue :=
  let rt := cfg_Retention cfg in
  let retention :=
    if str_eqb (rt_Type rt) RetentionDays then [("days", GInt (rt_Days rt)); ("type", GStr (rt_Type rt))]
    else if str_eqb (rt_Type rt) RetentionVersions then [("keep", GInt (rt_Keep rt)); ("type", GStr (rt_Type rt))]
    else [("type", GStr (rt_Type rt))] in
  let ordering := [("mode", GStr (or_Mode (cfg_Ordering cfg)))] ++
    optional (0 <? or_ReorderWindowMS (cfg_Ordering cfg))%Z "reorder_window_ms" (GInt (or_ReorderWindowMS (cfg_Ordering cfg))) in
  GObj (match cfg_ArrayKeys cfg with [] => [] | ks => [("array_keys", GObj (map (fun kv => (fst kv, GStr (snd kv))) ks))] end ++
        [("first_event_op", GStr (cfg_FirstEventOp cfg)); ("max_event_size_bytes", GInt (cfg_MaxEventSizeBytes cfg)); ("ordering", GObj ordering)] ++
        match cfg_Plugins cfg with [] => [] | ps => [("plugins", GObj (map (fun kv => (fst kv, pluginDTO (snd kv))) ps))] end ++
        [("reliability_mode", GStr (cfg_ReliabilityMode cfg)); ("retention", GObj retention); ("snapshot_interval", GInt (cfg_SnapshotInterval cfg))]).

Definition defaultedFields (stored : CollectionConfig) : list string :=
  let unset (b : bool) (name : string) := if b then [name] else [] in
  unset (str_eqb (cfg_ReliabilityMode stored) "") "reliability_mode" ++ unset (cfg_SnapshotInterval stored =? 0)%Z "snapshot_interval" ++
  unset (str_eqb (rt_Type (cfg_Retention stored)) "") "retention" ++ unset (cfg_MaxEventSizeBytes stored =? 0)%Z "max_event_size_bytes" ++
  unset (str_eqb (cfg_FirstEventOp stored) "") "first_event_op" ++ unset (str_eqb (or_Mode (cfg_Ordering stored)) "") "ordering".

Record CollectionStats := mkStats { st_Entities : Z; st_Events : Z; st_LastEventAt : time }.
Record CollectionSummary := mkSummary { su_Name : string; su_Stats : CollectionStats; su_Config : CollectionConfig }.

Definition collectionSummaryDTO (s : CollectionSummary) : gvalue :=
  GObj [("config", collectionConfigDTO (su_Config s)); ("entities", GInt (st_Entities (su_Stats s))); ("events", GInt (st_Events (su_Stats s)));
        ("last_event_at", if (st_LastEventAt (su_Stats s) =? 0)%Z then GNull else GTime (st_LastEventAt (su_Stats s))); ("name", GStr (su_Name s))].

(** ** Handlers *)

Class AdminServices (W : Type) := {
  svcGetStored : ctx -> string -> W -> res err CollectionConfig;
  svcUpdateConfig : ctx -> CollectionConfig -> W -> res err CollectionConfig * W;
  svcListCollections : ctx -> W -> res err (list CollectionSummary);
  svcTicket : ctx -> string -> W -> res err Ticket }.

Section Handlers.
Context {W : Type} `{AdminServices W}.
(** The text of a [*domain.ConfigError]. *)
Variable configErrorText : string -> string.

Definition getConfig (r : request) (w : W) : response :=
  let collection := rq_URLParam r "collection" in
  match canAccess r collection with
  | Err rs => rs
  | Ok _ =>
      match svcGetStored (rq_Context r) collection w with
      | Err ErrNotFound => writeError 404 "collection not configured"
      | Err _ => writeError 500 "internal error"
      | Ok stored =>
          writeJSON 200 (GObj [("config", collectionConfigDTO (WithDefaults stored)); ("defaults", GArr (map GStr (defaultedFields stored)))])
      end
  end.

Definition putConfig : handler W := fun r w =>
  let collection := rq_URLParam r "collection" in
  match (_ <- canAccess r collection; bad (decodeConfigRequest r collection))%go with
  | Err rs => (rs, w)
  | Ok cfg =>
      match svcUpdateConfig (rq_Context r) cfg w with
      | (Err (ErrConfig field), w1) => (writeError 400 (configErrorText field), w1)
      | (Err _, w1) => (writeError 500 "internal error", w1)
      | (Ok effective, w1) => (writeJSON 200 (GObj [("config", collectionConfigDTO effective)]), w1)
      end
  end.

Definition listCollections (r : request) (w : W) : response :=
  match FromContext (rq_Context r) with
  | None => writeError 401 "missing API key"
  | Some p =>
      match svcListCollections (rq_Context r) w with
      | Err _ => writeError 500 "internal error"
      | Ok summaries =>
          writeJSON 200 (GObj [("collections", GArr (map collectionSummaryDTO (List.filter (fun s => CanAccess p (su_Name s)) summaries)))])
      end
  end.

(** [Format(time.RFC3339)]: whole seconds. *)
Definition formatRFC3339 (t : time) : string := formatRFC3339Nano (t / second * second).

Definition ticketResponse (t : Ticket) : gvalue :=
  GObj ([("ticket_id", GStr (tck_ID t)); ("status", GStr (tck_Status t))] ++
        optional (nonEmpty (tck_Collection t)) "entity_collection" (GStr (tck_Collection t)) ++
        optional (nonEmpty (tck_EntityID t)) "entity_id" (GStr (tck_EntityID t)) ++
        optional (nonEmpty (tck_Error t)) "error" (GStr (tck_Error t)) ++
        [("created_at", GStr (formatRFC3339 (tck_CreatedAt t))); ("updated_at", GStr (formatRFC3339 (tck_UpdatedAt t)))]).

Definition getTicket (r : request) (w : W) : response :=
  let id := rq_URLParam r "ticketId" in
  if str_eqb id "" then writeError 400 "ticket id is required"
  else
    match svcTicket (rq_Context r) id w with
    | Err ErrTicketNotFound => writeError 404 "ticket not found"
    | Err _ => writeError 500 "internal error"
    | Ok t => writeJSON 200 (ticketResponse t)
    end.
End Handlers.

(** ** The configuration the API shows can be sent back

    [GET] of a collection's configuration renders the stored one with its defaults; [PUT]
    of that rendering is accepted, shows the same configuration and makes every setting
    explicit.  The handlers of [ServerAdmin.v] run on the service of [Config.v]. *)

(** ** The service behind the handlers *)

Section Service.
Context {W : Type} `{CollectionRepository W} `{AuditStore W}.
Variables (audit : bool) (auditID : string) (now : time).

(** [CollectionConfigService.GetStored]. *)
Definition GetStored (c : ctx) (collection : string) (w : W) : res err CollectionConfig := GetConfig c collection w.

(** The handlers with this service; the resolver's cache is part of the state. *)
Definition configService : AdminServices (ConfigResolver * W) := {|
  svcGetStored c coll s := GetStored c coll (snd s);
  svcUpdateConfig c cfg s := let '(r, cr', w') := UpdateConfig (fst s) audit auditID now c cfg (snd s) in (r, (cr', w'));
  svcListCollections _ _ := Err (ErrInternal "catalog");
  svcTicket _ _ _ := Err ErrTicketNotFound |}.
End Service.

(** ** What is shown *)

(** A rendered configuration as it is read back: the fields that do not apply to the
    retention type, a window that is not positive and empty parameters are not shown. *)
Definition shownPlugin (p : PluginConfig) : PluginConfig :=
  mkPluginConfig (pc_Enabled p) (pc_FailMode p) (match pc_Params p with Some ((_ :: _) as m) => Some m | _ => None end).
Definition shownRetention (r : Retention) : Retention :=
  mkRetention (rt_Type r) (if str_eqb (rt_Type r) RetentionDays then rt_Days r else 0%Z)
    (if str_eqb (rt_Type r) RetentionDays then 0%Z else if str_eqb (rt_Type r) RetentionVersions then rt_Keep r else 0%Z).
Definition shownConfig (name : string) (cfg : CollectionConfig) : CollectionConfig :=
  mkConfig name (cfg_ReliabilityMode cfg) (cfg_SnapshotInterval cfg) (shownRetention (cfg_Retention cfg)) (cfg_MaxEventSizeBytes cfg) (cfg_FirstEventOp cfg)
    (mkOrdering (or_Mode (cfg_Ordering cfg)) (Z.max 0 (or_ReorderWindowMS (cfg_Ordering cfg)))) (cfg_ArrayKeys cfg) (map (fun kv => (kv.1, shownPlugin kv.2)) (cfg_Plugins cfg)).

(** Configurations JSON can carry. *)
Definition wirePlugin (p : PluginConfig) : bool := ValidString (pc_FailMode p) && match pc_Params p with Some m => plainJson (JObj m) | None => true end.
Definition wireConfig (cfg : CollectionConfig) : bool :=
  forallb int64 [cfg_SnapshotInterval cfg; cfg_MaxEventSizeBytes cfg; rt_Days (cfg_Retention cfg); rt_Keep (cfg_Retention cfg); or_ReorderWindowMS (cfg_Ordering cfg)] &&
  sortedKeys (map fst (cfg_ArrayKeys cfg)) && forallb (fun kv => ValidString kv.1 && ValidString kv.2) (cfg_ArrayKeys cfg) &&
  sortedKeys (map fst (cfg_Plugins cfg)) && forallb (fun kv => ValidString kv.1 && wirePlugin kv.2) (cfg_Plugins cfg).

(** ** Reading it back *)

Lemma decMap_tree {A B} zero (d : decoder A) (f : B -> gvalue) (g : B -> A) (m : list (string * B)) : sortedKeys (map fst m) = true ->
  (forall kv, In kv m -> ValidString kv.1 = true /\ d zero (treeOf (f kv.2)) = Some (g kv.2)) ->
  decMap zero d None (treeOf (GObj (map (fun kv => (kv.1, f kv.2)) m))) = Some (Some (map (fun kv => (kv.1, g kv.2)) m)).
Proof.
  intros Hs Hm. cbn [treeOf objTree decMap default]. rewrite map_map.
  assert (forall acc, decEntries zero d acc (map (fun kv => (inner kv.1, treeOf (f kv.2))) m) = Some (fold_left (fun acc kv => mset kv.1 kv.2 acc) (map (fun kv => (kv.1, g kv.2)) m) acc)) as Hd.
  { clear Hs. induction m as [|[k v] m IH]; intros acc; [done|]. cbn [map fst snd decEntries fold_left]. destruct (Hm (k, v)) as [Hk Hv]; [by left|]. cbn [fst snd] in *.
    rewrite Hv, unquote_inner by done. apply IH. intros kv Hkv. apply Hm. by right. }
  cbn [fst snd]. rewrite Hd, fold_mset_sorted; [done|]. cbn [app]. apply sortedKeys_msorted. by rewrite map_map.
Qed.

Definition plugin0 : pluginRequest := mkPluginRequest false "" None.
Definition readPlugin (p : PluginConfig) : pluginRequest := let q := shownPlugin p in mkPluginRequest (pc_Enabled q) (pc_FailMode q) (pc_Params q).

Lemma plugin_read p : wirePlugin p = true -> decPlugin plugin0 (treeOf (pluginDTO p)) = Some (readPlugin p).
Proof.
  destruct p as [e m ps]. unfold wirePlugin, readPlugin, shownPlugin. cbn [pc_Enabled pc_FailMode pc_Params]. intros [Hm Hp]%andb_true_iff.
  unfold decPlugin, pluginDTO, plugin0, optional, nonEmpty. cbn [pc_Enabled pc_FailMode pc_Params].
  assert (forall b, decBool false (treeOf (GBool b)) = Some b) as Hb by done.
  assert (forall l, plainJson (JObj l) = true -> decMapAny None (treeOf (GAny (JObj l))) = Some (Some l)) as Hl by apply decMapAny_nil.
  destruct (str_eqb m "") eqn:Em, ps as [[|kv l]|]; rewrite decStruct_tree by reflexivity; cbn [app negb]; set_field; rewrite Hb; cbn [mbind option_bind]; read_fields;
    try (set_field; rewrite Hl by done; cbn [mbind option_bind]); cbn [setFields]; try apply str_eqb_eq in Em; by subst.
Qed.

Lemma config_known cfg : exists m, collectionConfigDTO cfg = GObj m /\
  knownKeys ["reliability_mode"; "snapshot_interval"; "retention"; "max_event_size_bytes"; "first_event_op"; "ordering"; "array_keys"; "plugins"] m = true.
Proof. eexists. split; [reflexivity|]. by destruct (cfg_ArrayKeys cfg), (cfg_Plugins cfg). Qed.

Lemma retention_read r : ValidString (rt_Type r) = true -> int64 (rt_Days r) = true -> int64 (rt_Keep r) = true ->
  decRetention (mkRetentionRequest "" 0 0) (treeOf (GObj (if str_eqb (rt_Type r) RetentionDays then [("days", GInt (rt_Days r)); ("type", GStr (rt_Type r))]
    else if str_eqb (rt_Type r) RetentionVersions then [("keep", GInt (rt_Keep r)); ("type", GStr (rt_Type r))] else [("type", GStr (rt_Type r))]))) =
  Some (mkRetentionRequest (rt_Type (shownRetention r)) (rt_Days (shownRetention r)) (rt_Keep (shownRetention r))).
Proof.
  destruct r as [ty d k]. unfold shownRetention, decRetention. cbn [rt_Type rt_Days rt_Keep]. intros. wire_facts.
  destruct (str_eqb ty RetentionDays); [|destruct (str_eqb ty RetentionVersions)]; rewrite decStruct_tree by reflexivity; by read_fields.
Qed.

Lemma ordering_read o : ValidString (or_Mode o) = true -> int64 (or_ReorderWindowMS o) = true ->
  decOrdering (mkOrderingRequest "" 0) (treeOf (GObj (("mode", GStr (or_Mode o)) :: optional (0 <? or_ReorderWindowMS o)%Z "reorder_window_ms" (GInt (or_ReorderWindowMS o))))) =
  Some (mkOrderingRequest (or_Mode o) (Z.max 0 (or_ReorderWindowMS o))).
Proof.
  destruct o as [m r]. cbn [or_Mode or_ReorderWindowMS]. intros Hm Hr. wire_facts. unfold decOrdering, optional.
  destruct (Z.ltb_spec 0 r); rewrite decStruct_tree by reflexivity; cbn [app]; read_fields; [by rewrite Z.max_r by lia|by rewrite Z.max_l by lia].
Qed.

(** A pointer field that is present. *)
Lemma decPtr_tree {A} (zero : A) (d : decoder A) v x : d zero (treeOf v) = Some x -> (match v with GNull => false | GRaw _ => false | GAny _ => false | _ => true end) = true ->
  decPtr zero d None (treeOf v) = Some (Some x).
Proof. intros Hd Hv. destruct v; try done; unfold decPtr; cbn [treeOf arrTree objTree default] in *; by rewrite Hd. Qed.

Definition orNil {A} (l : list A) : option (list A) := match l with [] => None | _ => Some l end.

(** The next field of the rendering, by the lemma of its kind. *)
Ltac step_config Hint Hstr Hrt Hor Hak Hpl := set_field; first
  [ rewrite Hint by done | rewrite Hstr by done | rewrite Hrt | rewrite Hor | erewrite Hak by reflexivity | erewrite Hpl by reflexivity ]; cbn [mbind option_bind].

Lemma config_read cfg : wireConfig cfg = true -> ValidString (cfg_ReliabilityMode cfg) = true -> ValidString (cfg_FirstEventOp cfg) = true ->
  ValidString (rt_Type (cfg_Retention cfg)) = true -> ValidString (or_Mode (cfg_Ordering cfg)) = true ->
  let rt := shownRetention (cfg_Retention cfg) in
  decConfig configRequest0 (treeOf (collectionConfigDTO cfg)) =
  Some (mkConfigRequest (Some (cfg_ReliabilityMode cfg)) (Some (cfg_SnapshotInterval cfg)) (Some (mkRetentionRequest (rt_Type rt) (rt_Days rt) (rt_Keep rt))) (Some (cfg_MaxEventSizeBytes cfg))
    (Some (cfg_FirstEventOp cfg)) (Some (mkOrderingRequest (or_Mode (cfg_Ordering cfg)) (Z.max 0 (or_ReorderWindowMS (cfg_Ordering cfg)))))
    (orNil (cfg_ArrayKeys cfg)) (orNil (map (fun kv => (kv.1, readPlugin kv.2)) (cfg_Plugins cfg)))).
Proof.
  intros Hw V1 V2 V3 V4 rt. unfold wireConfig in Hw. rewrite !andb_true_iff in Hw. destruct Hw as ((((Hi & Ha1) & Ha2) & Hp1) & Hp2).
  cbn [forallb] in Hi. rewrite !andb_true_iff in Hi. destruct Hi as (I1 & I2 & I3 & I4 & I5 & _).
  assert (forall z, int64 z = true -> decPtr 0%Z decInt None (treeOf (GInt z)) = Some (Some z)) as Hint by (intros z Hz; wire_facts; apply decPtr_tree; [by apply decInt_tree|done]).
  assert (forall s, ValidString s = true -> decPtr "" decString None (treeOf (GStr s)) = Some (Some s)) as Hstr by (intros s Hs; apply decPtr_tree; [by apply decString_tree|done]).
  pose proof (decMap_tree "" decString GStr id (cfg_ArrayKeys cfg) Ha1) as Hak. pose proof (decMap_tree plugin0 decPlugin pluginDTO readPlugin (cfg_Plugins cfg) Hp1) as Hpl.
  rewrite forallb_forall in Ha2, Hp2.
  assert (map (fun kv : string * string => (kv.1, id kv.2)) (cfg_ArrayKeys cfg) = cfg_ArrayKeys cfg) as Eid by (rewrite <- (map_id (cfg_ArrayKeys cfg)) at 2; apply map_ext; by intros []).
  rewrite Eid in Hak. unfold decConfig. destruct (config_known cfg) as (m & Em & Hk). rewrite Em, decStruct_tree by exact Hk. injection Em as <-. clear Hk. unfold configRequest0.
  assert (decPtr (mkRetentionRequest "" 0 0) decRetention None _ = _) as Hrt by (apply decPtr_tree; [by apply (retention_read (cfg_Retention cfg))|done]).
  assert (decPtr (mkOrderingRequest "" 0) decOrdering None _ = _) as Hor by (apply decPtr_tree; [by apply (ordering_read (cfg_Ordering cfg))|done]).
  assert (forall x y z, cfg_ArrayKeys cfg = x :: y -> z = treeOf (GObj (map (fun kv => (kv.1, GStr kv.2)) (x :: y))) -> decMap "" decString None z = Some (Some (x :: y))) as Hak'.
  { intros x y z E ->. rewrite <- E. apply Hak. intros kv [Hk Hv]%Ha2%andb_true_iff. split; [done|by apply decString_tree]. }
  assert (forall x y z, cfg_Plugins cfg = x :: y -> z = treeOf (GObj (map (fun kv => (kv.1, pluginDTO kv.2)) (x :: y))) -> decMap plugin0 decPlugin None z = Some (Some (map (fun kv => (kv.1, readPlugin kv.2)) (x :: y)))) as Hpl'.
  { intros x y z E ->. rewrite <- E. apply Hpl. intros kv [Hk Hv]%Hp2%andb_true_iff. split; [done|by apply plugin_read]. }
  clear Hak Hpl Eid. unfold plugin0 in Hpl'.
  match type of Hrt with _ _ (treeOf ?v) = _ => set (rv := v) in *; clearbody rv end. match type of Hor with _ _ (treeOf ?v) = _ => set (ov := v) in *; clearbody ov end.
  destruct (cfg_ArrayKeys cfg) as [|ak aks], (cfg_Plugins cfg) as [|p ps]; cbn [app]; repeat step_config Hint Hstr Hrt Hor Hak' Hpl'; reflexivity.
Qed.

Lemma plugin_wire p : wirePlugin p = true -> wireOK (pluginDTO p) = true.
Proof.
  intros [Hm Hp]%andb_true_iff. unfold pluginDTO, optional. destruct (nonEmpty _), (pc_Params p) as [[|kv l]|]; try done; cbn [app wireOK forallb snd andb]; by rewrite Hp.
Qed.

Lemma config_wire cfg : wireConfig cfg = true -> wireOK (collectionConfigDTO cfg) = true.
Proof.
  unfold wireConfig. rewrite !andb_true_iff. intros ((((Hi & Ha1) & Ha2) & Hp1) & Hp2). rewrite forallb_forall in Hp2. unfold collectionConfigDTO. cbv zeta. cbn [wireOK].
  assert (wireOK (GObj (map (fun kv => (kv.1, pluginDTO kv.2)) (cfg_Plugins cfg))) = true) as Hps.
  { cbn [wireOK]. apply forallb_forall. intros x ([k p] & <- & Hk%Hp2%andb_true_iff)%in_map_iff. apply plugin_wire. tauto. }
  assert (wireOK (GObj (map (fun kv => (kv.1, GStr kv.2)) (cfg_ArrayKeys cfg))) = true) as Has by (cbn [wireOK]; apply forallb_forall; by intros x ([k v] & <- & _)%in_map_iff).
  rewrite !forallb_app, !andb_true_iff. split_and!; try done.
  - destruct (cfg_ArrayKeys cfg); [done|]. cbn [forallb snd]. by rewrite Has.
  - unfold optional. by destruct (_ <? _)%Z.
  - destruct (cfg_Plugins cfg); [done|]. cbn [forallb snd]. by rewrite Hps.
  - cbn [forallb snd wireOK]. repeat case_match; done.
Qed.

Lemma positive_ok field n : (0 < n)%Z -> positive field (Some n) = Ok n.
Proof. intros Hn. unfold positive. by destruct (Z.leb_spec n 0); [lia|]. Qed.

(** ** An effective configuration *)

(** What [WithDefaults] makes of a validated one. *)
Record effectiveConfig (cfg : CollectionConfig) : Prop := {
  ec_mode : ValidReliabilityMode (cfg_ReliabilityMode cfg) = true;
  ec_first : ValidFirstEventOp (cfg_FirstEventOp cfg) = true;
  ec_order : ValidOrderingMode (or_Mode (cfg_Ordering cfg)) = true;
  ec_retention : ValidRetentionType (rt_Type (cfg_Retention cfg)) = true;
  ec_interval : (0 < cfg_SnapshotInterval cfg)%Z;
  ec_size : (0 < cfg_MaxEventSizeBytes cfg)%Z;
  ec_plugins : validatePlugins (cfg_Plugins cfg) = Ok tt }.

Lemma known_valid s : ValidReliabilityMode s = true \/ ValidFirstEventOp s = true \/ ValidOrderingMode s = true \/ ValidRetentionType s = true -> ValidString s = true /\ str_eqb s "" = false.
Proof.
  unfold ValidReliabilityMode, ValidFirstEventOp, ValidOrderingMode, ValidRetentionType. rewrite !orb_true_iff, !str_eqb_eq. intros Hs.
  repeat match goal with H : _ \/ _ |- _ => destruct H end; subst; vm_compute; done.
Qed.

Lemma shown_plugins ps : validatePlugins ps = Ok tt -> validatePlugins (map (fun kv => (kv.1, shownPlugin kv.2)) ps) = Ok tt.
Proof. induction ps as [|[k p] ps IH]; [done|]. cbn. destruct (badEnum _ _); [done|exact IH]. Qed.

Lemma shown_plugin p : pluginDTO (shownPlugin p) = pluginDTO p.
Proof. unfold pluginDTO, shownPlugin. by destruct p as [e m [[|kv l]|]]. Qed.

Section Effective.
Variables (name : string) (cfg : CollectionConfig).
Hypothesis eff : effectiveConfig cfg.

Lemma shown_effective : effectiveConfig (shownConfig name cfg).
Proof. destruct eff. by split; try apply shown_plugins. Qed.

Lemma effective_same : WithDefaults cfg = cfg /\ Validate cfg = Ok tt /\ defaultedFields cfg = [].
Proof.
  destruct eff as [H1 H2 H3 H4 H5 H6 H7]. destruct cfg as [n rm si [ty d k] ms fe [om ow] ak pl]. cbn [cfg_Name cfg_ReliabilityMode cfg_SnapshotInterval cfg_Retention cfg_MaxEventSizeBytes cfg_FirstEventOp cfg_Ordering cfg_ArrayKeys cfg_Plugins or_Mode or_ReorderWindowMS rt_Type rt_Days rt_Keep] in *.
  destruct (known_valid rm) as [_ E1]; [tauto|]. destruct (known_valid fe) as [_ E2]; [tauto|]. destruct (known_valid om) as [_ E3]; [tauto|]. destruct (known_valid ty) as [_ E4]; [tauto|].
  assert ((si =? 0)%Z = false /\ (si <? 0)%Z = false /\ (ms =? 0)%Z = false /\ (ms <? 0)%Z = false) as (E5 & E6 & E7 & E8) by lia.
  unfold WithDefaults, Validate, defaultedFields, orElse, orElseZ, badEnum. cbn [cfg_Name cfg_ReliabilityMode cfg_SnapshotInterval cfg_Retention cfg_MaxEventSizeBytes cfg_FirstEventOp cfg_Ordering cfg_ArrayKeys cfg_Plugins or_Mode or_ReorderWindowMS rt_Type rt_Days rt_Keep]. rewrite H1, H2, H3, H4, E1, E2, E3, E4, E5, E6, E7, E8, !andb_false_r. done.
Qed.

Lemma shown_same : collectionConfigDTO (shownConfig name cfg) = collectionConfigDTO cfg.
Proof.
  unfold collectionConfigDTO, shownConfig. cbv zeta. cbn [cfg_Name cfg_ReliabilityMode cfg_SnapshotInterval cfg_Retention cfg_MaxEventSizeBytes cfg_FirstEventOp cfg_Ordering cfg_ArrayKeys cfg_Plugins or_Mode or_ReorderWindowMS].
  unfold shownRetention. cbn [rt_Type rt_Days rt_Keep].
  assert (optional (0 <? Z.max 0 (or_ReorderWindowMS (cfg_Ordering cfg)))%Z "reorder_window_ms" (GInt (Z.max 0 (or_ReorderWindowMS (cfg_Ordering cfg)))) =
    optional (0 <? or_ReorderWindowMS (cfg_Ordering cfg))%Z "reorder_window_ms" (GInt (or_ReorderWindowMS (cfg_Ordering cfg)))) as ->.
  { destruct (Z.le_gt_cases (or_ReorderWindowMS (cfg_Ordering cfg)) 0) as [Hle|]; [|by rewrite Z.max_r by lia]. rewrite Z.max_l by lia. unfold optional. by destruct (Z.ltb_spec 0 (or_ReorderWindowMS (cfg_Ordering cfg))); [lia|]. }
  assert (map (fun kv => (kv.1, pluginDTO kv.2)) (map (fun kv => (kv.1, shownPlugin kv.2)) (cfg_Plugins cfg)) = map (fun kv => (kv.1, pluginDTO kv.2)) (cfg_Plugins cfg)) as Hp.
  { rewrite map_map. apply map_ext. intros [k p]. cbn. by rewrite shown_plugin. }
  destruct (cfg_Plugins cfg) as [|p ps]; [|cbn [map] in *; rewrite Hp]; by destruct (str_eqb (rt_Type (cfg_Retention cfg)) RetentionDays), (str_eqb (rt_Type (cfg_Retention cfg)) RetentionVersions).
Qed.

Lemma decode_shown r body : wireConfig cfg = true -> (height (treeOf (collectionConfigDTO cfg)) <= maxNestingDepth)%Z -> marshal (collectionConfigDTO cfg) = Some body -> rq_Body r = body ->
  decodeConfigRequest r name = Ok (shownConfig name cfg).
Proof.
  intros Hw Hh Hm Hb. unfold decodeConfigRequest. rewrite Hb, (DecodeFirst_marshal _ _ _ _ (config_wire cfg Hw) Hh Hm). destruct eff as [H1 H2 H3 H4 H5 H6 _].
  rewrite config_read by (done || (apply known_valid; tauto)). cbn [cq_ReliabilityMode cq_SnapshotInterval cq_Retention cq_MaxEventSizeBytes cq_FirstEventOp cq_Ordering cq_ArrayKeys cq_Plugins].
  rewrite !positive_ok by done. cbn. unfold shownConfig. f_equal. f_equal; [by destruct (cfg_ArrayKeys cfg)|]. destruct (cfg_Plugins cfg) as [|p ps]; [done|]. cbn [map orNil default id fst snd]. f_equal.
  rewrite map_map. apply map_ext. by intros [k q].
Qed.
End Effective.

Lemma defaults_effective stored : Validate stored = Ok tt -> effectiveConfig (WithDefaults stored).
Proof.
  intros Hv. assert (validatePlugins (cfg_Plugins stored) = Ok tt) as Hp by (unfold Validate in Hv; by repeat case_match).
  destruct (with_defaults_valid stored Hv) as (H1 & H2 & H3 & H4 & H5 & H6 & _). by split.
Qed.

Lemma defaults_wire stored : wireConfig stored = true -> wireConfig (WithDefaults stored) = true.
Proof.
  unfold wireConfig. cbn [WithDefaults cfg_SnapshotInterval cfg_MaxEventSizeBytes cfg_Retention cfg_Ordering cfg_ArrayKeys cfg_Plugins rt_Days rt_Keep or_ReorderWindowMS forallb].
  rewrite !andb_true_iff. intros ((((Hi & H1) & H2) & H3) & H4). unfold orElseZ. split_and!; try tauto; destruct (_ =? 0)%Z; try reflexivity; tauto.
Qed.

(** C35: The configuration the API shows can be sent back.  [GET] of a collection's
    configuration answers with the stored one, its defaults filled in.  [PUT] of that
    very text to the same collection is never refused as invalid: it fails only when the
    storage does, and otherwise answers with the same configuration; the next [GET] shows
    it again, with every setting explicit and none left to a default. *)
Theorem config_api_roundtrip {W : Type} `{CollectionRepositoryLaws W} {AS : AuditStore W} {AL : AuditLaws W} (audit : bool) (auditID : string) (now : time) (errorText : string -> string)
    (get put : request) (stored : CollectionConfig) (body : string) (cr cr' : ConfigResolver) (w w' : W) (rs : response) :
  let coll := rq_URLParam get "collection" in
  let shown := collectionConfigDTO (WithDefaults stored) in
  let service := configService audit auditID now in
  rq_URLParam put "collection" = coll -> rq_Context put = rq_Context get -> canAccess get coll = Ok tt ->
  GetConfig (rq_Context get) coll w = Ok stored -> Validate stored = Ok tt -> wireConfig stored = true ->
  (height (treeOf shown) <= maxNestingDepth)%Z -> marshal shown = Some body -> rq_Body put = body ->
  getConfig (H := service) get (cr, w) = writeJSON 200 (GObj [("config", shown); ("defaults", GArr (map GStr (defaultedFields stored)))]) /\
  (putConfig (H := service) errorText put (cr, w) = (rs, (cr', w')) ->
   (exists e w1, SaveConfig (rq_Context get) (shownConfig coll (WithDefaults stored)) w = (Err e, w1)) \/ 
   (exists w1 e w2, SaveConfig (rq_Context get) (shownConfig coll (WithDefaults stored)) w = (Ok tt, w1) /\ EnsurePhysical (rq_Context get) coll w1 = (Err e, w2)) \/
   (rs = writeJSON 200 (GObj [("config", shown)]) /\
    getConfig (H := service) get (cr', w') = writeJSON 200 (GObj [("config", shown); ("defaults", GArr [])]))).
Proof.
  intros coll shown service Hcoll Hctx Hacc Hget Hval Hwire Hh Hm Hb. pose proof (defaults_effective stored Hval) as Heff. pose proof (defaults_wire stored Hwire) as Hw.
  set (sent := shownConfig coll (WithDefaults stored)). assert (effectiveConfig sent) as Hsent by (by apply shown_effective).
  destruct (effective_same _ Hsent) as (E1 & E2 & E3). assert (collectionConfigDTO sent = shown) as E4 by (by apply shown_same).
  split; [unfold getConfig; fold coll; rewrite Hacc; cbn [service svcGetStored configService snd]; unfold GetStored; by rewrite Hget|].
  unfold putConfig. rewrite Hcoll. assert (canAccess put coll = Ok tt) as Hacc' by (unfold canAccess in *; by rewrite Hctx). rewrite Hacc'.
  rewrite (decode_shown coll _ Heff put body Hw Hh Hm Hb). fold sent. cbn [bad]. rewrite Hctx. cbn [service svcUpdateConfig configService fst snd]. unfold UpdateConfig. rewrite E2.
  destruct (SaveConfig _ sent w) as [[[]|e] w1] eqn:Es; [|intros _; left; by exists e, w1]. change (cfg_Name sent) with coll.
  destruct (EnsurePhysical _ coll w1) as [[[]|e] w2] eqn:Ee; [|intros _; right; left; by exists w1, e, w2]. rewrite E1, E4. intros [= <- <- <-]. right. right. split; [done|].
  unfold getConfig. fold coll. rewrite Hacc. cbn [service svcGetStored configService snd]. unfold GetStored. rewrite get_after_recordAudit, (get_after_ensure _ _ _ _ _ _ _ Ee).
  rewrite (get_after_save _ _ _ _ Es : GetConfig (rq_Context get) coll w1 = Ok sent). by rewrite E1, E3, E4.
Qed.

(** ** A run *)

Import MemConfigs.

(** Retention by days, a plugin with parameters, keyed arrays; the rest left to defaults. *)
Definition ex_stored : CollectionConfig :=
  mkConfig "crm.deals" "" 50 (mkRetention "days" 90 3) 0 "" (mkOrdering "source" 500) [("items", "sku")]
    [("audit", mkPluginConfig true "closed" (Some [("level", JStr "full"); ("tags", JArr [JStr "<a>"])])); ("hash", mkPluginConfig false "" (Some []))].
Definition ex_configs : MemConfigs.store := [(MemConfigs.key ex_ctx "crm.deals", ex_stored)].
Definition ex_configBody : string := Eval vm_compute in default "" (marshal (collectionConfigDTO (WithDefaults ex_stored))).
Definition ex_configRequest (body : string) : request := WithContext (ex_request [] [("collection", "crm.deals")] "" body) ex_ctx.

Lemma config_api_roundtrip_witness :
  let shown := collectionConfigDTO (WithDefaults ex_stored) in
  let answer := putConfig (H := configService true "aud_1" 5) (fun f => f) (ex_configRequest ex_configBody) (NewConfigResolver true 0, ex_configs) in
  fst answer = writeJSON 200 (GObj [("config", shown)]) /\
  getConfig (H := configService true "aud_1" 5) (ex_configRequest "") (snd answer) = writeJSON 200 (GObj [("config", shown); ("defaults", GArr [])]) /\
  defaultedFields ex_stored = ["reliability_mode"; "max_event_size_bytes"; "first_event_op"].
Proof.
  intros shown answer. destruct answer as [rs [cr' w']] eqn:E.
  destruct (config_api_roundtrip true "aud_1" 5 (fun f => f) (ex_configRequest "") (ex_configRequest ex_configBody) ex_stored ex_configBody (NewConfigResolver true 0) cr' ex_configs w' rs) as [_ Hput].
  - reflexivity.
  - reflexivity.
  - vm_compute. reflexivity.
  - vm_compute. reflexivity.
  - vm_compute. reflexivity.
  - vm_compute. reflexivity.
  - vm_compute. discriminate.
  - vm_compute. reflexivity.
  - reflexivity.
  - destruct (Hput E) as [(e & w1 & Hs)|[(w1 & e & w2 & Hs & He)|[Hr Hg]]]; [discriminate Hs|discriminate He|].
    split; [exact Hr|]. split; [exact Hg|vm_compute; reflexivity].
Defined.
