(* ===== verification/ServerSound.v ===== *)
(** * Guarantees of the HTTP surface

    Who gets through to a use-case and with which command, what an answer says about the
    stored data, and that a batch item means what the single write means. *)

From stdpp Require Import base list strings.
From Stdlib Require Import ZArith Lia Ascii.
From S2P Require Import Prelude GoMap Json Paths Diff DiffSound Domain Tenant Config Names Alias AliasSound Repo Plugin Ingest DiffValues IngestSound MemStore Pipeline AsyncMem WorkerSound Numbers Worker JsonText TimeText JsonSound Http ServerIngest ServerBatch WireSound.

(** ** Requests on their way in *)

(** The byte limit in force. *)
Definition effectiveLimit (max : Z) : Z := if (max <=? 0)%Z then DefaultMaxEventSizeBytes else max.

Lemma substring_short n s : (n <= String.length s)%nat -> String.length (String.substring 0 n s) = n.
Proof.
  revert n. induction s as [|c s IH]; intros [|n] Hn; cbn [String.length String.substring] in *; try done; [lia|].
  rewrite IH; [done|]. by apply le_S_n.
Qed.

(** A body that was read is the whole body and within the limit, except at the largest
    limit, where adding one overflows and every body reads as empty. *)
Lemma readLimited_spec r max body : (max < 2 ^ 63)%Z -> readLimited r max = Ok body ->
  (body = rq_Body r /\ (Z.of_nat (String.length body) <= effectiveLimit max)%Z) \/ (max = 2 ^ 63 - 1 /\ body = "")%Z.
Proof.
  intros Hm. unfold readLimited. fold (effectiveLimit max). set (lim := effectiveLimit max).
  assert (0 < lim < 2 ^ 63)%Z as Hl by (unfold lim, effectiveLimit; destruct (Z.leb_spec max 0); [by vm_compute|lia]).
  unfold readUpTo. destruct (Z.eq_dec lim (2 ^ 63 - 1)) as [E|E].
  - rewrite E. change (wrap64 (2 ^ 63 - 1 + 1)) with (- 2 ^ 63)%Z. rewrite (proj2 (Z.leb_le _ _)) by lia. change (Z.to_nat (- 2 ^ 63)) with 0.
    assert (String.substring 0 0 (rq_Body r) = "") as -> by (by destruct (rq_Body r)). cbv iota. rewrite (proj2 (Z.ltb_ge _ _)) by (cbn; lia). intros [= <-]. right.
    split; [|done]. unfold lim, effectiveLimit in E. destruct (Z.leb_spec max 0); [by vm_compute in E|done].
  - rewrite wrap64_id by lia. destruct (Z.leb_spec (lim + 1) (Z.of_nat (String.length (rq_Body r)))) as [Hle|Hgt].
    + rewrite substring_short by lia. by rewrite (proj2 (Z.ltb_lt _ _)) by lia.
    + destruct (rq_BodyFails r); [done|]. rewrite (proj2 (Z.ltb_ge _ _)) by lia. intros [= <-]. left. split; [done|lia].
Qed.

(** So a body that decodes is the request's. *)
Lemma decoded_body {A} (d : decoder A) zero r max body v : (max < 2 ^ 63)%Z -> readLimited r max = Ok body -> Unmarshal d zero body = Some v ->
  Unmarshal d zero (rq_Body r) = Some v /\ (Z.of_nat (String.length (rq_Body r)) <= effectiveLimit max)%Z.
Proof.
  intros Hm Hr Hd. apply readLimited_spec in Hr as [[-> ?]|[_ ->]]; [done| |done]. done.
Qed.

(** The three write endpoints. *)
Definition writeEndpoint (kind : string) (toCommand : request -> string -> string -> ingestRequest -> res response IngestCommand) : Prop :=
  (kind, toCommand) ∈ [(KindState, stateCommand); (KindDiff, diffCommand); (KindDelete, deleteCommand)].

Lemma build_target r coll eid req op cmd : buildCommand r coll eid req op = Ok cmd -> ic_Collection cmd = coll /\ ic_EntityID cmd = eid.
Proof. unfold buildCommand. destruct (bad (parseMode r)); [|done]. destruct (bad (mapFlowBlockE _)); [|done]. destruct (bad (mapChangeList _)); [|done]. by intros [= <-]. Qed.

Lemma endpoint_target kind toCommand r coll eid req cmd : writeEndpoint kind toCommand -> toCommand r coll eid req = Ok cmd ->
  ic_Collection cmd = coll /\ ic_EntityID cmd = eid.
Proof.
  unfold writeEndpoint. rewrite !elem_of_cons, elem_of_nil. intros [[= -> ->]|[[= -> ->]|[[= -> ->]|[]]]].
  - unfold stateCommand. destruct (bad _); [|done]. destruct (ig_State req); [|done]. destruct (buildCommand r coll eid req a) as [c|] eqn:E; [|done].
    intros [= <-]. by apply build_target in E.
  - unfold diffCommand. destruct (bad _) as [op|]; [|done]. destruct (buildCommand r coll eid req op) as [c|] eqn:E; [|done]. apply build_target in E.
    destruct (str_eqb op OpCreate), (ig_State req), (str_eqb op OpDelete), (ic_Changes c); try done; by intros [= <-].
  - unfold deleteCommand. destruct (_ && _); [done|]. by intros ?%build_target.
Qed.

(** The whole route of a write endpoint. *)
Definition writeRoute {W : Type} `{IngestService W} (resolve : string -> res tenantErr Principal) (kind : string)
    (toCommand : request -> string -> string -> ingestRequest -> res response IngestCommand) : handler W :=
  RequireAuth resolve (RequireScope ScopeWrite (ingestWith kind toCommand)).

(** What a request must be for its write to be attempted. *)
Record admitted {W : Type} `{IngestService W} (resolve : string -> res tenantErr Principal)
    (toCommand : request -> string -> string -> ingestRequest -> res response IngestCommand) (r : request) (w w1 : W) (p : Principal) (cmd : IngestCommand) : Prop := {
  ad_key : resolve (bearerToken r) = Ok p;
  ad_scope : HasScope p ScopeWrite = true;
  ad_mask : CanAccess p (rq_URLParam r "collection") = true;
  ad_name : validCollectionName (rq_URLParam r "collection") = true;
  ad_entity : rq_URLParam r "entityId" <> "";
  ad_body : exists cfg req, svcConfig (Some p) (rq_URLParam r "collection") w = (Ok cfg, w1) /\
    ((cfg_MaxEventSizeBytes cfg < 2 ^ 63)%Z -> (Z.of_nat (String.length (rq_Body r)) <= effectiveLimit (cfg_MaxEventSizeBytes cfg))%Z /\
       Unmarshal decIngest ingestRequest0 (rq_Body r) = Some req) /\
    toCommand (WithContext r (Some p)) (rq_URLParam r "collection") (rq_URLParam r "entityId") req = Ok cmd }.

Lemma ingest_error_status e : (400 <= rs_Status (writeIngestError e))%Z.
Proof. destruct e; cbn; lia. Qed.

Lemma bad_status {A} (x : res string A) rs : bad x = Err rs -> (400 <= rs_Status rs)%Z.
Proof. destruct x; [done|]. intros [= <-]. cbn. lia. Qed.

Lemma build_status r coll eid req op rs : buildCommand r coll eid req op = Err rs -> (400 <= rs_Status rs)%Z.
Proof.
  unfold buildCommand. destruct (bad (parseMode r)) eqn:E1; [|intros [= <-]; by eapply bad_status].
  destruct (bad (mapFlowBlockE _)) eqn:E2; [|intros [= <-]; by eapply bad_status].
  destruct (bad (mapChangeList _)) eqn:E3; [done|intros [= <-]; by eapply bad_status].
Qed.

Lemma endpoint_status kind toCommand r coll eid req rs : writeEndpoint kind toCommand -> toCommand r coll eid req = Err rs -> (400 <= rs_Status rs)%Z.
Proof.
  unfold writeEndpoint. rewrite !elem_of_cons, elem_of_nil. intros [[= -> ->]|[[= -> ->]|[[= -> ->]|[]]]].
  - unfold stateCommand. destruct (bad _) eqn:E1; [|intros [= <-]; by eapply bad_status]. destruct (ig_State req); [|intros [= <-]; cbn; lia].
    destruct (buildCommand _ _ _ _ _) eqn:E2; [done|intros [= <-]; by eapply build_status].
  - unfold diffCommand. destruct (bad _) as [op|] eqn:E1; [|intros [= <-]; by eapply bad_status].
    destruct (buildCommand _ _ _ _ _) as [c|] eqn:E2; [|intros [= <-]; by eapply build_status].
    destruct (str_eqb op OpCreate), (ig_State req), (str_eqb op OpDelete), (ic_Changes c); try done; intros [= <-]; cbn; lia.
  - unfold deleteCommand. destruct (_ && _); [intros [= <-]; cbn; lia|]. apply build_status.
Qed.

Lemma write_route_cases {W : Type} `{IngestService W} (resolve : string -> res tenantErr Principal) (kind : string)
    (toCommand : request -> string -> string -> ingestRequest -> res response IngestCommand) (r : request) (w : W) :
  writeEndpoint kind toCommand ->
  let '(rs, w') := writeRoute resolve kind toCommand r w in
  (exists p w1 cmd x, admitted resolve toCommand r w w1 p cmd /\ svcWrite kind (Some p) cmd w1 = (x, w') /\ rs = respond x) \/
  (400 <= rs_Status rs)%Z /\ (w' = w \/ exists p cfg, resolve (bearerToken r) = Ok p /\ svcConfig (Some p) (rq_URLParam r "collection") w = (cfg, w')).
Proof.
  intros Hend. unfold writeRoute, RequireAuth, RequireScope. destruct (resolve (bearerToken r)) as [p|e] eqn:Hkey.
  2: { destruct e; right; (split; [cbn; lia|by left]). }
  change (FromContext (rq_Context (WithContext r (NewContext (rq_Context r) p)))) with (Some p). cbv iota beta.
  destruct (HasScope p ScopeWrite) eqn:Hscope; [|right; split; [cbn; lia|by left]].
  change (NewContext (rq_Context r) p) with (Some p). unfold ingestWith, pathParams. cbn [rq_URLParam WithContext].
  set (coll := rq_URLParam r "collection"). set (eid := rq_URLParam r "entityId").
  destruct (validCollectionName coll) eqn:Hname; cbn [negb]; [|right; split; [cbn; lia|by left]].
  destruct (str_eqb eid "") eqn:Heid; [right; split; [cbn; lia|by left]|]. unfold readRequest, canAccess.
  change (FromContext (rq_Context (WithContext r (Some p)))) with (Some p). cbv iota beta. destruct (CanAccess p coll) eqn:Hmask; [|right; split; [cbn; lia|by left]].
  cbn [rq_Context WithContext]. destruct (svcConfig (Some p) coll w) as [[cfg|e] w1] eqn:Hcfg.
  2: { right. split; [apply ingest_error_status|]. right. by exists p, (Err e). }
  assert (forall rs, (400 <= rs_Status rs)%Z -> (400 <= rs_Status rs)%Z /\ (w1 = w \/ exists p0 cfg0, Ok p = Ok (E := tenantErr) p0 /\ svcConfig (Some p0) coll w = (cfg0, w1))) as Hstop
    by (intros rs Hrs; split; [done|]; right; by exists p, (Ok cfg)).
  destruct (readLimited _ _) as [body|rs] eqn:Hbody.
  2: { right. apply Hstop. unfold readLimited in Hbody. destruct (readUpTo _ _); [destruct (_ <? _)%Z; [|done]|]; injection Hbody as <-; cbn; lia. }
  destruct (Unmarshal _ _ body) as [req|] eqn:Hreq; [|right; apply Hstop; cbn; lia].
  destruct (toCommand _ coll eid req) as [cmd|rs] eqn:Hcmd; [|right; apply Hstop; by eapply endpoint_status].
  destruct (svcWrite kind (Some p) cmd w1) as [x w2] eqn:Hw. left. exists p, w1, cmd, x. split; [|done].
  split; try done; [by apply str_eqb_neq|]. exists cfg, req. split_and!; [done| |done].
  intros Hm. destruct (decoded_body decIngest ingestRequest0 _ _ _ _ Hm Hbody Hreq). done.
Qed.

(** C26: Only an admitted request reaches a write.  For each write endpoint behind its
    authentication and scope checks, either the request carries a key that resolves to a
    principal with the write scope whose mask covers the collection, names a valid
    collection and an entity, has a body within the collection's size limit that decodes,
    and maps to a command: then that command is what the use-case gets, under that
    principal, and the answer is the rendering of its result.  Or the answer is an error
    and nothing but the provisioning of the collection has happened. *)
Theorem write_gate {W : Type} `{IngestService W} (resolve : string -> res tenantErr Principal) (kind : string)
    (toCommand : request -> string -> string -> ingestRequest -> res response IngestCommand) (r : request) (w : W) :
  writeEndpoint kind toCommand ->
  let '(rs, w') := writeRoute resolve kind toCommand r w in
  (exists p w1 cmd x, admitted resolve toCommand r w w1 p cmd /\ svcWrite kind (Some p) cmd w1 = (x, w') /\ rs = respond x) \/
  (400 <= rs_Status rs)%Z /\ (w' = w \/ exists p cfg, resolve (bearerToken r) = Ok p /\ svcConfig (Some p) (rq_URLParam r "collection") w = (cfg, w')).
Proof. apply write_route_cases. Qed.

(** ** The write facade behind the endpoints *)

Section Facade.
Context {W P : Type} `{TaskCodec P} `{TicketStore W} `{IdempotencyStore W} `{StoreLaws W} `{CollectionRepository W} {CF : ConfigFrame W}.
Variables grow dcap : nat -> nat.

(** [AsyncIngester] as the service of the handlers; its state is the configuration cache
    and the stores.  The ticket id and the clock of the request are arguments. *)
Definition facade (a : AsyncIngester (W := W) (P := P)) (ticketID : string) (now nowNano : Z) : IngestService (ConfigResolver * W) := {|
  svcConfig c collection s := let '(x, cr, w) := EnsureCollection (fst s) now c collection (snd s) in (x, (cr, w));
  svcWrite kind c cmd s := let '(x, cr, w) := dispatch grow dcap a ticketID now nowNano (fst s) c kind cmd (snd s) in (x, (cr, w)) |}.

(** Only a strict write is answered with a stored result. *)
Lemma enqueue_async a ticketID now nowNano c kind mode cmd w x w' :
  enqueue (P := P) a ticketID now nowNano c kind mode cmd w = (Ok x, w') -> ir_Async x = true.
Proof.
  unfold enqueue. destruct (FromContext c) as [p|]; [|done]. destruct (match as_limiter a with Some _ => _ | None => _ end) as [ok d]. destruct (negb ok); [done|].
  assert (forall key w1, (let '(y, w2) := openAndPublish a now nowNano c ticketID kind mode p cmd w1 in
     match y with Ok _ => (Ok (asyncResult (ic_EntityID cmd) ticketID false), w2) | Err e => (Err e, match key with Some k => snd (Release c k w2) | None => w2 end) end) = (Ok x, w') -> ir_Async x = true) as Hship.
  { intros key w1. destruct (openAndPublish _ _ _ _ _ _ _ _ _ w1) as [[]]; [|done]. by intros [= <- _]. }
  destruct (idempKey a cmd) as [key|].
  - destruct (Reserve _ _ _ w) as [[[existing|]|] w1].
    + by intros [= <- _].
    + intros E. apply (Hship (Some key) w1). by destruct (openAndPublish _ _ _ _ _ _ _ _ _ w1) as [[]].
    + intros E. apply (Hship None w1). by destruct (openAndPublish _ _ _ _ _ _ _ _ _ w1) as [[]].
  - intros E. apply (Hship None w). by destruct (openAndPublish _ _ _ _ _ _ _ _ _ w) as [[]].
Qed.

Lemma respond_stored x : rs_Status (respond x) = 200%Z \/ rs_Status (respond x) = 201%Z -> exists y, x = Ok y /\ ir_Async y = false.
Proof.
  destruct x as [y|e]; [|pose proof (ingest_error_status e) as He; cbn [respond]; lia]. intros Hs. exists y. split; [done|].
  destruct (ir_Async y) eqn:E; [|done]. cbn [respond] in Hs. rewrite E in Hs. cbn in Hs. lia.
Qed.

(** The configuration and the current state a strict write of this request works with. *)
Definition preparesAs (now : time) (c : ctx) (coll : string) (cr : ConfigResolver) (w : W) (cmd : IngestCommand) (cfg : CollectionConfig) (cur : option CurrentState) : Prop :=
  exists cfg0 cr1 w1 cfg1 cr2 w2 cr3 w3, EnsureCollection cr now c coll w = (Ok cfg0, cr1, w1) /\ EnsureCollection cr1 now c coll w1 = (Ok cfg1, cr2, w2) /\
    prepare cr2 now c cmd w2 = (Ok (cfg, cur), cr3, w3).

(** C2: What a write answered with 200 or 201 guarantees.  Through the whole path, from
    the raw request to the stores (key, scope, mask, provisioning, size limit, JSON,
    command, mode, write), an answer that says stored, duplicate or no change leaves the
    entity consistent: gap-free versions, current state and snapshots equal to the replay
    of the history; and it leaves every other consistent entity of the collection so.
    The mapped command must be in the scope of [faithfulWrite]. *)
Theorem http_write_consistent (a : AsyncIngester (W := W) (P := P)) (ticketID : string) (now nowNano : Z)
    (resolve : string -> res tenantErr Principal) (kind : string) (toCommand : request -> string -> string -> ingestRequest -> res response IngestCommand)
    (r : request) (p : Principal) (coll eid : string) (cr cr' : ConfigResolver) (w w' : W) (rs : response) :
  writeEndpoint kind toCommand -> effectsFrame (as_sync a) ->
  resolve (bearerToken r) = Ok p -> rq_URLParam r "collection" = coll -> rq_URLParam r "entityId" = eid ->
  (forall cfg cr1 w1, EnsureCollection cr now (Some p) coll w = (Ok cfg, cr1, w1) -> (cfg_MaxEventSizeBytes cfg < 2 ^ 63)%Z) ->
  (forall req cmd cfg cur, Unmarshal decIngest ingestRequest0 (rq_Body r) = Some req ->
     toCommand (WithContext r (Some p)) coll eid req = Ok cmd -> preparesAs now (Some p) coll cr w cmd cfg cur -> faithfulWrite grow dcap cfg kind cmd cur) ->
  consistent w (Some p) coll eid ->
  writeRoute (W := ConfigResolver * W) (H := facade a ticketID now nowNano) resolve kind toCommand r (cr, w) = (rs, (cr', w')) ->
  rs_Status rs = 200%Z \/ rs_Status rs = 201%Z ->
  consistent w' (Some p) coll eid /\ (forall eid', eid' <> eid -> consistent w (Some p) coll eid' -> consistent w' (Some p) coll eid').
Proof.
  intros Hend Hfx Hkey Hcoll Heid Hlim Hfaith Hc Hrun Hst. subst coll eid.
  pose proof (@write_route_cases _ (facade a ticketID now nowNano) resolve kind toCommand r (cr, w) Hend) as Hcases. rewrite Hrun in Hcases.
  destruct Hcases as [(p' & [cr1 w1] & cmd & x & Had & Hw & ->)|[Hbad _]]; [|lia].
  destruct Had as [Hkey' _ _ _ _ (cfg & req & Hcfg & Hbody & Hcmd)]. rewrite Hkey in Hkey'. injection Hkey' as <-.
  set (coll := rq_URLParam r "collection") in *. set (eid := rq_URLParam r "entityId") in *.
  destruct (endpoint_target _ _ _ _ _ _ _ Hend Hcmd) as [Hic Hie]. cbn [svcConfig facade fst snd] in Hcfg.
  destruct (EnsureCollection cr now (Some p) coll w) as [[y cr0] w0] eqn:E0. injection Hcfg as -> -> ->.
  destruct (Hbody (Hlim _ _ _ eq_refl)) as [_ Hreq]. pose proof (ensure_frame cr now (Some p) coll w) as Hs0. rewrite E0 in Hs0. cbn [snd] in Hs0.
  destruct (respond_stored x Hst) as (y & -> & Hsync). cbn [svcWrite facade fst snd] in Hw.
  destruct (dispatch _ _ _ _ _ _ _ _ _ _ _) as [[z cr2] w2] eqn:Ed. injection Hw as -> -> ->.
  unfold dispatch in Ed. rewrite Hic in Ed. pose proof (ensure_frame cr1 now (Some p) coll w1) as Hs1.
  destruct (EnsureCollection cr1 now (Some p) coll w1) as [[[cfg1|e] cr3] w3] eqn:E1; [|done]. cbn [snd] in Hs1.
  assert (sameStore (Some p) w w3) as Hs by (by eapply sameStore_trans).
  destruct (str_eqb _ ReliabilityStrict).
  - assert (consistent w3 (Some p) (ic_Collection cmd) (ic_EntityID cmd)) as Hc3 by (rewrite Hic, Hie; by eapply consistent_same).
    assert (forall cfg' cur cr4 w4, prepare cr3 now (Some p) cmd w3 = (Ok (cfg', cur), cr4, w4) -> faithfulWrite grow dcap cfg' kind cmd cur) as Hf.
    { intros cfg' cur cr4 w4 Hp. apply (Hfaith req); [done|done|]. by exists cfg, cr1, w1, cfg1, cr3, w3, cr4, w4. }
    destruct (applyOne_consistent grow dcap _ _ _ _ _ _ _ _ _ _ Hfx Hf Hc3 Ed) as [HA HB].
    rewrite Hic, Hie in *. split; [done|]. intros eid' Hne He. apply HB; [done|]. by eapply consistent_same.
  - destruct (enqueue _ _ _ _ _ _ _ _ _) as [z w4] eqn:Ee. injection Ed as -> _ _. apply enqueue_async in Ee. congruence.
Qed.
End Facade.

(** ** Batch items *)

(** Two evaluated results that are the same command or both errors. *)
Ltac same_ok := cbn [bad mapChangeList]; cbv beta iota zeta; split; intros Hsame; first [discriminate Hsame|by injection Hsame as <-].

Lemma build_split r coll eid req op mode : parseMode r = Ok mode -> rq_Header r idempotencyKeyHeader = "" ->
  buildCommand r coll eid req op =
  match bad (mapFlowBlockE (ig_Flow req)) with
  | Err rs => Err rs
  | Ok flow =>
      match bad (mapChangeList (ig_Changes req)) with
      | Err rs => Err rs
      | Ok changes => Ok (mkCommand coll eid op mode (ig_ExpectedVersion req) (ig_AuthorID req) (ig_Source req) (default 0%Z (ig_TSSource req))
                            (ig_EventID req) (rq_RequestID r) (clientIP r) (ig_Meta req) None changes flow)
      end
  end.
Proof.
  intros Hm Hk. unfold buildCommand. rewrite Hm, Hk. cbn [bad]. destruct (str_eqb (ig_EventID req) "") eqn:E; [|done]. apply str_eqb_eq in E. by rewrite E.
Qed.

(** C36: A batch item means what the single write means.  Under the same mode header and
    without an idempotency header, an element of a batch is mapped to a command exactly
    when its payload, posted alone to the endpoint of its type, is, and to the same one;
    for state and delete items, as long as the payload has no [changes]. *)
Theorem batch_item_mapping (r : request) (item : batchItemRequest) (kind mode : string) (toCommand : request -> string -> string -> ingestRequest -> res response IngestCommand)
    (req : ingestRequest) (cmd : IngestCommand) :
  writeEndpoint kind toCommand -> parseMode r = Ok mode -> rq_Header r idempotencyKeyHeader = "" -> kind = KindDiff \/ ig_Changes req = None ->
  toCommand r (bi_Collection item) (bi_EntityID item) req = Ok cmd <-> buildBatchCommand item req kind mode (rq_RequestID r) (clientIP r) = Ok cmd.
Proof.
  intros Hend Hm Hk Hch. unfold writeEndpoint in Hend. rewrite !elem_of_cons, elem_of_nil in Hend. destruct Hend as [[= -> ->]|[[= -> ->]|[[= -> ->]|[]]]].
  - destruct Hch as [?|Hch]; [done|]. unfold stateCommand, buildBatchCommand. change (str_eqb KindState KindState) with true. cbv iota.
    destruct (parseOpE (ig_Op req)) as [op|]; [|same_ok]. cbn [bad]. destruct (ig_State req) as [st|]; [|destruct (mapFlowBlockE _); same_ok].
    rewrite (build_split _ _ _ _ _ mode Hm Hk), Hch. destruct (mapFlowBlockE _); same_ok.
  - unfold diffCommand, buildBatchCommand. change (str_eqb KindDiff KindState) with false. change (str_eqb KindDiff KindDiff) with true. cbv iota.
    destruct (parseOpE (ig_Op req)) as [op|]; [|same_ok]. cbn [bad]. rewrite (build_split _ _ _ _ _ mode Hm Hk).
    destruct (mapFlowBlockE _) as [flow|]; [|same_ok]. cbn [bad]. destruct (mapChangeList _) as [changes|]; [|same_ok]. cbn [bad ic_Changes].
    destruct (str_eqb op OpCreate), (ig_State req), (str_eqb op OpDelete), changes; same_ok.
  - destruct Hch as [?|Hch]; [done|]. unfold deleteCommand, buildBatchCommand. change (str_eqb KindDelete KindState) with false. change (str_eqb KindDelete KindDiff) with false.
    change (str_eqb KindDelete KindDelete) with true. cbv iota. rewrite (build_split _ _ _ _ _ mode Hm Hk), Hch. unfold parseOpE.
    destruct (str_eqb (ig_Op req) "") eqn:E0, (str_eqb (ig_Op req) OpDelete) eqn:E1; cbn [negb andb orb]; rewrite ?orb_true_r; try (destruct (mapFlowBlockE _); same_ok).
    destruct (_ || _); [|same_ok]. destruct (mapFlowBlockE _); same_ok.
Qed.

(** ** Runs *)

Definition ex_specs : list Spec := [mkSpec "acme" "" "" [mkKeySpec "" "key-1" ["write"; "read"] ["crm.*"]; mkKeySpec "" "key-2" ["read"] ["*"]]].
Definition ex_resolve (raw : string) : res tenantErr Principal :=
  match NewResolver ex_specs with Ok rs => Resolve rs raw | Err e => Err e end.
Definition ex_caller : Principal := match ex_resolve "key-1" with Ok p => p | Err _ => ex_principal end.

Definition ex_post (key mode body : string) : request :=
  ex_request [("Authorization", "Bearer " +:+ key); (modeHeader, mode)] [("collection", "crm.deals"); ("entityId", "deal-1")] "" (jtext body).
Definition ex_route (kind : string) (toCommand : request -> string -> string -> ingestRequest -> res response IngestCommand) (r : request) (s : ConfigResolver * asyncMem) : response * (ConfigResolver * asyncMem) :=
  writeRoute (H := facade ex_grow id ex_async "tkt_1" 7 7) ex_resolve kind toCommand r s.
Definition ex_fresh : ConfigResolver * asyncMem := (NewConfigResolver true 0, am0).
Definition ex_statePost : request := ex_post "key-1" "strict" "{'state': {'name': 'Acme', 'tags': ['a', 'b'], 'open': true}, 'author_id': 'u1'}".

Example route_statuses :
  map (fun r => rs_Status (ex_route KindState stateCommand r ex_fresh).1)
    [ex_statePost; ex_post "key-2" "strict" "{'state': {}}"; ex_post "nokey" "" ""; ex_post "key-1" "eager" "{'state': {}}"; ex_post "key-1" "" "{'state': {'a': 1}}"; ex_post "key-1" "strict" "{'op': 'create'}"]
  = [201; 403; 401; 400; 202; 400]%Z.
Proof. vm_compute. reflexivity. Qed.

Definition ex_stored : response * (ConfigResolver * asyncMem) := ex_route KindState stateCommand ex_statePost ex_fresh.

Lemma http_write_consistent_witness :
  rs_Status ex_stored.1 = 201%Z /\ consistent ex_stored.2.2 (Some ex_caller) "crm.deals" "deal-1" /\ length (history ex_stored.2.2 (Some ex_caller) "crm.deals" "deal-1") = 1.
Proof.
  split; [vm_compute; reflexivity|]. split; [|vm_compute; reflexivity].
  refine (proj1 (http_write_consistent ex_grow id ex_async "tkt_1" 7 7 ex_resolve KindState stateCommand ex_statePost ex_caller "crm.deals" "deal-1"
    ex_fresh.1 ex_stored.2.1 ex_fresh.2 ex_stored.2.2 ex_stored.1 _ _ _ _ _ _ _ _ _ _)).
  - left.
  - split; discriminate.
  - vm_compute. reflexivity.
  - reflexivity.
  - reflexivity.
  - intros cfg cr1 w1 E. vm_compute in E. injection E as <- _ _. vm_compute. reflexivity.
  - intros req cmd cfg cur Er Ec (cfg0 & cr1 & w1 & cfg1 & cr2 & w2 & cr3 & w3 & E0 & E1 & Ep).
    vm_compute in E0. injection E0 as <- <- <-. vm_compute in E1. injection E1 as <- <- <-. vm_compute in Er. injection Er as <-.
    vm_compute in Ec. injection Ec as <-. vm_compute in Ep. injection Ep as <- <- _ _. split; [|discriminate]. by vm_compute.
  - by repeat split.
  - vm_compute. reflexivity.
  - right. vm_compute. reflexivity.
Defined.

Lemma write_gate_witness : exists p w1 cmd x, admitted (H := facade ex_grow id ex_async "tkt_1" 7 7) ex_resolve stateCommand ex_statePost ex_fresh w1 p cmd /\
  svcWrite (IngestService := facade ex_grow id ex_async "tkt_1" 7 7) KindState (Some p) cmd w1 = (x, ex_stored.2) /\ p = ex_caller.
Proof.
  pose proof (write_gate (H := facade ex_grow id ex_async "tkt_1" 7 7) ex_resolve KindState stateCommand ex_statePost ex_fresh ltac:(left)) as Hg.
  change (writeRoute ex_resolve KindState stateCommand ex_statePost ex_fresh) with ex_stored in Hg. rewrite (surjective_pairing ex_stored) in Hg.
  destruct Hg as [(p & w1 & cmd & x & Had & Hw & _)|[Hs _]]; [|exfalso; revert Hs; vm_compute; intros Hs; by apply Hs].
  exists p, w1, cmd, x. split_and!; [exact Had|exact Hw|]. destruct Had as [Hk _ _ _ _ _]. unfold ex_caller.
  change (bearerToken ex_statePost) with "key-1" in Hk. by rewrite Hk.
Defined.

Definition ex_item : batchItemRequest := mkBatchItem "crm.deals" "deal-1" "diff" None.
Definition ex_payload : ingestRequest :=
  mkIngestRequest "" "update" (Some 3%Z) "u1" None "crm" None (Some (mkFlowInput "f1" (Some [mkRefInput "" "crm.leads" "lead-1" (Some 2%Z) ""]) "convert")) None
    (Some [mkChangeInput "stage" "change" (JStr "new") (JStr "won")]).

Lemma batch_item_mapping_witness :
  exists cmd, diffCommand (ex_post "key-1" "durable" "") "crm.deals" "deal-1" ex_payload = Ok cmd /\
    buildBatchCommand ex_item ex_payload KindDiff "durable" "req-1" "10.0.0.7" = Ok cmd /\ ic_Changes cmd = Some [mkChange "stage" OpChange (JStr "new") (JStr "won")].
Proof.
  destruct (diffCommand (ex_post "key-1" "durable" "") "crm.deals" "deal-1" ex_payload) as [cmd|rs] eqn:E; [|vm_compute in E; discriminate].
  exists cmd. split; [reflexivity|]. split.
  - apply (batch_item_mapping (ex_post "key-1" "durable" "") ex_item KindDiff "durable" diffCommand ex_payload cmd).
    + right. left.
    + vm_compute. reflexivity.
    + reflexivity.
    + left. reflexivity.
    + exact E.
  - vm_compute in E. injection E as <-. reflexivity.
Defined.

(** What the checks let through or refuse against their comments. *)

Definition ex_config (max : Z) : IngestService nat := {|
  svcConfig _ coll w := (Ok (mkConfig coll "" 0 (mkRetention "" 0 0) max "" (mkOrdering "" 0) [] []), S w);
  svcWrite _ _ cmd w := (Ok (mkResult (ic_EntityID cmd) 1 1 "create" false false "" false), w) |}.

(** Surprises of the write endpoints.  With the largest size limit every body
    reads as empty and is refused; an unknown mode is refused only after the collection was
    provisioned; a state item of a batch may carry changes that the single write refuses;
    and one with a bad change operator too. *)
Theorem write_endpoint_anomalies :
  rs_Status (ingestWith (H := ex_config (2 ^ 63 - 1)) KindState stateCommand (WithContext ex_statePost (Some ex_principal)) 0).1 = 400%Z /\
  (let '(rs, w') := ingestWith (H := ex_config 100) KindState stateCommand (WithContext (ex_post "key-1" "eager" "{'state': {}}") (Some ex_principal)) 0 in
   rs_Status rs = 400%Z /\ w' = 1) /\
  (let req := mkIngestRequest "" "" None "" None "" None None (Some []) (Some [mkChangeInput "a" "rename" JNull JNull]) in
   (exists rs, stateCommand (ex_post "key-1" "" "") "crm.deals" "deal-1" req = Err rs) /\
   (exists cmd, buildBatchCommand ex_item req KindState "" "req-1" "" = Ok cmd /\ ic_Changes cmd = None)).
Proof. split_and!; [vm_compute; reflexivity|vm_compute; by split|]. split; eexists; vm_compute; [reflexivity|by split]. Qed.
