(* ===== verification/DeadLetters.v ===== *)
(** * Webhook publication and the dead-letter API (internal/service: webhook_publisher.go, dlq.go; internal/storage/mongo/dlq_repo.go; internal/server/dlq.go)

    From a fired webhook to the delivery queue, and back from the dead-letter store. *)

From stdpp Require Import base list strings.
From Stdlib Require Import ZArith Lia Ascii.
From S2P Require Import Prelude GoMap Json Paths Diff DiffSound Domain Tenant Config Names Alias Repo Plugin Ingest Mapping Mongo Rules RulesEngine Numbers Canonical Worker JsonText TimeText Delivery Http ServerIngest TaskWire ServerRead.

(** ** The body of a webhook ([delivery.BuildBody]) *)

(** A nil [Old] or [New] and an empty [Meta] are left out. *)
Definition omitNull (k : string) (j : json) : list (string * gvalue) := match j with JNull => [] | _ => [(k, GAny j)] end.

Definition changeDTO (c : Change) : gvalue :=
  GObj ([("path", GStr (Path c)); ("op", GStr (opText (ChOp c)))] ++ omitNull "old" (Old c) ++ omitNull "new" (New c)).

Definition eventDTO (collection : string) (ev : Event) : gvalue :=
  GObj ([("entity_id", GStr (ev_EntityID ev)); ("collection", GStr collection); ("version", GInt (ev_Version ev)); ("op", GStr (ev_Op ev))] ++
        omitEmpty "author_id" (ev_Author ev) ++ omitEmpty "source" (ev_Source ev) ++
        [("ts_received", GTime (ev_TSReceived ev)); ("changes", GArr (map changeDTO (ev_Changes ev)))] ++
        match ev_Meta ev with Some ((_ :: _) as m) => [("meta", GAny (JObj m))] | _ => [] end).

Definition BuildBody (collection : string) (ev : Event) (ruleID ruleName : string) : option string :=
  marshal (GObj [("event", eventDTO collection ev); ("rule", GObj (("id", GStr ruleID) :: omitEmpty "name" ruleName))]).

(** ** Publication *)

(** [queue.Publish] of an encoded delivery task under a key. *)
Class DeliveryQueue (W : Type) := { publishTask : string -> Delivery.Task -> W -> res err unit * W }.

Definition deliveryTenant (p : Principal) : Delivery.TenantRef :=
  Delivery.mkTenantRef (t_ID (p_Tenant p)) (db_URI (t_Database (p_Tenant p))) (db_Name (t_Database (p_Tenant p))).

Definition PublishWebhook {W : Type} `{DeliveryQueue W} (c : ctx) (deliveryID : string) (req : DeliveryRequest) (w : W) : res err unit * W :=
  match FromContext c with
  | None => (Err ErrNoTenant, w)
  | Some p =>
      match BuildBody (dr_Collection req) (dr_Event req) (dr_RuleID req) (dr_RuleName req) with
      | None => (Err (ErrInternal "build webhook body"), w)
      | Some body =>
          let wh := dr_Webhook req in
          publishTask (dr_RuleID req)
            (Delivery.mkTask (deliveryTenant p) deliveryID (dr_RuleID req) (dr_RuleName req) (dr_Collection req) (URL wh) (SecretRef wh) (TimeoutMS wh)
               (MaxAttempts (wh_Retry wh)) 0 body) w
      end
  end.

(** A parked delivery starts over: same id and body; its timeout, its attempt cap and the
    name of its rule are not in the dead letter. *)
Definition requeueTask (p : Principal) (dl : DeadLetter) : Delivery.Task :=
  Delivery.mkTask (deliveryTenant p) (dl_DeliveryID dl) (dl_RuleID dl) "" (dl_Collection dl) (dl_URL dl) (dl_SecretRef dl) 0 0 0 (dl_Body dl).

Definition RequeueLetter {W : Type} `{DeliveryQueue W} (c : ctx) (dl : DeadLetter) (w : W) : res err unit * W :=
  match FromContext c with
  | None => (Err ErrNoTenant, w)
  | Some p => publishTask (dl_RuleID dl) (requeueTask p dl) w
  end.

(** ** The repository port *)

Record DLQCursor := mkDLQCursor { dc_FailedAt : time; dc_ID : string }.

Class DLQRepository (W : Type) := {
  dlqSave : ctx -> DeadLetter -> W -> res err unit * W;
  dlqList : ctx -> string -> Z -> option DLQCursor -> W -> res err (list DeadLetter) * W;
  dlqGet : ctx -> string -> W -> res err DeadLetter * W;
  dlqDelete : ctx -> string -> W -> res err unit * W;
  dlqCount : ctx -> string -> W -> res err Z * W }.

(** ** The service; a count and the error that stopped it *)

Section Service.
Context {W : Type} `{DLQRepository W} `{DeliveryQueue W}.

Definition redeliverAllPageSize : Z := 200.

(** A letter that cannot be deleted after it was requeued stays; that is only logged. *)
Definition redeliverOne (c : ctx) (dl : DeadLetter) (w : W) : res err unit * W :=
  match RequeueLetter c dl w with
  | (Err e, w1) => (Err e, w1)
  | (Ok _, w1) => (Ok tt, snd (dlqDelete c (dl_ID dl) w1))
  end.

Fixpoint redeliverIDs (c : ctx) (ruleID : string) (ids : list string) (requeued : Z) (w : W) : Z * option err * W :=
  match ids with
  | [] => (requeued, None, w)
  | id :: ids' =>
      match dlqGet c id w with
      | (Err e, w1) => (requeued, Some e, w1)
      | (Ok dl, w1) =>
          if negb (str_eqb (dl_RuleID dl) ruleID) then (requeued, Some ErrNotFound, w1)
          else
            match redeliverOne c dl w1 with
            | (Err e, w2) => (requeued, Some e, w2)
            | (Ok _, w2) => redeliverIDs c ruleID ids' (requeued + 1)%Z w2
            end
      end
  end.

Fixpoint redeliverPage (c : ctx) (page : list DeadLetter) (requeued : Z) (w : W) : Z * option err * W :=
  match page with
  | [] => (requeued, None, w)
  | dl :: page' =>
      match redeliverOne c dl w with
      | (Err e, w1) => (requeued, Some e, w1)
      | (Ok _, w1) => redeliverPage c page' (requeued + 1)%Z w1
      end
  end.

(** The loop reads the first page again and again; [None] when [n] pages were not enough. *)
Fixpoint redeliverAll (n : nat) (c : ctx) (ruleID : string) (requeued : Z) (w : W) : option (Z * option err * W) :=
  match n with
  | O => None
  | S n' =>
      match dlqList c ruleID redeliverAllPageSize None w with
      | (Err e, w1) => Some (requeued, Some e, w1)
      | (Ok [], w1) => Some (requeued, None, w1)
      | (Ok page, w1) =>
          match redeliverPage c page requeued w1 with
          | (k, Some e, w2) => Some (k, Some e, w2)
          | (k, None, w2) =>
              if (Z.of_nat (length page) <? redeliverAllPageSize)%Z then Some (k, None, w2) else redeliverAll n' c ruleID k w2
          end
      end
  end.

Definition Redeliver (n : nat) (c : ctx) (ruleID : string) (ids : list string) (w : W) : option (Z * option err * W) :=
  match ids with
  | [] => redeliverAll n c ruleID 0 w
  | _ => Some (redeliverIDs c ruleID ids 0 w)
  end.
End Service.

(** ** The MongoDB repository *)

(** The document has the fields of the letter under their own names; its time is stored
    in milliseconds. *)
Definition DLQCollection : string := "_dlq".

Class MongoDLQ (W : Type) := {
  DeleteLetter : database -> string -> bdoc -> W -> res driverErr Z * W;
  CountLetters : database -> string -> bdoc -> W -> res driverErr Z;
  CreateDLQIndex : database -> string -> W -> option driverErr * W }.

Section Repo.
Context {W : Type} `{MongoDriver W DeadLetter} `{MongoAdmin W} `{MongoDLQ W}.
Variable dbFor : ctx -> res err database.

Definition ensureDLQ (db : database) (provisioned : list string) (w : W) : res err unit * list string * W :=
  if existsb (str_eqb (db_name db)) provisioned then (Ok tt, provisioned, w)
  else
    let index w1 :=
      match CreateDLQIndex db DLQCollection w1 with
      | (Some e, w2) => (Err (internal e), provisioned, w2)
      | (None, w2) => (Ok tt, db_name db :: provisioned, w2)
      end in
    match CreateCollection db DLQCollection w with
    | (Some e, w1) => if isNamespaceExists e then index w1 else (Err (internal e), provisioned, w1)
    | (None, w1) => index w1
    end.

Definition withDLQ {A : Type} (c : ctx) (pr : list string) (w : W) (k : database -> W -> res err A * W) : res err A * list string * W :=
  match dbFor c with
  | Err e => (Err e, pr, w)
  | Ok db =>
      match ensureDLQ db pr w with
      | (Err e, pr', w1) => (Err e, pr', w1)
      | (Ok _, pr', w1) => let '(r, w2) := k db w1 in (r, pr', w2)
      end
  end.

Definition stampLetter (newID : string) (now : time) (dl : DeadLetter) : DeadLetter :=
  mkDeadLetter (if str_eqb (dl_ID dl) "" then newID else dl_ID dl) (dl_RuleID dl) (dl_Collection dl) (dl_DeliveryID dl) (dl_URL dl)
    (dl_SecretRef dl) (dl_Body dl) (dl_Attempts dl) (dl_LastError dl) (if (dl_FailedAt dl =? 0)%Z then now else dl_FailedAt dl).

Definition repoDLQSave (c : ctx) (newID : string) (now : time) (dl : DeadLetter) (pr : list string) (w : W) : res err unit * list string * W :=
  withDLQ c pr w (fun db w =>
    match InsertOne db DLQCollection (stampLetter newID now dl) w with
    | (None, w') => (Ok tt, w')
    | (Some e, w') => (Err (internal e), w')
    end).

(** Strictly after the cursor, newest first. *)
Definition dlqFilter (ruleID : string) (after : option DLQCursor) : bdoc :=
  ("rule_id", BStr ruleID) ::
  match after with
  | None => []
  | Some p => [("$or", BArr [BDoc [("failed_at", BDoc [("$lt", BTime (dc_FailedAt p))])];
                            BDoc [("failed_at", BTime (dc_FailedAt p)); ("_id", BDoc [("$lt", BStr (dc_ID p))])]])]
  end.
Definition dlqSort : list (string * Z) := [("failed_at", (-1)%Z); ("_id", (-1)%Z)].

Definition repoDLQList (c : ctx) (ruleID : string) (limit : Z) (after : option DLQCursor) (pr : list string) (w : W) : res err (list DeadLetter) * list string * W :=
  withDLQ c pr w (fun db w =>
    match Find db DLQCollection (dlqFilter ruleID after) dlqSort (if (0 <? limit)%Z then limit else 0) w with
    | Ok ds => (Ok ds, w)
    | Err e => (Err (internal e), w)
    end).

Definition repoDLQGet (c : ctx) (id : string) (pr : list string) (w : W) : res err DeadLetter * list string * W :=
  withDLQ c pr w (fun db w =>
    match FindOne db DLQCollection [("_id", BStr id)] [] w with
    | Ok d => (Ok d, w)
    | Err NoDocuments => (Err ErrNotFound, w)
    | Err e => (Err (internal e), w)
    end).

Definition repoDLQDelete (c : ctx) (id : string) (pr : list string) (w : W) : res err unit * list string * W :=
  withDLQ c pr w (fun db w =>
    match DeleteLetter db DLQCollection [("_id", BStr id)] w with
    | (Err e, w') => (Err (internal e), w')
    | (Ok n, w') => (if (n =? 0)%Z then Err ErrNotFound else Ok tt, w')
    end).

Definition repoDLQCount (c : ctx) (ruleID : string) (pr : list string) (w : W) : res err Z * list string * W :=
  withDLQ c pr w (fun db w =>
    match CountLetters db DLQCollection (if str_eqb ruleID "" then [] else [("rule_id", BStr ruleID)]) w with
    | Ok n => (Ok n, w)
    | Err e => (Err (internal e), w)
    end).
End Repo.

(** ** The endpoints *)

Class DLQService (W : Type) := {
  svcDLQList : ctx -> string -> Z -> option DLQCursor -> W -> res err (list DeadLetter);
  svcRedeliver : ctx -> string -> list string -> W -> Z * option err * W }.

Definition encodeDLQCursor (p : DLQCursor) : string := marshalCursor [("f", GTime (dc_FailedAt p)); ("id", GStr (dc_ID p))].

Definition decDLQCursor : decoder DLQCursor :=
  decStruct false ["f"; "id"] (fun f t p =>
    let '(mkDLQCursor ts i) := p in
    if str_eqb f "f" then ts ← decTime ts t; Some (mkDLQCursor ts i)
    else i ← decString i t; Some (mkDLQCursor ts i)).

Definition decodeDLQCursor (s : string) : option DLQCursor := raw ← DecodeString s; Unmarshal decDLQCursor (mkDLQCursor 0 "") raw.

(** [guard]: the mask is checked against the collection of the path, which is then dropped. *)
Definition guardDLQ (r : request) : res response string :=
  (_ <- canAccess r (rq_URLParam r "collection"); Ok (rq_URLParam r "ruleId"))%go.

Definition parseDLQQuery (r : request) : res string (Z * option DLQCursor) :=
  let q := parseQuery (rq_RawQuery r) in
  (limit <- parseLimit (queryGet "limit" q); after_ <- parseCursor decodeDLQCursor (queryGet "cursor" q); Ok (limit, after_))%go.

(** No body, or one of white space only, means every letter of the rule. *)
Definition parseRedeliverBody (r : request) : res string (list string) :=
  if str_eqb (skipWS (rq_Body r)) "" && negb (rq_BodyFails r) then Ok []
  else
    match DecodeFirst (decStruct true ["ids"] (fun _ t v => decSlice "" decString v t)) None (rq_Body r) with
    | None => Err "invalid JSON body"
    | Some ids => Ok (default [] ids)
    end.

Definition deadLetterDTO (dl : DeadLetter) : gvalue :=
  GObj ([("attempts", GInt (dl_Attempts dl))] ++
        (if str_eqb (dl_Body dl) "" then [] else [("body", GRaw (dl_Body dl))]) ++
        [("collection", GStr (dl_Collection dl)); ("delivery_id", GStr (dl_DeliveryID dl)); ("failed_at", GTime (dl_FailedAt dl)); ("id", GStr (dl_ID dl))] ++
        omitEmpty "last_error" (dl_LastError dl) ++ [("rule_id", GStr (dl_RuleID dl))] ++ omitEmpty "secret_ref" (dl_SecretRef dl) ++ [("url", GStr (dl_URL dl))]).

Definition dlqBody (items : list DeadLetter) (limit : Z) : gvalue :=
  GObj [("items", GArr (map deadLetterDTO items));
        ("next_cursor", cursorValue (if ((0 <? limit) && (Z.of_nat (length items) =? limit))%Z
                                     then option_map (fun dl => encodeDLQCursor (mkDLQCursor (dl_FailedAt dl) (dl_ID dl))) (last items) else None))].

Section Handlers.
Context {W : Type} `{DLQService W}.

Definition listDLQ (r : request) (w : W) : response :=
  match (ruleID <- guardDLQ r; query <- bad (parseDLQQuery r); Ok (ruleID, query))%go with
  | Err rs => rs
  | Ok (ruleID, (limit, after_)) =>
      match svcDLQList (rq_Context r) ruleID limit after_ w with
      | Err _ => writeError 500 "internal error"
      | Ok items => writeJSON 200 (dlqBody items limit)
      end
  end.

Definition redeliverDLQ : handler W := fun r w =>
  match (ruleID <- guardDLQ r; ids <- bad (parseRedeliverBody r); Ok (ruleID, ids))%go with
  | Err rs => (rs, w)
  | Ok (ruleID, ids) =>
      match svcRedeliver (rq_Context r) ruleID ids w with
      | (_, Some ErrNotFound, w1) => (writeError 404 "dead letter not found", w1)
      | (_, Some _, w1) => (writeError 500 "internal error", w1)
      | (n, None, w1) => (writeJSON 202 (GObj [("requeued", GInt n)]), w1)
      end
  end.
End Handlers.

Example redeliver_bodies : map (fun b => parseRedeliverBody (ex_request [] [] "" (jtext b)))
    [" "; "{'ids': ['dlq_1', 'dlq_2']}"; "{'ids': []}"; "null"; "{'id': 'dlq_1'}"]
  = [Ok []; Ok ["dlq_1"; "dlq_2"]; Ok []; Ok []; Err "invalid JSON body"].
Proof. vm_compute. reflexivity. Qed.
