(* ===== verification/DeadLetterSound.v ===== *)
(** * Guarantees of redelivery

    Draining a rule's dead letters: it ends and empties the store when deletes work, loses
    nothing when it stops early, and never ends when a full page cannot be deleted. *)

From stdpp Require Import base list strings.
From Stdlib Require Import ZArith Lia Ascii.
From S2P Require Import Prelude GoMap Json Paths Diff DiffSound Domain Tenant Config Repo RulesEngine Canonical JsonText TimeText Delivery Http ServerIngest ServerRead WireSound DeadLetters.

(** What the repository promises about the letters of a rule, newest first, and the
    delivery queue about the tasks it took. *)
Class DLQLaws (W : Type) `{DLQRepository W} `{DeliveryQueue W} := {
  parked : W -> ctx -> string -> list DeadLetter;
  sent : W -> list Delivery.Task;

  parked_nodup : forall w c rule, NoDup (map dl_ID (parked w c rule));
  list_spec : forall c rule limit w r w', dlqList c rule limit None w = (r, w') ->
    (forall c' rule', parked w' c' rule' = parked w c' rule') /\ sent w' = sent w /\
    match r with Ok page => page = limited limit (parked w c rule) | Err _ => True end;
  publish_spec : forall key t w r w', publishTask key t w = (r, w') ->
    (forall c rule, parked w' c rule = parked w c rule) /\
    match r with Ok _ => sent w' = sent w ++ [t] | Err _ => sent w' = sent w end;
  delete_spec : forall c id w r w', dlqDelete c id w = (r, w') -> sent w' = sent w /\
    match r with
    | Ok _ => forall rule, parked w' c rule = List.filter (fun dl => negb (str_eqb (dl_ID dl) id)) (parked w c rule)
    | Err _ => forall rule, parked w' c rule = parked w c rule
    end }.

Section Redelivery.
Context {W : Type} `{DLQLaws W}.
Variables (p : Principal) (rule : string).
Local Abbreviation c := (Some p).

(** ** Nothing is lost *)

(** Every letter parked at the start is still parked or its delivery was sent. *)
Definition accounted (w0 w : W) : Prop :=
  (forall dl, dl ∈ parked w c rule -> dl ∈ parked w0 c rule) /\
  (forall dl, dl ∈ parked w0 c rule -> dl ∈ parked w c rule \/ requeueTask p dl ∈ sent w).

Lemma same_letter w0 d dl : d ∈ parked w0 c rule -> dl ∈ parked w0 c rule -> dl_ID d = dl_ID dl -> d = dl.
Proof.
  pose proof (parked_nodup w0 c rule) as Hnd. revert Hnd. generalize (parked w0 c rule) as l. induction l as [|x l IH]; intros Hnd Hd Hl Eid; [by apply not_elem_of_nil in Hd|].
  cbn in Hnd. apply NoDup_cons in Hnd as [Hx Hnd]. assert (forall y, y ∈ l -> dl_ID y ∈ map dl_ID l) as Hin.
  { intros y Hy. apply list_elem_of_In, in_map. by apply list_elem_of_In. }
  apply elem_of_cons in Hd as [->|Hd], Hl as [->|Hl]; [done| | |by apply IH]; exfalso; apply Hx; [rewrite Eid|rewrite <- Eid]; by apply Hin.
Qed.

Lemma one_accounted w0 dl w r w' : accounted w0 w -> dl ∈ parked w0 c rule -> redeliverOne c dl w = (r, w') -> accounted w0 w'.
Proof.
  intros [Hsub Hacc] Hdl. unfold redeliverOne, RequeueLetter. cbn [FromContext]. destruct (publishTask _ _ w) as [[[]|e] w1] eqn:E; destruct (publish_spec _ _ _ _ _ E) as [Hp Hs].
  2: { intros [= _ <-]. unfold accounted. rewrite Hp, Hs. done. }
  destruct (dlqDelete c (dl_ID dl) w1) as [x w2] eqn:Ed. destruct (delete_spec _ _ _ _ _ Ed) as [Hs2 Hd]. cbn [snd]. intros [= _ <-]. unfold accounted. rewrite Hs2, Hs.
  destruct x as [[]|e]; rewrite Hd, Hp.
  2: { split; [done|]. intros d Hin. destruct (Hacc d Hin) as [?|?]; [by left|right; apply elem_of_app; by left]. }
  split; [intros d Hin; apply list_elem_of_In, filter_In in Hin as [Hin _]; by apply Hsub, list_elem_of_In|].
  intros d Hin. destruct (Hacc d Hin) as [Hp2|?]; [|right; apply elem_of_app; by left]. destruct (str_eqb (dl_ID d) (dl_ID dl)) eqn:Eid.
  - apply str_eqb_eq in Eid. right. rewrite (same_letter w0 d dl Hin Hdl Eid). apply elem_of_app. right. by left.
  - left. apply list_elem_of_In, filter_In. split; [by apply list_elem_of_In|]. by rewrite Eid.
Qed.

Lemma page_accounted w0 page k w k' e w' : accounted w0 w -> Forall (fun dl => dl ∈ parked w0 c rule) page -> redeliverPage c page k w = (k', e, w') -> accounted w0 w'.
Proof.
  intros Ha HF. revert k w Ha. induction HF as [|dl page Hdl _ IH]; intros k w Ha; cbn [redeliverPage]; [by intros [= _ _ <-]|].
  destruct (redeliverOne c dl w) as [[[]|e1] w1] eqn:E; apply (one_accounted w0) in E; try done; [by apply IH|]. by intros [= _ _ <-].
Qed.

Lemma all_accounted w0 n k w k' e w' : accounted w0 w -> redeliverAll n c rule k w = Some (k', e, w') -> accounted w0 w'.
Proof.
  revert k w. induction n as [|n IH]; intros k w Ha; cbn [redeliverAll]; [done|].
  destruct (dlqList c rule redeliverAllPageSize None w) as [[page|e1] w1] eqn:El; destruct (list_spec _ _ _ _ _ _ El) as (Hp & Hs & Hpage).
  2: { intros [= _ _ <-]. unfold accounted. by rewrite Hp, Hs. }
  assert (accounted w0 w1) as Ha1 by (unfold accounted; by rewrite Hp, Hs).
  assert (Forall (fun dl => dl ∈ parked w0 c rule) page) as HF.
  { apply Forall_forall. intros d Hd. subst page. apply (proj1 Ha). unfold limited, redeliverAllPageSize in Hd. cbn in Hd. by eapply elem_of_take in Hd as (i & ? & _); eapply list_elem_of_lookup_2. }
  destruct page as [|dl page]; [by intros [= _ _ <-]|].
  destruct (redeliverPage c (dl :: page) k w1) as [[k1 [e1|]] w2] eqn:Ep; apply (page_accounted w0) in Ep; try done; [by intros [= _ _ <-]|].
  destruct (_ <? _)%Z; [by intros [= _ _ <-]|]. by apply IH.
Qed.

(** ** A healthy store is drained *)

Definition healthy : Prop :=
  (forall limit w, exists page w', dlqList c rule limit None w = (Ok page, w')) /\
  (forall key t w, exists w', publishTask key t w = (Ok tt, w')) /\
  (forall id w, exists w', dlqDelete c id w = (Ok tt, w')).

Lemma page_drained page rest k w : healthy -> parked w c rule = page ++ rest ->
  exists w', redeliverPage c page k w = ((k + Z.of_nat (length page))%Z, None, w') /\ parked w' c rule = rest /\ sent w' = sent w ++ map (requeueTask p) page.
Proof.
  intros (Hl & Hpub & Hdel). revert k w. induction page as [|dl page IH]; intros k w Hw.
  { exists w. cbn. split_and!; [f_equal; f_equal; lia|done|by rewrite app_nil_r]. }
  cbn [redeliverPage]. unfold redeliverOne, RequeueLetter. cbn [FromContext]. destruct (Hpub (dl_RuleID dl) (requeueTask p dl) w) as [w1 E1]. rewrite E1.
  destruct (publish_spec _ _ _ _ _ E1) as [Hp1 Hs1]. destruct (Hdel (dl_ID dl) w1) as [w2 E2]. rewrite E2. cbn [snd]. destruct (delete_spec _ _ _ _ _ E2) as [Hs2 Hp2].
  assert (parked w2 c rule = page ++ rest) as Hw2.
  { rewrite Hp2, Hp1, Hw. pose proof (parked_nodup w c rule) as Hnd. rewrite Hw in Hnd. cbn [app map] in Hnd. apply NoDup_cons in Hnd as [Hx _].
    cbn [app List.filter]. rewrite str_eqb_refl. cbn [negb]. clear -Hx. induction (page ++ rest) as [|d l IHl]; [done|]. cbn in Hx |- *. apply not_elem_of_cons in Hx as [Hne Hx].
    apply not_eq_sym, str_eqb_neq in Hne. rewrite Hne. cbn. by rewrite IHl. }
  destruct (IH (k + 1)%Z w2 Hw2) as (w3 & E3 & Hp3 & Hs3). exists w3. rewrite E3. cbn [length map]. split_and!; [f_equal; f_equal; lia|done|].
  rewrite Hs3, Hs2, Hs1, <- app_assoc. done.
Qed.

Lemma all_drained n k w : healthy -> (length (parked w c rule) < n * 200)%nat ->
  exists w', redeliverAll n c rule k w = Some ((k + Z.of_nat (length (parked w c rule)))%Z, None, w') /\ parked w' c rule = [] /\
    sent w' = sent w ++ map (requeueTask p) (parked w c rule).
Proof.
  intros Hh. revert k w. induction n as [|n IH]; intros k w Hn; [lia|]. cbn [redeliverAll]. pose proof Hh as (Hl & _ & _).
  destruct (Hl redeliverAllPageSize w) as (page & w1 & El). rewrite El. destruct (list_spec _ _ _ _ _ _ El) as (Hp & Hs & ->).
  set (all := parked w c rule) in *. change (limited redeliverAllPageSize all) with (take 200 all).
  destruct (page_drained (take 200 all) (drop 200 all) k w1 Hh) as (w2 & E2 & Hp2 & Hs2); [rewrite Hp; by rewrite take_drop|].
  rewrite E2. destruct (take 200 all) as [|dl page] eqn:Epage.
  { assert (all = []) as Ea by (destruct all; [done|discriminate Epage]). rewrite Ea. exists w1. rewrite Hp, Hs. fold all. rewrite Ea. cbn. split_and!; [do 3 f_equal; lia|done|by rewrite app_nil_r]. }
  rewrite <- Epage in *. unfold redeliverAllPageSize. rewrite length_take in *. destruct (Z.ltb_spec (Z.of_nat (200 `min` length all)) 200) as [Hlt|Hge].
  - exists w2. rewrite take_ge in Hs2 by lia. rewrite Hs2, Hs. split_and!; [do 4 f_equal; lia| |done]. rewrite Hp2. apply drop_ge. lia.
  - destruct (IH (k + Z.of_nat (200 `min` length all))%Z w2) as (w3 & E3 & Hp3 & Hs3); [rewrite Hp2, length_drop; lia|].
    rewrite E3. exists w3. rewrite Hs3, Hp2, Hs2, Hs, length_drop, <- app_assoc, <- map_app, take_drop. split_and!; [do 3 f_equal; lia|done|done].
Qed.

(** ** A full page that cannot be deleted *)

Definition stuck : Prop :=
  (forall limit w, exists page w', dlqList c rule limit None w = (Ok page, w')) /\
  (forall key t w, exists w', publishTask key t w = (Ok tt, w')) /\
  (forall id w, exists e w', dlqDelete c id w = (Err e, w')).

Lemma page_stuck page k w : stuck -> exists w', redeliverPage c page k w = ((k + Z.of_nat (length page))%Z, None, w') /\ parked w' c rule = parked w c rule.
Proof.
  intros (Hl & Hpub & Hdel). revert k w. induction page as [|dl page IH]; intros k w; [exists w; cbn; split; [f_equal; f_equal; lia|done]|].
  cbn [redeliverPage]. unfold redeliverOne, RequeueLetter. cbn [FromContext]. destruct (Hpub (dl_RuleID dl) (requeueTask p dl) w) as [w1 E1]. rewrite E1.
  destruct (publish_spec _ _ _ _ _ E1) as [Hp1 _]. destruct (Hdel (dl_ID dl) w1) as (e & w2 & E2). rewrite E2. cbn [snd]. destruct (delete_spec _ _ _ _ _ E2) as [_ Hp2].
  destruct (IH (k + 1)%Z w2) as (w3 & E3 & Hp3). exists w3. rewrite E3. cbn [length]. split; [f_equal; f_equal; lia|]. by rewrite Hp3, Hp2, Hp1.
Qed.

Lemma all_stuck n k w : stuck -> (200 <= length (parked w c rule))%nat -> redeliverAll n c rule k w = None.
Proof.
  intros Hst. revert k w. induction n as [|n IH]; intros k w Hlen; [done|]. cbn [redeliverAll]. pose proof Hst as (Hl & _ & _).
  destruct (Hl redeliverAllPageSize w) as (page & w1 & El). rewrite El. destruct (list_spec _ _ _ _ _ _ El) as (Hp & _ & ->).
  set (all := parked w c rule) in *. change (limited redeliverAllPageSize all) with (take 200 all).
  destruct (page_stuck (take 200 all) k w1 Hst) as (w2 & E2 & Hp2). rewrite E2. assert (length (take 200 all) = 200%nat) as Ht by (rewrite length_take; lia).
  destruct (take 200 all) as [|dl page]; [discriminate Ht|]. rewrite Ht. change (Z.of_nat 200 <? redeliverAllPageSize)%Z with false. cbv iota. apply IH. rewrite Hp2, Hp. done.
Qed.

(** C23: Draining the dead letters of a rule.  Whatever fails on the way, when the loop
    ends every letter that was parked is still parked or its delivery is on the queue.
    When listing, publishing and deleting work, the loop ends, in at most one page more
    than there are full pages, with every letter sent once, in order, and none parked, and
    reports their number.  When deleting fails and a full page is parked, it never ends:
    no number of pages is enough, and each repeats the same deliveries. *)
Theorem redeliver_all (w : W) :
  (forall n k e w', redeliverAll n c rule 0 w = Some (k, e, w') ->
     forall dl, dl ∈ parked w c rule -> dl ∈ parked w' c rule \/ requeueTask p dl ∈ sent w') /\
  (healthy -> exists w', redeliverAll (S (length (parked w c rule) / 200)) c rule 0 w = Some (Z.of_nat (length (parked w c rule)), None, w') /\
     parked w' c rule = [] /\ sent w' = sent w ++ map (requeueTask p) (parked w c rule)) /\
  (stuck -> 200 <= length (parked w c rule) -> forall n, redeliverAll n c rule 0 w = None).
Proof.
  split_and!.
  - intros n k e w' Hr. eapply (all_accounted w) in Hr as [_ Ha]; [exact Ha|]. split; [done|]. intros dl Hdl. by left.
  - intros Hh. pose proof (Nat.div_mod (length (parked w c rule)) 200 ltac:(lia)). pose proof (Nat.mod_upper_bound (length (parked w c rule)) 200 ltac:(lia)).
    destruct (all_drained (S (length (parked w c rule) / 200)) 0 w Hh) as (w' & E & Hp & Hs); [lia|]. by exists w'.
  - intros Hst Hlen n. by apply all_stuck.
Qed.
End Redelivery.

(** ** A store in memory *)

(** Letters with unique ids and the tasks that were sent. *)
Record dlqMem := mkDLQMem { dm_letters : list DeadLetter; dm_sent : list Delivery.Task }.

Definition apart (id : string) (dl : DeadLetter) : bool := negb (str_eqb (dl_ID dl) id).
Fixpoint distinct (l : list DeadLetter) : list DeadLetter :=
  match l with [] => [] | dl :: l' => dl :: List.filter (apart (dl_ID dl)) (distinct l') end.
Definition ofRule (rule : string) (l : list DeadLetter) : list DeadLetter := List.filter (fun dl => str_eqb (dl_RuleID dl) rule) (distinct l).

Lemma nodup_filter (f : DeadLetter -> bool) l : NoDup (map dl_ID l) -> NoDup (map dl_ID (List.filter f l)).
Proof.
  induction l as [|d l IH]; [done|]. cbn. rewrite NoDup_cons. intros [Hd Hl]. destruct (f d); [|by apply IH]. cbn. apply NoDup_cons. split; [|by apply IH].
  rewrite list_elem_of_In, in_map_iff in Hd |- *. intros (x & E & Hx). apply Hd. exists x. apply filter_In in Hx as [? _]. done.
Qed.

Lemma distinct_nodup l : NoDup (map dl_ID (distinct l)).
Proof.
  induction l as [|d l IH]; [constructor|]. cbn. apply NoDup_cons. split; [|by apply nodup_filter].
  rewrite list_elem_of_In, in_map_iff. intros (x & E & Hx). apply filter_In in Hx as [_ Hx]. unfold apart in Hx. by rewrite E, str_eqb_refl in Hx.
Qed.

Lemma filter_comm (f g : DeadLetter -> bool) l : List.filter f (List.filter g l) = List.filter g (List.filter f l).
Proof. induction l as [|d l IH]; [done|]. cbn. destruct (g d) eqn:Eg, (f d) eqn:Ef; cbn; rewrite ?Eg, ?Ef, IH; done. Qed.

Lemma filter_idem (f : DeadLetter -> bool) l : List.filter f (List.filter f l) = List.filter f l.
Proof. induction l as [|d l IH]; [done|]. cbn. destruct (f d) eqn:Ef; cbn; rewrite ?Ef, IH; done. Qed.

Lemma distinct_filter id l : distinct (List.filter (apart id) l) = List.filter (apart id) (distinct l).
Proof.
  induction l as [|d l IH]; [done|]. cbn [List.filter distinct]. destruct (apart id d) eqn:E; cbn [distinct]; [by rewrite IH, filter_comm|].
  unfold apart in E. apply negb_false_iff, str_eqb_eq in E. by rewrite <- E, filter_idem, E.
Qed.

(** A store whose deletes work, or fail. *)
Section Memory.
Variable deletes : bool.

#[local] Instance mem_dlq : DLQRepository dlqMem := {
  dlqSave c dl w := (Ok tt, mkDLQMem (dl :: dm_letters w) (dm_sent w));
  dlqList c rule limit after w := (Ok (limited limit (ofRule rule (dm_letters w))), w);
  dlqGet c id w := (match List.find (fun dl => str_eqb (dl_ID dl) id) (dm_letters w) with Some dl => Ok dl | None => Err ErrNotFound end, w);
  dlqDelete c id w := if deletes then (Ok tt, mkDLQMem (List.filter (apart id) (dm_letters w)) (dm_sent w)) else (Err (ErrInternal "down"), w);
  dlqCount c rule w := (Ok (Z.of_nat (length (ofRule rule (dm_letters w)))), w) }.
#[local] Instance mem_delivery : DeliveryQueue dlqMem := { publishTask key t w := (Ok tt, mkDLQMem (dm_letters w) (dm_sent w ++ [t])) }.

#[local] Program Instance mem_dlq_laws : DLQLaws dlqMem := { parked w c rule := ofRule rule (dm_letters w); sent := dm_sent }.
Next Obligation. intros w c rule. apply nodup_filter, distinct_nodup. Qed.
Next Obligation. intros c rule limit w r w' [= <- <-]. done. Qed.
Next Obligation. intros key t w r w' [= <- <-]. done. Qed.
Next Obligation.
  intros c id w r w'. cbn. destruct deletes; intros [= <- <-]; [|done]. split; [done|]. intros rule. cbn. unfold ofRule. rewrite distinct_filter. apply filter_comm.
Qed.
End Memory.

Definition ex_letter (id : string) : DeadLetter := mkDeadLetter id "rule_1" "crm.deals" ("dlv_" +:+ id) "https://hooks.example" "s1" "{}" 3 "status 500" 9.
Definition ex_admin : Principal := mkPrincipal (mkTenant "acme" (mkDatabase "" "")) (mkAPIKey [ScopeAdmin] ["hr.*"]).
Definition ex_dlq : dlqMem := mkDLQMem (map ex_letter ["a"; "b"; "c"]) [].
Definition ex_full : dlqMem := mkDLQMem (map (fun n => ex_letter (itoa (Z.of_nat n))) (seq 0 200)) [].

Lemma redeliver_all_witness :
  (exists w', redeliverAll (H := mem_dlq true) (H0 := mem_delivery) 1 (Some ex_admin) "rule_1" 0 ex_dlq = Some (3%Z, None, w') /\
     map Delivery.tk_DeliveryID (dm_sent w') = ["dlv_a"; "dlv_b"; "dlv_c"]) /\
  (forall n, redeliverAll (H := mem_dlq false) (H0 := mem_delivery) n (Some ex_admin) "rule_1" 0 ex_full = None).
Proof.
  split.
  - destruct (redeliver_all (H1 := mem_dlq_laws true) ex_admin "rule_1" ex_dlq) as (_ & Hdrain & _).
    destruct Hdrain as (w' & E & _ & Hs); [split_and!; intros; by eexists _, _ || by eexists|].
    exists w'. split; [exact E|]. change (sent w') with (dm_sent w') in Hs. rewrite Hs. vm_compute. reflexivity.
  - apply (redeliver_all (H1 := mem_dlq_laws false) ex_admin "rule_1" ex_full).
    + split_and!; intros; by eexists _, _ || by eexists.
    + change (parked ex_full (Some ex_admin) "rule_1") with (ofRule "rule_1" (dm_letters ex_full)). apply Nat.leb_le. vm_compute. reflexivity.
Defined.

(** The collection mask does not protect dead letters.  The mask is checked for the
    collection of the path, but the letters are found by the rule alone: with any
    collection it may access, a key gets the letters of every rule of the tenant, bodies
    included, whatever collection the rule belongs to. *)
Theorem dlq_mask_bypassed {W : Type} `{DLQService W} (r r' : request) (q : Principal) (w : W) :
  rq_Context r = Some q -> rq_Context r' = Some q -> rq_URLParam r "ruleId" = rq_URLParam r' "ruleId" -> rq_RawQuery r = rq_RawQuery r' ->
  CanAccess q (rq_URLParam r "collection") = true -> CanAccess q (rq_URLParam r' "collection") = true -> listDLQ r w = listDLQ r' w.
Proof.
  intros Hc Hc' Hrule Hq Ha Ha'. unfold listDLQ, guardDLQ, parseDLQQuery, canAccess. rewrite Hc, Hc', Hq, Hrule. cbn [FromContext]. by rewrite Ha, Ha'.
Qed.

#[local] Instance ex_dlqService : DLQService dlqMem := {
  svcDLQList c rule limit after w := fst (dlqList (DLQRepository := mem_dlq true) c rule limit after w);
  svcRedeliver c rule ids w := match Redeliver (H := mem_dlq true) (H0 := mem_delivery) 9 c rule ids w with Some x => x | None => (0%Z, None, w) end }.

Definition ex_dlqRequest (collection : string) : request :=
  WithContext (ex_request [] [("collection", collection); ("ruleId", "rule_1")] "" "") (Some ex_admin).

(** A key for hr.* reads the letters of a crm rule through an hr path, and cannot through
    the rule's own. *)
Lemma dlq_mask_bypassed_witness :
  listDLQ (ex_dlqRequest "hr.staff") ex_dlq = listDLQ (ex_dlqRequest "hr.other") ex_dlq /\
  rs_Status (listDLQ (ex_dlqRequest "hr.staff") ex_dlq) = 200%Z /\ rs_Status (listDLQ (ex_dlqRequest "crm.deals") ex_dlq) = 403%Z.
Proof. split; [apply (dlq_mask_bypassed _ _ ex_admin); reflexivity|split; vm_compute; reflexivity]. Defined.
