(* ===== verification/Ulid.v ===== *)
(** * Server-issued ids (internal/domain/id.go)

    ULIDs: 48 bits of milliseconds and 80 of entropy in 26 characters of Crockford's
    base32.  The encoder shifts a 128-bit value held in two 64-bit halves. *)

From stdpp Require Import base list strings.
From Stdlib Require Import ZArith Lia Ascii.
From S2P Require Import Prelude Numbers.

Definition crockford : string := "0123456789ABCDEFGHJKMNPQRSTVWXYZ".

Definition crockfordAt (v : Z) : ascii := match String.get (Z.to_nat v) crockford with Some c => c | None => "0"%char end.

(** The loop from the last character to the first, [n] characters left. *)
Fixpoint ulidLoop (n : nat) (hi lo : Z) (out : string) : string :=
  match n with
  | O => out
  | S n' => ulidLoop n' (Z.shiftr hi 5) (Z.lor (Z.shiftr lo 5) (Z.land (Z.shiftl (Z.land hi 31) 59) (2 ^ 64 - 1)))
              (String (crockfordAt (Z.land lo 31)) out)
  end.

(** [binary.BigEndian.Uint64]. *)
Definition bigEndian (bs : list Z) : Z := fold_left (fun acc b => Z.lor (Z.shiftl acc 8) b) bs 0%Z.

Definition encodeULID (b : list Z) : string := ulidLoop 26 (bigEndian (take 8 b)) (bigEndian (take 8 (drop 8 b))) "".

(** [newULID] at a time in milliseconds, with the ten bytes [rand.Read] gave. *)
Definition newULID (ms : Z) (entropy : list Z) : string :=
  let byte (k : Z) := Z.land (Z.shiftr ms k) 255 in
  encodeULID ([byte 40; byte 32; byte 24; byte 16; byte 8; byte 0]%Z ++ entropy).

Definition activityIDPrefix : string := "act_".
Definition flowIDPrefix : string := "f_".
Definition ticketIDPrefix : string := "tkt_".
Definition auditIDPrefix : string := "aud_".
Definition ruleIDPrefix : string := "rule_".
Definition deadLetterPrefix : string := "dlq_".
Definition deliveryIDPrefix : string := "dlv_".

Definition NewActivityID (ms : Z) (entropy : list Z) : string := activityIDPrefix +:+ newULID ms entropy.
Definition NewFlowID (ms : Z) (entropy : list Z) : string := flowIDPrefix +:+ newULID ms entropy.
Definition NewTicketID (ms : Z) (entropy : list Z) : string := ticketIDPrefix +:+ newULID ms entropy.
Definition NewAuditID (ms : Z) (entropy : list Z) : string := auditIDPrefix +:+ newULID ms entropy.
Definition NewRuleID (ms : Z) (entropy : list Z) : string := ruleIDPrefix +:+ newULID ms entropy.
Definition NewDeadLetterID (ms : Z) (entropy : list Z) : string := deadLetterPrefix +:+ newULID ms entropy.
Definition NewDeliveryID (ms : Z) (entropy : list Z) : string := deliveryIDPrefix +:+ newULID ms entropy.

(** ** The value an id encodes *)

Fixpoint base32 (n : nat) (v : Z) (out : string) : string :=
  match n with O => out | S n' => base32 n' (v / 32) (String (crockfordAt (v mod 32)) out) end.

Lemma lor_disjoint a b k : (0 <= k)%Z -> (0 <= a < 2 ^ k)%Z -> Z.lor a (Z.shiftl b k) = (a + b * 2 ^ k)%Z.
Proof.
  intros Hk Ha. rewrite <- Z.shiftl_mul_pow2 by done. symmetry. apply Z.add_nocarry_lor, Z.bits_inj_0. intros n. rewrite Z.land_spec.
  destruct (Z.ltb_spec n 0); [by rewrite Z.testbit_neg_r by lia|].
  destruct (Z.ltb_spec n k); [rewrite Z.shiftl_spec_low by done; by rewrite andb_false_r|].
  rewrite <- (Z.mod_small a (2 ^ k)) by lia. by rewrite Z.mod_pow2_bits_high by lia.
Qed.

Lemma land_ones_mod a n : (0 <= n)%Z -> Z.land a (2 ^ n - 1) = (a mod 2 ^ n)%Z.
Proof. intros Hn. rewrite <- Z.land_ones by done. by rewrite Z.ones_equiv, Z.sub_1_r. Qed.

(** The two halves are one number. *)
Lemma loop_base32 n hi lo out : (0 <= hi < 2 ^ 64)%Z -> (0 <= lo < 2 ^ 64)%Z -> ulidLoop n hi lo out = base32 n (hi * 2 ^ 64 + lo) out.
Proof.
  revert hi lo out. induction n as [|n IH]; intros hi lo out Hhi Hlo; [done|]. cbn [ulidLoop base32].
  change 31%Z with (2 ^ 5 - 1)%Z. rewrite !land_ones_mod, !Z.shiftr_div_pow2 by lia.
  assert (0 <= hi mod 2 ^ 5 < 2 ^ 5)%Z as Hm by (apply Z.mod_pos_bound; lia).
  assert ((Z.shiftl (hi mod 2 ^ 5) 59) mod 2 ^ 64 = Z.shiftl (hi mod 2 ^ 5) 59)%Z as ->.
  { rewrite Z.shiftl_mul_pow2 by lia. apply Z.mod_small. lia. }
  assert (0 <= lo / 2 ^ 5 < 2 ^ 59)%Z as Hl by (split; [apply Z.div_pos; lia|apply Z.div_lt_upper_bound; lia]).
  rewrite lor_disjoint by lia. rewrite IH; [|split; [apply Z.div_pos; lia|apply Z.div_lt_upper_bound; lia]|lia].
  f_equal.
  - Z.to_euclidean_division_equations; lia.
  - do 2 f_equal. change (2 ^ 5)%Z with 32%Z. change (2 ^ 64)%Z with (576460752303423488 * 32)%Z. rewrite Z.mul_assoc, Z.add_comm, Z.mod_add by lia. done.
Qed.

Lemma bigEndian_app l b : (0 <= b < 256)%Z -> bigEndian (l ++ [b]) = (bigEndian l * 256 + b)%Z.
Proof.
  intros Hb. unfold bigEndian. rewrite fold_left_app. cbn [fold_left]. rewrite Z.lor_comm, (lor_disjoint b _ 8) by lia. lia.
Qed.

Definition bytes (l : list Z) : Prop := Forall (fun b => 0 <= b < 256)%Z l.

Lemma bigEndian_concat l l' : bytes l' -> bigEndian (l ++ l') = (bigEndian l * 256 ^ Z.of_nat (length l') + bigEndian l')%Z.
Proof.
  intros Hb. induction l' as [|b l' IH] using rev_ind; [rewrite app_nil_r; cbn; lia|]. apply Forall_app in Hb as [Hb Hlast].
  inversion Hlast as [|? ? Hb0 _]; subst. rewrite app_assoc, !bigEndian_app, IH by done. rewrite length_app, Nat2Z.inj_add, Z.pow_add_r by lia. cbn [length]. lia.
Qed.

Lemma bigEndian_range l : bytes l -> (0 <= bigEndian l < 256 ^ Z.of_nat (length l))%Z.
Proof.
  induction l as [|b l IH] using rev_ind; intros Hb; [cbn; lia|]. apply Forall_app in Hb as [Hb Hlast]. inversion Hlast as [|? ? Hb0 _]; subst.
  rewrite bigEndian_app by done. rewrite length_app, Nat2Z.inj_add, Z.pow_add_r by lia. specialize (IH Hb). cbn [length]. lia.
Qed.

Lemma encode_value b : length b = 16 -> bytes b -> encodeULID b = base32 26 (bigEndian b) "".
Proof.
  intros Hl Hb. unfold encodeULID. rewrite (take_ge (drop 8 b)) by (rewrite length_drop; lia).
  pose proof (bigEndian_range (take 8 b) ltac:(by apply Forall_take)) as H1. pose proof (bigEndian_range (drop 8 b) ltac:(by apply Forall_drop)) as H2.
  rewrite length_take, length_drop, Hl in *. change (256 ^ Z.of_nat (8 `min` 16))%Z with (2 ^ 64)%Z in H1. change (256 ^ Z.of_nat (16 - 8))%Z with (2 ^ 64)%Z in H2.
  rewrite loop_base32 by done. f_equal. rewrite <- (take_drop 8 b) at 3. rewrite bigEndian_concat by by apply Forall_drop. rewrite length_drop, Hl. done.
Qed.

(** The value is the time followed by the entropy. *)
Lemma ulid_value ms entropy : (0 <= ms < 2 ^ 48)%Z -> length entropy = 10 -> bytes entropy ->
  newULID ms entropy = base32 26 (ms * 2 ^ 80 + bigEndian entropy) "".
Proof.
  intros Hms Hl Hb. unfold newULID. change 255%Z with (2 ^ 8 - 1)%Z. rewrite !land_ones_mod by lia.
  set (hd := [_; _; _; _; _; _]). assert (bytes hd) as Hh by (unfold hd; repeat constructor; apply Z.mod_pos_bound; lia).
  assert (bigEndian hd = ms) as Ev.
  { unfold hd. change [?a; ?b; ?c; ?d; ?e; ?f] with (((((([] ++ [a]) ++ [b]) ++ [c]) ++ [d]) ++ [e]) ++ [f]).
    rewrite !bigEndian_app by (apply Z.mod_pos_bound; lia). change (bigEndian []) with 0%Z. rewrite !Z.shiftr_div_pow2 by lia. Z.to_euclidean_division_equations; lia. }
  rewrite encode_value; [|by rewrite length_app, Hl|by apply Forall_app]. f_equal. rewrite bigEndian_concat, Ev, Hl by done. done.
Qed.

(** ** Order *)

Lemma str_ltb_same c s t : str_ltb (String c s) (String c t) = str_ltb s t.
Proof. unfold str_ltb, String.leb. cbn [String.compare]. by rewrite (proj2 (Ascii.compare_eq_iff c c) eq_refl) || (unfold Ascii.compare; by rewrite N.compare_refl). Qed.

Lemma crockford_lt a b s t : (0 <= a < b)%Z -> (b < 32)%Z -> str_ltb (String (crockfordAt a) s) (String (crockfordAt b) t) = true.
Proof.
  intros Ha Hb. assert (forallb (fun i => forallb (fun j => implb (i <? j)%nat (match Ascii.compare (crockfordAt (Z.of_nat j)) (crockfordAt (Z.of_nat i)) with Gt => true | _ => false end))
    (seq 0 32)) (seq 0 32) = true) as Hall by (vm_compute; reflexivity).
  rewrite forallb_forall in Hall. specialize (Hall (Z.to_nat a) ltac:(apply in_seq; lia)). rewrite forallb_forall in Hall. specialize (Hall (Z.to_nat b) ltac:(apply in_seq; lia)).
  rewrite (proj2 (Nat.ltb_lt _ _)), !Z2Nat.id in Hall by lia. cbn [implb] in Hall. unfold str_ltb, String.leb. cbn [String.compare].
  by destruct (Ascii.compare _ _).
Qed.

Lemma base32_suffix n q s t : str_ltb s t = true -> str_ltb (base32 n q s) (base32 n q t) = true.
Proof. revert q s t. induction n as [|n IH]; intros q s t Hst; [done|]. cbn [base32]. apply IH. by rewrite str_ltb_same. Qed.

Lemma base32_lt n v w s t : (0 <= v < w)%Z -> (w < 32 ^ Z.of_nat n)%Z -> str_ltb (base32 n v s) (base32 n w t) = true.
Proof.
  revert v w s t. induction n as [|n IH]; intros v w s t Hv Hw; [cbn in Hw; lia|]. rewrite Nat2Z.inj_succ, Z.pow_succ_r in Hw by lia. cbn [base32].
  pose proof (Z.div_mod v 32 ltac:(lia)). pose proof (Z.div_mod w 32 ltac:(lia)). pose proof (Z.mod_pos_bound v 32 ltac:(lia)). pose proof (Z.mod_pos_bound w 32 ltac:(lia)).
  destruct (Z.eq_dec (v / 32) (w / 32)) as [E|E].
  - rewrite E. apply base32_suffix, crockford_lt; lia.
  - apply IH; [lia|]. lia.
Qed.

(** Ids sort by their time.  Two ids of a kind issued at different milliseconds compare
    as strings the way their times do, whatever the entropy; within one millisecond they
    compare as their entropy, so equal ids need equal entropy in the same millisecond. *)
Theorem ulid_order (ms ms' : Z) (entropy entropy' : list Z) :
  (0 <= ms < 2 ^ 48)%Z -> (0 <= ms' < 2 ^ 48)%Z -> length entropy = 10 -> length entropy' = 10 -> bytes entropy -> bytes entropy' ->
  (str_ltb (newULID ms entropy) (newULID ms' entropy') = true <-> (ms < ms')%Z \/ (ms = ms' /\ (bigEndian entropy < bigEndian entropy')%Z)).
Proof.
  intros H1 H2 L1 L2 B1 B2. rewrite !ulid_value by done. pose proof (bigEndian_range _ B1) as R1. pose proof (bigEndian_range _ B2) as R2. rewrite L1 in R1. rewrite L2 in R2.
  change (256 ^ Z.of_nat 10)%Z with (2 ^ 80)%Z in *. set (v := (ms * 2 ^ 80 + bigEndian entropy)%Z). set (w := (ms' * 2 ^ 80 + bigEndian entropy')%Z).
  assert (v < w <-> (ms < ms') \/ (ms = ms' /\ bigEndian entropy < bigEndian entropy'))%Z as <- by (unfold v, w; lia).
  split; [|intros Hvw; apply base32_lt; [lia|change (32 ^ Z.of_nat 26)%Z with (2 ^ 130)%Z; lia]].
  intros Hlt. destruct (Z.lt_trichotomy v w) as [?|[E|Hwv]]; [done| |].
  - rewrite E, str_ltb_irrefl in Hlt. done.
  - apply str_ltb_asym in Hlt. rewrite base32_lt in Hlt; [done|lia|change (32 ^ Z.of_nat 26)%Z with (2 ^ 130)%Z; lia].
Qed.

Lemma ulid_order_witness :
  NewTicketID 1700000000000 (repeat 255%Z 10) = "tkt_01HF7YAT00ZZZZZZZZZZZZZZZZ" /\
  str_ltb (newULID 1700000000000 (repeat 255%Z 10)) (newULID 1700000000001 (repeat 0%Z 10)) = true.
Proof.
  split; [vm_compute; reflexivity|]. apply (proj2 (ulid_order 1700000000000 1700000000001 (repeat 255%Z 10) (repeat 0%Z 10)
    ltac:(lia) ltac:(lia) eq_refl eq_refl ltac:(repeat constructor; lia) ltac:(repeat constructor; lia))). left. lia.
Defined.
