(* ===== verification/RedisQueue.v ===== *)
(** * The Redis Streams queue (internal/queue/redisstreams/redisstreams.go)

    One stream per shard and one consumer group shared by all workers.  The server's
    commands are an interface on the world [W], whose clock and other clients are part of
    it; the go-redis client returns the fields of an entry as a Go map. *)

From stdpp Require Import base list strings.
From Stdlib Require Import ZArith Lia Ascii.
From S2P Require Import Prelude GoMap Json Paths Diff DiffSound Domain Tenant Config Alias Repo Plugin Ingest Numbers Pipeline Queue.

(** ** The server *)

(** [redis.XMessage]. *)
Record XMessage := mkXMessage { x_ID : string; x_Values : list (string * string) }.

(** [redis.XInfoGroup]; a lag of -1 is undetermined. *)
Record XInfoGroup := mkXInfoGroup { xg_Name : string; xg_Pending : Z; xg_Lag : Z }.

(** Errors by their text.  [XReadGroup] asks for one new entry of one stream and answers
    [None] when the block timed out ([redis.Nil]). *)
Class RedisStreams (W : Type) := {
  XAdd : string -> list (string * string) -> W -> res string string * W;
  XGroupCreateMkStream : string -> string -> W -> option string * W;
  XReadGroup : string -> string -> string -> W -> res string (option XMessage) * W;
  XAck : string -> string -> string -> W -> option string * W;
  XAutoClaim : string -> string -> string -> time -> Z -> W -> res string (list XMessage) * W;
  XInfoGroups : string -> W -> res string (list XInfoGroup) }.

Definition keyField : string := "key".
Definition payloadField : string := "payload".
Definition attrPrefix : string := "a:".
Definition reclaimCount : Z := 100.

(** The queue of one process. *)
Record redisQueue := mkRedisQueue { rq_shards : Z; rq_prefix : string; rq_group : string; rq_consumer : string }.

Definition NewRedisQueue (shards : Z) (prefix group consumer : string) : redisQueue :=
  mkRedisQueue (if (shards <? 1)%Z then 1%Z else shards) prefix group consumer.

(** [unavailable]. *)
Definition unavailable (e : option string) : res err unit := match e with None => Ok tt | Some _ => Err ErrQueueUnavailable end.

(** The fields of an entry: the map [Publish] builds. *)
Definition entryValues (msg : Message string) : list (string * string) :=
  fold_left (fun acc kv => mset (attrPrefix +:+ kv.1) kv.2 acc) (msg_Attrs msg)
    (mset payloadField (msg_Payload msg) (mset keyField (msg_Key msg) [])).

(** One field of an entry read into a message. *)
Definition decodeField (m : Message string) (kv : string * string) : Message string :=
  if str_eqb kv.1 keyField then mkMessage kv.2 (msg_Payload m) (msg_Attrs m)
  else if str_eqb kv.1 payloadField then mkMessage (msg_Key m) kv.2 (msg_Attrs m)
  else match drop_prefix attrPrefix kv.1 with
       | Some k => mkMessage (msg_Key m) (msg_Payload m) (mset k kv.2 (msg_Attrs m))
       | None => m
       end.

Definition decodeValues (vs : list (string * string)) : Message string := fold_left decodeField vs (mkMessage "" "" []).

Definition decodeDelivery (shard : Z) (m : XMessage) (deliveries : Z) : Delivery string :=
  mkDelivery (decodeValues (x_Values m)) (x_ID m) shard deliveries.

Section Operations.
Context {W : Type} `{RedisStreams W}.
Variable q : redisQueue.

Definition streamOf (shard : Z) : string := StreamName (rq_prefix q) shard.

Definition RPublish (msg : Message string) (w : W) : res err unit * W :=
  match XAdd (streamOf (Shard (msg_Key msg) (rq_shards q))) (entryValues msg) w with
  | (Ok _, w') => (Ok tt, w')
  | (Err e, w') => (unavailable (Some e), w')
  end.

Definition ensureGroup (stream : string) (w : W) : res err unit * W :=
  match XGroupCreateMkStream stream (rq_group q) w with
  | (Some e, w') => (if contains "BUSYGROUP" e then Ok tt else unavailable (Some e), w')
  | (None, w') => (Ok tt, w')
  end.

(** [Subscribe] up to the start of its goroutine. *)
Definition RSubscribe (shard : Z) (w : W) : res err unit * W :=
  if ((shard <? 0) || (rq_shards q <=? shard))%Z then (Err (ErrInternal "shard out of range"), w) else ensureGroup (streamOf shard) w.

(** One round of the goroutine: [None] when the block timed out or the backend failed,
    after which the loop starts again. *)
Definition RNext (shard : Z) (w : W) : option (Delivery string) * W :=
  match XReadGroup (rq_group q) (rq_consumer q) (streamOf shard) w with
  | (Ok (Some m), w') => (Some (decodeDelivery shard m 1), w')
  | (Ok None, w') => (None, w')
  | (Err _, w') => (None, w')
  end.

Definition RAck (d : Delivery string) (w : W) : res err unit * W :=
  let '(e, w') := XAck (streamOf (d_Shard d)) (rq_group q) (d_ID d) w in (unavailable e, w').

(** The count of deliveries is unknown. *)
Definition RReclaim (shard : Z) (minIdle : time) (w : W) : res err (list (Delivery string)) * W :=
  match XAutoClaim (streamOf shard) (rq_group q) (rq_consumer q) minIdle reclaimCount w with
  | (Err e, w') => (if contains "NOGROUP" e then Ok [] else Err ErrQueueUnavailable, w')
  | (Ok msgs, w') => (Ok (map (fun m => decodeDelivery shard m 0) msgs), w')
  end.

(** The backlog of one shard: lag, when it is known, and pending. *)
Definition groupDepth (groups : list XInfoGroup) : Z :=
  fold_left (fun acc g => if str_eqb (xg_Name g) (rq_group q) then (acc + (if (0 <? xg_Lag g)%Z then xg_Lag g else 0) + xg_Pending g)%Z else acc) groups 0%Z.

Fixpoint depthFrom (shards : list Z) (total : Z) (w : W) : res err Z :=
  match shards with
  | [] => Ok total
  | sh :: shards' =>
      match XInfoGroups (streamOf sh) w with
      | Err e => if contains "no such key" e || contains "NOGROUP" e then depthFrom shards' total w else Err ErrQueueUnavailable
      | Ok groups => depthFrom shards' (total + groupDepth groups)%Z w
      end
  end.

Definition RDepth (w : W) : res err Z := depthFrom (map Z.of_nat (seq 0 (Z.to_nat (rq_shards q)))) 0 w.
End Operations.
