(* ===== verification/RedisSound.v ===== *)
(** * The Redis Streams queue delivers at least once and in order

    [StreamLaws] states what the Redis documentation says of streams and consumer groups,
    failed commands included: a command whose reply was lost may have been executed.  A
    step relation covers every worker of the group and the other clients of the server. *)

From stdpp Require Import base list strings.
From Stdlib Require Import ZArith Lia Ascii.
From S2P Require Import Prelude GoMap Json Paths Diff DiffSound Domain Tenant Config Alias Repo Plugin Ingest Numbers Pipeline Queue RedisQueue.

(** ** Redis streams *)

(** [nextOf]: how many entries of the stream the group has read, [None] without the group;
    [pelOf]: its pending entries list; [idleOf]: how long an entry has been pending. *)
Class StreamView (W : Type) := {
  logOf : W -> string -> list XMessage;
  nextOf : W -> string -> string -> option nat;
  pelOf : W -> string -> string -> list string;
  idleOf : W -> string -> string -> string -> time }.

Section Effects.
Context {W : Type} `{StreamView W}.

Definition sameStream (w w' : W) (s : string) : Prop :=
  logOf w' s = logOf w s /\ forall g, nextOf w' s g = nextOf w s g /\ pelOf w' s g = pelOf w s g.
Definition quiet (w w' : W) : Prop := forall s, sameStream w w' s.
Definition elsewhere (w w' : W) (s : string) : Prop := forall s', s' <> s -> sameStream w w' s'.

Definition added (s : string) (e : XMessage) (w w' : W) : Prop :=
  ~ In (x_ID e) (map x_ID (logOf w s)) /\ logOf w' s = logOf w s ++ [e] /\
  (forall g, nextOf w' s g = nextOf w s g /\ pelOf w' s g = pelOf w s g) /\ elsewhere w w' s.

(** The effects on one group of a stream. *)
Definition onGroup (s g : string) (next : option nat) (pel : list string) (w w' : W) : Prop :=
  logOf w' s = logOf w s /\ nextOf w' s g = next /\ pelOf w' s g = pel /\
  (forall g', g' <> g -> nextOf w' s g' = nextOf w s g' /\ pelOf w' s g' = pelOf w s g') /\ elsewhere w w' s.

Definition taken (s g : string) (e : XMessage) (w w' : W) : Prop :=
  exists n, nextOf w s g = Some n /\ logOf w s !! n = Some e /\ onGroup s g (Some (S n)) (pelOf w s g ++ [x_ID e]) w w'.

Definition removed (s g id : string) (w w' : W) : Prop :=
  onGroup s g (nextOf w s g) (List.filter (fun i => negb (str_eqb i id)) (pelOf w s g)) w w'.
End Effects.

Class StreamLaws (W : Type) `{RedisStreams W} `{StreamView W} := {
  no_group_no_pel : forall w s g, nextOf w s g = None -> pelOf w s g = [];
  xadd_ok : forall s vs w id w', XAdd s vs w = (Ok id, w') -> added s (mkXMessage id vs) w w';
  xadd_err : forall s vs w e w', XAdd s vs w = (Err e, w') -> quiet w w' \/ exists id, added s (mkXMessage id vs) w w';
  xgroup_any : forall s g w r w', XGroupCreateMkStream s g w = (r, w') ->
    quiet w w' \/ (nextOf w s g = None /\ onGroup s g (Some 0%nat) [] w w');
  xgroup_ok : forall s g w w', XGroupCreateMkStream s g w = (None, w') -> is_Some (nextOf w' s g);
  xread_some : forall g c s w e w', XReadGroup g c s w = (Ok (Some e), w') -> taken s g e w w';
  xread_none : forall g c s w w', XReadGroup g c s w = (Ok None, w') -> quiet w w';
  xread_waiting : forall g c s w w' n, XReadGroup g c s w = (Ok None, w') -> nextOf w s g = Some n -> length (logOf w s) = n;
  xread_err : forall g c s w x w', XReadGroup g c s w = (Err x, w') -> quiet w w' \/ exists e, taken s g e w w';
  xack_ok : forall s g id w w', XAck s g id w = (None, w') -> removed s g id w w';
  xack_err : forall s g id w x w', XAck s g id w = (Some x, w') -> quiet w w' \/ removed s g id w w';
  xclaim_quiet : forall s g c m n w r w', XAutoClaim s g c m n w = (r, w') -> quiet w w';
  xclaim_nogroup : forall s g c m n w e w', XAutoClaim s g c m n w = (Err e, w') -> contains "NOGROUP" e = true -> nextOf w s g = None;
  (* the scan starts at the oldest pending entry, looks at ten times the count and claims at most the count *)
  xclaim_ok : forall s g c m n w l w', XAutoClaim s g c m n w = (Ok l, w') ->
    map x_ID l = take (Z.to_nat n) (List.filter (fun id => (m <=? idleOf w s g id)%Z) (take (10 * Z.to_nat n) (pelOf w s g))) /\
    forall e, In e l -> In e (logOf w s);
  (* the entry of a group: its pending count, and its lag unless that is undetermined *)
  xinfo_ok : forall s g w gs, XInfoGroups s w = Ok gs ->
    match nextOf w s g with
    | None => List.filter (fun i => str_eqb (xg_Name i) g) gs = []
    | Some n => exists lag, (lag = Z.of_nat (length (logOf w s)) - Z.of_nat n \/ lag = -1)%Z /\
        List.filter (fun i => str_eqb (xg_Name i) g) gs = [mkXInfoGroup g (Z.of_nat (length (pelOf w s g))) lag]
    end }.

(** ** A message survives its entry *)

(** [Attrs] is a Go map. *)
Definition goAttrs (msg : Message string) : Prop := msorted (msg_Attrs msg).

Section Fields.
Implicit Types (m : Message string) (vs : list (string * string)).

Lemma attr_key k k' : attrPrefix +:+ k = attrPrefix +:+ k' -> k = k'.
Proof. apply app_str_inj_l. Qed.

Lemma attr_apart k : attrPrefix +:+ k <> keyField /\ attrPrefix +:+ k <> payloadField.
Proof. split; unfold attrPrefix; rewrite app_cons_str; discriminate. Qed.

Lemma decode_key k v m : str_eqb k keyField = false -> msg_Key (decodeField m (k, v)) = msg_Key m.
Proof. intros E. unfold decodeField. cbn [fst snd]. rewrite E. destruct (str_eqb k payloadField); [done|]. by destruct (drop_prefix attrPrefix k). Qed.

Lemma decode_payload k v m : str_eqb k payloadField = false -> msg_Payload (decodeField m (k, v)) = msg_Payload m.
Proof. intros E. unfold decodeField. cbn [fst snd]. destruct (str_eqb k keyField); [done|]. rewrite E. by destruct (drop_prefix attrPrefix k). Qed.

Lemma decode_attr k v m k' : k <> attrPrefix +:+ k' -> mget k' (msg_Attrs (decodeField m (k, v))) = mget k' (msg_Attrs m).
Proof.
  intros Hne. unfold decodeField. cbn [fst snd]. destruct (str_eqb k keyField); [done|]. destruct (str_eqb k payloadField); [done|].
  destruct (drop_prefix attrPrefix k) as [k0|] eqn:E; [|done]. apply drop_prefix_inv in E as ->. cbn. apply mget_mset_ne. intros ->. by apply Hne.
Qed.

Lemma decode_attr_eq k v m : mget k (msg_Attrs (decodeField m (attrPrefix +:+ k, v))) = Some v.
Proof.
  destruct (attr_apart k) as [H1 H2]. unfold decodeField. cbn [fst snd]. apply str_eqb_neq in H1, H2. rewrite H1, H2, drop_prefix_app. apply mget_mset_eq.
Qed.

Lemma decode_sorted m kv : goAttrs m -> goAttrs (decodeField m kv).
Proof.
  unfold goAttrs, decodeField. intros Hs. destruct (str_eqb _ _); [done|]. destruct (str_eqb _ _); [done|]. destruct (drop_prefix _ _); [|done]. by apply msorted_mset.
Qed.

Lemma mget_cons k k' (v : string) vs : mget k ((k', v) :: vs) = if str_eqb k k' then Some v else mget k vs.
Proof. done. Qed.

(** What the fields of an entry say, whatever their order. *)
Lemma decode_fields vs : forall m, msorted vs -> goAttrs m ->
  msg_Key (fold_left decodeField vs m) = default (msg_Key m) (mget keyField vs) /\
  msg_Payload (fold_left decodeField vs m) = default (msg_Payload m) (mget payloadField vs) /\
  goAttrs (fold_left decodeField vs m) /\
  forall k, mget k (msg_Attrs (fold_left decodeField vs m)) = match mget (attrPrefix +:+ k) vs with Some v => Some v | None => mget k (msg_Attrs m) end.
Proof.
  induction vs as [|[k0 v0] vs IH]; intros m Hs Hm; [done|]. apply msorted_cons in Hs as [Hs Hlt%mget_None_lt].
  cbn [fold_left]. destruct (IH (decodeField m (k0, v0)) Hs (decode_sorted m _ Hm)) as (E1 & E2 & E3 & E4). rewrite E1, E2, !mget_cons. split_and!; [..|done|].
  - destruct (str_eqb keyField k0) eqn:E; [apply str_eqb_eq in E as <-; rewrite Hlt; reflexivity|]. rewrite decode_key; [done|]. apply str_eqb_neq. apply str_eqb_neq in E. congruence.
  - destruct (str_eqb payloadField k0) eqn:E; [apply str_eqb_eq in E as <-; rewrite Hlt; reflexivity|]. rewrite decode_payload; [done|]. apply str_eqb_neq. apply str_eqb_neq in E. congruence.
  - intros k. rewrite E4, mget_cons. destruct (str_eqb _ k0) eqn:E; [apply str_eqb_eq in E as <-; by rewrite Hlt, decode_attr_eq|].
    rewrite decode_attr; [done|]. apply str_eqb_neq in E. congruence.
Qed.

Lemma attrs_get l : forall (base : list (string * string)) k, msorted l ->
  mget (attrPrefix +:+ k) (fold_left (fun acc kv => mset (attrPrefix +:+ kv.1) kv.2 acc) l base) = match mget k l with Some v => Some v | None => mget (attrPrefix +:+ k) base end.
Proof.
  induction l as [|[k0 v0] l IH]; intros base k Hs; [done|]. apply msorted_cons in Hs as [Hs Hlt%mget_None_lt]. cbn [fold_left fst snd]. rewrite IH by done.
  rewrite mget_cons. destruct (str_eqb k k0) eqn:E; [apply str_eqb_eq in E as ->; by rewrite Hlt, mget_mset_eq|].
  apply str_eqb_neq in E. rewrite mget_mset_ne; [done|]. intros Hk%attr_key. congruence.
Qed.

Lemma attrs_other l k : (forall k', attrPrefix +:+ k' <> k) -> forall base : list (string * string),
  mget k (fold_left (fun acc kv => mset (attrPrefix +:+ kv.1) kv.2 acc) l base) = mget k base.
Proof.
  intros Hk. induction l as [|[k0 v0] l IH]; intros base; [done|]. cbn [fold_left fst snd]. rewrite IH. apply mget_mset_ne. apply Hk.
Qed.

Lemma attrs_sorted l : forall base : list (string * string), msorted base -> msorted (fold_left (fun acc kv => mset (attrPrefix +:+ kv.1) kv.2 acc) l base).
Proof. induction l as [|kv l IH]; intros base Hs; [done|]. cbn [fold_left]. apply IH. by apply msorted_mset. Qed.

Lemma message_eq m m' : msg_Key m = msg_Key m' -> msg_Payload m = msg_Payload m' -> msg_Attrs m = msg_Attrs m' -> m = m'.
Proof. destruct m, m'. cbn. congruence. Qed.

Lemma entry_roundtrip m : goAttrs m -> decodeValues (entryValues m) = m.
Proof.
  intros Hm. assert (msorted (mset payloadField (msg_Payload m) (mset keyField (msg_Key m) []))) as Hb by (do 2 apply msorted_mset; apply msorted_nil).
  destruct (decode_fields (entryValues m) (mkMessage "" "" []) (attrs_sorted _ _ Hb) msorted_nil) as (E1 & E2 & E3 & E4).
  apply message_eq; change (decodeValues (entryValues m)) with (fold_left decodeField (entryValues m) (mkMessage "" "" [])).
  - rewrite E1. unfold entryValues. rewrite attrs_other by (intros k; apply attr_apart). by rewrite mget_mset_ne, mget_mset_eq.
  - rewrite E2. unfold entryValues. rewrite attrs_other by (intros k; apply attr_apart). by rewrite mget_mset_eq.
  - apply mext; [done|done|]. intros x. rewrite E4. unfold entryValues. rewrite attrs_get by done. destruct (mget x (msg_Attrs m)); [done|].
    destruct (attr_apart x). by rewrite !mget_mset_ne by congruence.
Qed.
End Fields.

(** ** Runs *)

Inductive revent := EvPublished (m : Message string) | EvFailed (m : Message string) | EvRead (d : Delivery string) | EvAck (d : Delivery string)
| EvReclaimed (sh : Z) (ds : list (Delivery string)) | EvOther.

Section Runs.
Context {W : Type} `{StreamLaws W}.
Variables (shards : Z) (prefix group : string).

(** The processes of the group differ in their consumer name. *)
Abbreviation worker c := (NewRedisQueue shards prefix group c).
Abbreviation nshards := (rq_shards (worker "")).
Abbreviation stream sh := (StreamName prefix sh).

Definition ourShard (sh : Z) : Prop := (0 <= sh < nshards)%Z.

(** Nobody else writes to our streams or uses our group. *)
Definition foreign (w w' : W) : Prop := forall sh, ourShard sh ->
  logOf w' (stream sh) = logOf w (stream sh) /\ nextOf w' (stream sh) group = nextOf w (stream sh) group /\ pelOf w' (stream sh) group = pelOf w (stream sh) group.

Inductive rstep (w : W) : revent -> W -> Prop :=
| rs_publish c m w' : goAttrs m -> RPublish (worker c) m w = (Ok tt, w') -> rstep w (EvPublished m) w'
| rs_failed c m e w' : goAttrs m -> RPublish (worker c) m w = (Err e, w') -> rstep w (EvFailed m) w'
| rs_subscribe c sh r w' : RSubscribe (worker c) sh w = (r, w') -> rstep w EvOther w'
| rs_read c sh d w' : ourShard sh -> RNext (worker c) sh w = (Some d, w') -> rstep w (EvRead d) w'
| rs_dropped c sh d w' : ourShard sh -> RNext (worker c) sh w = (Some d, w') -> rstep w EvOther w'   (* the loop stops before handing it out *)
| rs_idle c sh w' : ourShard sh -> RNext (worker c) sh w = (None, w') -> rstep w EvOther w'
| rs_ack c d r w' : ourShard (d_Shard d) -> RAck (worker c) d w = (r, w') -> rstep w (EvAck d) w'
| rs_reclaim c sh minIdle r w' : ourShard sh -> RReclaim (worker c) sh minIdle w = (r, w') -> rstep w (EvReclaimed sh (match r with Ok ds => ds | Err _ => [] end)) w'
| rs_others w' : foreign w w' -> rstep w EvOther w'.

Inductive rrun (w0 : W) : list revent -> W -> Prop :=
| rrun_nil : rrun w0 [] w0
| rrun_snoc tr w e w' : rrun w0 tr w -> rstep w e w' -> rrun w0 (tr ++ [e]) w'.

Definition publishedTo (sh : Z) (tr : list revent) : list (Message string) :=
  flat_map (fun e => match e with EvPublished m => if (Shard (msg_Key m) nshards =? sh)%Z then [m] else [] | _ => [] end) tr.
Definition readFrom (sh : Z) (tr : list revent) : list (Delivery string) :=
  flat_map (fun e => match e with EvRead d => if (d_Shard d =? sh)%Z then [d] else [] | _ => [] end) tr.
Definition ackedOn (sh : Z) (id : string) (tr : list revent) : Prop := exists d, In (EvAck d) tr /\ d_ID d = id /\ d_Shard d = sh.
Definition offered (m : Message string) (tr : list revent) : Prop := In (EvPublished m) tr \/ In (EvFailed m) tr.

Definition messages (l : list XMessage) : list (Message string) := map (fun e => decodeValues (x_Values e)) l.

(** The log of a shard, how much of it the group has read, and what is pending. *)
Record logInv (tr : list revent) (sh : Z) (log : list XMessage) (next : nat) (pel : list string) : Prop := {
  li_ids : NoDup (map x_ID log);
  li_next : (next <= length log)%nat;
  li_origin : forall m, In m (messages log) -> offered m tr /\ Shard (msg_Key m) nshards = sh;
  li_published : publishedTo sh tr `sublist_of` messages log;
  li_read : readFrom sh tr `sublist_of` map (fun e => decodeDelivery sh e 1) (take next log);
  li_held : forall e, In e (take next log) -> In (x_ID e) pel \/ ackedOn sh (x_ID e) tr;
  li_pel : forall id, In id pel -> In id (map x_ID (take next log)) }.

Definition shardInv (tr : list revent) (w : W) (sh : Z) : Prop :=
  logInv tr sh (logOf w (stream sh)) (default 0%nat (nextOf w (stream sh) group)) (pelOf w (stream sh) group).

Lemma offered_snoc m tr e : offered m tr -> offered m (tr ++ [e]).
Proof. unfold offered. rewrite !in_app_iff. tauto. Qed.

Lemma acked_snoc sh id tr e : ackedOn sh id tr -> ackedOn sh id (tr ++ [e]).
Proof. intros (d & Hd & E). exists d. rewrite in_app_iff. tauto. Qed.

Lemma published_snoc sh tr e : publishedTo sh (tr ++ [e]) = publishedTo sh tr ++ publishedTo sh [e].
Proof. apply flat_map_app. Qed.

Lemma read_snoc sh tr e : readFrom sh (tr ++ [e]) = readFrom sh tr ++ readFrom sh [e].
Proof. apply flat_map_app. Qed.

Lemma inv_quiet tr e sh log next pel : publishedTo sh [e] = [] -> readFrom sh [e] = [] -> logInv tr sh log next pel -> logInv (tr ++ [e]) sh log next pel.
Proof.
  intros Hp Hr []. split; try done.
  - intros m Hm. destruct (li_origin0 m Hm). split; [by apply offered_snoc|done].
  - by rewrite published_snoc, Hp, app_nil_r.
  - by rewrite read_snoc, Hr, app_nil_r.
  - intros x Hx. destruct (li_held0 x Hx); [by left|right; by apply acked_snoc].
Qed.

Lemma inv_added tr e sh log next pel x m : (e = EvPublished m \/ e = EvFailed m) -> ~ In (x_ID x) (map x_ID log) -> goAttrs m ->
  x_Values x = entryValues m -> Shard (msg_Key m) nshards = sh -> logInv tr sh log next pel -> logInv (tr ++ [e]) sh (log ++ [x]) next pel.
Proof.
  intros He Hid Hm Hx Hsh []. assert (messages (log ++ [x]) = messages log ++ [m]) as Hms by (unfold messages; rewrite map_app; cbn; by rewrite Hx, entry_roundtrip).
  assert (take next (log ++ [x]) = take next log) as Htake by (rewrite take_app_le; [done|lia]). split; rewrite ?Htake, ?Hms; try done.
  - rewrite map_app. apply NoDup_app. split_and!; [done| |apply NoDup_singleton]. intros y Hy Hy'. apply list_elem_of_singleton in Hy' as ->. by apply Hid, list_elem_of_In.
  - rewrite length_app. lia.
  - intros m' [Hm'|[<-|[]]]%in_app_iff; [destruct (li_origin0 m' Hm'); split; [by apply offered_snoc|done]|]. split; [|done].
    unfold offered. rewrite !in_app_iff. cbn. destruct He as [-> | ->]; auto.
  - rewrite published_snoc. apply sublist_app; [done|]. destruct He as [-> | ->]; cbn; [|apply sublist_nil_l].
    destruct (_ =? _)%Z; [done|apply sublist_nil_l].
  - rewrite read_snoc. destruct He as [-> | ->]; cbn; by rewrite app_nil_r.
  - intros y Hy. destruct (li_held0 y Hy); [by left|right; by apply acked_snoc].
Qed.

Lemma inv_taken tr e sh log next pel x : publishedTo sh [e] = [] -> (readFrom sh [e] = [] \/ readFrom sh [e] = [decodeDelivery sh x 1]) ->
  log !! next = Some x -> logInv tr sh log next pel -> logInv (tr ++ [e]) sh log (S next) (pel ++ [x_ID x]).
Proof.
  intros Hp Hr Hx []. pose proof (take_S_r log next x Hx) as Htake. split; rewrite ?Htake; try done.
  - by apply lookup_lt_Some in Hx.
  - intros m Hm. destruct (li_origin0 m Hm). split; [by apply offered_snoc|done].
  - by rewrite published_snoc, Hp, app_nil_r.
  - rewrite read_snoc, map_app. apply sublist_app; [done|]. destruct Hr as [-> | ->]; [apply sublist_nil_l|done].
  - intros y [Hy|[<-|[]]]%in_app_iff; rewrite !in_app_iff; cbn; [|by auto]. destruct (li_held0 y Hy); [by auto|right; by apply acked_snoc].
  - intros id. rewrite map_app, !in_app_iff. intros [Hi|Hi]; [left; by apply li_pel0|by right].
Qed.

Lemma inv_acked tr d sh log next pel : d_Shard d = sh -> logInv tr sh log next pel ->
  logInv (tr ++ [EvAck d]) sh log next (List.filter (fun i => negb (str_eqb i (d_ID d))) pel).
Proof.
  intros Hsh Hinv. destruct (inv_quiet tr (EvAck d) sh log next pel eq_refl eq_refl Hinv). split; try done.
  - intros e He. destruct (li_held0 e He) as [Hi|Ha]; [|by right]. destruct (str_eqb (x_ID e) (d_ID d)) eqn:E.
    + right. exists d. rewrite in_app_iff. apply str_eqb_eq in E. cbn. auto.
    + left. apply filter_In. by rewrite E.
  - intros id [Hi _]%filter_In. by apply li_pel0.
Qed.

(** ** From the commands to the logs *)

Lemma stream_inj sh sh' : stream sh = stream sh' -> sh = sh'.
Proof. unfold StreamName. rewrite <- !app_assoc_str. intros E%app_str_inj_l. by apply itoa_inj. Qed.

Lemma inv_same tr e w w' sh : publishedTo sh [e] = [] -> readFrom sh [e] = [] ->
  logOf w' (stream sh) = logOf w (stream sh) -> nextOf w' (stream sh) group = nextOf w (stream sh) group -> pelOf w' (stream sh) group = pelOf w (stream sh) group ->
  shardInv tr w sh -> shardInv (tr ++ [e]) w' sh.
Proof. unfold shardInv. intros Hp Hr -> -> ->. by apply inv_quiet. Qed.

Lemma inv_sameStream tr e w w' sh : publishedTo sh [e] = [] -> readFrom sh [e] = [] -> sameStream w w' (stream sh) -> shardInv tr w sh -> shardInv (tr ++ [e]) w' sh.
Proof. intros Hp Hr [Hl Hg]. destruct (Hg group). by apply inv_same. Qed.

Lemma inv_elsewhere tr e w w' sh sh' : publishedTo sh [e] = [] -> readFrom sh [e] = [] -> sh <> sh' -> elsewhere w w' (stream sh') ->
  shardInv tr w sh -> shardInv (tr ++ [e]) w' sh.
Proof. intros Hp Hr Hne He. apply inv_sameStream; [done..|]. apply He. by intros E%stream_inj. Qed.

Lemma published_other m sh : Shard (msg_Key m) nshards <> sh -> publishedTo sh [EvPublished m] = [].
Proof. intros Hne. unfold publishedTo. cbn [flat_map]. by destruct (Z.eqb_spec (Shard (msg_Key m) nshards) sh). Qed.

(** A publish, executed. *)
Lemma inv_publish tr e m id w w' sh : (e = EvPublished m \/ e = EvFailed m) -> goAttrs m ->
  added (stream (Shard (msg_Key m) nshards)) (mkXMessage id (entryValues m)) w w' -> shardInv tr w sh -> shardInv (tr ++ [e]) w' sh.
Proof.
  intros He Hm (Hid & Hlog & Hg & Hels) Hinv. destruct (Z.eq_dec sh (Shard (msg_Key m) nshards)) as [->|Hne].
  - unfold shardInv. rewrite Hlog. destruct (Hg group) as [-> ->]. eapply inv_added; [exact He|exact Hid|exact Hm|done|done|exact Hinv].
  - eapply inv_elsewhere; [|by destruct He as [-> | ->]|exact Hne|exact Hels|exact Hinv].
    destruct He as [-> | ->]; [by apply published_other, not_eq_sym|done].
Qed.

(** A read, handed out or not. *)
Lemma inv_read tr e x w w' sh sh' : publishedTo sh [e] = [] -> (readFrom sh [e] = [] \/ (sh = sh' /\ readFrom sh [e] = [decodeDelivery sh x 1])) ->
  taken (stream sh') group x w w' -> shardInv tr w sh -> shardInv (tr ++ [e]) w' sh.
Proof.
  intros Hp Hr (n & Hn & Hx & Hlog & Hnext & Hpel & _ & Hels) Hinv. destruct (Z.eq_dec sh sh') as [->|Hne].
  - unfold shardInv in *. rewrite Hlog, Hnext, Hpel. rewrite Hn in Hinv. cbn [default] in *. apply inv_taken; [done| |done..]. tauto.
  - assert (readFrom sh [e] = []) by (destruct Hr as [|[]]; done). by eapply inv_elsewhere.
Qed.

Lemma inv_step tr w e w' sh : ourShard sh -> rstep w e w' -> shardInv tr w sh -> shardInv (tr ++ [e]) w' sh.
Proof.
  intros Hs Hstep Hinv. destruct Hstep as [c m w' Hm E|c m x w' Hm E|c sh' r w' E|c sh' d w' Hsh E|c sh' d w' Hsh E|c sh' w' Hsh E|c d r w' Hsh E|c sh' minIdle r w' Hsh E|w' Hf].
  - unfold RPublish in E. destruct (XAdd _ _ w) as [[id|x] w1] eqn:Ex; [|done]. injection E as <-. eapply inv_publish; [by left|done|by eapply xadd_ok|done].
  - unfold RPublish in E. destruct (XAdd _ _ w) as [[id|y] w1] eqn:Ex; [done|]. injection E as _ <-. destruct (xadd_err _ _ _ _ _ Ex) as [Hq|[id Ha]].
    + apply (inv_sameStream tr _ w); [done|done|apply Hq|done].
    + eapply inv_publish; [by right|done|exact Ha|done].
  - unfold RSubscribe in E. destruct (_ || _)%Z; [injection E as _ <-; by apply (inv_same tr _ w)|].
    unfold ensureGroup in E. destruct (XGroupCreateMkStream _ _ w) as [x w1] eqn:Ex. assert (w1 = w') as <- by (destruct x; by injection E).
    destruct (xgroup_any _ _ _ _ _ Ex) as [Hq|(Hn & Hlog & Hnext & Hpel & _ & Hels)]; [apply (inv_sameStream tr _ w); [done|done|apply Hq|done]|].
    destruct (Z.eq_dec sh sh') as [->|Hne]; [|by eapply inv_elsewhere].
    unfold shardInv in *. unfold streamOf in *. cbn [rq_prefix rq_group NewRedisQueue] in *. rewrite Hlog, Hnext, Hpel.
    rewrite Hn, (no_group_no_pel _ _ _ Hn) in Hinv. by apply inv_quiet.
  - unfold RNext in E. destruct (XReadGroup _ _ _ w) as [[[x|]|x] w1] eqn:Ex; [|done..]. injection E as <- <-. eapply inv_read; [done| |by eapply xread_some|done].
    cbn. destruct (Z.eqb_spec sh' sh) as [->|]; [right|left]; done.
  - unfold RNext in E. destruct (XReadGroup _ _ _ w) as [[[x|]|x] w1] eqn:Ex; [|done..]. injection E as _ <-. eapply inv_read; [done|by left|by eapply xread_some|done].
  - unfold RNext in E. destruct (XReadGroup _ _ _ w) as [[[x|]|x] w1] eqn:Ex; [done|..]; injection E as <-.
    + apply (inv_sameStream tr _ w); [done|done|by eapply xread_none|done].
    + destruct (xread_err _ _ _ _ _ _ Ex) as [Hq|[y Ht]]; [apply (inv_sameStream tr _ w); [done|done|apply Hq|done]|]. eapply inv_read; [done|by left|exact Ht|done].
  - unfold RAck in E. destruct (XAck _ _ _ w) as [x w1] eqn:Ex. injection E as _ <-.
    assert (quiet w w1 \/ removed (stream (d_Shard d)) group (d_ID d) w w1) as [Hq|(Hlog & Hnext & Hpel & _ & Hels)].
    { destruct x; [by eapply xack_err|right; by eapply xack_ok]. }
    + apply (inv_sameStream tr _ w); [done|done|apply Hq|done].
    + destruct (Z.eq_dec sh (d_Shard d)) as [->|Hne]; [|by eapply inv_elsewhere]. unfold shardInv. rewrite Hlog, Hnext, Hpel. by apply inv_acked.
  - unfold RReclaim in E. destruct (XAutoClaim _ _ _ _ _ w) as [x w1] eqn:Ex. assert (w1 = w') as <- by (destruct x; by injection E).
    apply (inv_sameStream tr _ w); [done|done|by eapply xclaim_quiet|done].
  - destruct (Hf sh Hs) as (E1 & E2 & E3). by apply (inv_same tr _ w).
Qed.

(** Nothing was written before, and nothing read. *)
Definition freshStreams (w : W) : Prop := forall sh, ourShard sh -> logOf w (stream sh) = [] /\ nextOf w (stream sh) group = None.

Lemma inv_fresh w sh : freshStreams w -> ourShard sh -> shardInv [] w sh.
Proof.
  intros Hf Hs. destruct (Hf sh Hs) as [El En]. unfold shardInv. rewrite El, En, (no_group_no_pel _ _ _ En). by split; try apply NoDup_nil.
Qed.

Lemma inv_run w0 tr w sh : freshStreams w0 -> ourShard sh -> rrun w0 tr w -> shardInv tr w sh.
Proof.
  intros Hf Hs. induction 1 as [|tr w e w' Hrun IH Hstep]; [by apply inv_fresh|by eapply inv_step].
Qed.

(** ** Reclamation and depth *)

Lemma consumed_entry tr sh log n pel e : logInv tr sh log n pel -> In e log -> In (x_ID e) pel -> In e (take n log).
Proof.
  intros [] He Hi%li_pel0. apply in_map_iff in Hi as (e' & E & He'). assert (In e' log) as Hl.
  { rewrite <- (take_drop n log). apply in_app_iff. by left. }
  rewrite (nodup_map_inj x_ID log e e'); [done|done|by apply list_elem_of_In..|done].
Qed.

Lemma reclaim_spec c sh minIdle w ds w' tr : shardInv tr w sh -> RReclaim (worker c) sh minIdle w = (Ok ds, w') ->
  (forall d, In d ds -> In (d_ID d) (pelOf w (stream sh) group) /\
     exists e, In e (take (default 0%nat (nextOf w (stream sh) group)) (logOf w (stream sh))) /\ d = decodeDelivery sh e 0) /\
  ((length (pelOf w (stream sh) group) <= 1000)%nat ->
   (length (List.filter (fun id => (minIdle <=? idleOf w (stream sh) group id)%Z) (pelOf w (stream sh) group)) <= 100)%nat ->
   forall id, In id (pelOf w (stream sh) group) -> (minIdle <= idleOf w (stream sh) group id)%Z -> In id (map d_ID ds)).
Proof.
  intros Hinv. unfold RReclaim, streamOf. cbn [rq_prefix rq_group rq_consumer NewRedisQueue].
  destruct (XAutoClaim _ _ _ _ _ w) as [[l|x] w1] eqn:Ex; cycle 1.
  { destruct (contains "NOGROUP" x) eqn:Ec; [|done]. intros [= <- <-]. split; [done|].
    intros _ _ id. by rewrite (no_group_no_pel _ _ _ (xclaim_nogroup _ _ _ _ _ _ _ _ Ex Ec)). }
  destruct (xclaim_ok _ _ _ _ _ _ _ _ Ex) as [Hids Hlog]. intros [= <- <-]. split.
  - intros d (e & <- & He)%in_map_iff. cbn [d_ID decodeDelivery]. assert (In (x_ID e) (pelOf w (stream sh) group)) as Hp.
    { assert (In (x_ID e) (map x_ID l)) as Hi by (by apply in_map). rewrite Hids in Hi.
      apply in_take, filter_In in Hi as [Hi _]. by apply in_take in Hi. }
    split; [done|]. exists e. split; [|done]. eapply consumed_entry; [exact Hinv|by apply Hlog|done].
  - intros Hl1 Hl2 id Hid Hidle. rewrite map_map. change (fun m => d_ID (decodeDelivery sh m 0)) with x_ID. rewrite Hids.
    change (Z.to_nat reclaimCount) with 100%nat. rewrite (take_ge (pelOf _ _ _)) by (cbn; lia). rewrite take_ge by lia.
    apply filter_In. split; [done|]. by apply Z.leb_le.
Qed.

(** Accepted and not acknowledged. *)
Definition backlog (w : W) (sh : Z) : Z :=
  (Z.of_nat (length (logOf w (stream sh)) - default 0%nat (nextOf w (stream sh) group)) + Z.of_nat (length (pelOf w (stream sh) group)))%Z.

Lemma groupDepth_filter q gs acc :
  fold_left (fun acc g => if str_eqb (xg_Name g) (rq_group q) then (acc + (if (0 <? xg_Lag g)%Z then xg_Lag g else 0) + xg_Pending g)%Z else acc) gs acc =
  fold_left (fun acc g => (acc + (if (0 <? xg_Lag g)%Z then xg_Lag g else 0) + xg_Pending g)%Z) (List.filter (fun i => str_eqb (xg_Name i) (rq_group q)) gs) acc.
Proof. revert acc. induction gs as [|g gs IH]; intros acc; [done|]. cbn [fold_left List.filter]. by destruct (str_eqb _ _). Qed.

Lemma groupDepth_bound c w gs sh : XInfoGroups (stream sh) w = Ok gs -> (groupDepth (worker c) gs <= backlog w sh)%Z.
Proof.
  intros E. pose proof (xinfo_ok _ group _ _ E) as Hx. unfold groupDepth. rewrite groupDepth_filter. cbn [rq_group NewRedisQueue]. unfold backlog.
  destruct (nextOf w (stream sh) group) as [n|]; [|rewrite Hx; cbn; lia].
  destruct Hx as (lag & Hlag & ->). cbn [fold_left xg_Lag xg_Pending default id]. destruct (Z.ltb_spec 0 lag); lia.
Qed.

Lemma backlog_nonneg w sh : (0 <= backlog w sh)%Z.
Proof. unfold backlog. lia. Qed.

Lemma depthFrom_bound c w shs : forall total k, depthFrom (worker c) shs total w = Ok k -> (k <= total + fold_right Z.add 0 (map (backlog w) shs))%Z.
Proof.
  induction shs as [|sh shs IH]; intros total k; cbn [depthFrom map fold_right]; [intros [= <-]; lia|]. pose proof (backlog_nonneg w sh).
  unfold streamOf. cbn [rq_prefix NewRedisQueue]. destruct (XInfoGroups _ w) as [gs|x] eqn:E.
  - intros Hk%IH. pose proof (groupDepth_bound c w gs sh E). lia.
  - destruct (_ || _); [|done]. intros Hk%IH. lia.
Qed.
End Runs.

(** ** Properties *)

(** C15: The Redis queue delivers at least once and in order.  In any run of any number of
    worker processes from empty streams, with commands that fail before or after they were
    executed, with loops that stop with a message in hand and with other clients of the
    server: on every shard, the messages whose publish succeeded are in the stream, in
    order, and the stream holds only messages somebody published under a key of that
    shard; the first deliveries follow the stream, each entry at most once, with the key,
    payload and attributes that were published; an entry is still to be read, or pending,
    or somebody acknowledged it; the next read gives the first unread entry; a reclamation
    gives entries that were read and are pending, and all idle ones while at most 1000 are
    pending and 100 idle; and the depth never exceeds what is not acknowledged. *)
Theorem redis_at_least_once {W : Type} `{StreamLaws W} (shards : Z) (prefix group : string) (w0 w : W) (tr : list revent) :
  freshStreams shards prefix group w0 -> rrun shards prefix group w0 tr w ->
  (forall sh, ourShard shards prefix group sh ->
    let s := StreamName prefix sh in
    let n := default 0%nat (nextOf w s group) in
    (publishedTo shards prefix group sh tr `sublist_of` messages (logOf w s) /\
     (forall m, In m (messages (logOf w s)) -> offered m tr /\ Shard (msg_Key m) (rq_shards (NewRedisQueue shards prefix group "")) = sh)) /\
    readFrom sh tr `sublist_of` map (fun e => decodeDelivery sh e 1) (take n (logOf w s)) /\
    (forall i e, logOf w s !! i = Some e -> (n <= i)%nat \/ In (x_ID e) (pelOf w s group) \/ ackedOn sh (x_ID e) tr) /\
    (forall c d w', RNext (NewRedisQueue shards prefix group c) sh w = (Some d, w') -> exists e, logOf w s !! n = Some e /\ d = decodeDelivery sh e 1) /\
    (forall c minIdle ds w', RReclaim (NewRedisQueue shards prefix group c) sh minIdle w = (Ok ds, w') ->
      (forall d, In d ds -> In (d_ID d) (pelOf w s group) /\ exists e, In e (take n (logOf w s)) /\ d = decodeDelivery sh e 0) /\
      ((length (pelOf w s group) <= 1000)%nat -> (length (List.filter (fun id => (minIdle <=? idleOf w s group id)%Z) (pelOf w s group)) <= 100)%nat ->
       forall id, In id (pelOf w s group) -> (minIdle <= idleOf w s group id)%Z -> In id (map d_ID ds)))) /\
  (forall c k, RDepth (NewRedisQueue shards prefix group c) w = Ok k ->
    (k <= fold_right Z.add 0 (map (backlog prefix group w) (map Z.of_nat (seq 0 (Z.to_nat (rq_shards (NewRedisQueue shards prefix group "")))))))%Z).
Proof.
  intros Hf Hrun. split.
  - intros sh Hs s n. pose proof (inv_run shards prefix group w0 tr w sh Hf Hs Hrun) as Hinv. destruct Hinv as [Hids Hnext Hor Hpub Hread Hheld Hpel] eqn:E. clear E.
    split_and!; [done|exact Hor|exact Hread| | |].
    + intros i e He. destruct (Nat.le_gt_cases n i) as [|Hi]; [by left|right]. apply Hheld. apply list_elem_of_In, (list_elem_of_lookup_2 _ i). by rewrite lookup_take_lt.
    + intros c d w'. unfold RNext, streamOf. cbn [rq_prefix rq_group rq_consumer NewRedisQueue]. destruct (XReadGroup _ _ _ w) as [[[x|]|x] w1] eqn:Ex; [|done..].
      intros [= <- <-]. destruct (xread_some _ _ _ _ _ _ Ex) as (k & Hk & Hx & _). exists x. split; [|done]. unfold n, s. by rewrite Hk.
    + intros c minIdle ds w'. by apply (reclaim_spec shards prefix group c sh minIdle w ds w' tr).
  - intros c k Hk. unfold RDepth in Hk. by apply depthFrom_bound in Hk.
Qed.

(** ** Segments of the queue's runs

    What a stretch of a run of the Redis queue does to the logs of the streams: they only
    grow, by what was offered, under fresh ids.  The clients of the queue, the dispatchers
    and the workers, are verified on top of these lemmas. *)

Section Segments.
Context {W : Type} {RS : RedisStreams W} {SV : StreamView W} {SL : StreamLaws W}.
Context {shards : Z} {prefix group : string}.
Abbreviation worker c := (NewRedisQueue shards prefix group c).
Abbreviation stream sh := (StreamName prefix sh).
Abbreviation our sh := (ourShard shards prefix group sh).
Abbreviation apart := (foreign shards prefix group).

Lemma apart_refl (w : W) : apart w w.
Proof. by intros sh _. Qed.

Lemma apart_trans (w1 w2 w3 : W) : apart w1 w2 -> apart w2 w3 -> apart w1 w3.
Proof. intros H1 H2 sh Hs. destruct (H1 sh Hs) as (<- & <- & <-). by apply H2. Qed.

(** ** Segments of the queue's run *)

Lemma run_app (w0 w w' : W) tr es : rrun shards prefix group w0 tr w -> rrun shards prefix group w es w' -> rrun shards prefix group w0 (tr ++ es) w'.
Proof. intros Hr. induction 1 as [|es w1 e w2 _ IH Hs]; [by rewrite app_nil_r|]. rewrite app_assoc. by eapply rrun_snoc. Qed.

Lemma run_one (w w' : W) e : rstep shards prefix group w e w' -> rrun shards prefix group w [e] w'.
Proof. intros Hs. apply (rrun_snoc _ _ _ _ [] w e w'); [constructor|done]. Qed.

(** The logs only grow, by what was offered, under fresh ids. *)
Definition grown (es : list revent) (w w' : W) : Prop := forall sh, our sh ->
  (forall x, In x (logOf w (stream sh)) -> In x (logOf w' (stream sh))) /\
  (forall x, In x (logOf w' (stream sh)) -> In x (logOf w (stream sh)) \/
     ~ In (x_ID x) (map x_ID (logOf w (stream sh))) /\ exists m, offered m es /\ goAttrs m /\ x_Values x = entryValues m).

Lemma grown_same es w w' : (forall sh, our sh -> logOf w' (stream sh) = logOf w (stream sh)) -> grown es w w'.
Proof. intros Hs sh Ho. rewrite (Hs sh Ho). split; [done|by left]. Qed.

Lemma quiet_same (w w' : W) sh : quiet w w' -> logOf w' (stream sh) = logOf w (stream sh).
Proof. intros Hq. by destruct (Hq (stream sh)). Qed.

Lemma group_same (w w' : W) s g n p sh : onGroup s g n p w w' -> logOf w' (stream sh) = logOf w (stream sh).
Proof. intros (Hl & _ & _ & _ & He). destruct (decide (stream sh = s)) as [->|Hn]; [done|]. by destruct (He _ Hn). Qed.

Lemma taken_same (w w' : W) s g e sh : taken s g e w w' -> logOf w' (stream sh) = logOf w (stream sh).
Proof. intros (n & _ & _ & Hg). by eapply group_same. Qed.

Lemma added_grown (w w' : W) s x m es : added s x w w' -> offered m es -> goAttrs m -> x_Values x = entryValues m -> grown es w w'.
Proof.
  intros (Hid & Hl & _ & He) Hm Ha Hx sh _. destruct (decide (stream sh = s)) as [E|Hn].
  - rewrite E, Hl. split; [intros y Hy; apply in_app_iff; by left|]. intros y [Hy|[<-|[]]]%in_app_iff; [by left|right]. split; [done|by exists m].
  - destruct (He _ Hn) as [-> _]. split; [done|by left].
Qed.

Lemma publish_grown c m r (w w' : W) es : goAttrs m -> offered m es -> RPublish (worker c) m w = (r, w') -> grown es w w'.
Proof.
  intros Ha Hm. unfold RPublish. destruct (XAdd _ _ w) as [[id|e] w1] eqn:E; intros [= _ <-].
  - by eapply added_grown; [by eapply xadd_ok|..].
  - destruct (xadd_err _ _ _ _ _ E) as [Hq|[id Had]]; [|by eapply added_grown]. apply grown_same. intros sh _. by apply quiet_same.
Qed.

Lemma step_grown (w w' : W) e : rstep shards prefix group w e w' -> grown [e] w w'.
Proof.
  intros [c m w1 Ha E|c m x w1 Ha E|c sh r w1 E|c sh d w1 _ E|c sh d w1 _ E|c sh w1 _ E|c d r w1 _ E|c sh mi r w1 _ E|w1 Hf].
  - eapply publish_grown; [done| |exact E]. left. by left.
  - eapply publish_grown; [done| |exact E]. right. by left.
  - apply grown_same. intros sh' _. unfold RSubscribe in E. destruct (_ || _); [by injection E as _ <-|]. unfold ensureGroup in E.
    destruct (XGroupCreateMkStream _ _ w) as [x w2] eqn:Ex. assert (w1 = w2) as -> by (destruct x; by injection E as _ <-).
    destruct (xgroup_any _ _ _ _ _ Ex) as [Hq|[_ Hg]]; [by apply quiet_same|by eapply group_same].
  - apply grown_same. intros sh' _. unfold RNext in E. destruct (XReadGroup _ _ _ w) as [[[x|]|x] w2] eqn:Ex; try done. injection E as _ <-. eapply taken_same. by eapply xread_some.
  - apply grown_same. intros sh' _. unfold RNext in E. destruct (XReadGroup _ _ _ w) as [[[x|]|x] w2] eqn:Ex; try done. injection E as _ <-. eapply taken_same. by eapply xread_some.
  - apply grown_same. intros sh' _. unfold RNext in E. destruct (XReadGroup _ _ _ w) as [[[x|]|x] w2] eqn:Ex; try done; injection E as <-; [apply quiet_same; by eapply xread_none|].
    destruct (xread_err _ _ _ _ _ _ Ex) as [Hq|[y Hy]]; [by apply quiet_same|by eapply taken_same].
  - apply grown_same. intros sh' _. unfold RAck in E. destruct (XAck _ _ _ w) as [[x|] w2] eqn:Ex; injection E as _ <-; [destruct (xack_err _ _ _ _ _ _ Ex) as [Hq|Hy]; [by apply quiet_same|by eapply group_same]|].
    eapply group_same. by eapply xack_ok.
  - apply grown_same. intros sh' _. apply quiet_same. unfold RReclaim in E. destruct (XAutoClaim _ _ _ _ _ w) as [[l|x] w2] eqn:Ex; injection E as _ <-; by eapply xclaim_quiet.
  - apply grown_same. intros sh' Ho. by destruct (Hf sh' Ho).
Qed.

Lemma run_grown (w w' : W) es : rrun shards prefix group w es w' -> grown es w w'.
Proof.
  induction 1 as [|es w1 e w2 _ IH Hs]; [by apply grown_same|]. intros sh Ho. destruct (IH sh Ho) as [I1 I2]. destruct (step_grown _ _ _ Hs sh Ho) as [S1 S2]. split; [by auto|].
  intros x Hx. destruct (S2 x Hx) as [Hx1|(Hid & m & Hm & Ha & Hv)].
  - destruct (I2 x Hx1) as [|(Hid & m & Hm & Ha & Hv)]; [by left|right]. split; [done|]. exists m. split_and!; [by apply offered_snoc|done|done].
  - right. split.
    + intros (y & E & Hy)%in_map_iff. apply Hid, in_map_iff. exists y. split; [done|by apply I1].
    + exists m. split_and!; [|done|done]. unfold offered in *. rewrite !in_app_iff. tauto.
Qed.

(** ** Entries and acknowledgements *)

Lemma offered_app m tr es : offered m (tr ++ es) <-> offered m tr \/ offered m es.
Proof. unfold offered. rewrite !in_app_iff. tauto. Qed.

Lemma acked_app sh id tr es : ackedOn sh id (tr ++ es) -> ackedOn sh id tr \/ ackedOn sh id es.
Proof. intros (d & [Hd|Hd]%in_app_iff & E); [left|right]; by exists d. Qed.

Lemma read_entry c sh d (w w' : W) : RNext (worker c) sh w = (Some d, w') ->
  d_Shard d = sh /\ exists e, In e (logOf w' (stream sh)) /\ d_ID d = x_ID e /\ d_Message d = decodeValues (x_Values e).
Proof.
  unfold RNext. destruct (XReadGroup _ _ _ w) as [[[x|]|x] w1] eqn:E; [|done..]. intros [= <- <-]. split; [done|]. exists x. split; [|done].
  destruct (xread_some _ _ _ _ _ _ E) as (n & _ & Hx & Hl & _). unfold streamOf in *. cbn [rq_prefix NewRedisQueue] in *. rewrite Hl. apply list_elem_of_In. by eapply list_elem_of_lookup_2.
Qed.

Lemma reclaim_entry c sh minIdle ds d (w w' : W) : RReclaim (worker c) sh minIdle w = (Ok ds, w') -> In d ds ->
  d_Shard d = sh /\ exists e, In e (logOf w' (stream sh)) /\ d_ID d = x_ID e /\ d_Message d = decodeValues (x_Values e).
Proof.
  unfold RReclaim, streamOf. cbn [rq_prefix rq_group rq_consumer NewRedisQueue]. destruct (XAutoClaim _ _ _ _ _ w) as [[l|x] w1] eqn:E.
  - intros [= <- <-] (e & <- & He)%in_map_iff. split; [done|]. exists e. split; [|done]. destruct (xclaim_quiet _ _ _ _ _ _ _ _ E (stream sh)) as [-> _]. by apply (xclaim_ok _ _ _ _ _ _ _ _ E).
  - destruct (contains _ x); by intros [= <- _].
Qed.

(** Two entries of a shard with one id are one. *)
Lemma entry_unique (w0 w : W) tr sh e e' : freshStreams shards prefix group w0 -> rrun shards prefix group w0 tr w -> our sh ->
  In e (logOf w (stream sh)) -> In e' (logOf w (stream sh)) -> x_ID e = x_ID e' -> e = e'.
Proof.
  intros Hf Hr Ho He He' E. pose proof (inv_run shards prefix group w0 tr w sh Hf Ho Hr) as Hinv.
  apply (nodup_map_inj x_ID (logOf w (stream sh))); [apply Hinv|by apply list_elem_of_In|by apply list_elem_of_In|done].
Qed.
End Segments.

Arguments grown {W SV} shards prefix group es w w'.
