(* ===== verification/QueuePort.v ===== *)
(** * The queue port and its contract (internal/queue Queue, internal/queue/queuetest)

    The operations of the [Queue] interface as a record, the contract suite every backend
    is run against, and the laws of a queue: an abstract queue per shard (what waits, what
    is held by consumers) that each operation acts on.  A lawful queue passes the suite. *)

From stdpp Require Import base list strings.
From Stdlib Require Import ZArith Lia Ascii Permutation.
From S2P Require Import Prelude GoMap Json Paths Diff DiffSound Domain Tenant Config Alias Repo Plugin Ingest Numbers Pipeline Queue RedisQueue RedisSound.

(** ** The port *)

(** A receive on the channel of a subscription.  The pump behind the channel reads one
    message ahead; here it reads when the consumer receives. *)
Inductive received := Got (d : Delivery string) | EndOfChannel | NothingArrived.

Record queueOps (W : Type) := mkQueueOps {
  op_Shards : Z;
  op_Publish : Message string -> W -> res err unit * W;
  op_Subscribe : Z -> W -> res err unit * W;
  op_Receive : Z -> W -> received * W;
  op_Ack : Delivery string -> W -> res err unit * W;
  op_Reclaim : Z -> time -> W -> res err (list (Delivery string)) * W;
  op_Close : W -> W }.
Arguments mkQueueOps {W}. Arguments op_Shards {W}. Arguments op_Publish {W}. Arguments op_Subscribe {W}. Arguments op_Receive {W}. Arguments op_Ack {W}. Arguments op_Reclaim {W}. Arguments op_Close {W}.

(** ** The contract suite *)

Section Suite.
Context {W : Type} (Q : queueOps W).

(** A test runs on a queue and fails with a text. *)
Definition test (A : Type) : Type := W -> res string A * W.
Definition pass {A} (x : A) : test A := fun w => (Ok x, w).
Definition andThen {A B} (m : test A) (f : A -> test B) : test B := fun w => match m w with (Ok x, w') => f x w' | (Err e, w') => (Err e, w') end.
Definition expect (b : bool) (msg : string) : test unit := fun w => (if b then Ok tt else Err msg, w).
Definition must {A} (msg : string) (m : W -> res err A * W) : test A := fun w => match m w with (Ok x, w') => (Ok x, w') | (Err _, w') => (Err msg, w') end.

Declare Scope test_scope.
Delimit Scope test_scope with test.
Notation "x <- m ; k" := (andThen m (fun x => k)) (at level 60, m at next level, right associativity) : test_scope.
Local Open Scope test_scope.

Definition recv (shard : Z) : test (Delivery string) := fun w =>
  match op_Receive Q shard w with
  | (Got d, w') => (Ok d, w')
  | (EndOfChannel, w') => (Err "subscribe channel closed unexpectedly", w')
  | (NothingArrived, w') => (Err "timed out waiting for delivery", w')
  end.

Definition recvOne (shard : Z) : test (Delivery string) := _ <- must "subscribe" (op_Subscribe Q shard); recv shard.

(** The loop over the shards. *)
Fixpoint reclaimFrom (shards : list Z) (out : list (string * Delivery string)) : test (list (string * Delivery string)) :=
  match shards with
  | [] => pass out
  | s :: shards' => ds <- must "reclaim" (op_Reclaim Q s 0); reclaimFrom shards' (fold_left (fun m d => mset (d_ID d) d m) ds out)
  end.
Definition allShards : list Z := map Z.of_nat (seq 0 (Z.to_nat (op_Shards Q))).
Definition reclaimAll : test (list (string * Delivery string)) := reclaimFrom allShards [].

Definition roundTripTest : test unit :=
  let msg := mkMessage "t|c|e1" "hello" [("event_id", "evt-1")] in
  _ <- must "publish" (op_Publish Q msg);
  d <- recvOne (Shard (msg_Key msg) (op_Shards Q));
  _ <- expect (str_eqb (msg_Payload (d_Message d)) "hello") "payload";
  _ <- expect (str_eqb (msg_Key (d_Message d)) (msg_Key msg)) "key";
  expect (str_eqb (default "" (mget "event_id" (msg_Attrs (d_Message d)))) "evt-1") "attr event_id".

Fixpoint publishAll (key : string) (l : list nat) : test unit :=
  match l with
  | [] => pass tt
  | i :: l' => _ <- must "publish" (op_Publish Q (mkMessage key (itoa (Z.of_nat i)) [])); publishAll key l'
  end.

Fixpoint receiveAll (shard : Z) (l : list nat) : test unit :=
  match l with
  | [] => pass tt
  | i :: l' =>
      d <- recv shard;
      _ <- expect (str_eqb (msg_Payload (d_Message d)) (itoa (Z.of_nat i))) "out of order";
      _ <- must "ack" (op_Ack Q d);
      receiveAll shard l'
  end.

Definition orderTest : test unit :=
  let shard := Shard "t|c|same" (op_Shards Q) in
  _ <- publishAll "t|c|same" (seq 0 20);
  _ <- must "subscribe" (op_Subscribe Q shard);
  receiveAll shard (seq 0 20).

Definition ackTest : test unit :=
  let shard := Shard "t|c|pe" (op_Shards Q) in
  _ <- must "publish" (op_Publish Q (mkMessage "t|c|pe" "a" []));
  _ <- must "publish" (op_Publish Q (mkMessage "t|c|pe" "k" []));
  _ <- must "subscribe" (op_Subscribe Q shard);
  dAck <- recv shard;
  _ <- must "ack" (op_Ack Q dAck);
  dKeep <- recv shard;
  reclaimed <- reclaimAll;
  _ <- expect (match mget (d_ID dAck) reclaimed with Some _ => false | None => true end) "acked message still pending";
  match mget (d_ID dKeep) reclaimed with
  | None => expect false "unacked message not reclaimable"
  | Some got =>
      _ <- expect (str_eqb (msg_Payload (d_Message got)) "k") "reclaimed payload";
      _ <- must "ack reclaimed" (op_Ack Q got);
      left <- reclaimAll;
      expect (match left with [] => true | _ => false end) "pending after final ack"
  end.

Definition contractKeys : list string := map (fun i => "t|c|e" +:+ itoa (Z.of_nat i)) (seq 0 100).
Definition shardsTest : test unit :=
  expect (2 <=? length (remove_dups (map (fun k => Shard k (op_Shards Q)) contractKeys)))%nat "100 keys hashed to one shard".

Definition closeTest : test unit :=
  _ <- must "subscribe" (op_Subscribe Q 0);
  fun w =>
    match op_Receive Q 0 (op_Close Q w) with
    | (EndOfChannel, w1) => (Ok tt, w1)
    | (Got _, w1) => match op_Receive Q 0 w1 with (EndOfChannel, w2) => (Ok tt, w2) | (_, w2) => (Err "subscribe channel did not close after Close", w2) end
    | (NothingArrived, w1) => (Err "subscribe channel did not close after Close", w1)
    end.

(** The suite, each test on a fresh queue. *)
Definition RunContract (newQueue : W) : list (string * res string unit) :=
  map (fun nt => (fst nt, fst (snd nt newQueue)))
    [("publish then subscribe round-trips payload", roundTripTest); ("order preserved within a key", orderTest); ("ack removes from pending, unacked is reclaimable", ackTest);
     ("different keys may land on different shards", shardsTest); ("close ends subscribe", closeTest)].
End Suite.

(** ** The laws *)

(** [lq_wait]: the messages of a shard no consumer has been given, oldest first; [lq_held]:
    those given out and not acknowledged, by id; [lq_seen]: the ids given out so far. *)
Class LawfulQueue {W : Type} (Q : queueOps W) := {
  lq_up : W -> Prop;
  lq_wait : W -> Z -> list (Message string);
  lq_held : W -> Z -> list (string * Message string);
  lq_open : W -> Z -> Prop;
  lq_seen : W -> Z -> string -> Prop;
  lq_step (w w' : W) (sh : Z) (l : list (Message string)) (h : list (string * Message string)) : Prop :=
    lq_up w' /\ lq_wait w' sh = l /\ Permutation (lq_held w' sh) h /\ (forall s, lq_open w s -> lq_open w' s) /\ (forall s id, (0 <= s < op_Shards Q)%Z -> lq_seen w s id -> lq_seen w' s id) /\
    forall s, (0 <= s < op_Shards Q)%Z -> s <> sh -> lq_wait w' s = lq_wait w s /\ Permutation (lq_held w' s) (lq_held w s);
  lq_shards : (1 <= op_Shards Q)%Z;
  law_publish : forall m w, lq_up w -> goAttrs m -> (length (lq_wait w (Shard (msg_Key m) (op_Shards Q))) < bufferSize)%nat ->
    exists w', op_Publish Q m w = (Ok tt, w') /\ lq_step w w' (Shard (msg_Key m) (op_Shards Q)) (lq_wait w (Shard (msg_Key m) (op_Shards Q)) ++ [m]) (lq_held w (Shard (msg_Key m) (op_Shards Q)));
  law_subscribe : forall sh w, lq_up w -> (0 <= sh < op_Shards Q)%Z -> exists w', op_Subscribe Q sh w = (Ok tt, w') /\ lq_step w w' sh (lq_wait w sh) (lq_held w sh) /\ lq_open w' sh;
  law_receive : forall sh w m rest, lq_up w -> (0 <= sh < op_Shards Q)%Z -> lq_open w sh -> lq_wait w sh = m :: rest ->
    exists d w', op_Receive Q sh w = (Got d, w') /\ d_Message d = m /\ d_Shard d = sh /\ ~ lq_seen w sh (d_ID d) /\ lq_seen w' sh (d_ID d) /\ lq_step w w' sh rest ((d_ID d, m) :: lq_held w sh);
  law_ack : forall d w, lq_up w -> (0 <= d_Shard d < op_Shards Q)%Z ->
    exists w', op_Ack Q d w = (Ok tt, w') /\ lq_step w w' (d_Shard d) (lq_wait w (d_Shard d)) (List.filter (fun e => negb (str_eqb e.1 (d_ID d))) (lq_held w (d_Shard d)));
  law_reclaim : forall sh w, lq_up w -> (0 <= sh < op_Shards Q)%Z -> (length (lq_held w sh) <= 100)%nat ->
    exists ds w', op_Reclaim Q sh 0 w = (Ok ds, w') /\ lq_step w w' sh (lq_wait w sh) (lq_held w sh) /\
      (forall d, In d ds -> d_Shard d = sh) /\ Permutation (map (fun d => (d_ID d, d_Message d)) ds) (lq_held w sh);
  law_close : forall sh w, lq_up w -> (0 <= sh < op_Shards Q)%Z -> lq_open w sh -> lq_wait w sh = [] -> fst (op_Receive Q sh (op_Close Q w)) = EndOfChannel }.

(** ** A lawful queue passes *)

Section Passes.
Context {W : Type} (Q : queueOps W) {L : LawfulQueue Q}.
Abbreviation ours s := (0 <= s < op_Shards Q)%Z.

(** Nothing waits, nothing is held. *)
Definition fresh (w : W) : Prop := lq_up w /\ forall s, ours s -> lq_wait w s = [] /\ lq_held w s = [].

Lemma shard_ours key : ours (Shard key (op_Shards Q)).
Proof. apply shard_range, lq_shards. Qed.

Lemma attrs_nil k p : goAttrs (mkMessage k p []). Proof. constructor. Qed.

Lemma perm_nil (h : list (string * Message string)) : Permutation h [] -> h = [].
Proof. intros Hp. by apply Permutation_nil, Permutation_sym. Qed.

Lemma must_ok {A B} msg (m : W -> res err A * W) x w w' (k : A -> test B) : m w = (Ok x, w') -> andThen (must msg m) k w = k x w'.
Proof. intros E. unfold andThen, must. by rewrite E. Qed.

Lemma recv_ok {B} sh d w w' (k : Delivery string -> test B) : op_Receive Q sh w = (Got d, w') -> andThen (recv Q sh) k w = k d w'.
Proof. intros E. unfold andThen, recv. by rewrite E. Qed.

Lemma expect_ok {B} b msg (k : unit -> test (W := W) B) (w : W) : b = true -> andThen (expect b msg) k w = k tt w.
Proof. by intros ->. Qed.

Lemma roundtrip_passes w : fresh w -> fst (roundTripTest Q w) = Ok tt.
Proof.
  intros [Hu Hf]. unfold roundTripTest, recvOne. set (msg := mkMessage _ _ _). pose proof (shard_ours (msg_Key msg)) as Hs. destruct (Hf _ Hs) as [Hw Hh].
  destruct (law_publish msg w Hu) as (w1 & E1 & U1 & W1 & _); [repeat constructor|rewrite Hw; cbn; unfold bufferSize; lia|]. rewrite (must_ok _ _ _ _ _ _ E1), Hw in *.
  destruct (law_subscribe _ w1 U1 Hs) as (w2 & E2 & (U2 & W2 & _) & O2). unfold andThen at 1. rewrite (must_ok _ _ _ _ _ _ E2). rewrite W1 in W2.
  destruct (law_receive _ w2 _ _ U2 Hs O2 W2) as (d & w3 & E3 & Hm & _). unfold recv. rewrite E3, Hm. reflexivity.
Qed.

(** Publishing to one shard, as long as its buffer has room. *)
Lemma publish_all key l : forall w, lq_up w -> let sh := Shard key (op_Shards Q) in (length (lq_wait w sh) + length l < bufferSize)%nat ->
  exists w', publishAll Q key l w = (Ok tt, w') /\ lq_up w' /\ lq_wait w' sh = lq_wait w sh ++ map (fun i => mkMessage key (itoa (Z.of_nat i)) []) l.
Proof.
  cbv zeta. induction l as [|i l IH]; intros w Hu Hr; [exists w; by rewrite app_nil_r|]. cbn [publishAll length] in *.
  destruct (law_publish (mkMessage key (itoa (Z.of_nat i)) []) w Hu (attrs_nil _ _)) as (w1 & E1 & U1 & W1 & _); [cbn [msg_Key]; lia|]. rewrite (must_ok _ _ _ _ _ _ E1). cbn [msg_Key] in W1.
  destruct (IH w1 U1) as (w2 & E2 & U2 & W2); [rewrite W1, length_app; cbn [length]; lia|]. exists w2. rewrite W2, W1, <- app_assoc. done.
Qed.

Lemma receive_all key sh l : ours sh -> forall w, lq_up w -> lq_open w sh -> lq_wait w sh = map (fun i => mkMessage key (itoa (Z.of_nat i)) []) l -> fst (receiveAll Q sh l w) = Ok tt.
Proof.
  intros Hs. induction l as [|i l IH]; intros w Hu Ho Hw; [done|]. cbn [receiveAll map] in *.
  destruct (law_receive sh w _ _ Hu Hs Ho Hw) as (d & w1 & E1 & Hm & Hd & _ & _ & U1 & W1 & _ & O1 & _). rewrite (recv_ok _ _ _ _ _ E1), Hm, expect_ok by apply str_eqb_refl.
  destruct (law_ack d w1 U1) as (w2 & E2 & U2 & W2 & _ & O2 & _); [by rewrite Hd|]. rewrite (must_ok _ _ _ _ _ _ E2). apply IH; [done|by apply O2, O1|]. rewrite Hd in W2. by rewrite W2.
Qed.

Lemma order_passes w : fresh w -> fst (orderTest Q w) = Ok tt.
Proof.
  intros [Hu Hf]. unfold orderTest. pose proof (shard_ours "t|c|same") as Hs. destruct (Hf _ Hs) as [Hw _]. remember (seq 0 20) as l eqn:El.
  destruct (publish_all "t|c|same" l w Hu) as (w1 & E1 & U1 & W1); [rewrite Hw, El; cbn; unfold bufferSize; lia|]. unfold andThen at 1. rewrite E1, Hw in *. cbn [app] in W1.
  destruct (law_subscribe _ w1 U1 Hs) as (w2 & E2 & (U2 & W2 & _) & O2). rewrite (must_ok _ _ _ _ _ _ E2). apply (receive_all "t|c|same"); [done..|by rewrite W2].
Qed.

Lemma collect_get ds : forall (out : list (string * Delivery string)) id d, mget id (fold_left (fun m d => mset (d_ID d) d m) ds out) = Some d -> mget id out = Some d \/ In d ds /\ d_ID d = id.
Proof.
  induction ds as [|x ds IH]; intros out id d; [by left|]. cbn [fold_left]. intros [Hg|[Hin Hid]]%IH; [|right; split; [by right|done]].
  destruct (decide (id = d_ID x)) as [->|Hne]; [rewrite mget_mset_eq in Hg; injection Hg as <-; right; split; [by left|done]|]. rewrite mget_mset_ne in Hg by congruence. by left.
Qed.

Lemma collect_has ds : forall (out : list (string * Delivery string)) id, is_Some (mget id out) \/ In id (map d_ID ds) -> is_Some (mget id (fold_left (fun m d => mset (d_ID d) d m) ds out)).
Proof.
  induction ds as [|x ds IH]; intros out id; [by intros [?|[]]|]. cbn [fold_left map]. intros Hor. apply IH. destruct (decide (id = d_ID x)) as [->|Hne]; [left; by rewrite mget_mset_eq|].
  rewrite mget_mset_ne by congruence. destruct Hor as [?|[?|?]]; [by left|congruence|by right].
Qed.

(** The held messages stay as they are while every shard is reclaimed. *)
Lemma reclaim_from (H : Z -> list (string * Message string)) ss : forall w out, lq_up w -> (forall s, In s ss -> ours s) -> (forall s, ours s -> Permutation (lq_held w s) (H s) /\ (length (H s) <= 100)%nat) ->
  exists out' w', reclaimFrom Q ss out w = (Ok out', w') /\ lq_up w' /\ (forall s, ours s -> Permutation (lq_held w' s) (H s)) /\
    (forall id d, mget id out' = Some d -> mget id out = Some d \/ In (id, d_Message d) (H (d_Shard d)) /\ In (d_Shard d) ss /\ d_ID d = id) /\
    (forall id, is_Some (mget id out) \/ (exists s, In s ss /\ In id (map fst (H s))) -> is_Some (mget id out')) /\
    ((forall s, In s ss -> H s = []) -> out' = out).
Proof.
  induction ss as [|s ss IH]; intros w out Hu Hss HH.
  { exists out, w. split_and!; try done; [intros s Hs; by apply HH|by left|intros id [?|(s & [] & _)]; done]. }
  assert (ours s) as Hs by (apply Hss; by left). destruct (HH s Hs) as [Hp Hl]. cbn [reclaimFrom].
  destruct (law_reclaim s w Hu Hs) as (ds & w1 & E1 & (U1 & _ & P1 & _ & _ & O1) & Hd & Hds); [by rewrite Hp|]. rewrite (must_ok _ _ _ _ _ _ E1).
  assert (Permutation (map (fun d => (d_ID d, d_Message d)) ds) (H s)) as Hq by (by rewrite Hds).
  destruct (IH w1 (fold_left (fun m d => mset (d_ID d) d m) ds out) U1) as (out' & w' & E2 & U2 & P2 & G2 & S2 & N2); [intros s' ?; apply Hss; by right| |].
  { intros s' Hs'. destruct (HH s' Hs') as [Hp' Hl']. split; [|done]. destruct (decide (s' = s)) as [->|Hne]; [by rewrite P1|]. destruct (O1 s' Hs' Hne) as [_ ->]. done. }
  exists out', w'. split_and!; [done..|intros id d Hg|intros id Hor|intros Hn].
  - destruct (G2 id d Hg) as [Hc|(? & ? & ?)]; [|right; split_and!; [done|by right|done]]. apply collect_get in Hc as [?|[Hin Hid]]; [by left|right]. rewrite (Hd d Hin). split_and!; [|by left|done].
    rewrite <- Hid. eapply Permutation_in; [exact Hq|]. apply in_map_iff. by exists d.
  - apply S2. destruct Hor as [Ho|(s' & [->|Hs'] & Hid)]; [left; apply collect_has; by left| |right; by exists s']. left. apply collect_has. right.
    apply (Permutation_map fst) in Hq. rewrite map_map in Hq. change (map (fun d => (d_ID d, d_Message d).1) ds) with (map d_ID ds) in Hq. eapply Permutation_in; [symmetry; exact Hq|done].
  - rewrite N2 by (intros s' Hs'; apply Hn; by right). rewrite (Hn s) in Hq by (by left). apply Permutation_sym, Permutation_nil in Hq. by destruct ds.
Qed.

Lemma all_shards s : In s (allShards Q) <-> ours s.
Proof.
  unfold allShards. rewrite in_map_iff. split; [intros (i & <- & Hi%in_seq); lia|]. intros Hs. exists (Z.to_nat s). split; [lia|]. apply in_seq. lia.
Qed.

Lemma ack_passes w : fresh w -> fst (ackTest Q w) = Ok tt.
Proof.
  intros [Hu Hf]. unfold ackTest. set (sh := Shard "t|c|pe" (op_Shards Q)). assert (ours sh) as Hs by apply shard_ours. destruct (Hf _ Hs) as [Hw Hh].
  destruct (law_publish (mkMessage "t|c|pe" "a" []) w Hu (attrs_nil _ _)) as (w1 & E1 & U1 & W1 & P1 & _ & _ & O1); [cbn [msg_Key]; fold sh; rewrite Hw; cbn; unfold bufferSize; lia|]. cbn [msg_Key] in *. fold sh in W1, P1, O1.
  rewrite (must_ok _ _ _ _ _ _ E1), Hw in *.
  destruct (law_publish (mkMessage "t|c|pe" "k" []) w1 U1 (attrs_nil _ _)) as (w2 & E2 & U2 & W2 & P2 & _ & _ & O2); [cbn [msg_Key]; fold sh; rewrite W1; cbn; unfold bufferSize; lia|]. cbn [msg_Key] in *. fold sh in W2, P2, O2.
  rewrite (must_ok _ _ _ _ _ _ E2), W1 in *. cbn [app] in W2.
  destruct (law_subscribe sh w2 U2 Hs) as (w3 & E3 & (U3 & W3 & P3 & _ & _ & O3) & Op3). rewrite (must_ok _ _ _ _ _ _ E3), W2 in *.
  destruct (law_receive sh w3 _ _ U3 Hs Op3 W3) as (d1 & w4 & E4 & Hm1 & Hd1 & _ & Hseen & U4 & W4 & P4 & Op4 & S4 & O4). rewrite (recv_ok _ _ _ _ _ E4).
  destruct (law_ack d1 w4 U4) as (w5 & E5 & U5 & W5 & P5 & Op5 & S5 & O5); [by rewrite Hd1|]. rewrite (must_ok _ _ _ _ _ _ E5). rewrite Hd1 in *.
  assert (lq_held w5 sh = []) as Hh5.
  { apply perm_nil. rewrite P5. assert (Permutation (lq_held w4 sh) [(d_ID d1, mkMessage "t|c|pe" "a" [])]) as Hp4 by (by rewrite P4, P3, P2, P1, Hh). apply Permutation_sym, Permutation_length_1_inv in Hp4. rewrite Hp4. cbn. by rewrite str_eqb_refl. }
  rewrite W4 in W5. destruct (law_receive sh w5 _ _ U5 Hs (Op5 _ (Op4 _ Op3)) W5) as (d2 & w6 & E6 & Hm2 & Hd2 & Hfresh & _ & U6 & W6 & P6 & _ & _ & O6). rewrite (recv_ok _ _ _ _ _ E6).
  assert (d_ID d2 <> d_ID d1) as Hne by (intros E; apply Hfresh; rewrite E; by apply S5). rewrite Hh5 in P6.
  set (kept := [(d_ID d2, mkMessage "t|c|pe" "k" [])]) in *. set (H := fun s => if (s =? sh)%Z then kept else []).
  assert (forall s, ours s -> Permutation (lq_held w6 s) (H s) /\ (length (H s) <= 100)%nat) as HH.
  { intros s Hos. unfold H. destruct (Z.eqb_spec s sh) as [->|Hns]; [by cbn; split; [|lia]|]. destruct (Hf s Hos) as [_ Hs0]. split; [|cbn; lia].
    destruct (O6 s Hos Hns) as [_ ->], (O5 s Hos Hns) as [_ ->], (O4 s Hos Hns) as [_ ->], (O3 s Hos Hns) as [_ ->], (O2 s Hos Hns) as [_ ->], (O1 s Hos Hns) as [_ ->]. by rewrite Hs0. }
  destruct (reclaim_from H (allShards Q) w6 [] U6 (fun s => proj1 (all_shards s)) HH) as (out & w7 & E7 & U7 & P7 & G7 & S7 & _). unfold reclaimAll at 1. unfold andThen at 1. rewrite E7.
  assert (mget (d_ID d1) out = None) as Hgone.
  { destruct (mget (d_ID d1) out) as [d|] eqn:Eg; [|done]. destruct (G7 _ _ Eg) as [?|(Hin & _)]; [done|]. unfold H in Hin. destruct (d_Shard d =? sh)%Z; [|done]. destruct Hin as [[= E _]|[]]. by destruct Hne. }
  rewrite Hgone, expect_ok by done. destruct (S7 (d_ID d2)) as [got Hgot]; [right; exists sh; split; [by apply all_shards|unfold H; rewrite Z.eqb_refl; by left]|]. rewrite Hgot.
  destruct (G7 _ _ Hgot) as [?|(Hin & _ & Hid)]; [done|]. unfold H in Hin. destruct (Z.eqb_spec (d_Shard got) sh) as [Hgs|]; [|done]. destruct Hin as [[= Hmsg]|[]]. rewrite <- Hmsg, expect_ok by done.
  destruct (law_ack got w7 U7) as (w8 & E8 & U8 & W8 & P8 & _ & _ & O8); [by rewrite Hgs|]. rewrite (must_ok _ _ _ _ _ _ E8). rewrite Hgs, Hid in *.
  destruct (reclaim_from (fun _ => []) (allShards Q) w8 [] U8 (fun s => proj1 (all_shards s))) as (left & w9 & E9 & _ & _ & _ & _ & N9).
  { intros s Hos. split; [|cbn; lia]. destruct (decide (s = sh)) as [->|Hns].
    - rewrite P8. pose proof (P7 sh Hs) as Hp7. unfold H in Hp7. rewrite Z.eqb_refl in Hp7. apply Permutation_sym, Permutation_length_1_inv in Hp7. rewrite Hp7. cbn. by rewrite str_eqb_refl.
    - destruct (O8 s Hos Hns) as [_ ->]. rewrite (P7 s Hos). unfold H. apply Z.eqb_neq in Hns. by rewrite Hns. }
  unfold andThen, reclaimAll. rewrite E9, N9 by done. done.
Qed.

Lemma close_passes w : fresh w -> fst (closeTest Q w) = Ok tt.
Proof.
  intros [Hu Hf]. unfold closeTest. pose proof lq_shards. assert (ours 0%Z) as Hs by lia. destruct (Hf _ Hs) as [Hw _].
  destruct (law_subscribe 0 w Hu Hs) as (w1 & E1 & (U1 & W1 & _) & O1). rewrite (must_ok _ _ _ _ _ _ E1). rewrite Hw in W1. pose proof (law_close 0 w1 U1 Hs O1 W1) as Hc.
  destruct (op_Receive Q 0 (op_Close Q w1)) as [r w2]. cbn [fst] in Hc. by subst r.
Qed.

(** The hashes of three of the keys are congruent modulo no count of shards but one. *)
Lemma keys_spread n : (2 <= n)%Z -> exists k k', In k contractKeys /\ In k' contractKeys /\ Shard k n <> Shard k' n.
Proof.
  intros Hn. assert (forall i, (i < 100)%nat -> In ("t|c|e" +:+ itoa (Z.of_nat i)) contractKeys) as Hin by (intros i Hi; apply in_map_iff; exists i; split; [done|apply in_seq; lia]).
  set (k i := "t|c|e" +:+ itoa (Z.of_nat i)). destruct (decide (Shard (k 0%nat) n = Shard (k 1%nat) n)) as [E1|]; [|by exists (k 0%nat), (k 1%nat); split_and!; [apply Hin; lia..|]].
  destruct (decide (Shard (k 0%nat) n = Shard (k 10%nat) n)) as [E2|]; [|by exists (k 0%nat), (k 10%nat); split_and!; [apply Hin; lia..|]]. exfalso.
  assert (forall i j, Shard (k i) n = Shard (k j) n -> (n | fnv1a fnvOffset (k i) - fnv1a fnvOffset (k j))%Z) as Hdiv.
  { intros i j. unfold Shard. destruct (Z.leb_spec n 1); [lia|]. intros E. apply Z.mod_divide; [lia|]. rewrite Zminus_mod, E, Z.sub_diag. apply Z.mod_0_l. lia. }
  pose proof (Z.gcd_greatest _ _ _ (Hdiv _ _ E1) (Hdiv _ _ E2)) as Hg.
  assert (Z.gcd (fnv1a fnvOffset (k 0%nat) - fnv1a fnvOffset (k 1%nat)) (fnv1a fnvOffset (k 0%nat) - fnv1a fnvOffset (k 10%nat)) = 1%Z) as Hone by (vm_compute; reflexivity).
  rewrite Hone in Hg. apply Z.divide_1_r_nonneg in Hg; lia.
Qed.

Lemma shards_pass w : (2 <= op_Shards Q)%Z -> fst (shardsTest Q w) = Ok tt.
Proof.
  intros Hn. unfold shardsTest, expect. cbn [fst]. destruct (keys_spread _ Hn) as (k & k' & Hk & Hk' & Hne). set (l := map _ contractKeys).
  assert (Shard k (op_Shards Q) ∈ remove_dups l /\ Shard k' (op_Shards Q) ∈ remove_dups l) as [H1 H2] by (rewrite !elem_of_remove_dups, !list_elem_of_In; split; apply in_map_iff; eauto).
  destruct (remove_dups l) as [|x [|y r]]; [by apply elem_of_nil in H1| |done]. apply list_elem_of_singleton in H1, H2. congruence.
Qed.

Lemma contract_passes w : fresh w -> (2 <= op_Shards Q)%Z -> Forall (fun nr => snd nr = Ok tt) (RunContract Q w).
Proof. intros Hf Hn. unfold RunContract. cbn [map fst snd]. repeat constructor; cbn [snd]; [by apply roundtrip_passes|by apply order_passes|by apply ack_passes|by apply shards_pass|by apply close_passes]. Qed.
End Passes.
