(* ===== verification/RedisMem.v ===== *)
(** * A Redis server in memory

    Streams with consumer groups, and keys with an expiry: an instance of the interfaces
    of [RedisQueue.v] that satisfies their laws, for the witnesses. *)

From stdpp Require Import base list strings.
From Stdlib Require Import ZArith Lia Ascii.
From S2P Require Import Prelude GoMap Json Paths Diff DiffSound Domain Tenant Config Alias Repo Plugin Ingest Numbers Pipeline Queue RedisQueue RedisSound.

(** A group: what it has read, and its pending entries with the time of their delivery. *)
Record rgroup := mkRGroup { rg_next : nat; rg_pel : list (string * time) }.
Record rstream := mkRStream { rs_log : list XMessage; rs_groups : list (string * rgroup) }.
Record redis := mkRedis { rd_streams : list (string * rstream); rd_seq : Z; rd_clock : time }.

Definition redis0 : redis := mkRedis [] 1 0.

Definition streamAt (w : redis) (s : string) : rstream := default (mkRStream [] []) (mget s (rd_streams w)).
Definition groupAt (w : redis) (s g : string) : option rgroup := mget g (rs_groups (streamAt w s)).
Definition setStream (w : redis) (s : string) (st : rstream) : redis := mkRedis (mset s st (rd_streams w)) (rd_seq w) (rd_clock w).
Definition setGroup (w : redis) (s g : string) (x : rgroup) : redis :=
  setStream w s (mkRStream (rs_log (streamAt w s)) (mset g x (rs_groups (streamAt w s)))).
Definition bumpSeq (w : redis) : redis := mkRedis (rd_streams w) (rd_seq w + 1) (rd_clock w).
Definition advance (dt : time) (w : redis) : redis := mkRedis (rd_streams w) (rd_seq w) (rd_clock w + dt)%Z.

#[export] Instance mem_view : StreamView redis := {
  logOf w s := rs_log (streamAt w s);
  nextOf w s g := option_map rg_next (groupAt w s g);
  pelOf w s g := match groupAt w s g with Some x => map fst (rg_pel x) | None => [] end;
  idleOf w s g id := match groupAt w s g with Some x => (rd_clock w - default 0 (mget id (rg_pel x)))%Z | None => 0%Z end }.

Definition entryAt (w : redis) (s id : string) : option XMessage := List.find (fun e => str_eqb (x_ID e) id) (rs_log (streamAt w s)).

Definition touch (clock : time) (ids : list string) (e : string * time) : string * time := if existsb (str_eqb e.1) ids then (e.1, clock) else e.

#[export] Instance mem_streams : RedisStreams redis := {
  XAdd s vs w :=
    let id := itoa (rd_seq w) in
    if existsb (str_eqb id) (map x_ID (rs_log (streamAt w s))) then (Err "ERR The ID specified in XADD is equal or smaller", w)
    else (Ok id, bumpSeq (setStream w s (mkRStream (rs_log (streamAt w s) ++ [mkXMessage id vs]) (rs_groups (streamAt w s)))));
  XGroupCreateMkStream s g w :=
    match groupAt w s g with
    | Some _ => (Some "BUSYGROUP Consumer Group name already exists", w)
    | None => (None, setGroup w s g (mkRGroup 0 []))
    end;
  XReadGroup g c s w :=
    match groupAt w s g with
    | None => (Err "NOGROUP No such key or consumer group", w)
    | Some x =>
        match rs_log (streamAt w s) !! rg_next x with
        | None => if (rg_next x =? length (rs_log (streamAt w s)))%nat then (Ok None, w) else (Err "ERR", w)
        | Some e => (Ok (Some e), setGroup w s g (mkRGroup (S (rg_next x)) (rg_pel x ++ [(x_ID e, rd_clock w)])))
        end
    end;
  XAck s g id w :=
    match groupAt w s g with
    | None => (None, w)
    | Some x => (None, setGroup w s g (mkRGroup (rg_next x) (List.filter (fun e => negb (str_eqb e.1 id)) (rg_pel x))))
    end;
  XAutoClaim s g c m n w :=
    match groupAt w s g with
    | None => (Err "NOGROUP No such key or consumer group", w)
    | Some x =>
        let ids := take (Z.to_nat n) (List.filter (fun id => (m <=? idleOf w s g id)%Z) (take (10 * Z.to_nat n) (pelOf w s g))) in
        match mapM (entryAt w s) ids with
        | None => (Err "ERR", w)
        | Some l => (Ok l, setGroup w s g (mkRGroup (rg_next x) (map (touch (rd_clock w) ids) (rg_pel x))))
        end
    end;
  XInfoGroups s w :=
    match mget s (rd_streams w) with
    | None => Err "ERR no such key"
    | Some st => Ok (omap (fun g => option_map (fun x => mkXInfoGroup g (Z.of_nat (length (rg_pel x))) (Z.of_nat (length (rs_log st)) - Z.of_nat (rg_next x))) (mget g (rs_groups st)))
                       (remove_dups (map fst (rs_groups st))))
    end }.

(** ** The laws *)

Lemma streamAt_set w s st : streamAt (setStream w s st) s = st.
Proof. unfold streamAt, setStream. cbn. by rewrite mget_mset_eq. Qed.

Lemma streamAt_other w s st s' : s' <> s -> streamAt (setStream w s st) s' = streamAt w s'.
Proof. intros Hne. unfold streamAt, setStream. cbn. by rewrite mget_mset_ne by congruence. Qed.

Lemma same_at w w' s : streamAt w' s = streamAt w s -> sameStream w w' s.
Proof. intros E. unfold sameStream. cbn. unfold groupAt. by rewrite E. Qed.

Lemma quiet_refl (w : redis) : quiet w w.
Proof. intros s. by apply same_at. Qed.

Lemma elsewhere_set w s st : elsewhere w (setStream w s st) s.
Proof. intros s' Hne. apply same_at. by apply streamAt_other. Qed.

Lemma onGroup_set w s g x : onGroup s g (Some (rg_next x)) (map fst (rg_pel x)) w (setGroup w s g x).
Proof.
  unfold onGroup. cbn. unfold groupAt, setGroup. rewrite streamAt_set. cbn. rewrite !mget_mset_eq. cbn. split_and!; [done|done|done| |apply elsewhere_set].
  intros g' Hne. by rewrite mget_mset_ne by congruence.
Qed.

Lemma filter_fst (id : string) (l : list (string * time)) :
  map fst (List.filter (fun e => negb (str_eqb e.1 id)) l) = List.filter (fun i => negb (str_eqb i id)) (map fst l).
Proof. induction l as [|[i t] l IH]; [done|]. cbn [List.filter map fst]. destruct (str_eqb i id); cbn [negb map fst]; [done|]. by f_equal. Qed.

Lemma touch_fst clock ids (l : list (string * time)) : map fst (map (touch clock ids) l) = map fst l.
Proof. rewrite map_map. apply map_ext. intros [i t]. unfold touch. by destruct (existsb _ _). Qed.

Lemma entries_found w s ids l : mapM (entryAt w s) ids = Some l -> map x_ID l = ids /\ forall e, In e l -> In e (rs_log (streamAt w s)).
Proof.
  intros Hl%mapM_Some. induction Hl as [|id e ids l He Hl [<- IH]]; [done|]. apply find_some in He as [He Hid%str_eqb_eq].
  split; [cbn; by rewrite Hid|]. intros e' [<-|He']; [done|by apply IH].
Qed.

Section Info.
Variables (gs : list (string * rgroup)) (g : string) (mk : string -> rgroup -> XInfoGroup).
Hypothesis mk_name : forall g' x, xg_Name (mk g' x) = g'.

Abbreviation infos ks := (List.filter (fun i => str_eqb (xg_Name i) g) (omap (fun g' => option_map (mk g') (mget g' gs)) ks)).

Lemma info_absent ks : (g ∈ ks -> mget g gs = None) -> infos ks = [].
Proof.
  induction ks as [|k ks IH]; intros Hk; [done|]. cbn. assert (infos ks = []) as IH' by (apply IH; intros; apply Hk; by right).
  destruct (mget k gs) as [x|] eqn:E; cbn [option_map List.filter]; [|exact IH']. rewrite mk_name. destruct (str_eqb k g) eqn:Ek; [|exact IH'].
  apply str_eqb_eq in Ek as ->. rewrite Hk in E by left. done.
Qed.

Lemma info_present ks x : NoDup ks -> g ∈ ks -> mget g gs = Some x -> infos ks = [mk g x].
Proof.
  induction ks as [|k ks IH]; intros Hnd Hin Hx; [by apply not_elem_of_nil in Hin|]. apply NoDup_cons in Hnd as [Hk Hnd]. cbn.
  apply elem_of_cons in Hin as [<-|Hin].
  - rewrite Hx. cbn [option_map List.filter]. rewrite mk_name, str_eqb_refl. f_equal. by apply info_absent.
  - assert (k <> g) as Hne by congruence. destruct (mget k gs) as [y|]; cbn [option_map List.filter]; [|by apply IH].
    rewrite mk_name. apply str_eqb_neq in Hne. rewrite Hne. by apply IH.
Qed.
End Info.

Lemma added_mem w s vs : existsb (str_eqb (itoa (rd_seq w))) (map x_ID (rs_log (streamAt w s))) = false ->
  added s (mkXMessage (itoa (rd_seq w)) vs) w (bumpSeq (setStream w s (mkRStream (rs_log (streamAt w s) ++ [mkXMessage (itoa (rd_seq w)) vs]) (rs_groups (streamAt w s))))).
Proof.
  intros Hid%existsb_str_false. split; [done|]. set (w' := setStream _ _ _). assert (streamAt (bumpSeq w') s = streamAt w' s) as E by done.
  unfold w' in E at 2. rewrite streamAt_set in E. cbn [logOf nextOf pelOf mem_view]. unfold groupAt. rewrite E. split; [reflexivity|split; [intros g; by split|]]. intros s' Hne. by apply (elsewhere_set w s).
Qed.

#[export] Instance mem_stream_laws : StreamLaws redis.
Proof.
  split.
  - intros w s g. cbn. by destruct (groupAt w s g).
  - intros s vs w id w'. cbn [XAdd mem_streams]. destruct (existsb _ _) eqn:E; [done|]. intros Hx. injection Hx as <- <-. by apply added_mem.
  - intros s vs w e w'. cbn [XAdd mem_streams]. destruct (existsb _ _); [|done]. intros [= _ <-]. left. apply quiet_refl.
  - intros s g w r w'. cbn [XGroupCreateMkStream mem_streams]. destruct (groupAt w s g) eqn:E; intros [= _ <-]; [left; apply quiet_refl|right].
    split; [cbn; by rewrite E|]. apply (onGroup_set w s g (mkRGroup 0 [])).
  - intros s g w w'. cbn [XGroupCreateMkStream mem_streams]. destruct (groupAt w s g); [done|]. intros [= <-].
    destruct (onGroup_set w s g (mkRGroup 0 [])) as (_ & -> & _). done.
  - intros g c s w e w'. cbn [XReadGroup mem_streams]. destruct (groupAt w s g) as [x|] eqn:E; [|done]. destruct (rs_log _ !! rg_next x) as [e'|] eqn:Ee; [|by case_match].
    intros [= <- <-]. exists (rg_next x). split_and!; [cbn; by rewrite E|done|].
    replace (pelOf w s g ++ [x_ID e']) with (map fst (rg_pel x ++ [(x_ID e', rd_clock w)])) by (rewrite map_app; cbn; by rewrite E). apply (onGroup_set w s g (mkRGroup _ _)).
  - intros g c s w w'. cbn [XReadGroup mem_streams]. destruct (groupAt w s g) as [x|]; [|done]. destruct (rs_log _ !! rg_next x); [done|].
    case_match; [|done]. intros [= <-]. apply quiet_refl.
  - intros g c s w w' n. cbn [XReadGroup nextOf logOf mem_streams mem_view]. destruct (groupAt w s g) as [x|]; [|done]. destruct (rs_log _ !! rg_next x); [done|].
    destruct (Nat.eqb_spec (rg_next x) (length (rs_log (streamAt w s)))) as [E|]; [|done]. intros _ Hn. cbn in Hn. congruence.
  - intros g c s w x w'. cbn [XReadGroup mem_streams]. intros Hx. left. enough (w' = w) as -> by apply quiet_refl. repeat case_match; by simplify_eq.
  - intros s g id w w'. cbn [XAck mem_streams]. unfold removed. destruct (groupAt w s g) as [x|] eqn:E; intros [= <-].
    + cbn [nextOf pelOf mem_view]. rewrite E, <- filter_fst. apply (onGroup_set w s g (mkRGroup _ _)).
    + cbn [nextOf pelOf mem_view]. rewrite E. unfold onGroup. cbn. rewrite E. split_and!; [done..|]. intros s' _. by apply same_at.
  - intros s g id w x w'. cbn [XAck mem_streams]. by destruct (groupAt w s g).
  - intros s g c m n w r w'. cbn [XAutoClaim mem_streams]. destruct (groupAt w s g) as [x|] eqn:E; [|intros [= _ <-]; apply quiet_refl].
    destruct (mapM _ _) as [l|]; intros [= _ <-]; [|apply quiet_refl].
    set (x' := mkRGroup _ _). destruct (onGroup_set w s g x') as (El & En & Ep & Eg & Es). intros s'. destruct (decide (s' = s)) as [->|Hne]; [|by apply Es].
    split; [done|]. intros g'. destruct (decide (g' = g)) as [->|Hne]; [|by apply Eg]. rewrite En, Ep. unfold x'. cbn. rewrite touch_fst, E. done.
  - intros s g c m n w e w'. cbn [XAutoClaim nextOf mem_streams mem_view]. destruct (groupAt w s g) as [x|]; [|done]. destruct (mapM _ _); [done|]. by intros [= <- _].
  - intros s g c m n w l w'. cbn [XAutoClaim mem_streams]. destruct (groupAt w s g) as [x|]; [|done]. destruct (mapM _ _) as [l'|] eqn:E; [|done].
    intros [= <- _]. by apply entries_found in E.
  - intros s g w gs. cbn [XInfoGroups nextOf pelOf logOf mem_streams mem_view]. unfold groupAt, streamAt. destruct (mget s (rd_streams w)) as [st|]; [|done]. intros [= <-]. cbn [default id].
    destruct (mget g (rs_groups st)) as [x|] eqn:E; cbn [option_map].
    + exists (Z.of_nat (length (rs_log st)) - Z.of_nat (rg_next x))%Z. split; [by left|].
      rewrite (info_present (rs_groups st) g (fun g x => mkXInfoGroup g (Z.of_nat (length (rg_pel x))) (Z.of_nat (length (rs_log st)) - Z.of_nat (rg_next x))) (fun _ _ => eq_refl) _ x); [by rewrite length_map|apply NoDup_remove_dups| |done].
      apply elem_of_remove_dups. apply mget_in in E. apply list_elem_of_In, in_map_iff. by exists (g, x).
    + by apply (info_absent (rs_groups st) g (fun g x => mkXInfoGroup g (Z.of_nat (length (rg_pel x))) (Z.of_nat (length (rs_log st)) - Z.of_nat (rg_next x))) (fun _ _ => eq_refl)).
Qed.

(** ** A run *)

(** Two workers on one shard: the first publishes two messages, reads the first and dies;
    a minute later the second reclaims it, acknowledges it and reads the next. *)
Definition exMsg (v : string) : Message string := mkMessage "acme|crm.deals|d-1" v [("enq", "1"); ("event_id", v)].
Definition exWorker (c : string) : redisQueue := NewRedisQueue 1 "letopis" "workers" c.

Definition ex1 : redis := snd (RSubscribe (exWorker "a") 0 redis0).
Definition ex2 : redis := snd (RPublish (exWorker "a") (exMsg "x") ex1).
Definition ex3 : redis := snd (RPublish (exWorker "a") (exMsg "y") ex2).
Definition ex4 : redis := snd (RNext (exWorker "a") 0 ex3).
Definition ex5 : redis := advance 60 ex4.
Definition ex6 : redis := snd (RReclaim (exWorker "b") 0 30 ex5).
Definition exDelivery (v id : string) (n : Z) : Delivery string := mkDelivery (exMsg v) id 0 n.
Definition ex7 : redis := snd (RAck (exWorker "b") (exDelivery "x" "1" 0) ex6).
Definition ex8 : redis := snd (RNext (exWorker "b") 0 ex7).

Definition exTrace : list revent :=
  [EvOther; EvPublished (exMsg "x"); EvPublished (exMsg "y"); EvRead (exDelivery "x" "1" 1); EvOther;
   EvReclaimed 0 [exDelivery "x" "1" 0]; EvAck (exDelivery "x" "1" 0); EvRead (exDelivery "y" "2" 1)].

Lemma ex_sorted v : goAttrs (exMsg v).
Proof. unfold goAttrs. cbn. repeat constructor. Qed.

Lemma ex_run : rrun 1 "letopis" "workers" redis0 exTrace ex8.
Proof.
  assert (ourShard 1 "letopis" "workers" 0) as H0 by (vm_compute; split; congruence).
  unfold exTrace. change ([?a; ?b; ?c; ?d; ?e; ?f; ?g; ?h]) with (((((((([] ++ [a]) ++ [b]) ++ [c]) ++ [d]) ++ [e]) ++ [f]) ++ [g]) ++ [h]).
  eapply (rrun_snoc _ _ _ _ _ ex7); [|by eapply (rs_read _ _ _ _ "b" 0)].
  eapply (rrun_snoc _ _ _ _ _ ex6); [|by eapply (rs_ack _ _ _ _ "b")].
  eapply (rrun_snoc _ _ _ _ _ ex5); [|eapply (rs_reclaim _ _ _ _ "b" 0 30 (Ok [exDelivery "x" "1" 0])); [done|vm_compute; reflexivity]].
  eapply (rrun_snoc _ _ _ _ _ ex4); [|by apply rs_others].
  eapply (rrun_snoc _ _ _ _ _ ex3); [|by eapply (rs_read _ _ _ _ "a" 0)].
  eapply (rrun_snoc _ _ _ _ _ ex2); [|by eapply (rs_publish _ _ _ _ "a"); [apply ex_sorted|]].
  eapply (rrun_snoc _ _ _ _ _ ex1); [|by eapply (rs_publish _ _ _ _ "a"); [apply ex_sorted|]].
  eapply (rrun_snoc _ _ _ _ _ redis0); [constructor|by eapply (rs_subscribe _ _ _ _ "a" 0)].
Qed.

Lemma redis_at_least_once_witness :
  publishedTo 1 "letopis" "workers" 0 exTrace = [exMsg "x"; exMsg "y"] /\ readFrom 0 exTrace = [exDelivery "x" "1" 1; exDelivery "y" "2" 1] /\
  readFrom 0 exTrace `sublist_of` map (fun e => decodeDelivery 0 e 1) (take 2 (logOf ex8 (StreamName "letopis" 0))) /\
  RDepth (exWorker "b") ex8 = Ok 1%Z.
Proof.
  split; [vm_compute; reflexivity|]. split; [vm_compute; reflexivity|]. split; [|vm_compute; reflexivity].
  destruct (redis_at_least_once 1 "letopis" "workers" redis0 ex8 exTrace) as [Hsh _].
  - intros sh _. split; reflexivity.
  - exact ex_run.
  - exact (proj1 (proj2 (Hsh 0%Z ltac:(vm_compute; split; congruence)))).
Defined.
