(* ===== verification/QueueContract.v ===== *)
(** * Both queues are lawful and pass the contract suite (internal/queue/queuetest)

    The operations of [Queue.v] and of [RedisQueue.v] under the port of [QueuePort.v],
    the laws each satisfies, and the suite run on both.  The memory queue has a clock that
    does not run backwards. *)

From stdpp Require Import base list strings gmap.
From Stdlib Require Import ZArith Lia Ascii Permutation.
From S2P Require Import Prelude GoMap Json Paths Diff DiffSound Domain Tenant Config Alias Repo Plugin Ingest Numbers Pipeline Queue RedisQueue RedisSound QueuePort RedisMem.

(** The queue and the last reading of the clock. *)
Record memState := mkMemState { ms_queue : queue string; ms_clock : time }.

Section Ops.
Variable n : Z.
(** The next reading of the clock; which of the ready cases a closed subscription takes. *)
Variable tick : time -> time.
Variable drains : bool.

Definition memPublish (m : Message string) (w : memState) : res err unit * memState :=
  match QPublish m (ms_queue w) with
  | Some (Ok _, q) => (Ok tt, mkMemState q (ms_clock w))
  | Some (Err e, q) => (Err e, mkMemState q (ms_clock w))
  | None => (Err (ErrInternal "context"), w)
  end.

Definition memSubscribe (sh : Z) (w : memState) : res err unit * memState :=
  (if ((sh <? 0) || (q_shards (ms_queue w) <=? sh))%Z then Err ErrClosed else Ok tt, w).

Definition memReceive (sh : Z) (w : memState) : received * memState :=
  if q_closed (ms_queue w) && negb drains then (EndOfChannel, w)
  else match QNext (tick (ms_clock w)) sh (ms_queue w) with
       | Some (d, q) => (Got d, mkMemState q (tick (ms_clock w)))
       | None => (if q_closed (ms_queue w) then EndOfChannel else NothingArrived, w)
       end.

Definition memAck (d : Delivery string) (w : memState) : res err unit * memState := (Ok tt, mkMemState (QAck d (ms_queue w)) (ms_clock w)).

Definition memReclaim (sh : Z) (minIdle : time) (w : memState) : res err (list (Delivery string)) * memState :=
  let '(ds, q) := QReclaim (tick (ms_clock w)) minIdle sh (ms_queue w) in (Ok ds, mkMemState q (tick (ms_clock w))).

Definition memoryOps : queueOps memState :=
  mkQueueOps (Z.max n 1) memPublish memSubscribe memReceive memAck memReclaim (fun w => mkMemState (QClose (ms_queue w)) (ms_clock w)).

Definition newMemory : memState := mkMemState (New n) 0.
End Ops.

(** ** Pending maps as lists *)

Definition heldOf (m : gmap string (pending (P := string))) : list (string * Message string) := map (fun e => (fst e, d_Message (pd_d (snd e)))) (map_to_list m).

Lemma held_in m id msg : In (id, msg) (heldOf m) <-> exists p, m !! id = Some p /\ d_Message (pd_d p) = msg.
Proof.
  unfold heldOf. rewrite in_map_iff. split.
  - intros ([k p] & [= <- <-] & Hin%list_elem_of_In). exists p. split; [by apply elem_of_map_to_list|done].
  - intros (p & Hp & <-). exists (id, p). split; [done|]. by apply list_elem_of_In, elem_of_map_to_list.
Qed.

Lemma held_keys m : map fst (heldOf m) = (map_to_list m).*1.
Proof. unfold heldOf. by rewrite map_map. Qed.

Lemma held_nodup m : NoDup (map fst (heldOf m)).
Proof. rewrite held_keys. apply NoDup_fst_map_to_list. Qed.

Lemma held_perm (l l' : list (string * Message string)) : NoDup (map fst l) -> NoDup (map fst l') -> (forall e, In e l <-> In e l') -> Permutation l l'.
Proof. intros H1 H2 He. apply NoDup_Permutation; [apply NoDup_ListNoDup; exact (NoDup_fmap_1 fst l H1)|apply NoDup_ListNoDup; exact (NoDup_fmap_1 fst l' H2)|done]. Qed.

Lemma held_delete m id : Permutation (heldOf (delete id m)) (List.filter (fun e => negb (str_eqb e.1 id)) (heldOf m)).
Proof.
  apply held_perm; [apply held_nodup| |].
  - pose proof (held_nodup m) as Hn. induction (heldOf m) as [|e l IH]; [done|]. cbn [map] in Hn. apply NoDup_cons in Hn as [Hx Hn]. cbn [List.filter]. destruct (negb (str_eqb e.1 id)); [|by apply IH].
    cbn [map]. apply NoDup_cons. split; [|by apply IH]. intros Hin. apply Hx. rewrite list_elem_of_In in Hin |- *. apply in_map_iff in Hin as (y & <- & [Hy _]%filter_In). apply in_map_iff. by exists y.
  - intros [k msg]. rewrite filter_In, !held_in. cbn [fst]. split.
    + intros (p & [Hne Hp]%lookup_delete_Some & <-). split; [by exists p|]. by rewrite (proj2 (str_eqb_neq k id)) by congruence.
    + intros [(p & Hp & <-) Hne]. exists p. split; [|done]. apply lookup_delete_Some. split; [|done]. intros ->. by rewrite str_eqb_refl in Hne.
Qed.

Lemma held_insert m id p : m !! id = None -> Permutation (heldOf (<[id := p]> m)) ((id, d_Message (pd_d p)) :: heldOf m).
Proof. intros Hn. unfold heldOf. by rewrite map_to_list_insert. Qed.

Lemma held_bump now mi m : Permutation (heldOf (bump now mi <$> m)) (heldOf m).
Proof.
  apply held_perm; [apply held_nodup..|]. intros [k msg]. rewrite !held_in. split.
  - intros (p & Hp & <-). rewrite lookup_fmap in Hp. destruct (m !! k) as [p'|] eqn:E; [|done]. injection Hp as <-. exists p'. split; [done|]. symmetry. apply bump_id.
  - intros (p & Hp & <-). exists (bump now mi p). rewrite lookup_fmap, Hp. split; [done|apply bump_id].
Qed.

(** ** The laws *)

Section Laws.
Variables (n : Z) (tick : time -> time) (drains : bool).
Hypothesis tick_le : forall t, (t <= tick t)%Z.
Abbreviation shards := (Z.max n 1).

Definition numbered (q : queue string) (id : string) : Prop := exists k, (k <= q_seq q)%Z /\ id = itoa k.

(** Distinct ids given out of the counter; the pending ones have left the channel. *)
Record shardInv (q : queue string) (clock : time) (sh : Z) : Prop := {
  si_nodup : List.NoDup (map d_ID (chanOf q sh));
  si_chan : forall d, In d (chanOf q sh) -> numbered q (d_ID d) /\ d_Shard d = sh;
  si_pend : forall id p, pendOf q sh !! id = Some p -> d_ID (pd_d p) = id /\ d_Shard (pd_d p) = sh /\ (pd_since p <= clock)%Z /\ numbered q id /\ ~ In id (map d_ID (chanOf q sh)) }.

Record memUp (w : memState) : Prop := {
  mu_open : q_closed (ms_queue w) = false;
  mu_shards : q_shards (ms_queue w) = shards;
  mu_chans : length (q_chans (ms_queue w)) = Z.to_nat shards;
  mu_pends : length (q_pend (ms_queue w)) = Z.to_nat shards;
  mu_inv : forall sh, (0 <= sh < shards)%Z -> shardInv (ms_queue w) (ms_clock w) sh }.

Definition memWait (w : memState) (sh : Z) : list (Message string) := map d_Message (chanOf (ms_queue w) sh).
Definition memHeld (w : memState) (sh : Z) : list (string * Message string) := heldOf (pendOf (ms_queue w) sh).
Definition memSeen (w : memState) (sh : Z) (id : string) : Prop := ~ In id (map d_ID (chanOf (ms_queue w) sh)) /\ numbered (ms_queue w) id.

(** A change of one shard: its channel and its pending map. *)
Record shardSet (q q' : queue string) (sh : Z) (c : list (Delivery string)) (p : gmap string (pending (P := string))) : Prop := {
  ss_const : q_closed q' = q_closed q /\ q_shards q' = q_shards q /\ length (q_chans q') = length (q_chans q) /\ length (q_pend q') = length (q_pend q);
  ss_seq : (q_seq q <= q_seq q')%Z;
  ss_chan : forall s, (0 <= s)%Z -> chanOf q' s = if decide (s = sh) then c else chanOf q s;
  ss_pend : forall s, (0 <= s)%Z -> pendOf q' s = if decide (s = sh) then p else pendOf q s }.

Lemma numbered_mono q q' id : (q_seq q <= q_seq q')%Z -> numbered q id -> numbered q' id.
Proof. intros Hs (k & Hk & ->). exists k. split; [lia|done]. Qed.

(** Such a change keeps the invariant when it does on that shard. *)
Lemma set_up w q' clock sh c p : memUp w -> (0 <= sh < shards)%Z -> (ms_clock w <= clock)%Z -> shardSet (ms_queue w) q' sh c p -> shardInv q' clock sh -> memUp (mkMemState q' clock).
Proof.
  intros [Ho Hn Hc Hp Hi] Hs Hle [(E1 & E2 & E3 & E4) Hseq Ec Ep] Hsh. split; cbn [ms_queue ms_clock]; [congruence..|]. intros s Hrange. destruct (decide (s = sh)) as [->|Hne]; [done|].
  destruct (Hi s Hrange) as [I1 I2 I3]. assert (chanOf q' s = chanOf (ms_queue w) s) as Es by (rewrite Ec by lia; by destruct (decide (s = sh))).
  assert (pendOf q' s = pendOf (ms_queue w) s) as Es' by (rewrite Ep by lia; by destruct (decide (s = sh))).
  split; rewrite Es; [done| |rewrite Es'].
  - intros d Hd. destruct (I2 d Hd). split; [by apply (numbered_mono (ms_queue w))|done].
  - intros id pd Hpd. destruct (I3 id pd Hpd) as (? & ? & ? & ? & ?). split_and!; [done|done|lia|by apply (numbered_mono (ms_queue w))|done].
Qed.

(** What such a change does to the abstract queue. *)
Lemma set_step w q' clock sh c p h : memUp (mkMemState q' clock) -> shardSet (ms_queue w) q' sh c p -> (0 <= sh)%Z -> Permutation (heldOf p) h ->
  (forall id, memSeen w sh id -> ~ In id (map d_ID c)) ->
  let w' := mkMemState q' clock in memUp w' /\ memWait w' sh = map d_Message c /\ Permutation (memHeld w' sh) h /\ (forall s : Z, True -> True) /\
  (forall s id, (0 <= s < shards)%Z -> memSeen w s id -> memSeen w' s id) /\ forall s, (0 <= s < shards)%Z -> s <> sh -> memWait w' s = memWait w s /\ Permutation (memHeld w' s) (memHeld w s).
Proof.
  intros Hu [_ Hseq Ec Ep] Hs Hh Hseen. cbv zeta. unfold memWait, memHeld, memSeen in *. cbn [ms_queue]. split_and!; [done|..].
  - by rewrite Ec, decide_True.
  - by rewrite Ep, decide_True.
  - done.
  - intros s id Hrange [Hni Hnum]. split; [|by apply (numbered_mono (ms_queue w))]. rewrite Ec by lia. destruct (decide (s = sh)) as [->|]; [by apply Hseen|done].
  - intros s Hrange Hne. rewrite Ec, Ep, !decide_False by (done || lia). done.
Qed.

Lemma set_both q q1 sh c p : length (q_chans q) = Z.to_nat (q_shards q) -> length (q_pend q) = Z.to_nat (q_shards q) -> inRangeQ q sh ->
  q_closed q1 = q_closed q -> q_shards q1 = q_shards q -> (q_seq q <= q_seq q1)%Z -> q_chans q1 = q_chans q -> q_pend q1 = q_pend q -> shardSet q (setPend (setChan q1 sh c) sh p) sh c p.
Proof.
  intros H1 H2 Hr E1 E2 Hs E3 E4. split; cbn.
  - rewrite !length_insert. by rewrite E1, E2, E3, E4.
  - done.
  - intros s Hp. change (chanOf (setPend (setChan q1 sh c) sh p) s) with (chanOf (setChan q1 sh c) s). rewrite chanOf_set by (unfold inRangeQ in *; rewrite ?E2, ?E3; done). destruct (decide (s = sh)); [done|]. unfold chanOf. by rewrite E3.
  - intros s Hp. rewrite pendOf_set by (unfold inRangeQ in *; cbn; rewrite ?E2, ?E4; done). destruct (decide (s = sh)); [done|]. unfold pendOf. cbn. by rewrite E4.
Qed.

Lemma set_same q sh : shardSet q q sh (chanOf q sh) (pendOf q sh).
Proof. split; [done|lia| |]; intros s _; destruct (decide (s = sh)) as [->|]; done. Qed.

Lemma set_chan_only q q1 sh c : length (q_chans q) = Z.to_nat (q_shards q) -> inRangeQ q sh ->
  q_closed q1 = q_closed q -> q_shards q1 = q_shards q -> (q_seq q <= q_seq q1)%Z -> q_chans q1 = q_chans q -> q_pend q1 = q_pend q -> shardSet q (setChan q1 sh c) sh c (pendOf q sh).
Proof.
  intros H1 Hr E1 E2 Hs E3 E4. split; cbn; [by rewrite length_insert, E1, E2, E3, E4|done| |].
  - intros s Hp. rewrite chanOf_set by (unfold inRangeQ in *; rewrite ?E2, ?E3; done). destruct (decide (s = sh)); [done|]. unfold chanOf. by rewrite E3.
  - intros s Hp. unfold pendOf. cbn. rewrite E4. by destruct (decide (s = sh)) as [->|].
Qed.

Lemma set_pend_only q sh p : length (q_pend q) = Z.to_nat (q_shards q) -> inRangeQ q sh -> shardSet q (setPend q sh p) sh (chanOf q sh) p.
Proof.
  intros H1 Hr. split; cbn; [by rewrite length_insert|done| |].
  - intros s Hp. change (chanOf (setPend q sh p) s) with (chanOf q s). by destruct (decide (s = sh)) as [->|].
  - intros s Hp. by rewrite pendOf_set.
Qed.

#[local] Lemma lens w : memUp w -> length (q_chans (ms_queue w)) = Z.to_nat (q_shards (ms_queue w)) /\ length (q_pend (ms_queue w)) = Z.to_nat (q_shards (ms_queue w)).
Proof. intros [_ Hn Hc Hp _]. by rewrite Hn, Hc, Hp. Qed.

#[local] Lemma in_range w sh : memUp w -> (0 <= sh < shards)%Z -> inRangeQ (ms_queue w) sh.
Proof. intros Hu Hs. unfold inRangeQ. by rewrite (mu_shards w Hu). Qed.

Lemma mem_publish m w : memUp w -> let sh := Shard (msg_Key m) shards in (length (memWait w sh) < bufferSize)%nat ->
  exists w' d, memPublish m w = (Ok tt, w') /\ d_Message d = m /\ memUp w' /\ shardSet (ms_queue w) (ms_queue w') sh (chanOf (ms_queue w) sh ++ [d]) (pendOf (ms_queue w) sh) /\
    (forall id, memSeen w sh id -> ~ In id (map d_ID (chanOf (ms_queue w) sh ++ [d]))).
Proof.
  intros Hu sh Hr. assert (0 <= sh < shards)%Z as Hs by (apply shard_range; lia). unfold memWait in Hr. rewrite length_map in Hr. destruct (lens w Hu) as [L1 L2].
  unfold memPublish, QPublish. rewrite (mu_open w Hu). set (d := newDelivery (ms_queue w) m). assert (d_Shard d = sh) as Ed by (unfold d, newDelivery; cbn [d_Shard]; by rewrite (mu_shards w Hu)). rewrite Ed.
  rewrite (proj2 (Nat.ltb_lt _ _) Hr). eexists _, d. split; [reflexivity|]. split; [done|]. cbn [ms_queue ms_clock].
  assert (forall id, numbered (ms_queue w) id -> id <> d_ID d) as Hnew by (intros id (k & Hk & ->) E%itoa_inj; lia).
  match goal with |- context [mkMemState ?q _] => set (q' := q) end. assert (shardSet (ms_queue w) q' sh (chanOf (ms_queue w) sh ++ [d]) (pendOf (ms_queue w) sh)) as Hset.
  { apply set_chan_only; cbn; [done|by apply in_range|symmetry; apply (mu_open w Hu)|done|lia|done|done]. }
  destruct (mu_inv w Hu sh Hs) as [I1 I2 I3]. split_and!; [|done|].
  - eapply set_up; [done|done| |exact Hset|]; [lia|]. destruct Hset as [_ _ Ec Ep]. split; rewrite Ec, decide_True by (done || lia); [| |rewrite Ep, decide_True by (done || lia)].
    + rewrite map_app. cbn [map]. apply List.NoDup_app; [done|repeat constructor; tauto|]. intros id Hid [<-|[]]. apply in_map_iff in Hid as (d' & Hid & Hd'). destruct (I2 d' Hd') as [Hnum _]. by apply (Hnew _ Hnum).
    + intros d' [Hd'|[<-|[]]]%in_app_iff; [|split; [exists (q_seq (ms_queue w) + 1)%Z; cbn; split; [lia|done]|done]]. destruct (I2 d' Hd') as [Hnum ?]. split; [|done]. apply (numbered_mono (ms_queue w)); [cbn; lia|done].
    + intros id p Hp. destruct (I3 id p Hp) as (H1 & H2 & H3 & H4 & H5). split_and!; [done|done|done|apply (numbered_mono (ms_queue w)); [cbn; lia|done]|]. rewrite map_app, in_app_iff. intros [?|[<-|[]]]; [done|]. by apply (Hnew _ H4).
  - intros id [Hni Hnum]. rewrite map_app, in_app_iff. intros [?|[<-|[]]]; [done|]. by apply (Hnew _ Hnum).
Qed.

Lemma mem_receive sh w d rest : memUp w -> (0 <= sh < shards)%Z -> chanOf (ms_queue w) sh = d :: rest ->
  exists w' p, memReceive tick drains sh w = (Got d, w') /\ d_Shard d = sh /\ memUp w' /\ shardSet (ms_queue w) (ms_queue w') sh rest (<[d_ID d := p]> (pendOf (ms_queue w) sh)) /\ pd_d p = d /\
    pendOf (ms_queue w) sh !! d_ID d = None /\ ~ memSeen w sh (d_ID d) /\ memSeen w' sh (d_ID d).
Proof.
  intros Hu Hs Ec. destruct (lens w Hu) as [L1 L2]. destruct (mu_inv w Hu sh Hs) as [I1 I2 I3]. rewrite Ec in *. unfold memReceive, QNext. rewrite (mu_open w Hu), Ec. cbn [andb].
  eexists _, (mkPending d (tick (ms_clock w))). split; [reflexivity|]. destruct (I2 d (or_introl eq_refl)) as [Hnum Hd]. split; [done|]. cbn [ms_queue].
  match goal with |- context [mkMemState ?q _] => set (q' := q) end. set (p := mkPending d (tick (ms_clock w))).
  assert (shardSet (ms_queue w) q' sh rest (<[d_ID d := p]> (pendOf (ms_queue w) sh))) as Hset by (apply set_both; [done|done|by apply in_range|done|done|lia|done|done]).
  cbn [map] in I1. apply List.NoDup_cons_iff in I1 as [Hni I1].
  assert (pendOf (ms_queue w) sh !! d_ID d = None) as Hfree by (destruct (pendOf (ms_queue w) sh !! d_ID d) as [p'|] eqn:Ep; [|done]; destruct (I3 _ _ Ep) as (_ & _ & _ & _ & Hx); destruct Hx; by left).
  pose proof Hset as [_ _ Hc Hp]. pose proof (tick_le (ms_clock w)) as Ht. split_and!; [|done|done|done| |].
  - eapply set_up; [done|done|exact Ht|exact Hset|]. split; rewrite Hc, decide_True by (done || lia); [done| |rewrite Hp, decide_True by (done || lia)].
    + intros d' Hd'. destruct (I2 d') as [? ?]; [by right|]. split; [by apply (numbered_mono (ms_queue w))|done].
    + intros id p' [[<- <-]|[Hne Hp']]%lookup_insert_Some; [split_and!; [done|done|cbn; lia|by apply (numbered_mono (ms_queue w))|done]|].
      destruct (I3 id p' Hp') as (? & ? & ? & ? & Hx). split_and!; [done|done|cbn in *; lia|by apply (numbered_mono (ms_queue w))|]. intros Hin. apply Hx. by right.
  - intros [Hx _]. apply Hx. rewrite Ec. by left.
  - split; [|by apply (numbered_mono (ms_queue w))]. cbn [ms_queue]. rewrite Hc, decide_True by (done || lia). done.
Qed.

(** An operation that only touches the pending map keeps the invariant. *)
Lemma set_pend_up w sh p clock : memUp w -> (0 <= sh < shards)%Z -> (ms_clock w <= clock)%Z ->
  (forall id x, p !! id = Some x -> exists y, pendOf (ms_queue w) sh !! id = Some y /\ d_ID (pd_d x) = d_ID (pd_d y) /\ d_Shard (pd_d x) = d_Shard (pd_d y) /\ (pd_since x <= clock)%Z) ->
  memUp (mkMemState (setPend (ms_queue w) sh p) clock) /\ shardSet (ms_queue w) (setPend (ms_queue w) sh p) sh (chanOf (ms_queue w) sh) p.
Proof.
  intros Hu Hs Hle Hp. destruct (lens w Hu) as [L1 L2]. assert (shardSet (ms_queue w) (setPend (ms_queue w) sh p) sh (chanOf (ms_queue w) sh) p) as Hset by (apply set_pend_only; [done|by apply in_range]).
  split; [|done]. eapply set_up; [done|done|exact Hle|exact Hset|]. destruct (mu_inv w Hu sh Hs) as [I1 I2 I3]. destruct Hset as [_ _ Ec Ep]. split; rewrite Ec, decide_True by (done || lia); [done|done|rewrite Ep, decide_True by (done || lia)].
  intros id x Hx. destruct (Hp id x Hx) as (y & Hy & E1 & E2 & Hsi). destruct (I3 id y Hy) as (? & ? & ? & ? & ?). split_and!; [congruence|congruence|done|done|done].
Qed.

#[export] Instance memory_lawful : LawfulQueue (memoryOps n tick drains).
Proof.
  refine {| lq_up := memUp; lq_wait := memWait; lq_held := memHeld; lq_open := fun _ _ => True; lq_seen := memSeen |}; cbn [op_Shards op_Publish op_Subscribe op_Receive op_Ack op_Reclaim op_Close memoryOps].
  - lia.
  - intros m w Hu _ Hr. destruct (mem_publish m w Hu Hr) as (w' & d & E & Hm & U & Hset & Hseen). exists w'. split; [done|]. destruct w' as [q' clock].
    assert (0 <= Shard (msg_Key m) shards < shards)%Z by (apply shard_range; lia). pose proof (set_step w q' clock _ _ _ _ U Hset ltac:(lia) (Permutation_refl _) Hseen) as Hst. rewrite map_app in Hst. cbn [map] in Hst. by rewrite Hm in Hst.
  - intros sh w Hu Hs. unfold memSubscribe. rewrite (mu_shards w Hu). exists w. destruct (Z.ltb_spec sh 0); [lia|]. destruct (Z.leb_spec shards sh); [lia|]. split_and!; done.
  - intros sh w m rest Hu Hs _ Hw. unfold memWait in Hw. destruct (chanOf (ms_queue w) sh) as [|d c] eqn:Ec; [done|]. cbn [map] in Hw. injection Hw as <- <-.
    destruct (mem_receive sh w d c Hu Hs Ec) as (w' & p & E & Hd & U & Hset & Hp & Hfree & Hns & Hsn). exists d, w'. do 5 (split; [done|]). destruct w' as [q' clock].
    apply (set_step w q' clock sh c _ _ U Hset); [lia| |]; [rewrite held_insert by done; by rewrite Hp|]. intros id [Hni _] Hin. apply Hni. rewrite Ec. by right.
  - intros d w Hu Hs. unfold memAck, QAck. eexists. split; [reflexivity|]. destruct (set_pend_up w (d_Shard d) (delete (d_ID d) (pendOf (ms_queue w) (d_Shard d))) (ms_clock w) Hu Hs) as [U Hset]; [lia| |].
    { intros id x [_ Hx]%lookup_delete_Some. exists x. split_and!; [done|done|done|]. destruct (mu_inv w Hu _ Hs) as [_ _ I3]. by destruct (I3 id x Hx) as (_ & _ & ? & _). }
    apply (set_step w _ _ _ _ _ _ U Hset); [lia|apply held_delete|]. by intros id [Hni _].
  - intros sh w Hu Hs _. unfold memReclaim, QReclaim. eexists _, _. split; [reflexivity|]. set (m := pendOf (ms_queue w) sh). set (now := tick (ms_clock w)).
    destruct (mu_inv w Hu _ Hs) as [_ _ I3]. fold m in I3. pose proof (tick_le (ms_clock w)) as Ht. fold now in Ht.
    assert (forall id x, m !! id = Some x -> (0 <=? now - pd_since x)%Z = true) as Hidle by (intros id x Hx; destruct (I3 id x Hx) as (_ & _ & ? & _); apply Z.leb_le; lia).
    assert (List.filter (fun e => (0 <=? now - pd_since (snd e))%Z) (map_to_list m) = map_to_list m) as ->.
    { apply List.forallb_filter_id, forallb_forall. intros [id x] Hin%list_elem_of_In%elem_of_map_to_list. by apply (Hidle id). }
    destruct (set_pend_up w sh (bump now 0 <$> m) now Hu Hs Ht) as [U Hset].
    { intros id x Hx. rewrite lookup_fmap in Hx. destruct (m !! id) as [y|] eqn:Ey; [|done]. injection Hx as <-. exists y. unfold bump. rewrite (Hidle id y Ey). split_and!; [done|done|done|cbn; lia]. }
    split; [apply (set_step w _ _ _ _ _ _ U Hset); [lia|apply held_bump|by intros id [Hni _]]|]. split.
    + intros d Hd. apply in_map_iff in Hd as ([id x] & <- & Hin%list_elem_of_In%elem_of_map_to_list). destruct (I3 id x Hin) as (_ & ? & _). cbn [snd]. unfold bump. by destruct (_ <=? _)%Z.
    + unfold memHeld, heldOf. fold m. rewrite map_map. erewrite map_ext_in; [reflexivity|]. intros [id x] Hin%list_elem_of_In%elem_of_map_to_list. cbn [fst snd]. destruct (bump_id now 0 x) as [-> ->]. by destruct (I3 id x Hin) as (-> & _).
  - intros sh w Hu Hs _ Hw. unfold memReceive. cbn. unfold QNext. change (chanOf (QClose (ms_queue w)) sh) with (chanOf (ms_queue w) sh). unfold memWait in Hw. destruct (chanOf (ms_queue w) sh); [|done]. by destruct drains.
Defined.

Lemma memory_fresh : fresh (memoryOps n tick drains) (newMemory n).
Proof.
  assert (forall s, chanOf (New (P := string) n) s = [] /\ pendOf (New (P := string) n) s = ∅) as Hn.
  { intros s. unfold chanOf, pendOf, New. cbn [q_chans q_pend]. split; [destruct (repeat [] _ !! _) as [x|] eqn:E|destruct (repeat ∅ _ !! _) as [x|] eqn:E]; try done; cbn [default]; by apply list_elem_of_lookup_2, list_elem_of_In, repeat_spec in E. }
  split.
  - change (memUp (newMemory n)). split; cbn [newMemory ms_queue ms_clock]; [done|done|apply repeat_length..|]. intros sh _. destruct (Hn sh) as [Hc Hp]. split; rewrite Hc; [constructor|done|]. rewrite Hp. done.
  - intros s _. destruct (Hn s) as [Hc Hp]. cbn. unfold memWait, memHeld. cbn [newMemory ms_queue]. rewrite Hc, Hp. done.
Qed.
End Laws.

(** ** The Redis Streams queue is a lawful queue (internal/queue/redisstreams)

    The operations of [RedisQueue.v] under the port of [QueuePort.v], against a server that
    is up: every command is executed and answered. *)

(** ** A server that is up *)

Class StreamsUp (W : Type) `{RedisStreams W} `{StreamView W} := {
  serverUp : W -> Prop;
  up_xadd : forall s vs w, serverUp w -> exists id w', XAdd s vs w = (Ok id, w') /\ serverUp w';
  up_xgroup : forall s g w, serverUp w -> exists r w', XGroupCreateMkStream s g w = (r, w') /\ serverUp w' /\ (r = None \/ exists e, r = Some e /\ contains "BUSYGROUP" e = true /\ is_Some (nextOf w s g));
  up_xread : forall g c s w, serverUp w -> is_Some (nextOf w s g) -> exists r w', XReadGroup g c s w = (Ok r, w') /\ serverUp w';
  up_xack : forall s g id w, serverUp w -> exists w', XAck s g id w = (None, w') /\ serverUp w';
  up_xclaim : forall s g c m n w, serverUp w -> exists r w', XAutoClaim s g c m n w = (r, w') /\ serverUp w' /\ match r with Ok _ => True | Err e => contains "NOGROUP" e = true end;
  up_idle : forall s g id w, serverUp w -> In id (pelOf w s g) -> (0 <= idleOf w s g id)%Z }.

(** ** The port *)

Section Port.
Context {W : Type} `{RedisStreams W}.
Variable q : redisQueue.

(** The server with the [done] channel of this process's queue. *)
Definition redisReceive (sh : Z) (w : W * bool) : received * (W * bool) :=
  if snd w then (EndOfChannel, w) else let '(d, w') := RNext q sh (fst w) in (match d with Some d => Got d | None => NothingArrived end, (w', snd w)).

Definition onServer {A} (f : W -> A * W) (w : W * bool) : A * (W * bool) := let '(x, w') := f (fst w) in (x, (w', snd w)).

Definition redisOps : queueOps (W * bool) :=
  mkQueueOps (rq_shards q) (fun m => onServer (RPublish q m)) (fun sh => onServer (RSubscribe q sh)) redisReceive (fun d => onServer (RAck q d)) (fun sh mi => onServer (RReclaim q sh mi)) (fun w => (fst w, true)).
End Port.

(** ** The laws *)

Section Laws.
Context {W : Type} {RS : RedisStreams W} {SV : StreamView W} {SL : StreamLaws W} {SU : StreamsUp W}.
Variables (n : Z) (prefix group consumer : string).
Abbreviation q := (NewRedisQueue n prefix group consumer).
Abbreviation stream sh := (StreamName prefix sh).

Definition readCount (w : W) (sh : Z) : nat := default 0%nat (nextOf w (stream sh) group).
Definition messageOf (w : W) (sh : Z) (id : string) : Message string :=
  match List.find (fun e => str_eqb (x_ID e) id) (logOf w (stream sh)) with Some e => decodeValues (x_Values e) | None => mkMessage "" "" [] end.

(** Distinct ids; what is pending has been read, once. *)
Record streamInv (w : W) (sh : Z) : Prop := {
  ri_nodup : List.NoDup (map x_ID (logOf w (stream sh)));
  ri_read : (readCount w sh <= length (logOf w (stream sh)))%nat;
  ri_pel : List.NoDup (pelOf w (stream sh) group) /\ forall id, In id (pelOf w (stream sh) group) -> In id (map x_ID (take (readCount w sh) (logOf w (stream sh)))) }.

Definition redisUp (w : W * bool) : Prop := snd w = false /\ serverUp (fst w) /\ forall sh, (0 <= sh < rq_shards q)%Z -> streamInv (fst w) sh.
Definition redisWait (w : W * bool) (sh : Z) : list (Message string) := messages (drop (readCount (fst w) sh) (logOf (fst w) (stream sh))).
Definition redisHeld (w : W * bool) (sh : Z) : list (string * Message string) := map (fun id => (id, messageOf (fst w) sh id)) (pelOf (fst w) (stream sh) group).
Definition redisOpen (w : W * bool) (sh : Z) : Prop := is_Some (nextOf (fst w) (stream sh) group).
Definition redisSeen (w : W * bool) (sh : Z) (id : string) : Prop := In id (map x_ID (take (readCount (fst w) sh) (logOf (fst w) (stream sh)))).

Lemma other_stream sh s : s <> sh -> stream s <> stream sh.
Proof. intros Hne E. apply Hne. by apply (stream_inj prefix). Qed.

Lemma find_entry (l : list XMessage) e : List.NoDup (map x_ID l) -> In e l -> List.find (fun x => str_eqb (x_ID x) (x_ID e)) l = Some e.
Proof.
  induction l as [|x l IH]; [done|]. cbn [map List.find]. intros [Hni Hn]%List.NoDup_cons_iff [->|Hin]; [by rewrite str_eqb_refl|].
  destruct (str_eqb (x_ID x) (x_ID e)) eqn:E; [|by apply IH]. apply str_eqb_eq in E. destruct Hni. rewrite E. by apply in_map.
Qed.

Lemma message_entry w sh e : List.NoDup (map x_ID (logOf w (stream sh))) -> In e (logOf w (stream sh)) -> messageOf w sh (x_ID e) = decodeValues (x_Values e).
Proof. intros Hn Hin. unfold messageOf. by rewrite find_entry. Qed.

Lemma find_app {A} (f : A -> bool) (l l' : list A) : List.find f (l ++ l') = match List.find f l with Some x => Some x | None => List.find f l' end.
Proof. induction l as [|x l IH]; [done|]. cbn [app List.find]. by destruct (f x). Qed.

(** The log that has grown still has the entries it had. *)
Lemma message_grown w w' sh id l : logOf w' (stream sh) = logOf w (stream sh) ++ l -> In id (map x_ID (logOf w (stream sh))) -> messageOf w' sh id = messageOf w sh id.
Proof.
  intros E (e & <- & Hin)%in_map_iff. unfold messageOf. rewrite E, find_app. destruct (List.find _ (logOf w (stream sh))) as [x|] eqn:Ef; [done|]. apply (find_none _ _ Ef) in Hin. by rewrite str_eqb_refl in Hin.
Qed.

Lemma ids_taken k (l : list XMessage) id : In id (map x_ID (take k l)) -> In id (map x_ID l).
Proof. rewrite <- (take_drop k l) at 2. rewrite map_app, in_app_iff. by left. Qed.

Lemma same_view w w' sh : sameStream w w' (stream sh) -> logOf w' (stream sh) = logOf w (stream sh) /\ readCount w' sh = readCount w sh /\ pelOf w' (stream sh) group = pelOf w (stream sh) group /\
  nextOf w' (stream sh) group = nextOf w (stream sh) group /\ (forall id, messageOf w' sh id = messageOf w sh id) /\ (streamInv w sh -> streamInv w' sh).
Proof.
  intros [El Hg]. destruct (Hg group) as [En Ep]. assert (readCount w' sh = readCount w sh) as Er by (unfold readCount; by rewrite En). unfold messageOf. split_and!; try done; [intros id; by rewrite El|].
  intros [H1 H2 H3]. split; rewrite ?Er, ?El, ?Ep; done.
Qed.

Definition stepTo (w w' : W * bool) (sh : Z) (l : list (Message string)) (h : list (string * Message string)) : Prop :=
  redisUp w' /\ redisWait w' sh = l /\ Permutation (redisHeld w' sh) h /\ (forall s, redisOpen w s -> redisOpen w' s) /\ (forall s id, (0 <= s < rq_shards q)%Z -> redisSeen w s id -> redisSeen w' s id) /\
   forall s, (0 <= s < rq_shards q)%Z -> s <> sh -> redisWait w' s = redisWait w s /\ Permutation (redisHeld w' s) (redisHeld w s).

(** A command on the stream of one shard. *)
Lemma on_shard w w' sh l h : redisUp (w, false) -> serverUp w' -> elsewhere w w' (stream sh) -> ((0 <= sh < rq_shards q)%Z -> streamInv w' sh) -> redisWait (w', false) sh = l -> Permutation (redisHeld (w', false) sh) h ->
  (redisOpen (w, false) sh -> redisOpen (w', false) sh) -> (forall id, redisSeen (w, false) sh id -> redisSeen (w', false) sh id) -> stepTo (w, false) (w', false) sh l h.
Proof.
  intros (_ & Hu & Hi) Hu' He Hi' Hl Hh Ho Hs. assert (forall s, s <> sh -> sameStream w w' (stream s)) as Hv by (intros s Hne; apply He; by apply other_stream). unfold stepTo. split_and!; [|done|done|..].
  - split_and!; [done|done|]. intros s Hr. destruct (decide (s = sh)) as [->|Hne]; [by apply Hi'|]. destruct (same_view w w' s (Hv s Hne)) as (_ & _ & _ & _ & _ & HI). by apply HI, Hi.
  - intros s. destruct (decide (s = sh)) as [->|Hne]; [done|]. destruct (same_view w w' s (Hv s Hne)) as (_ & _ & _ & En & _). unfold redisOpen. cbn [fst]. by rewrite En.
  - intros s id _. destruct (decide (s = sh)) as [->|Hne]; [apply Hs|]. destruct (same_view w w' s (Hv s Hne)) as (El & Er & _). unfold redisSeen. cbn [fst]. by rewrite El, Er.
  - intros s _ Hne. destruct (same_view w w' s (Hv s Hne)) as (El & Er & Ep & _ & Em & _). unfold redisWait, redisHeld. cbn [fst]. rewrite El, Er, Ep. split; [done|]. erewrite map_ext; [reflexivity|]. intros id. by rewrite Em.
Qed.

Lemma quiet_step w w' sh : redisUp (w, false) -> serverUp w' -> quiet w w' -> stepTo (w, false) (w', false) sh (redisWait (w, false) sh) (redisHeld (w, false) sh).
Proof.
  intros Hu Hu' Hq. destruct (same_view w w' sh (Hq _)) as (El & Er & Ep & En & Em & HI). apply on_shard; [done|done|intros s _; apply Hq|intros Hs; apply HI, Hu, Hs|..].
  - unfold redisWait. cbn [fst]. by rewrite El, Er.
  - unfold redisHeld. cbn [fst]. rewrite Ep. erewrite map_ext; [reflexivity|]. intros id. by rewrite Em.
  - unfold redisOpen. cbn [fst]. by rewrite En.
  - intros id. unfold redisSeen. cbn [fst]. by rewrite El, Er.
Qed.

Lemma redis_publish m w : redisUp (w, false) -> goAttrs m -> let sh := Shard (msg_Key m) (rq_shards q) in (0 <= sh < rq_shards q)%Z ->
  exists w', RPublish q m w = (Ok tt, w') /\ stepTo (w, false) (w', false) sh (redisWait (w, false) sh ++ [m]) (redisHeld (w, false) sh).
Proof.
  intros Hu Ha sh Hs. unfold RPublish, streamOf. fold sh. cbn [rq_prefix NewRedisQueue]. destruct (up_xadd (stream sh) (entryValues m) w (proj1 (proj2 Hu))) as (id & w' & E & Hu'). rewrite E. exists w'. split; [done|].
  destruct (xadd_ok _ _ _ _ _ E) as (Hid & El & Hg & He). destruct (Hg group) as [En Ep]. destruct (proj2 (proj2 Hu) sh Hs) as [I1 I2 [I3 I4]]. cbn [fst] in *.
  assert (readCount w' sh = readCount w sh) as Er by (unfold readCount; by rewrite En). cbn [x_ID] in Hid.
  apply on_shard; [done|done|done|intros _|..].
  - split; rewrite ?El, ?Er, ?Ep; [|rewrite length_app; lia|split; [done|]].
    + rewrite map_app. apply List.NoDup_app; [done|repeat constructor; tauto|]. intros x Hx [<-|[]]. done.
    + rewrite take_app_le by done. done.
  - unfold redisWait, messages. cbn [fst]. rewrite El, Er, drop_app_le, map_app by done. cbn [map x_Values]. by rewrite entry_roundtrip.
  - unfold redisHeld. cbn [fst]. rewrite Ep. erewrite map_ext_in; [reflexivity|]. intros x Hx. cbv beta. f_equal. eapply message_grown; [exact El|]. by eapply ids_taken, I4.
  - unfold redisOpen. cbn [fst]. by rewrite En.
  - intros x. unfold redisSeen. cbn [fst]. by rewrite El, Er, take_app_le.
Qed.

Lemma redis_subscribe sh w : redisUp (w, false) -> (0 <= sh < rq_shards q)%Z ->
  exists w', RSubscribe q sh w = (Ok tt, w') /\ stepTo (w, false) (w', false) sh (redisWait (w, false) sh) (redisHeld (w, false) sh) /\ redisOpen (w', false) sh.
Proof.
  intros Hu Hs. unfold RSubscribe, ensureGroup, streamOf. cbn [rq_prefix rq_group NewRedisQueue]. destruct (Z.ltb_spec sh 0); [lia|]. destruct (Z.leb_spec (rq_shards q) sh); [lia|]. cbn [orb].
  destruct (up_xgroup (stream sh) group w (proj1 (proj2 Hu))) as (r & w' & E & Hu' & Hr). rewrite E. exists w'.
  assert (is_Some (nextOf w' (stream sh) group) /\ stepTo (w, false) (w', false) sh (redisWait (w, false) sh) (redisHeld (w, false) sh)) as [Ho Hst].
  { destruct (xgroup_any _ _ _ _ _ E) as [Hq|[Hno (El & En & Ep & _ & He)]].
    - destruct (same_view w w' sh (Hq _)) as (_ & _ & _ & En & _). split; [|by apply quiet_step]. destruct Hr as [->|(e & _ & _ & Hsome)]; [by apply (xgroup_ok _ _ _ _ E)|by rewrite En].
    - pose proof (no_group_no_pel _ _ _ Hno) as Hpel. destruct (proj2 (proj2 Hu) sh Hs) as [I1 I2 _]. cbn [fst] in *. split; [by rewrite En|].
      assert (readCount w sh = 0%nat /\ readCount w' sh = 0%nat) as [R1 R2] by (unfold readCount; by rewrite Hno, En).
      apply on_shard; [done|done|done|intros _|..].
      + split; rewrite ?El, ?R2, ?Ep; [done|lia|split; [constructor|done]].
      + unfold redisWait. cbn [fst]. by rewrite El, R1, R2.
      + unfold redisHeld. cbn [fst]. by rewrite Ep, Hpel.
      + unfold redisOpen. cbn [fst]. by rewrite En.
      + intros id. unfold redisSeen. cbn [fst]. by rewrite R1. }
  split; [|done]. destruct Hr as [->|(e & -> & Hb & _)]; [done|]. by rewrite Hb.
Qed.

Lemma redis_receive sh w m rest : redisUp (w, false) -> (0 <= sh < rq_shards q)%Z -> redisOpen (w, false) sh -> redisWait (w, false) sh = m :: rest ->
  exists d w', RNext q sh w = (Some d, w') /\ d_Message d = m /\ d_Shard d = sh /\ ~ redisSeen (w, false) sh (d_ID d) /\ redisSeen (w', false) sh (d_ID d) /\
    stepTo (w, false) (w', false) sh rest ((d_ID d, m) :: redisHeld (w, false) sh).
Proof.
  intros Hu Hs [k Hk] Hw. cbn [fst] in Hk. destruct (proj2 (proj2 Hu) sh Hs) as [I1 I2 [I3 I4]]. cbn [fst] in *. assert (readCount w sh = k) as Rk by (unfold readCount; by rewrite Hk).
  unfold redisWait, messages in Hw. cbn [fst] in Hw. rewrite Rk in *.
  unfold RNext, streamOf. cbn [rq_prefix rq_group rq_consumer NewRedisQueue]. destruct (up_xread group consumer (stream sh) w (proj1 (proj2 Hu))) as (r & w' & E & Hu'); [by rewrite Hk|]. rewrite E.
  destruct r as [e|]; [|pose proof (xread_waiting _ _ _ _ _ _ E Hk) as Hlen; rewrite drop_ge in Hw by lia; done].
  destruct (xread_some _ _ _ _ _ _ E) as (k' & Hk' & He & El & En & Ep & _ & Helse). assert (k' = k) as -> by congruence.
  rewrite (drop_S _ _ _ He) in Hw. cbn [map] in Hw. injection Hw as <- <-.
  assert (readCount w' sh = S k) as Rk' by (unfold readCount; by rewrite En). pose proof (take_S_r _ _ _ He) as Ht.
  assert (~ In (x_ID e) (map x_ID (take k (logOf w (stream sh))))) as Hnew.
  { rewrite <- (take_drop k (logOf w (stream sh))), map_app, (drop_S _ _ _ He) in I1. cbn [map] in I1. apply List.NoDup_remove_2 in I1. intros Hin. apply I1, in_app_iff. by left. }
  assert (In e (logOf w (stream sh))) as Hin by (apply list_elem_of_In; by eapply list_elem_of_lookup_2).
  eexists _, w'. split; [reflexivity|]. cbn [decodeDelivery d_Message d_Shard d_ID]. do 2 (split; [done|]). unfold redisSeen. cbn [fst]. rewrite Rk, Rk', El, Ht, map_app. split; [done|]. split; [apply in_app_iff; right; by left|].
  apply on_shard; [done|done|done|intros _|..].
  - split; rewrite ?El, ?Rk', ?Ep; [done|apply lookup_lt_Some in He; lia|split].
    + apply List.NoDup_app; [done|repeat constructor; tauto|]. intros x Hx [<-|[]]. by apply Hnew, I4.
    + rewrite Ht, map_app. intros id [Hid|[<-|[]]]%in_app_iff; apply in_app_iff; [left; by apply I4|right; by left].
  - unfold redisWait, messages. cbn [fst]. by rewrite El, Rk'.
  - unfold redisHeld. cbn [fst]. rewrite Ep, map_app. cbn [map]. assert (forall id, messageOf w' sh id = messageOf w sh id) as Em by (intros id; unfold messageOf; by rewrite El).
    rewrite Em, (message_entry w sh e I1 Hin), Permutation_app_comm. cbn [app]. erewrite map_ext; [reflexivity|]. intros id. by rewrite Em.
  - unfold redisOpen. cbn [fst]. by rewrite En.
  - intros id. unfold redisSeen. cbn [fst]. rewrite Rk, Rk', El, Ht, map_app, in_app_iff. by left.
Qed.

Lemma filter_held (f : string -> Message string) id l :
  map (fun x => (x, f x)) (List.filter (fun x => negb (str_eqb x id)) l) = List.filter (fun e => negb (str_eqb e.1 id)) (map (fun x => (x, f x)) l).
Proof. induction l as [|x l IH]; [done|]. cbn [List.filter map fst]. destruct (negb (str_eqb x id)); cbn [map]; by rewrite IH. Qed.

Lemma redis_ack d w : redisUp (w, false) -> (0 <= d_Shard d < rq_shards q)%Z ->
  exists w', RAck q d w = (Ok tt, w') /\ stepTo (w, false) (w', false) (d_Shard d) (redisWait (w, false) (d_Shard d)) (List.filter (fun e => negb (str_eqb e.1 (d_ID d))) (redisHeld (w, false) (d_Shard d))).
Proof.
  intros Hu Hs. set (sh := d_Shard d) in *. unfold RAck, streamOf. fold sh. cbn [rq_prefix rq_group NewRedisQueue]. destruct (up_xack (stream sh) group (d_ID d) w (proj1 (proj2 Hu))) as (w' & E & Hu'). rewrite E. exists w'. split; [done|].
  destruct (xack_ok _ _ _ _ _ E) as (El & En & Ep & _ & He). destruct (proj2 (proj2 Hu) sh Hs) as [I1 I2 [I3 I4]]. cbn [fst] in *. assert (readCount w' sh = readCount w sh) as Er by (unfold readCount; by rewrite En).
  apply on_shard; [done|done|done|intros _|..].
  - split; rewrite ?El, ?Er, ?Ep; [done|done|split; [by apply List.NoDup_filter|]]. intros id [Hid _]%filter_In. by apply I4.
  - unfold redisWait. cbn [fst]. by rewrite El, Er.
  - unfold redisHeld. cbn [fst]. rewrite Ep. assert (forall id, messageOf w' sh id = messageOf w sh id) as Em by (intros id; unfold messageOf; by rewrite El).
    rewrite <- filter_held. erewrite map_ext; [reflexivity|]. intros id. by rewrite Em.
  - unfold redisOpen. cbn [fst]. by rewrite En.
  - intros id. unfold redisSeen. cbn [fst]. by rewrite El, Er.
Qed.

Lemma filter_kept {A} (f : A -> bool) l : (forall x, In x l -> f x = true) -> List.filter f l = l.
Proof. intros Hf. apply List.forallb_filter_id, forallb_forall, Hf. Qed.

Lemma redis_reclaim sh w : redisUp (w, false) -> (0 <= sh < rq_shards q)%Z -> (length (redisHeld (w, false) sh) <= 100)%nat ->
  exists ds w', RReclaim q sh 0 w = (Ok ds, w') /\ stepTo (w, false) (w', false) sh (redisWait (w, false) sh) (redisHeld (w, false) sh) /\
    (forall d, In d ds -> d_Shard d = sh) /\ Permutation (map (fun d => (d_ID d, d_Message d)) ds) (redisHeld (w, false) sh).
Proof.
  intros Hu Hs Hlen. unfold redisHeld in Hlen. cbn [fst] in Hlen. rewrite length_map in Hlen. unfold RReclaim, streamOf, reclaimCount. cbn [rq_prefix rq_group rq_consumer NewRedisQueue].
  destruct (up_xclaim (stream sh) group consumer 0 100 w (proj1 (proj2 Hu))) as (r & w' & E & Hu' & Hr). rewrite E. pose proof (xclaim_quiet _ _ _ _ _ _ _ _ E) as Hq. destruct r as [l|e].
  - eexists _, w'. split; [reflexivity|]. split; [by apply quiet_step|]. split; [intros d (x & <- & _)%in_map_iff; done|].
    destruct (xclaim_ok _ _ _ _ _ _ _ _ E) as [Hids Hin]. change (10 * Z.to_nat 100)%nat with 1000%nat in Hids. change (Z.to_nat 100) with 100%nat in Hids.
    rewrite (take_ge (pelOf w (stream sh) group)) in Hids by lia. rewrite filter_kept in Hids by (intros id Hid; apply Z.leb_le, (up_idle _ _ _ _ (proj1 (proj2 Hu)) Hid)). rewrite take_ge in Hids by lia.
    destruct (proj2 (proj2 Hu) sh Hs) as [I1 _ _]. cbn [fst] in I1. unfold redisHeld. cbn [fst]. rewrite <- Hids, !map_map. erewrite map_ext_in; [reflexivity|].
    intros x Hx. cbn [decodeDelivery d_ID d_Message]. by rewrite (message_entry w sh x I1 (Hin x Hx)).
  - rewrite Hr. exists [], w'. split; [done|]. split; [by apply quiet_step|]. split; [done|]. unfold redisHeld. cbn [fst]. by rewrite (no_group_no_pel _ _ _ (xclaim_nogroup _ _ _ _ _ _ _ _ E Hr)).
Qed.

#[export] Instance redis_lawful : LawfulQueue (redisOps q).
Proof.
  refine {| lq_up := redisUp; lq_wait := redisWait; lq_held := redisHeld; lq_open := redisOpen; lq_seen := redisSeen |}; cbn [op_Shards op_Publish op_Subscribe op_Receive op_Ack op_Reclaim op_Close redisOps].
  - cbn. destruct (Z.ltb_spec n 1); lia.
  - intros m [w b] Hu Ha _. assert (b = false) as -> by apply Hu. assert (1 <= rq_shards q)%Z as H1 by (cbn; destruct (Z.ltb_spec n 1); lia).
    destruct (redis_publish m w Hu Ha (shard_range _ _ H1)) as (w' & E & Hst). exists (w', false). unfold onServer. cbn [fst snd]. rewrite E. split; [done|exact Hst].
  - intros sh [w b] Hu Hs. assert (b = false) as -> by apply Hu. destruct (redis_subscribe sh w Hu Hs) as (w' & E & Hst & Ho). exists (w', false). unfold onServer. cbn [fst snd]. rewrite E. split; [done|]. split; [exact Hst|exact Ho].
  - intros sh [w b] m rest Hu Hs Ho Hw. assert (b = false) as -> by apply Hu. destruct (redis_receive sh w m rest Hu Hs Ho Hw) as (d & w' & E & H1 & H2 & H3 & H4 & Hst). exists d, (w', false). unfold redisReceive. cbn [fst snd]. rewrite E. do 5 (split; [done|]). exact Hst.
  - intros d [w b] Hu Hs. assert (b = false) as -> by apply Hu. destruct (redis_ack d w Hu Hs) as (w' & E & Hst). exists (w', false). unfold onServer. cbn [fst snd]. rewrite E. split; [done|exact Hst].
  - intros sh [w b] Hu Hs Hl. assert (b = false) as -> by apply Hu. destruct (redis_reclaim sh w Hu Hs Hl) as (ds & w' & E & Hst & H1 & H2). exists ds, (w', false). unfold onServer. cbn [fst snd]. rewrite E. split; [done|]. split; [exact Hst|done].
  - intros sh [w b] _ _ _ _. done.
Defined.

(** A server without the streams of the queue. *)
Lemma redis_fresh w : serverUp w -> (forall sh, logOf w (stream sh) = [] /\ nextOf w (stream sh) group = None) -> fresh (redisOps q) (w, false).
Proof.
  intros Hu Hn. split.
  - change (redisUp (w, false)). split_and!; [done|done|]. intros sh _. cbn [fst]. destruct (Hn sh) as [El En]. pose proof (no_group_no_pel _ _ _ En) as Ep. split; [rewrite El; constructor|unfold readCount; rewrite En; cbn; lia|rewrite Ep; split; [constructor|done]].
  - intros s _. change (redisWait (w, false) s = [] /\ redisHeld (w, false) s = []). destruct (Hn s) as [El En]. unfold redisWait, redisHeld. cbn [fst]. rewrite (no_group_no_pel _ _ _ En), El, drop_nil. done.
Qed.
End Laws.

(** ** Both queues pass the contract

    The in-memory Redis server is a server that is up, and the contract suite of
    [QueuePort.v] passes on both backends, for every number of shards from two on. *)

(** ** The in-memory server is up *)

Record groupUp (w : redis) (s : string) (x : rgroup) : Prop := {
  gu_next : (rg_next x <= length (rs_log (streamAt w s)))%nat;
  gu_pel : forall id t, In (id, t) (rg_pel x) -> (t <= rd_clock w)%Z /\ In id (map x_ID (rs_log (streamAt w s))) }.

Record memServerUp (w : redis) : Prop := {
  su_ids : forall s e, In e (rs_log (streamAt w s)) -> exists k, (k < rd_seq w)%Z /\ x_ID e = itoa k;
  su_groups : forall s g x, groupAt w s g = Some x -> groupUp w s x }.

Lemma groupAt_set w s g x s' g' : groupAt (setGroup w s g x) s' g' = if decide (s' = s /\ g' = g) then Some x else groupAt w s' g'.
Proof.
  unfold groupAt, setGroup. destruct (decide (s' = s)) as [->|Hs]; [|rewrite streamAt_other by done; destruct (decide _) as [[? _]|]; done]. rewrite streamAt_set. cbn [rs_groups].
  destruct (decide (g' = g)) as [->|Hg]; [rewrite mget_mset_eq; by rewrite decide_True|]. rewrite mget_mset_ne by congruence. rewrite decide_False by tauto. done.
Qed.

Lemma log_setGroup w s g x s' : rs_log (streamAt (setGroup w s g x) s') = rs_log (streamAt w s').
Proof. unfold setGroup. destruct (decide (s' = s)) as [->|Hs]; [by rewrite streamAt_set|by rewrite streamAt_other]. Qed.

Lemma setGroup_up w s g x : memServerUp w -> groupUp w s x -> memServerUp (setGroup w s g x).
Proof.
  intros [Hi Hg] Hx. split.
  - intros s' e. rewrite log_setGroup. apply Hi.
  - intros s' g' y. rewrite groupAt_set. destruct (decide (s' = s /\ g' = g)) as [[-> ->]|]; [intros [= <-]|intros Hy; apply Hg in Hy]; split; rewrite ?log_setGroup; apply Hx || apply Hy.
Qed.

Lemma mem_up_add s vs w : memServerUp w -> exists id w', XAdd s vs w = (Ok id, w') /\ memServerUp w'.
Proof.
  intros [Hi Hg]. cbn. destruct (existsb _ _) eqn:Ex.
  { apply existsb_exists in Ex as (id & (e & <- & He)%in_map_iff & Eid%str_eqb_eq). destruct (Hi s e He) as (k & Hk & Ek). rewrite Ek in Eid. apply itoa_inj in Eid. lia. }
  eexists _, _. split; [reflexivity|]. set (st := mkRStream _ _). set (w' := bumpSeq (setStream w s st)).
  assert (forall s', streamAt w' s' = if decide (s' = s) then st else streamAt w s') as Hst by (intros s'; destruct (decide (s' = s)) as [->|Hne]; [apply (streamAt_set w)|by apply (streamAt_other w)]).
  split.
  - intros s' e. rewrite Hst. cbn [rd_seq bumpSeq setStream w']. destruct (decide (s' = s)) as [->|Hne]; [|intros He; destruct (Hi s' e He) as (k & ? & ?); exists k; split; [lia|done]].
    cbn [rs_log st]. intros [He|[<-|[]]]%in_app_iff; [destruct (Hi s e He) as (k & ? & ?); exists k; split; [lia|done]|]. exists (rd_seq w). split; [lia|done].
  - intros s' g x. unfold groupAt. rewrite Hst. intros Hx. assert (groupAt w s' g = Some x) as Hx' by (unfold groupAt; destruct (decide (s' = s)) as [->|]; done). destruct (Hg s' g x Hx') as [H1 H2].
    split; rewrite Hst; destruct (decide (s' = s)) as [->|]; try done; cbn [rs_log st].
    + rewrite length_app. lia.
    + intros id t Hid. destruct (H2 id t Hid). split; [done|]. rewrite map_app, in_app_iff. by left.
Qed.

Lemma mem_up_read g c s w : memServerUp w -> is_Some (nextOf w s g) -> exists r w', XReadGroup g c s w = (Ok r, w') /\ memServerUp w'.
Proof.
  intros Hu. cbn. destruct (groupAt w s g) as [x|] eqn:Ex; [|by intros [? ?]]. intros _. pose proof (su_groups w Hu _ _ _ Ex) as [H1 H2]. destruct (rs_log (streamAt w s) !! rg_next x) as [e|] eqn:El.
  - eexists _, _. split; [reflexivity|]. apply setGroup_up; [done|]. split; cbn [rg_next rg_pel]; [apply lookup_lt_Some in El; lia|].
    intros id t [Hid|[[= <- <-]|[]]]%in_app_iff; [by apply H2|]. split; [lia|]. apply in_map, list_elem_of_In. by eapply list_elem_of_lookup_2.
  - apply lookup_ge_None in El. assert (rg_next x = length (rs_log (streamAt w s))) as -> by lia. rewrite Nat.eqb_refl. by eexists _, _.
Qed.

Lemma mem_up_ack s g id w : memServerUp w -> exists w', XAck s g id w = (None, w') /\ memServerUp w'.
Proof.
  intros Hu. cbn. destruct (groupAt w s g) as [x|] eqn:Ex; [|by exists w]. eexists. split; [reflexivity|]. pose proof (su_groups w Hu _ _ _ Ex) as [H1 H2]. apply setGroup_up; [done|].
  split; [done|]. cbn [rg_pel]. intros id' t [Hid _]%filter_In. by apply H2.
Qed.

Lemma mem_up_claim s g c m n w : memServerUp w -> exists r w', XAutoClaim s g c m n w = (r, w') /\ memServerUp w' /\ match r with Ok _ => True | Err e => contains "NOGROUP" e = true end.
Proof.
  intros Hu. cbn. destruct (groupAt w s g) as [x|] eqn:Ex; [|eexists _, w; split; [reflexivity|]; split; [done|vm_compute; reflexivity]]. pose proof (su_groups w Hu _ _ _ Ex) as [H1 H2]. set (ids := take _ _).
  assert (forall id, In id ids -> is_Some (entryAt w s id)) as Hids.
  { intros id Hid. unfold ids in Hid. apply list_elem_of_In in Hid. apply elem_of_take in Hid as (i & Hid%list_elem_of_lookup_2%list_elem_of_In & _). apply filter_In in Hid as [Hid _]. apply list_elem_of_In, elem_of_take in Hid as (j & Hid%list_elem_of_lookup_2%list_elem_of_In & _).
    apply in_map_iff in Hid as ([id' t] & <- & Hid). destruct (H2 _ _ Hid) as [_ Hin]. cbn [fst]. unfold entryAt. destruct (List.find _ _) eqn:Ef; [done|]. apply in_map_iff in Hin as (e & <- & He). apply (find_none _ _ Ef) in He. by rewrite str_eqb_refl in He. }
  assert (is_Some (mapM (entryAt w s) ids)) as [l Hl].
  { clear -Hids. induction ids as [|id ids IH]; [done|]. destruct (Hids id) as [e He]; [by left|]. destruct IH as [l Hl]; [intros id' ?; apply Hids; by right|]. exists (e :: l). cbn. by rewrite He, Hl. }
  rewrite Hl. eexists _, _. split; [reflexivity|]. split; [|done]. apply setGroup_up; [done|]. split; [done|]. cbn [rg_pel]. intros id t ([id' t'] & E & Hin)%in_map_iff. destruct (H2 _ _ Hin) as [Ht Hlog].
  unfold touch in E. cbn [fst] in E. destruct (existsb _ ids); injection E as <- <-; (split; [lia|done]).
Qed.

#[export] Instance mem_streams_up : StreamsUp redis.
Proof.
  refine {| serverUp := memServerUp |}.
  - intros s vs w. apply mem_up_add.
  - intros s g w Hu. cbn. destruct (groupAt w s g) as [x|] eqn:Ex; eexists _, _; (split; [reflexivity|]).
    + split; [done|]. right. eexists. split; [reflexivity|]. split; [vm_compute; reflexivity|done].
    + split; [|by left]. apply setGroup_up; [done|]. split; cbn; [lia|done].
  - intros g c s w. apply mem_up_read.
  - intros s g id w. apply mem_up_ack.
  - intros s g c m n w. apply mem_up_claim.
  - intros s g id w Hu. cbn. destruct (groupAt w s g) as [x|] eqn:Ex; [|done]. intros ([id' t] & <- & Hin)%in_map_iff. pose proof (su_groups w Hu _ _ _ Ex) as [_ H2]. cbn [fst].
    destruct (mget id' (rg_pel x)) as [t'|] eqn:Et; cbn [default]; [destruct (H2 _ _ (mget_in _ _ _ Et)); unfold id; lia|].
    exfalso. apply (proj2 (mget_key id' (rg_pel x))); [apply in_map_iff; by exists (id', t)|done].
Defined.


