(* ===== verification/RedisStores.v ===== *)
(** * Tickets and reservations in Redis (internal/storage/redis/ticket_store.go,
    idempotency_store.go)

    JSON values under tenant-scoped keys with a lifetime.  The commands of the server are
    an interface on the world [W]. *)

From stdpp Require Import base list strings.
From Stdlib Require Import ZArith Lia Ascii.
From S2P Require Import Prelude GoMap Json Paths Diff DiffSound Domain Tenant Config Alias Repo Plugin Ingest Numbers Pipeline Canonical Worker JsonText TimeText Http TaskWire.

(** [SET key value EX ttl], [SET key value XX KEEPTTL], [SET key value NX EX ttl], [GET]
    ([None]: [redis.Nil]) and [DEL]; errors by their text. *)
Class RedisKV (W : Type) := {
  KSet : string -> string -> time -> W -> option string * W;
  KSetXX : string -> string -> W -> res string bool * W;
  KSetNX : string -> string -> time -> W -> res string bool * W;
  KGet : string -> W -> res string (option string);
  KDel : string -> W -> option string * W }.

Definition keyspace : string := "letopis:tkt".
Definition idempKeyspace : string := "letopis:idem".
Definition DefaultTTL : time := (24 * 3600 * 1000000000)%Z.
Definition reserveMaxTries : nat := 3.

(** The constructors' default. *)
Definition ttlOrDefault (ttl : time) : time := if (ttl <=? 0)%Z then DefaultTTL else ttl.

Definition tenantKey (space : string) (c : ctx) (id : string) : res err string :=
  match FromContext c with
  | None => Err ErrNoTenant
  | Some p => Ok (space +:+ ":" +:+ DatabaseName (p_Tenant p) +:+ ":" +:+ id)
  end.

Definition ticketKey : ctx -> string -> res err string := tenantKey keyspace.
Definition idempotencyKey : ctx -> string -> res err string := tenantKey idempKeyspace.

(** ** Documents *)

(** [time.Time.UnixMilli] and [time.UnixMilli]. *)
Definition unixEpoch : time := (719162 * 86400 * 1000000000)%Z.
Definition unixMilli (t : time) : Z := wrap64 ((t - unixEpoch) / 1000000).
Definition ofMilli (ms : Z) : time := (unixEpoch + ms * 1000000)%Z.

Record ticketDoc := mkTicketDoc {
  td_ID : string; td_Status : string; td_Collection : string; td_EntityID : string; td_Error : string; td_CreatedAt : Z; td_UpdatedAt : Z }.
Definition ticketDoc0 : ticketDoc := mkTicketDoc "" "" "" "" "" 0 0.

Definition toDoc (t : Ticket) : ticketDoc :=
  mkTicketDoc (tck_ID t) (tck_Status t) (tck_Collection t) (tck_EntityID t) (tck_Error t) (unixMilli (tck_CreatedAt t)) (unixMilli (tck_UpdatedAt t)).

Definition fromDoc (d : ticketDoc) : Ticket :=
  mkTicket (td_ID d) (td_Status d) (td_Collection d) (td_EntityID d) (td_Error d) (ofMilli (td_CreatedAt d)) (ofMilli (td_UpdatedAt d)).

Definition ticketDocValue (d : ticketDoc) : gvalue :=
  GObj ([("id", GStr (td_ID d)); ("status", GStr (td_Status d)); ("collection", GStr (td_Collection d)); ("entity_id", GStr (td_EntityID d))] ++
        omitEmpty "error" (td_Error d) ++ [("created_at", GInt (td_CreatedAt d)); ("updated_at", GInt (td_UpdatedAt d))]).

Definition decTicketDoc : decoder ticketDoc :=
  decStruct false ["id"; "status"; "collection"; "entity_id"; "error"; "created_at"; "updated_at"] (fun f t v =>
    let '(mkTicketDoc i s c e x cr up) := v in
    if str_eqb f "id" then i ← decString i t; Some (mkTicketDoc i s c e x cr up)
    else if str_eqb f "status" then s ← decString s t; Some (mkTicketDoc i s c e x cr up)
    else if str_eqb f "collection" then c ← decString c t; Some (mkTicketDoc i s c e x cr up)
    else if str_eqb f "entity_id" then e ← decString e t; Some (mkTicketDoc i s c e x cr up)
    else if str_eqb f "error" then x ← decString x t; Some (mkTicketDoc i s c e x cr up)
    else if str_eqb f "created_at" then cr ← decInt cr t; Some (mkTicketDoc i s c e x cr up)
    else up ← decInt up t; Some (mkTicketDoc i s c e x cr up)).

Definition idempDocValue (r : IdempotencyRecord) : gvalue := GObj [("ticket_id", GStr (id_TicketID r)); ("status_code", GInt (id_StatusCode r))].

Definition decIdempDoc : decoder IdempotencyRecord :=
  decStruct false ["ticket_id"; "status_code"] (fun f t v =>
    let '(mkIdemp i s) := v in
    if str_eqb f "ticket_id" then i ← decString i t; Some (mkIdemp i s)
    else s ← decInt s t; Some (mkIdemp i s)).

Definition readTicket (b : string) : option Ticket := option_map fromDoc (Unmarshal decTicketDoc ticketDoc0 b).
Definition readRecord (b : string) : option IdempotencyRecord := Unmarshal decIdempDoc (mkIdemp "" 0) b.

Section Stores.
Context {W : Type} `{RedisKV W}.
Variable ttl : time.

(** ** Tickets *)

Definition redisTicketCreate (c : ctx) (t : Ticket) (w : W) : res err unit * W :=
  match ticketKey c (tck_ID t) with
  | Err e => (Err e, w)
  | Ok key =>
      match marshal (ticketDocValue (toDoc t)) with
      | None => (Err (ErrInternal "marshal ticket"), w)
      | Some b =>
          match KSet key b ttl w with
          | (Some e, w') => (Err (ErrInternal ("redis: create ticket: " +:+ e)), w')
          | (None, w') => (Ok tt, w')
          end
      end
  end.

Definition redisTicketGet (c : ctx) (id : string) (w : W) : res err Ticket :=
  match ticketKey c id with
  | Err e => Err e
  | Ok key =>
      match KGet key w with
      | Ok None => Err ErrTicketNotFound
      | Err e => Err (ErrInternal ("redis: get ticket: " +:+ e))
      | Ok (Some b) => match readTicket b with Some t => Ok t | None => Err (ErrInternal "redis: decode ticket") end
      end
  end.

Definition redisTicketSave (c : ctx) (t : Ticket) (w : W) : res err unit * W :=
  match ticketKey c (tck_ID t) with
  | Err e => (Err e, w)
  | Ok key =>
      match marshal (ticketDocValue (toDoc t)) with
      | None => (Err (ErrInternal "marshal ticket"), w)
      | Some b =>
          match KSetXX key b w with
          | (Err e, w') => (Err (ErrInternal ("redis: save ticket: " +:+ e)), w')
          | (Ok true, w') => (Ok tt, w')
          | (Ok false, w') => (Err ErrTicketNotFound, w')
          end
      end
  end.

(** ** Reservations *)

(** One command of [Reserve]: [SET NX], or the [GET] after a lost one, with the tries
    left. *)
Inductive reservePhase := RTry (tries : nat) | RRead (tries : nat) | RDone (r : res err (option IdempotencyRecord)).

Definition reserveStep (key value : string) (ph : reservePhase) (w : W) : reservePhase * W :=
  match ph with
  | RTry O => (RDone (Ok None), w)
  | RTry (S n) =>
      match KSetNX key value ttl w with
      | (Err e, w') => (RDone (Err (ErrInternal ("redis: reserve idempotency: " +:+ e))), w')
      | (Ok true, w') => (RDone (Ok None), w')
      | (Ok false, w') => (RRead n, w')
      end
  | RRead n =>
      (match KGet key w with
       | Ok None => RTry n
       | Err e => RDone (Err (ErrInternal ("redis: read idempotency: " +:+ e)))
       | Ok (Some b) => RDone (match readRecord b with Some r => Ok (Some r) | None => Err (ErrInternal "redis: decode idempotency") end)
       end, w)
  | RDone r => (RDone r, w)
  end.

(** The loop of [Reserve], [n] tries left. *)
Fixpoint reserveLoop (n : nat) (key value : string) (w : W) : res err (option IdempotencyRecord) * W :=
  match n with
  | O => (Ok None, w)
  | S n' =>
      match KSetNX key value ttl w with
      | (Err e, w1) => (Err (ErrInternal ("redis: reserve idempotency: " +:+ e)), w1)
      | (Ok true, w1) => (Ok None, w1)
      | (Ok false, w1) =>
          match KGet key w1 with
          | Ok None => reserveLoop n' key value w1
          | Err e => (Err (ErrInternal ("redis: read idempotency: " +:+ e)), w1)
          | Ok (Some b) => (match readRecord b with Some r => Ok (Some r) | None => Err (ErrInternal "redis: decode idempotency") end, w1)
          end
      end
  end.

Definition redisReserve (c : ctx) (k : string) (r : IdempotencyRecord) (w : W) : res err (option IdempotencyRecord) * W :=
  match idempotencyKey c k with
  | Err e => (Err e, w)
  | Ok key =>
      match marshal (idempDocValue r) with
      | None => (Err (ErrInternal "marshal idempotency"), w)
      | Some b => reserveLoop reserveMaxTries key b w
      end
  end.

Definition redisRelease (c : ctx) (k : string) (w : W) : res err unit * W :=
  match idempotencyKey c k with
  | Err e => (Err e, w)
  | Ok key =>
      match KDel key w with
      | (Some e, w') => (Err (ErrInternal ("redis: release idempotency: " +:+ e)), w')
      | (None, w') => (Ok tt, w')
      end
  end.

#[local] Instance redisTickets : TicketStore W := { TicketCreate := redisTicketCreate; TicketGet := redisTicketGet; TicketSave := redisTicketSave }.
#[local] Instance redisIdempotency : IdempotencyStore W := { Reserve := redisReserve; Release := redisRelease }.
End Stores.
