(* ===== verification/RedisStoresSound.v ===== *)
(** * Tickets and reservations in Redis: lifetime, isolation, mutual exclusion

    [KVLaws] states what the Redis documentation says of the commands, failed ones
    included: a command whose reply was lost may have been executed. *)

From stdpp Require Import base list strings relations.
From Stdlib Require Import ZArith Lia Ascii.
From S2P Require Import Prelude GoMap Json Paths Diff DiffSound Domain Tenant Config Names Alias Repo Plugin Ingest Numbers Mapping Pipeline PipelineSound Canonical Worker JsonText TimeText JsonSound Http WireSound TaskWire TaskSound RedisStores.

(** ** Redis keys *)

(** The value of a live key and the time it expires. *)
Class KVView (W : Type) := {
  liveAt : W -> string -> option (string * time);
  kvClock : W -> time }.

Section Effects.
Context {W : Type} `{KVView W}.

Definition kvQuiet (w w' : W) : Prop := kvClock w' = kvClock w /\ forall k, liveAt w' k = liveAt w k.
Definition keyAs (k : string) (x : option (string * time)) (w w' : W) : Prop :=
  kvClock w' = kvClock w /\ liveAt w' k = x /\ forall k', k' <> k -> liveAt w' k' = liveAt w k'.
End Effects.

Class KVLaws (W : Type) `{RedisKV W} `{KVView W} := {
  kset_ok : forall k v ttl w w', KSet k v ttl w = (None, w') -> keyAs k (Some (v, kvClock w + ttl)%Z) w w';
  kset_err : forall k v ttl w e w', KSet k v ttl w = (Some e, w') -> kvQuiet w w' \/ keyAs k (Some (v, kvClock w + ttl)%Z) w w';
  (* KEEPTTL: the expiry stays *)
  kxx_ok : forall k v w b w', KSetXX k v w = (Ok b, w') ->
    match liveAt w k with Some (_, e) => b = true /\ keyAs k (Some (v, e)) w w' | None => b = false /\ kvQuiet w w' end;
  kxx_err : forall k v w x w', KSetXX k v w = (Err x, w') ->
    kvQuiet w w' \/ match liveAt w k with Some (_, e) => keyAs k (Some (v, e)) w w' | None => kvQuiet w w' end;
  knx_ok : forall k v ttl w b w', KSetNX k v ttl w = (Ok b, w') ->
    match liveAt w k with Some _ => b = false /\ kvQuiet w w' | None => b = true /\ keyAs k (Some (v, kvClock w + ttl)%Z) w w' end;
  knx_err : forall k v ttl w x w', KSetNX k v ttl w = (Err x, w') ->
    kvQuiet w w' \/ (liveAt w k = None /\ keyAs k (Some (v, kvClock w + ttl)%Z) w w');
  kget_ok : forall k w x, KGet k w = Ok x -> x = option_map fst (liveAt w k);
  kdel_ok : forall k w w', KDel k w = (None, w') -> keyAs k None w w' }.

(** ** Documents *)

Definition milliTime (t : time) : bool := int64 ((t - unixEpoch) / 1000000).

Definition storableTicket (t : Ticket) : bool :=
  forallb ValidString [tck_ID t; tck_Status t; tck_Collection t; tck_EntityID t; tck_Error t] && milliTime (tck_CreatedAt t) && milliTime (tck_UpdatedAt t).

(** A ticket as it is read back. *)
Definition roundTicket (t : Ticket) : Ticket :=
  mkTicket (tck_ID t) (tck_Status t) (tck_Collection t) (tck_EntityID t) (tck_Error t) (msTrunc (tck_CreatedAt t)) (msTrunc (tck_UpdatedAt t)).

Lemma milli_back t : milliTime t = true -> ofMilli (unixMilli t) = msTrunc t.
Proof.
  unfold milliTime. intros Hm. wire_facts. unfold unixMilli. rewrite wrap64_id by lia. unfold ofMilli, msTrunc, unixEpoch. Z.to_euclidean_division_equations; lia.
Qed.

Lemma milli_trunc t : milliTime t = true -> milliTime (msTrunc t) = true.
Proof.
  unfold milliTime. intros Hm. replace ((msTrunc t - unixEpoch) / 1000000)%Z with ((t - unixEpoch) / 1000000)%Z; [done|].
  unfold msTrunc, unixEpoch. Z.to_euclidean_division_equations; lia.
Qed.

Lemma wrap64_int z : int64 (wrap64 z) = true.
Proof. unfold int64. pose proof (wrap64_range z). apply andb_true_iff. rewrite Z.leb_le, Z.ltb_lt. lia. Qed.

Lemma ticketDoc_read d : forallb ValidString [td_ID d; td_Status d; td_Collection d; td_EntityID d; td_Error d] = true -> int64 (td_CreatedAt d) = true -> int64 (td_UpdatedAt d) = true ->
  decTicketDoc ticketDoc0 (treeOf (ticketDocValue d)) = Some d.
Proof.
  destruct d as [i s c e x cr up]. cbn [td_ID td_Status td_Collection td_EntityID td_Error td_CreatedAt td_UpdatedAt]. intros Hs Hc Hu. wire_facts.
  unfold decTicketDoc, ticketDocValue, ticketDoc0, omitEmpty. cbn [td_ID td_Status td_Collection td_EntityID td_Error td_CreatedAt td_UpdatedAt].
  destruct (str_eqb x "") eqn:Ex; rewrite decStruct_tree by reflexivity; cbn [app]; read_fields; cbn [setFields]; [|done]. apply str_eqb_eq in Ex as ->. done.
Qed.

Lemma ticket_written t : storableTicket t = true -> exists b, marshal (ticketDocValue (toDoc t)) = Some b /\ readTicket b = Some (roundTicket t).
Proof.
  unfold storableTicket. intros [[Hs Hc]%andb_true_iff Hu]%andb_true_iff.
  assert (wireOK (ticketDocValue (toDoc t)) = true /\ (height (treeOf (ticketDocValue (toDoc t))) <= maxNestingDepth)%Z) as [Hw Hh].
  { unfold ticketDocValue, omitEmpty. destruct (str_eqb (td_Error (toDoc t)) ""); vm_compute; split; congruence. }
  destruct (marshal_tree _ Hw) as [Hm _]. eexists. split; [exact Hm|]. unfold readTicket. 
  rewrite (Unmarshal_marshal _ _ _ _ Hw Hh Hm).
  rewrite ticketDoc_read by (try apply wrap64_int; exact Hs). unfold fromDoc, toDoc, roundTicket. cbn. by rewrite !milli_back.
Qed.

Lemma round_storable t : storableTicket t = true -> storableTicket (roundTicket t) = true.
Proof.
  unfold storableTicket, roundTicket. cbn [tck_ID tck_Status tck_Collection tck_EntityID tck_Error tck_CreatedAt tck_UpdatedAt].
  intros [[Hs Hc]%andb_true_iff Hu]%andb_true_iff. by rewrite Hs, !milli_trunc.
Qed.

Lemma msTrunc_idem t : msTrunc (msTrunc t) = msTrunc t.
Proof. unfold msTrunc. by rewrite Z.div_mul. Qed.

(** ** Keys *)

Lemma tenantKey_inj space p p' k k' x : has_byte ":" (DatabaseName (p_Tenant p)) = false -> has_byte ":" (DatabaseName (p_Tenant p')) = false ->
  tenantKey space (Some p) k = Ok x -> tenantKey space (Some p') k' = Ok x -> DatabaseName (p_Tenant p) = DatabaseName (p_Tenant p') /\ k = k'.
Proof.
  intros Hp Hp'. unfold tenantKey. cbn [FromContext]. intros [= <-] [= E]. apply app_str_inj_l, app_str_inj_l, (f_equal (cut ":"%char)) in E.
  rewrite !(app_cons_str ":"), !app_nil_l_str, !cut_app in E by done. by injection E.
Qed.

(** ** The life of a ticket *)

Section Tickets.
Context {W : Type} `{KVLaws W}.
Variable ttl : time.
#[local] Instance tickets : TicketStore W := redisTickets ttl.
Variables (c : ctx) (t0 : Ticket).

(** What the producer and the workers do to the ticket, and time passing, in which a key
    may expire; other clients use other keys. *)
Inductive tkStep (key : string) (w : W) : W -> Prop :=
| tk_mark now status reason : milliTime now = true -> ValidString status = true -> ValidString reason = true ->
    tkStep key w (snd (Mark now c (tck_ID t0) status reason w))
| tk_pass w' : (kvClock w <= kvClock w')%Z ->
    (liveAt w' key = liveAt w key \/ exists v e, liveAt w key = Some (v, e) /\ (e <= kvClock w')%Z /\ liveAt w' key = None) -> tkStep key w w'.

(** The ticket [t] reached from [t0]. *)
Definition reached (t : Ticket) : Prop :=
  storableTicket t = true /\ roundTicket t = t /\ rtc moves (tck_Status t0) (tck_Status t) /\
  tck_ID t = tck_ID t0 /\ tck_Collection t = tck_Collection t0 /\ tck_EntityID t = tck_EntityID t0 /\ tck_CreatedAt t = msTrunc (tck_CreatedAt t0).

Definition alive (key : string) (expires : time) (w : W) : Prop :=
  exists b t, liveAt w key = Some (b, expires) /\ readTicket b = Some t /\ reached t.
Definition gone (key : string) (expires : time) (w : W) : Prop := liveAt w key = None /\ (expires <= kvClock w)%Z.

Lemma reached_mark t status reason now : reached t -> moves (tck_Status t) status -> milliTime now = true -> ValidString status = true -> ValidString reason = true ->
  let t' := mkTicket (tck_ID t) status (tck_Collection t) (tck_EntityID t) reason (tck_CreatedAt t) now in
  storableTicket t' = true /\ reached (roundTicket t').
Proof.
  intros (Hs & Hr & Hm & Hi & Hc & He & Ha) Hmove Hnow Hst Hre t'.
  assert (storableTicket t' = true) as Hs'.
  { unfold storableTicket, t' in *. cbn [forallb tck_ID tck_Status tck_Collection tck_EntityID tck_Error tck_CreatedAt tck_UpdatedAt] in *. wire_facts.
    repeat match goal with |- (_ && _) = true => apply andb_true_iff; split end; done. }
  split; [done|]. split_and!; [by apply round_storable| | |done|done|done|].
  - unfold roundTicket. cbn. by rewrite !msTrunc_idem.
  - eapply rtc_r; [exact Hm|exact Hmove].
  - cbn. rewrite Ha. apply msTrunc_idem.
Qed.

Lemma mark_alive key expires w now status reason : ticketKey c (tck_ID t0) = Ok key -> alive key expires w ->
  milliTime now = true -> ValidString status = true -> ValidString reason = true -> alive key expires (snd (Mark now c (tck_ID t0) status reason w)).
Proof.
  intros Hkey (b & t & Hl & Hb & Ht) Hnow Hst Hre. assert (alive key expires w) as Ha by (by exists b, t).
  unfold Mark. destruct (str_eqb (tck_ID t0) ""); [done|]. cbn [TicketGet tickets redisTickets]. unfold redisTicketGet. rewrite Hkey.
  destruct (KGet key w) as [x|x] eqn:Eg; [|done]. apply kget_ok in Eg. rewrite Hl in Eg. cbn in Eg. subst x. rewrite Hb.
  destruct (_ || _) eqn:Ec; [done|]. apply orb_false_iff in Ec as [_ Ec%negb_false_iff].
  destruct (reached_mark t status reason now Ht Ec Hnow Hst Hre) as [Hs' Ht']. set (t' := mkTicket _ _ _ _ _ _ _) in *.
  cbn [TicketSave tickets redisTickets]. unfold redisTicketSave. assert (tck_ID t' = tck_ID t0) as -> by (by apply Ht). rewrite Hkey.
  destruct (ticket_written t' Hs') as (b' & -> & Hb').
  assert (forall w', keyAs key (Some (b', expires)) w w' -> alive key expires w') as Hput by (intros w' (_ & E & _); by exists b', (roundTicket t')).
  assert (forall w', kvQuiet w w' -> alive key expires w') as Hquiet by (intros w' [_ E]; exists b, t; by rewrite E).
  destruct (KSetXX key b' w) as [[[]|x] w'] eqn:Es; cbn [snd]; [apply kxx_ok in Es|apply kxx_ok in Es|apply kxx_err in Es]; rewrite Hl in Es.
  - apply Hput. tauto.
  - by destruct Es.
  - destruct Es; auto.
Qed.

Lemma mark_gone key expires w now status reason : ticketKey c (tck_ID t0) = Ok key -> gone key expires w -> gone key expires (snd (Mark now c (tck_ID t0) status reason w)).
Proof.
  intros Hkey Hg. unfold Mark. destruct (str_eqb (tck_ID t0) ""); [done|]. cbn [TicketGet tickets redisTickets]. unfold redisTicketGet. rewrite Hkey.
  destruct (KGet key w) as [x|x] eqn:Eg; [|done]. apply kget_ok in Eg. destruct Hg as [Hg Hc]. rewrite Hg in Eg. cbn in Eg. by subst x.
Qed.

Lemma step_life key expires w w' : ticketKey c (tck_ID t0) = Ok key -> tkStep key w w' -> alive key expires w \/ gone key expires w -> alive key expires w' \/ gone key expires w'.
Proof.
  intros Hkey Hstep [Ha|Hg]; destruct Hstep as [now status reason Hn Hs Hr|w' Hc Hl].
  - left. by apply mark_alive.
  - destruct Hl as [E|(v & e & E & He & E')].
    + left. destruct Ha as (b & t & Hb & Ht). exists b, t. by rewrite E.
    + right. destruct Ha as (b & t & Hb & _). rewrite Hb in E. injection E as <- <-. by split.
  - right. by apply mark_gone.
  - right. destruct Hg as [Hg He], Hl as [E|(v & e & E & _)]; [|congruence]. split; [by rewrite E|lia].
Qed.

Lemma created_alive key w w' : storableTicket t0 = true -> ticketKey c (tck_ID t0) = Ok key -> TicketCreate c t0 w = (Ok tt, w') -> alive key (kvClock w + ttl) w'.
Proof.
  intros Hs Hkey. cbn [TicketCreate tickets redisTickets]. unfold redisTicketCreate. rewrite Hkey. destruct (ticket_written t0 Hs) as (b & -> & Hb).
  destruct (KSet key b ttl w) as [[e|] w1] eqn:E; [done|]. intros [= <-]. apply kset_ok in E as (_ & E & _). exists b, (roundTicket t0).
  split_and!; [done|done|]. split_and!; try done; [by apply round_storable|]. unfold roundTicket. cbn. by rewrite !msTrunc_idem.
Qed.
End Tickets.

(** ** Reservations *)

Definition storableRecord (r : IdempotencyRecord) : bool := ValidString (id_TicketID r) && int64 (id_StatusCode r).

Lemma record_written r : exists b, marshal (idempDocValue r) = Some b /\ (storableRecord r = true -> readRecord b = Some r).
Proof.
  assert (wireOK (idempDocValue r) = true) as Hw by done. destruct (marshal_tree _ Hw) as [Hm _]. eexists. split; [exact Hm|].
  unfold storableRecord. intros Hr. wire_facts. unfold readRecord. rewrite (Unmarshal_marshal _ _ _ _ Hw) by done. destruct r as [t s]. cbn [id_TicketID id_StatusCode] in *.
  unfold decIdempDoc, idempDocValue. cbn [id_TicketID id_StatusCode]. rewrite decStruct_tree by reflexivity. by read_fields.
Qed.

Section Reservations.
Context {W : Type} `{KVLaws W}.
Variable ttl : time.

(** [Reserve] by itself is its commands one after the other. *)
Lemma reserve_commands n key value : forall (w : W) r w', reserveLoop ttl n key value w = (r, w') ->
  exists k, Nat.iter k (fun s => reserveStep ttl key value s.1 s.2) (RTry n, w) = (RDone r, w').
Proof.
  induction n as [|n IH]; intros w r w'; cbn [reserveLoop]; [intros [= <- <-]; by exists 1%nat|].
  destruct (KSetNX key value ttl w) as [[[]|e] w1] eqn:E.
  - intros [= <- <-]. exists 1%nat. cbn. by rewrite E.
  - destruct (KGet key w1) as [[b|]|e] eqn:Eg.
    + intros [= <- <-]. exists 2%nat. cbn. rewrite E. cbn. by rewrite Eg.
    + intros Hl. destruct (IH _ _ _ Hl) as [k Hk]. exists (k + 2)%nat. rewrite Nat.iter_add. cbn [Nat.iter fst snd nat_rect]. cbn [reserveStep]. rewrite E. cbn. rewrite Eg. exact Hk.
    + intros [= <- <-]. exists 2%nat. cbn. rewrite E. cbn. by rewrite Eg.
  - intros [= <- <-]. exists 1%nat. cbn. by rewrite E.
Qed.

(** Without interference a lost [SET NX] is followed by a [GET] that finds the key. *)
Lemma reserve_alone n key value w r w' : reserveLoop ttl (S n) key value w = (r, w') ->
  match liveAt w key with
  | Some (b, _) => kvQuiet w w' /\ match r with Ok x => readRecord b = x /\ x <> None | Err _ => True end
  | None => match r with Ok x => x = None /\ keyAs key (Some (value, kvClock w + ttl)%Z) w w' | Err _ => True end
  end.
Proof.
  cbn [reserveLoop]. destruct (KSetNX key value ttl w) as [[b|e] w1] eqn:E.
  - apply knx_ok in E. destruct (liveAt w key) as [[b0 e0]|] eqn:El; destruct E as [-> E].
    + destruct (KGet key w1) as [x|x] eqn:Eg; [|intros [= <- <-]; by split]. apply kget_ok in Eg. rewrite (proj2 E), El in Eg. cbn in Eg. subst x.
      destruct (readRecord b0) eqn:Er; intros [= <- <-]; by split.
    + by intros [= <- <-].
  - intros [= <- <-]. apply knx_err in E. destruct (liveAt w key) as [[]|]; [|done]. split; [|done]. by destruct E as [|[]].
Qed.

(** The store keeps the promises of [IdempotencyLaws]. *)
Definition heldAt (w : W) (c : ctx) (k : string) : option IdempotencyRecord :=
  match idempotencyKey c k with Ok key => '(b, _) ← liveAt w key; Some (default (mkIdemp "" 0) (readRecord b)) | Err _ => None end.

#[local] Instance reservations : IdempotencyStore W := redisIdempotency ttl.

Lemma reserve_cases c k r w x w' : Reserve c k r w = (Ok x, w') -> exists key b, idempotencyKey c k = Ok key /\ marshal (idempDocValue r) = Some b /\
  match liveAt w key with
  | Some (b0, _) => kvQuiet w w' /\ readRecord b0 = x /\ x <> None
  | None => x = None /\ keyAs key (Some (b, kvClock w + ttl)%Z) w w'
  end.
Proof.
  cbn [Reserve reservations redisIdempotency]. unfold redisReserve. destruct (idempotencyKey c k) as [key|e]; [|done].
  destruct (record_written r) as (b & Hb & _). rewrite Hb. intros Hl%reserve_alone. exists key, b. split_and!; [done|done|]. by destruct (liveAt w key) as [[]|].
Qed.

Definition redis_idempotency_laws : IdempotencyLaws W.
Proof.
  refine {| held := heldAt; recordable := storableRecord |}; unfold heldAt; intros c k.
  - intros r w w' (key & b & -> & _ & Hl)%reserve_cases. destruct (liveAt w key) as [[b0 e0]|]; [|done]. by destruct Hl as (_ & _ & ?).
  - intros r w w' Hr Hres. apply reserve_cases in Hres as (key & b & -> & Hb & Hl). destruct (liveAt w key) as [[b0 e0]|]; [by destruct Hl as (_ & _ & ?)|].
    destruct Hl as [_ (_ & -> & _)]. cbn. destruct (record_written r) as (b' & Hb' & Hread). rewrite Hb in Hb'. injection Hb' as <-. by rewrite Hread.
  - intros r w w' r0 (key & b & -> & _ & Hl)%reserve_cases. destruct (liveAt w key) as [[b0 e0]|] eqn:E; [|by destruct Hl].
    destruct Hl as ([_ Hq] & Hread & _). rewrite Hq, E. cbn. by rewrite Hread.
  - intros w w'. cbn [Release reservations redisIdempotency]. unfold redisRelease. destruct (idempotencyKey c k) as [key|e]; [|done].
    destruct (KDel key w) as [[e|] w1] eqn:E; [done|]. intros [= <-]. apply kdel_ok in E as (_ & -> & _). done.
Defined.

(** ** Concurrent reservations *)

(** Deliveries of one event, each with its own record, running [Reserve] at once. *)
Record reserving := mkReserving { rv_rec : IdempotencyRecord; rv_phase : reservePhase }.

Variable key : string.

(** One command of one delivery; anything that leaves the key alone. *)
Inductive rvStep : list reserving * W -> list reserving * W -> Prop :=
| rv_command pool w i x b ph w' : pool !! i = Some x -> marshal (idempDocValue (rv_rec x)) = Some b ->
    reserveStep ttl key b (rv_phase x) w = (ph, w') -> rvStep (pool, w) (<[i := mkReserving (rv_rec x) ph]> pool, w')
| rv_pass pool w w' : liveAt w' key = liveAt w key -> rvStep (pool, w) (pool, w').

Definition starting (pool : list reserving) : Prop := forall i x, pool !! i = Some x -> storableRecord (rv_rec x) = true /\ rv_phase x = RTry reserveMaxTries.

Definition failed (ph : reservePhase) : Prop := exists e, ph = RDone (Err e).

(** Nobody has claimed the key; or one delivery has, and the others wait, fail or get its
    record. *)
Definition rvInv (s : list reserving * W) : Prop :=
  (forall i x, s.1 !! i = Some x -> storableRecord (rv_rec x) = true) /\
  match liveAt s.2 key with
  | None => forall i x, s.1 !! i = Some x -> rv_phase x = RTry reserveMaxTries \/ failed (rv_phase x)
  | Some (b, _) => exists j y, s.1 !! j = Some y /\ readRecord b = Some (rv_rec y) /\ (rv_phase y = RDone (Ok None) \/ failed (rv_phase y)) /\
      forall i x, s.1 !! i = Some x -> i <> j -> rv_phase x = RTry reserveMaxTries \/ rv_phase x = RRead 2 \/ failed (rv_phase x) \/ rv_phase x = RDone (Ok (Some (rv_rec y)))
  end.

Lemma rv_storable (pool : list reserving) (i : nat) x ph : (forall i x, pool !! i = Some x -> storableRecord (rv_rec x) = true) -> pool !! i = Some x ->
  forall i' x', <[i := mkReserving (rv_rec x) ph]> pool !! i' = Some x' -> storableRecord (rv_rec x') = true.
Proof.
  intros Hs Hx i' x' H'. apply list_lookup_insert_Some in H' as [(_ & <- & _)|[_ H']]; [exact (Hs i x Hx)|exact (Hs i' x' H')].
Qed.

(** The delivery [i] claims a free key, its answer being [ph]. *)
Lemma rv_claim (pool : list reserving) w w' i x b e ph : rvInv (pool, w) -> liveAt w key = None -> liveAt w' key = Some (b, e) -> pool !! i = Some x ->
  marshal (idempDocValue (rv_rec x)) = Some b -> ph = RDone (Ok None) \/ failed ph -> rvInv (<[i := mkReserving (rv_rec x) ph]> pool, w').
Proof.
  intros [Hs Hinv] Hl Hl' Hx Hb Hph. cbn [fst snd] in *. rewrite Hl in Hinv. split; [by eapply rv_storable|]. cbn [fst snd]. rewrite Hl'.
  exists i, (mkReserving (rv_rec x) ph). split_and!; [by eapply list_lookup_insert_eq, lookup_lt_Some| |done|].
  - destruct (record_written (rv_rec x)) as (b' & Hb' & Hread). rewrite Hb in Hb'. injection Hb' as <-. cbn. by apply Hread, (Hs i).
  - intros i' x' H' Hne. rewrite list_lookup_insert_ne in H' by congruence. destruct (Hinv i' x' H'); auto.
Qed.

(** The key stays as it is. *)
Lemma rv_keep (pool : list reserving) w w' i x ph : rvInv (pool, w) -> liveAt w' key = liveAt w key -> pool !! i = Some x ->
  match liveAt w key with
  | None => failed ph
  | Some (b, _) => match rv_phase x with RDone _ => ph = rv_phase x | _ => ph = RRead 2 \/ failed ph \/ exists r, readRecord b = Some r /\ ph = RDone (Ok (Some r)) end
  end -> rvInv (<[i := mkReserving (rv_rec x) ph]> pool, w').
Proof.
  intros [Hs Hinv] Hl Hx Hph. cbn [fst snd] in *. split; [by eapply rv_storable|]. cbn [fst snd]. rewrite Hl. destruct (liveAt w key) as [[b e]|].
  - destruct Hinv as (j & y & Hy & Hread & Hyp & Hothers). destruct (decide (i = j)) as [->|Hne].
    + rewrite Hx in Hy. injection Hy as ->. assert (ph = rv_phase y) as -> by (destruct Hyp as [E|[e' E]]; by rewrite E in *).
      rewrite list_insert_id by (by destruct y). by exists j, y.
    + exists j, y. split_and!; [by rewrite list_lookup_insert_ne|done|done|]. intros i' x' H' Hne'. apply list_lookup_insert_Some in H' as [(-> & <- & _)|[_ H']]; [|by eapply Hothers].
      cbn [rv_phase]. assert (ph = RRead 2 \/ failed ph \/ (exists r, readRecord b = Some r /\ ph = RDone (Ok (Some r))) -> ph = RTry reserveMaxTries \/ ph = RRead 2 \/ failed ph \/ ph = RDone (Ok (Some (rv_rec y)))) as Hgo.
      { intros [->|[Hf|(r & Hr & ->)]]; [by auto|by auto|]. rewrite Hread in Hr. injection Hr as <-. by auto. }
      pose proof (Hothers _ _ Hx Hne) as Ho. destruct (rv_phase x) as [n|n|r]; [by apply Hgo|by apply Hgo|by rewrite Hph].
  - intros i' x' H'. apply list_lookup_insert_Some in H' as [(-> & <- & _)|[_ H']]; [by right|by eapply Hinv].
Qed.

Lemma rv_step s s' : rvStep s s' -> rvInv s -> rvInv s'.
Proof.
  intros [pool w i x b ph w' Hx Hb Hstep|pool w w' Hl] Hinv; cycle 1.
  { destruct Hinv as [Hs Hinv]. split; [done|]. cbn [fst snd] in *. by rewrite Hl. }
  assert (rv_phase x = RTry reserveMaxTries \/ (rv_phase x = RRead 2 /\ is_Some (liveAt w key)) \/ exists r, rv_phase x = RDone r) as Hph.
  { destruct Hinv as [_ Hinv]. cbn [fst snd] in Hinv. destruct (liveAt w key) as [[b0 e0]|].
    - destruct Hinv as (j & y & Hy & _ & Hyp & Hothers). destruct (decide (i = j)) as [->|Hne].
      + rewrite Hx in Hy. injection Hy as ->. right. right. destruct Hyp as [E|[e E]]; eauto.
      + destruct (Hothers _ _ Hx Hne) as [E|[E|[[e E]|E]]]; eauto.
    - destruct (Hinv _ _ Hx) as [E|[e E]]; eauto. }
  destruct Hph as [E|[[E Hlive]|[r E]]]; rewrite E in Hstep; cbn [reserveStep reserveMaxTries] in Hstep.
  - destruct (KSetNX key b ttl w) as [[k|e] w1] eqn:Ek.
    + apply knx_ok in Ek. destruct (liveAt w key) as [[b0 e0]|] eqn:El; destruct Ek as [-> Ek]; injection Hstep as <- <-.
      * eapply rv_keep; [exact Hinv|by rewrite (proj2 Ek)|exact Hx|]. rewrite El, E. by left.
      * destruct Ek as (_ & Ek & _). eapply rv_claim; [exact Hinv|exact El|exact Ek|exact Hx|exact Hb|by left].
    + injection Hstep as <- <-. apply knx_err in Ek as [Hq|(El & _ & Ek & _)].
      * eapply rv_keep; [exact Hinv|by rewrite (proj2 Hq)|exact Hx|]. rewrite E. destruct (liveAt w key) as [[]|]; [right; left|]; by eexists.
      * eapply rv_claim; [exact Hinv|exact El|exact Ek|exact Hx|exact Hb|right; by eexists].
  - injection Hstep as <- <-. eapply rv_keep; [exact Hinv|done|exact Hx|]. rewrite E. destruct Hlive as [[b0 e0] El]. rewrite El.
    destruct (KGet key w) as [y|y] eqn:Eg; [|right; left; by eexists]. apply kget_ok in Eg. rewrite El in Eg. cbn in Eg. subst y.
    destruct (readRecord b0) as [r|]; [right; right; by exists r|right; left; by eexists].
  - injection Hstep as <- <-. rewrite <- E, list_insert_id by (by destruct x). done.
Qed.

Lemma rv_reach s s' : rtc rvStep s s' -> rvInv s -> rvInv s'.
Proof. induction 1; eauto using rv_step. Qed.

Lemma rv_start pool w : starting pool -> liveAt w key = None -> rvInv (pool, w).
Proof. intros Hs Hl. split; cbn [fst snd]; [intros i x Hx; by apply (Hs i)|]. rewrite Hl. intros i x Hx. left. by apply (Hs i). Qed.
End Reservations.

(** ** Properties *)


(** C29: One reservation per event.  However many deliveries of one event run [Reserve] at
    once, their commands interleaved in any way and failing before or after execution, as
    long as the key is not released and does not expire: at most one of them is told to
    proceed; and all that are told the event was accepted before get the record of one
    and the same delivery, which was told to proceed or had its reply lost. *)
Theorem reserve_exclusive {W : Type} `{KVLaws W} (ttl : time) (key : string) (pool pool' : list reserving) (w w' : W) :
  starting pool -> liveAt w key = None -> rtc (rvStep ttl key) (pool, w) (pool', w') ->
  (forall i j x y, pool' !! i = Some x -> pool' !! j = Some y -> rv_phase x = RDone (Ok None) -> rv_phase y = RDone (Ok None) -> i = j) /\
  (forall i x r, pool' !! i = Some x -> rv_phase x = RDone (Ok (Some r)) ->
     exists j y, pool' !! j = Some y /\ rv_rec y = r /\ (rv_phase y = RDone (Ok None) \/ exists e, rv_phase y = RDone (Err e)) /\
       forall i' x' r', pool' !! i' = Some x' -> rv_phase x' = RDone (Ok (Some r')) -> r' = r).
Proof.
  intros Hs Hl Hrun. destruct (rv_reach ttl key _ _ Hrun (rv_start key pool w Hs Hl)) as [_ Hinv]. cbn [fst snd] in Hinv.
  destruct (liveAt w' key) as [[b e]|].
  - destruct Hinv as (j & y & Hy & _ & Hyp & Hothers).
    assert (forall i x, pool' !! i = Some x -> rv_phase x = RDone (Ok None) -> i = j) as Hwin.
    { intros i x Hx E. destruct (decide (i = j)) as [|Hne]; [done|]. destruct (Hothers _ _ Hx Hne) as [E'|[E'|[[e' E']|E']]]; congruence. }
    assert (forall i x r, pool' !! i = Some x -> rv_phase x = RDone (Ok (Some r)) -> r = rv_rec y) as Hrec.
    { intros i x r Hx E. destruct (decide (i = j)) as [->|Hne].
      - rewrite Hy in Hx. injection Hx as <-. destruct Hyp as [E'|[e' E']]; congruence.
      - destruct (Hothers _ _ Hx Hne) as [E'|[E'|[[e' E']|E']]]; congruence. }
    split.
    + intros i1 i2 x1 x2 H1' H2' E1 E2. by rewrite (Hwin _ _ H1' E1), (Hwin _ _ H2' E2).
    + intros i x r Hx E. rewrite (Hrec _ _ _ Hx E). exists j, y. split_and!; [done|done|exact Hyp|]. exact Hrec.
  - split; [intros i j x y Hx _ E _|intros i x r Hx E]; destruct (Hinv _ _ Hx) as [E'|[e E']]; congruence.
Qed.

(** ** Redis keys in memory

    An instance of the interface of [RedisStores.v] that satisfies its laws, and the
    witnesses of its properties. *)

Record kvmem := mkKV { km_keys : list (string * (string * time)); km_clock : time }.

Definition setKey (w : kvmem) (k v : string) (e : time) : kvmem := mkKV (mset k (v, e) (km_keys w)) (km_clock w).
Definition later (dt : time) (w : kvmem) : kvmem := mkKV (km_keys w) (km_clock w + dt)%Z.

#[export] Instance kv_view : KVView kvmem := {
  liveAt w k := '(v, e) ← mget k (km_keys w); if (km_clock w <? e)%Z then Some (v, e) else None;
  kvClock := km_clock }.

(** A deleted key is one that expires at once. *)
#[export] Instance kv_commands : RedisKV kvmem := {
  KSet k v ttl w := if (ttl <=? 0)%Z then (Some "ERR invalid expire time", w) else (None, setKey w k v (km_clock w + ttl)%Z);
  KSetXX k v w := match liveAt w k with Some (_, e) => (Ok true, setKey w k v e) | None => (Ok false, w) end;
  KSetNX k v ttl w :=
    match liveAt w k with
    | Some _ => (Ok false, w)
    | None => if (ttl <=? 0)%Z then (Err "ERR invalid expire time", w) else (Ok true, setKey w k v (km_clock w + ttl)%Z)
    end;
  KGet k w := Ok (option_map fst (liveAt w k));
  KDel k w := (None, setKey w k "" (km_clock w)) }.

Lemma setKey_live w k v e : keyAs k (if (km_clock w <? e)%Z then Some (v, e) else None) w (setKey w k v e).
Proof.
  split_and!; [done| |]; cbn.
  - by rewrite mget_mset_eq.
  - intros k' Hne. by rewrite mget_mset_ne by congruence.
Qed.

Lemma setKey_for w k v e : (km_clock w < e)%Z -> keyAs k (Some (v, e)) w (setKey w k v e).
Proof. intros He%Z.ltb_lt. pose proof (setKey_live w k v e) as Hk. by rewrite He in Hk. Qed.

Lemma live_later w k v e : liveAt w k = Some (v, e) -> (km_clock w < e)%Z.
Proof. cbn. destruct (mget k (km_keys w)) as [[v0 e0]|]; [|done]. cbn. destruct (Z.ltb_spec (km_clock w) e0); [|done]. by intros [= <- <-]. Qed.

#[export] Instance kv_laws : KVLaws kvmem.
Proof.
  split.
  - intros k v ttl w w'. cbn [KSet kv_commands]. destruct (Z.leb_spec ttl 0); [done|]. intros [= <-]. apply setKey_for. lia.
  - intros k v ttl w e w'. cbn [KSet kv_commands]. destruct (Z.leb_spec ttl 0); [|done]. intros [= _ <-]. by left.
  - intros k v w b w'. cbn [KSetXX kv_commands]. destruct (liveAt w k) as [[v0 e0]|] eqn:El; intros [= <- <-]; (split; [done|]); [|done].
    by apply setKey_for, (live_later w k v0).
  - intros k v w x w'. cbn [KSetXX kv_commands]. by destruct (liveAt w k) as [[]|].
  - intros k v ttl w b w'. cbn [KSetNX kv_commands]. destruct (liveAt w k) as [[v0 e0]|]; [by intros [= <- <-]|].
    destruct (Z.leb_spec ttl 0); [done|]. intros [= <- <-]. split; [done|]. apply setKey_for. lia.
  - intros k v ttl w x w'. cbn [KSetNX kv_commands]. destruct (liveAt w k) as [[v0 e0]|]; [done|]. destruct (Z.leb_spec ttl 0); [|done]. intros [= _ <-]. by left.
  - intros k w x. cbn [KGet kv_commands]. by intros [= <-].
  - intros k w w'. cbn [KDel kv_commands]. intros [= <-]. pose proof (setKey_live w k "" (km_clock w)) as Hk. by rewrite Z.ltb_irrefl in Hk.
Qed.

(** ** Witnesses *)

Definition kv_principal : Principal := mkPrincipal (mkTenant "acme" (mkDatabase "" "")) (mkAPIKey [] []).
Definition kv_ticket : Ticket := mkTicket "tkt_1" TicketAccepted "crm.deals" "d-1" "" (unixEpoch + 1234567) (unixEpoch + 1234567).
Definition kv0 : kvmem := mkKV [] unixEpoch.
Definition kv_ttl : time := 1000000000.

(** Created, marked as stored after half its life, and marked once more when it is over. *)
Definition kv1 : kvmem := snd (redisTicketCreate kv_ttl (Some kv_principal) kv_ticket kv0).
Definition kv2 : kvmem := snd (@Mark _ (redisTickets kv_ttl) (unixEpoch + 500000000) (Some kv_principal) "tkt_1" TicketStored "" (later 500000000 kv1)).
Definition kv3 : kvmem := snd (@Mark _ (redisTickets kv_ttl) (unixEpoch + 1000000000) (Some kv_principal) "tkt_1" TicketFailed "late" (later 500000000 kv2)).

Lemma later_pass ttl t key w dt : (0 <= dt)%Z -> tkStep ttl (Some kv_principal) t key w (later dt w).
Proof.
  intros Hdt. apply tk_pass; [cbn; lia|]. cbn. destruct (mget key (km_keys w)) as [[v e]|]; [|by left]. cbn.
  destruct (Z.ltb_spec (km_clock w + dt) e), (Z.ltb_spec (km_clock w) e); [by left|lia| |by left]. right. exists v, e. by split_and!.
Qed.


(** Three deliveries of one event, interleaved: the second wins. *)
Definition kv_pool : list reserving := map (fun t => mkReserving (mkIdemp t 202) (RTry reserveMaxTries)) ["tkt_1"; "tkt_2"; "tkt_3"].

Definition kvRun (s : list reserving * kvmem) (i : nat) : list reserving * kvmem :=
  match s.1 !! i, marshal (idempDocValue (rv_rec (default (mkReserving (mkIdemp "" 0) (RTry 0)) (s.1 !! i)))) with
  | Some x, Some b => let '(ph, w) := reserveStep kv_ttl "letopis:idem:hm_t_acme:crm.deals|e1" b (rv_phase x) s.2 in (<[i := mkReserving (rv_rec x) ph]> s.1, w)
  | _, _ => s
  end.

Lemma kvRun_step s i : rtc (rvStep kv_ttl "letopis:idem:hm_t_acme:crm.deals|e1") s (kvRun s i).
Proof.
  unfold kvRun. destruct s as [pool w]. cbn [fst snd]. destruct (pool !! i) as [x|] eqn:Hx; [|done]. cbn [default id].
  destruct (marshal _) as [b|] eqn:Hb; [|done]. destruct (reserveStep _ _ _ _ _) as [ph w'] eqn:E. apply rtc_once. by eapply rv_command.
Qed.

Lemma kvRun_all l : forall s, rtc (rvStep kv_ttl "letopis:idem:hm_t_acme:crm.deals|e1") s (fold_left kvRun l s).
Proof. induction l as [|i l IH]; intros s; [done|]. cbn [fold_left]. etrans; [apply kvRun_step|apply IH]. Qed.

Lemma reserve_exclusive_witness :
  let s := fold_left kvRun [1; 0; 2; 0; 2]%nat (kv_pool, kv0) in
  map rv_phase s.1 = [RDone (Ok (Some (mkIdemp "tkt_2" 202))); RDone (Ok None); RDone (Ok (Some (mkIdemp "tkt_2" 202)))] /\
  (forall i x r, s.1 !! i = Some x -> rv_phase x = RDone (Ok (Some r)) -> exists j y, s.1 !! j = Some y /\ rv_rec y = r).
Proof.
  intros s. split; [vm_compute; reflexivity|]. intros i x r Hx E.
  destruct (reserve_exclusive kv_ttl "letopis:idem:hm_t_acme:crm.deals|e1" kv_pool s.1 kv0 s.2) as [_ Hrec].
  - intros k y Hy. do 3 (destruct k as [|k]; [injection Hy as <-; split; vm_compute; reflexivity|]). discriminate Hy.
  - reflexivity.
  - rewrite <- (surjective_pairing s). apply kvRun_all.
  - destruct (Hrec i x r Hx E) as (j & y & Hy & Hr & _). by exists j, y.
Defined.
