(* ===== verification/Catalog.v ===== *)
(** * The catalog (internal/service/catalog.go, internal/storage/mongo/stats_repo.go)

    The collections of a tenant: the user event collections of its database and the
    stored configurations, with cheap counters and the effective configuration of each.
    The fan-out writes distinct slots, so its result is that of a loop; which error is
    reported when several lookups fail is the first one in name order here, and the
    endpoint answers all of them alike. *)

From stdpp Require Import base list strings.
From Stdlib Require Import ZArith Lia Ascii Sorted.
From S2P Require Import Prelude GoMap Json Paths Diff DiffSound Domain Tenant Config Names Alias Repo Mapping Mongo ServerAdmin.

(** The queries of the driver. *)
Class CatalogDB (W : Type) := {
  ListCollectionNames : database -> W -> res driverErr (list string);
  FindIDs : database -> string -> W -> res driverErr (list string);
  CountDocuments : database -> string -> W -> res driverErr Z;
  EstimatedDocumentCount : database -> string -> W -> res driverErr Z;
  LastStored : database -> string -> W -> res driverErr time }.

Section Catalog.
Context {W : Type} `{CatalogDB W} `{CollectionRepository W}.
Variable dbFor : ctx -> res err database.

(** A driver call whose error is passed on. *)
Definition query {A : Type} (x : res driverErr A) : res err A := match x with Ok a => Ok a | Err e => Err (internal e) end.

(** ** Counters *)

(** The set of logical names, as a Go map. *)
Definition logicalNames (physical ids : list string) : list (string * unit) :=
  fold_left (fun set id => mset id tt set) ids
    (fold_left (fun set name => if isUserEventCollection name then mset (logicalFromEvents name) tt set else set) physical []).

Definition statsListCollections (c : ctx) (w : W) : res err (list string) :=
  (db <- dbFor c;
   physical <- query (ListCollectionNames db w);
   ids <- query (FindIDs db CollectionsConfig w);
   Ok (sort_strings (mkeys (logicalNames physical ids))))%go.

Definition lastEventTime (db : database) (coll : string) (w : W) : res err time :=
  match LastStored db coll w with
  | Ok t => Ok t
  | Err NoDocuments => Ok 0%Z
  | Err e => Err (internal e)
  end.

Definition Stats (c : ctx) (collection : string) (w : W) : res err CollectionStats :=
  (_ <- validateLogical collection;
   db <- dbFor c;
   entities <- query (CountDocuments db (currentCollection collection) w);
   events <- query (EstimatedDocumentCount db (eventsCollection collection) w);
   lastAt <- lastEventTime db (eventsCollection collection) w;
   Ok (mkStats entities events lastAt))%go.

(** ** Summaries *)

Definition summary (c : ctx) (name : string) (w : W) : res err CollectionSummary :=
  (stats <- Stats c name w;
   match GetConfig c name w with
   | Ok cfg => Ok (mkSummary name stats (WithDefaults cfg))
   | Err ErrNotFound => Ok (mkSummary name stats (WithDefaults (bareConfig name)))
   | Err e => Err e
   end)%go.

Fixpoint summaries (c : ctx) (names : list string) (w : W) : res err (list CollectionSummary) :=
  match names with
  | [] => Ok []
  | name :: names' => (s <- summary c name w; l <- summaries c names' w; Ok (s :: l))%go
  end.

Fixpoint insertSummary (s : CollectionSummary) (l : list CollectionSummary) : list CollectionSummary :=
  match l with
  | [] => [s]
  | t :: l' => if str_ltb (su_Name t) (su_Name s) then t :: insertSummary s l' else s :: l
  end.

Definition catalogList (c : ctx) (w : W) : res err (list CollectionSummary) :=
  (names <- statsListCollections c w;
   l <- summaries c names w;
   Ok (foldr insertSummary [] l))%go.
End Catalog.

(** ** Lemmas *)

Lemma sort_sorted {V : Type} (m : list (string * V)) : msorted m -> sort_strings (mkeys m) = mkeys m.
Proof.
  induction m as [|[k v] m IH]; [done|]. intros [Hm Hk]%msorted_cons. cbn. fold (mkeys m). unfold sort_strings in IH. rewrite (IH Hm).
  destruct m as [|[k' v'] m]; [done|]. cbn. apply Forall_cons in Hk as [Hk%str_ltb_leb _]. cbn in Hk. by rewrite Hk.
Qed.

Lemma set_names {A : Type} (f : A -> option string) (l : list A) a : forall set : list (string * unit),
  In a (mkeys (fold_left (fun set x => match f x with Some n => mset n tt set | None => set end) l set)) <-> In a (mkeys set) \/ exists x, In x l /\ f x = Some a.
Proof.
  induction l as [|x l IH]; intros set; cbn [fold_left]; [split; [by left|by intros [|(x & [] & _)]]|]. rewrite IH. clear IH.
  assert (In a (mkeys match f x with Some n => mset n tt set | None => set end) <-> In a (mkeys set) \/ f x = Some a) as ->.
  { destruct (f x) as [n|]; [|split; [by left|by intros [|]]]. rewrite <- !mget_key. destruct (decide (n = a)) as [->|Hne].
    - rewrite mget_mset_eq. split; [by right|done].
    - rewrite mget_mset_ne by done. split; [by left|]. intros [|[= ->]]; done. }
  split.
  - intros [[|E]|(y & Hy & E)]; [by left|right; exists x; split; [by left|done]|right; exists y; split; [by right|done]].
  - intros [|(y & [<-|Hy] & E)]; [by left; left|by left; right|right; by exists y].
Qed.

Lemma set_sorted {A : Type} (f : A -> option string) (l : list A) : forall set : list (string * unit), msorted set ->
  msorted (fold_left (fun set x => match f x with Some n => mset n tt set | None => set end) l set).
Proof. induction l as [|x l IH]; intros set Hs; [done|]. cbn [fold_left]. apply IH. destruct (f x); [by apply msorted_mset|done]. Qed.

Definition userName (physical : string) : option string := if isUserEventCollection physical then Some (logicalFromEvents physical) else None.

Lemma names_folds physical ids : logicalNames physical ids =
  fold_left (fun set x => match Some x with Some n => mset n tt set | None => set end) ids
    (fold_left (fun set x => match userName x with Some n => mset n tt set | None => set end) physical []).
Proof.
  unfold logicalNames. f_equal. generalize (@nil (string * unit)). induction physical as [|n l IH]; intros set; [done|]. cbn [fold_left]. rewrite IH. unfold userName. by destruct (isUserEventCollection n).
Qed.

(** The names under which the tenant's collections are found. *)
Lemma names_spec physical ids a :
  (forall n, In n physical -> isUserEventCollection n = true -> exists b, validateLogical b = Ok tt /\ n = eventsCollection b) ->
  (forall id, In id ids -> validateLogical id = Ok tt) ->
  In a (mkeys (logicalNames physical ids)) <-> validateLogical a = Ok tt /\ (In (eventsCollection a) physical \/ In a ids).
Proof.
  intros Hp Hi. rewrite names_folds, (set_names Some), (set_names userName). cbn [mkeys map In]. split.
  - intros [[[]|(n & Hn & E)]|(id & Hid & [= ->])]; [|by split; [apply Hi|right]].
    unfold userName in E. destruct (isUserEventCollection n) eqn:Eu; [|done]. injection E as <-. destruct (Hp n Hn Eu) as (b & Hb & ->).
    destruct (events_name b Hb) as (_ & _ & ->). by split; [|left].
  - intros [Ha [Hn|Hid]]; [left; right|right; by exists a]. exists (eventsCollection a). split; [done|]. unfold userName. by destruct (events_name a Ha) as (_ & -> & ->).
Qed.

Section Lists.
Context {W : Type} `{CatalogDB W} `{CollectionRepository W}.
Variable dbFor : ctx -> res err database.

Lemma summaries_ok c w names : forall l, summaries dbFor c names w = Ok l -> Forall2 (fun name s => summary dbFor c name w = Ok s) names l.
Proof.
  induction names as [|name names IH]; intros l; cbn [summaries]; [intros [= <-]; constructor|]. destruct (summary dbFor c name w) as [s|] eqn:E; [|done]. cbn.
  destruct (summaries dbFor c names w) as [l'|]; [|done]. intros [= <-]. constructor; [done|by apply IH].
Qed.

Lemma summaries_err c w names e : summaries dbFor c names w = Err e -> exists name, In name names /\ summary dbFor c name w = Err e.
Proof.
  induction names as [|name names IH]; cbn [summaries]; [done|]. destruct (summary dbFor c name w) as [s|e'] eqn:E; cbn; [|intros [= <-]; exists name; by auto].
  destruct (summaries dbFor c names w) as [l'|e']; [done|]. intros Hn. destruct (IH Hn) as (n & Hin & Hn'). exists n. by auto.
Qed.

Lemma summary_name c name w s : summary dbFor c name w = Ok s -> su_Name s = name.
Proof. unfold summary. destruct (Stats dbFor c name w); [|done]. cbn. destruct (GetConfig c name w) as [|[]]; by intros [= <-]. Qed.

Lemma sort_summaries (l : list CollectionSummary) : StronglySorted (fun a b => str_lt (su_Name a) (su_Name b)) l -> foldr insertSummary [] l = l.
Proof.
  induction 1 as [|s l _ IH Hs]; [done|]. cbn. rewrite IH. destruct l as [|t l]; [done|]. cbn. apply Forall_cons in Hs as [Hs%str_ltb_asym _]. by rewrite Hs.
Qed.

Lemma sorted_names (m : list (string * unit)) l : msorted m -> Forall2 (fun (k : string) s => su_Name s = k) (mkeys m) l -> StronglySorted (fun a b => str_lt (su_Name a) (su_Name b)) l.
Proof.
  revert l. induction m as [|[k v] m IH]; intros l Hm Hl; cbn in Hl; [apply Forall2_nil_inv_l in Hl as ->; constructor|].
  apply Forall2_cons_inv_l in Hl as (s & l' & Hk & Hl & ->). apply msorted_cons in Hm as [Hm Hlt]. constructor; [by apply IH|]. clear IH Hm.
  revert l' Hl. induction Hlt as [|[k' v'] m Hk' _ IH]; intros l' Hl; cbn in Hl; [apply Forall2_nil_inv_l in Hl as ->; constructor|].
  apply Forall2_cons_inv_l in Hl as (s' & l'' & Es & Hl & ->). constructor; [by rewrite Hk, Es|by apply IH].
Qed.
End Lists.

(** The catalog lists every collection once, in name order.  When the user event
    collections of the database stem from valid names and the stored configurations are
    named validly: a successful listing has strictly increasing names, exactly those with
    an event collection or a configuration; each entry carries the counters of its own
    physical collections and its stored configuration with defaults, or the defaults when
    it was auto-created; and a listing fails only because a lookup for one of these names
    failed. *)
Theorem catalog_lists_all {W : Type} `{CatalogDB W} `{CollectionRepository W} (dbFor : ctx -> res err database) (c : ctx) (w : W)
    (db : database) (physical ids : list string) :
  dbFor c = Ok db -> ListCollectionNames db w = Ok physical -> FindIDs db CollectionsConfig w = Ok ids ->
  (forall n, In n physical -> isUserEventCollection n = true -> exists b, validateLogical b = Ok tt /\ n = eventsCollection b) ->
  (forall id, In id ids -> validateLogical id = Ok tt) ->
  let listed a := validateLogical a = Ok tt /\ (In (eventsCollection a) physical \/ In a ids) in
  match catalogList dbFor c w with
  | Ok l => StronglySorted (fun a b => str_lt (su_Name a) (su_Name b)) l /\ (forall a, In a (map su_Name l) <-> listed a) /\
      forall s, In s l ->
        CountDocuments db (currentCollection (su_Name s)) w = Ok (st_Entities (su_Stats s)) /\
        EstimatedDocumentCount db (eventsCollection (su_Name s)) w = Ok (st_Events (su_Stats s)) /\
        (LastStored db (eventsCollection (su_Name s)) w = Ok (st_LastEventAt (su_Stats s)) \/
         LastStored db (eventsCollection (su_Name s)) w = Err NoDocuments /\ st_LastEventAt (su_Stats s) = 0%Z) /\
        match GetConfig c (su_Name s) w with Ok cfg => su_Config s = WithDefaults cfg | Err e => e = ErrNotFound /\ su_Config s = WithDefaults (bareConfig (su_Name s)) end
  | Err e => exists a, listed a /\ summary dbFor c a w = Err e
  end.
Proof.
  intros Hdb Hp Hi Hvp Hvi listed. unfold catalogList, statsListCollections. rewrite Hdb. cbn. rewrite Hp. cbn. rewrite Hi. cbn.
  assert (msorted (logicalNames physical ids)) as Hm by (rewrite names_folds; apply (set_sorted Some), (set_sorted userName), msorted_nil). rewrite sort_sorted by exact Hm.
  destruct (summaries dbFor c (mkeys (logicalNames physical ids)) w) as [l|e] eqn:E; cbn.
  - apply summaries_ok in E. assert (Forall2 (fun k s => su_Name s = k) (mkeys (logicalNames physical ids)) l) as Hn by (eapply Forall2_impl; [exact E|]; intros name s Es; exact (summary_name dbFor c name w s Es)).
    pose proof (sorted_names _ _ Hm Hn) as Hs. rewrite sort_summaries by done. split_and!; [done| |].
    + intros a. unfold listed. rewrite <- (names_spec physical ids a Hvp Hvi). by replace (map su_Name l) with (mkeys (logicalNames physical ids)) by (clear -Hn; induction Hn as [|k s ks l <- _ IH]; [done|]; cbn; by rewrite IH).
    + intros s Hin. apply list_elem_of_In, list_elem_of_lookup in Hin as [i Hin]. destruct (Forall2_lookup_r _ _ _ _ _ E Hin) as (name & _ & Es). pose proof (summary_name _ _ _ _ _ Es) as <-.
      destruct s as [name stats cfg0]. cbn [su_Name su_Stats su_Config] in *. unfold summary, Stats, lastEventTime in Es. rewrite Hdb in Es. destruct (validateLogical _); [|done]. cbn in Es.
      destruct (CountDocuments _ _ _) as [n1|]; [|done]. cbn in Es. destruct (EstimatedDocumentCount _ _ _) as [n2|]; [|done]. cbn in Es.
      destruct (LastStored _ _ _) as [t|[]]; cbn in Es; try done; destruct (GetConfig c name w) as [cfg|[]]; try done; injection Es as <- <-; cbn; auto 8.
  - apply summaries_err in E as (name & Hin & Es). exists name. split; [by apply names_spec|done].
Qed.

(** ** A database *)

(** Two collections with events, one of them configured, a third only configured. *)
Record catMem := mkCatMem { cat_physical : list string; cat_configs : list (string * CollectionConfig) }.

#[export] Instance cat_db : CatalogDB catMem := {
  ListCollectionNames _ w := Ok (cat_physical w);
  FindIDs _ _ w := Ok (map fst (cat_configs w));
  CountDocuments _ _ _ := Ok 2%Z;
  EstimatedDocumentCount _ coll w := Ok (if existsb (str_eqb coll) (cat_physical w) then 5 else 0)%Z;
  LastStored _ coll w := if existsb (str_eqb coll) (cat_physical w) then Ok 7%Z else Err NoDocuments }.

#[export] Instance cat_repo : CollectionRepository catMem := {
  GetConfig _ n w := match mget n (cat_configs w) with Some cfg => Ok cfg | None => Err ErrNotFound end;
  SaveConfig _ cfg w := (Ok tt, mkCatMem (cat_physical w) (mset (cfg_Name cfg) cfg (cat_configs w)));
  EnsurePhysical _ n w := (Ok tt, mkCatMem (eventsCollection n :: cat_physical w) (cat_configs w)) }.

Definition cat_w : catMem :=
  mkCatMem ["ev_crm_deals"; "cur_crm_deals"; "_collections"; "ev__system"; "ev_crm_contacts"; "cur_crm_contacts"]
    (map (fun n => (n, bareConfig n)) ["crm.contacts"; "docs"]).

Lemma catalog_lists_all_witness :
  match catalogList (fun _ => Ok (mkDB "" "hm_t_acme")) None cat_w with
  | Ok l => map su_Name l = ["crm.contacts"; "crm.deals"; "docs"] /\ (forall a, In a (map su_Name l) -> validateLogical a = Ok tt)
  | Err _ => False
  end.
Proof.
  pose proof (catalog_lists_all (fun _ => Ok (mkDB "" "hm_t_acme")) None cat_w (mkDB "" "hm_t_acme") (cat_physical cat_w) (map fst (cat_configs cat_w)) eq_refl eq_refl eq_refl) as Hc.
  destruct (catalogList _ None cat_w) as [l|e] eqn:E; [|vm_compute in E; discriminate E].
  destruct Hc as (_ & Hl & _).
  - intros n Hn Hu. cbn in Hn. repeat destruct Hn as [<-|Hn]; try discriminate Hu; [by exists "crm.deals"|by exists "crm.contacts"|done].
  - intros id Hid. cbn in Hid. by repeat destruct Hid as [<-|Hid].
  - split; [vm_compute in E; injection E as <-; reflexivity|]. intros a Ha. by apply Hl.
Defined.
