(* ===== verification/Router.v ===== *)
(** * The router (internal/server/http.go, the probes of handlers.go, internal/health)

    The table of routes, the middleware in front of it and the readiness probe.  The
    matching of a path against the registered patterns is that of [chi]: a parameter,
    as are its own two error answers and the metrics exposition. *)

From stdpp Require Import base list strings.
From Stdlib Require Import ZArith Lia Ascii.
From S2P Require Import Prelude GoMap Json Paths Diff DiffSound Domain Tenant Config Names Repo Ingest Read Pipeline Rules RulesEngine Worker Flow Canonical JsonText TimeText Http ServerIngest ServerBatch ServerRead ServerFlow ServerRules ServerAdmin DeadLetters ServerSound.

(** ** Readiness *)

(** A check looks at the world and reports the text of its error. *)
Definition Check (W : Type) : Type := W -> option string.
Record Registry (W : Type) := mkRegistry { rg_checks : list (string * Check W) }.
Arguments mkRegistry {W}. Arguments rg_checks {W}.

Definition NewRegistry {W : Type} : Registry W := mkRegistry [].
Definition Register {W : Type} (r : Registry W) (name : string) (c : Check W) : Registry W := mkRegistry (mset name c (rg_checks r)).

(** The failures by name; the order of the checks does not show in the map. *)
Definition runChecks {W : Type} (r : Registry W) (w : W) : list (string * string) :=
  fold_left (fun failures nc => match snd nc w with Some e => mset (fst nc) e failures | None => failures end) (rg_checks r) [].

(** [ConnManager.Ping] and [Close]: the errors of the clients, joined; [pings] and
    [disconnects] are the answers of the clusters. *)
Definition Ping (pings : string -> option string) (m : ConnManager) : list string :=
  flat_map (fun uri => match pings uri with Some e => [uri +:+ ": " +:+ e] | None => [] end) (cm_clients m).
Definition Close (disconnects : string -> option string) (m : ConnManager) : list string :=
  flat_map (fun uri => match disconnects uri with Some e => [e] | None => [] end) (cm_clients m).

(** The check [Run] registers: an error when there is one to join. *)
Definition mongoCheck {W : Type} (pings : W -> string -> option string) (conn : W -> ConnManager) : Check W := fun w =>
  match Ping (pings w) (conn w) with [] => None | es => Some (joinWith (String (byteAt 10) "") es) end.

Definition handleHealthz : response := writeJSON 200 (GObj [("status", GStr "ok")]).

Definition handleReadyz {W : Type} (checks : Registry W) (w : W) : response :=
  let failures := runChecks checks w in
  match failures with
  | [] => writeJSON 200 (GObj [("status", GStr "ready")])
  | _ => writeJSON 503 (GObj [("checks", GObj (map (fun nf => (fst nf, GStr (snd nf))) failures)); ("status", GStr "unavailable")])
  end.

(** What [watchReadiness] of the gRPC server sets: SERVING or NOT_SERVING. *)
Definition servingStatus {W : Type} (checks : Registry W) (w : W) : bool := match runChecks checks w with [] => true | _ => false end.

(** The build information is injected by the linker. *)
Definition handleVersion (version commit date : string) : response :=
  writeJSON 200 (GObj [("commit", GStr commit); ("date", GStr date); ("version", GStr version)]).

(** ** Routes *)

Record route (W : Type) := mkRoute { rt_Method : string; rt_Pattern : string; rt_Scope : string; rt_Handler : handler W }.
Arguments mkRoute {W}. Arguments rt_Method {W}. Arguments rt_Pattern {W}. Arguments rt_Scope {W}. Arguments rt_Handler {W}.

(** Which of the services are given; a nil service registers no routes. *)
Record services := mkServices {
  sv_ingest : bool; sv_read : bool; sv_activities : bool; sv_tickets : bool; sv_catalog : bool; sv_cfgAdmin : bool; sv_batch : bool; sv_ruleAdmin : bool; sv_dlq : bool }.

(** What [chi] finds for a method and a path among registered methods and patterns: the
    position of the route with the path parameters, or one of its error answers. *)
Inductive matched := Matched (i : nat) (params : string -> string) | NoRoute | NoMethod.

Definition WithParams (r : request) (params : string -> string) : request :=
  mkRequest (rq_Header r) params (rq_RawQuery r) (rq_Body r) (rq_BodyFails r) (rq_RemoteAddr r) (rq_RequestID r) (rq_Context r).

Section Router.
Context {W : Type} `{IngestService W} `{ReadService W} `{ActivityService W} `{AdminServices W} `{BatchService W} `{RuleAPI W} `{DLQService W}.
Variable configErrorText : string -> string.
Variable ruleErrorText : RuleError -> string.
Variable resolve : string -> res tenantErr Principal.
Variable checks : Registry W.
Variable chi : list (string * string) -> string -> string -> matched.
Variables notFound notAllowed : response.
Variable metrics : request -> W -> response.
Variables version commit date : string.
Variable sv : services.

(** A handler that only reads. *)
Definition reads (h : request -> W -> response) : handler W := fun r w => (h r w, w).

Definition given (s : bool) (l : list (route W)) : list (route W) := if s then l else [].

Definition registerEntityRoutes : list (route W) :=
  let base := "/collections/{collection}/entities/{entityId}" in
  given (sv_ingest sv)
    [mkRoute "POST" (base +:+ "/state") ScopeWrite handleState;
     mkRoute "POST" (base +:+ "/diff") ScopeWrite handleDiff;
     mkRoute "POST" (base +:+ "/delete") ScopeWrite handleDelete] ++
  given (sv_read sv)
    [mkRoute "GET" (base +:+ "/history") ScopeRead (reads handleHistory);
     mkRoute "GET" (base +:+ "/state") ScopeRead (reads handleReadState)].

Definition registerCatalogRoutes : list (route W) :=
  given (sv_catalog sv) [mkRoute "GET" "/collections" ScopeRead (reads listCollections)].

Definition registerConfigRoutes : list (route W) :=
  let path := "/collections/{collection}/config" in
  given (sv_cfgAdmin sv) [mkRoute "GET" path ScopeAdmin (reads getConfig); mkRoute "PUT" path ScopeAdmin (putConfig configErrorText)].

Definition registerRuleRoutes : list (route W) :=
  let base := "/collections/{collection}/rules" in
  given (sv_ruleAdmin sv)
    [mkRoute "POST" base ScopeAdmin (createRule ruleErrorText);
     mkRoute "GET" base ScopeAdmin (reads listRules);
     mkRoute "GET" (base +:+ "/{ruleId}") ScopeAdmin (reads (getRule ruleErrorText));
     mkRoute "PUT" (base +:+ "/{ruleId}") ScopeAdmin (updateRule ruleErrorText);
     mkRoute "DELETE" (base +:+ "/{ruleId}") ScopeAdmin (delRule ruleErrorText)].

Definition registerDLQRoutes : list (route W) :=
  let base := "/collections/{collection}/rules/{ruleId}/dlq" in
  given (sv_dlq sv) [mkRoute "GET" base ScopeAdmin (reads listDLQ); mkRoute "POST" (base +:+ ":redeliver") ScopeAdmin redeliverDLQ].

Definition registerBatchRoutes : list (route W) := given (sv_batch sv) [mkRoute "POST" "/events:batch" ScopeWrite handleBatch].

Definition registerFlowRoutes : list (route W) :=
  given (sv_activities sv) [mkRoute "POST" "/activities" ScopeWrite handleRecord; mkRoute "GET" "/flows/{flowId}" ScopeRead (reads handleFlow)].

Definition registerTicketRoutes : list (route W) :=
  given (sv_tickets sv) [mkRoute "GET" "/tickets/{ticketId}" ScopeRead (reads getTicket)].

Definition apiRoutes : list (route W) :=
  registerEntityRoutes ++ registerCatalogRoutes ++ registerConfigRoutes ++ registerRuleRoutes ++ registerDLQRoutes ++
  registerBatchRoutes ++ registerFlowRoutes ++ registerTicketRoutes.

Definition registered (l : list (route W)) : list (string * string) := map (fun rt => (rt_Method rt, rt_Pattern rt)) l.

(** The sub-router below [/api/v1]: authentication runs in front of its own matching, the
    scope check in front of the handler of the route. *)
Definition apiRouter (method path : string) : handler W :=
  RequireAuth resolve (fun r w =>
    match chi (registered apiRoutes) method path with
    | NoRoute => (notFound, w)
    | NoMethod => (notAllowed, w)
    | Matched i params =>
        match apiRoutes !! i with
        | Some rt => RequireScope (rt_Scope rt) (rt_Handler rt) (WithParams r params) w
        | None => (notFound, w)
        end
    end).

(** The routes of the root; the mount takes every method, and leaves the rest of the path
    in the parameter [*]. *)
Definition rootRoutes : list (string * string) :=
  [("GET", "/healthz"); ("GET", "/readyz"); ("GET", "/version"); ("GET", "/metrics"); ("", "/api/v1/*")].

Definition newRouter (method path : string) : handler W := fun r w =>
  match chi rootRoutes method path with
  | Matched 0 _ => (handleHealthz, w)
  | Matched 1 _ => (handleReadyz checks w, w)
  | Matched 2 _ => (handleVersion version commit date, w)
  | Matched 3 _ => (metrics r w, w)
  | Matched 4 params => apiRouter method ("/" +:+ params "*") r w
  | Matched _ _ | NoRoute => (notFound, w)
  | NoMethod => (notAllowed, w)
  end.

(** ** What stands in front of a handler *)

(** Refused on the request alone: an error that is the same whatever is stored, and
    nothing changes. *)
Definition refused (h : handler W) (r : request) : Prop := exists rs, (400 <= rs_Status rs)%Z /\ forall w, h r w = (rs, w).

(** A route that names a collection screens it against the mask of the key. *)
Definition masked (rt : route W) : bool := contains "{collection}" (rt_Pattern rt).
Definition screens (rt : route W) : Prop := masked rt = true -> forall r p, rq_Context r = Some p ->
  CanAccess p (rq_URLParam r "collection") = true \/ refused (rt_Handler rt) r.

(** A route under GET, or with the read scope, changes nothing. *)
Definition quiet (rt : route W) : Prop := rt_Method rt = "GET" \/ rt_Scope rt = ScopeRead -> forall r w, snd (rt_Handler rt r w) = w.

Lemma can_access_cases r p coll : rq_Context r = Some p -> CanAccess p coll = true \/ canAccess r coll = Err (writeError 403 "collection not allowed").
Proof. intros Hp. unfold canAccess. rewrite Hp. cbn. destruct (CanAccess p coll); [by left|by right]. Qed.

Lemma path_params_cases r : (exists rs, (400 <= rs_Status rs)%Z /\ pathParams r = Err rs) \/ exists e, pathParams r = Ok (rq_URLParam r "collection", e).
Proof.
  unfold pathParams. destruct (negb _); [left; eexists; split; [|done]; cbn; lia|]. destruct (str_eqb _ ""); [left; eexists; split; [|done]; cbn; lia|]. right. by eexists.
Qed.

Lemma ingest_screens kind toCommand r p : rq_Context r = Some p -> CanAccess p (rq_URLParam r "collection") = true \/ refused (ingestWith kind toCommand) r.
Proof.
  intros Hp. destruct (can_access_cases r p (rq_URLParam r "collection") Hp) as [|Hno]; [by left|right]. unfold refused, ingestWith.
  destruct (path_params_cases r) as [(rs & Hs & ->)|[e ->]]; [by exists rs|]. eexists. split; [|intros w; unfold readRequest; by rewrite Hno]. cbn. lia.
Qed.

Lemma read_screens (f : request -> string -> string -> W -> res response gvalue) r p : rq_Context r = Some p ->
  CanAccess p (rq_URLParam r "collection") = true \/
  refused (reads (fun r w => match (params <- pathParams r; let '(collection, entityID) := params in _ <- canAccess r collection; f r collection entityID w)%go with Err rs => rs | Ok body => writeJSON 200 body end)) r.
Proof.
  intros Hp. destruct (can_access_cases r p (rq_URLParam r "collection") Hp) as [|Hno]; [by left|right]. unfold refused, reads.
  destruct (path_params_cases r) as [(rs & Hs & ->)|[e ->]]; [by exists rs|]. rewrite Hno. eexists. split; [|done]. cbn. lia.
Qed.

(** The guard of the rules and the dead letters, and of the configuration. *)
Lemma guard_refuses r p : rq_Context r = Some p -> CanAccess p (rq_URLParam r "collection") = true \/
  canAccess r (rq_URLParam r "collection") = Err (writeError 403 "collection not allowed") /\
  guardRules r = Err (writeError 403 "collection not allowed") /\ guardDLQ r = Err (writeError 403 "collection not allowed").
Proof. intros Hp. destruct (can_access_cases r p (rq_URLParam r "collection") Hp) as [|Hno]; [by left|right]. unfold guardRules, guardDLQ. by rewrite Hno. Qed.

Lemma given_all (P : route W -> Prop) s l : Forall P l -> Forall P (given s l).
Proof. by destruct s. Qed.

Lemma unmasked_screens rt : masked rt = false -> screens rt.
Proof. intros Hm Hm'. congruence. Qed.

(** The routes whose handler starts with the guard. *)
Lemma guarded_screens method pattern scope (h : handler W) :
  (forall r w, guardRules r = Err (writeError 403 "collection not allowed") -> guardDLQ r = Err (writeError 403 "collection not allowed") ->
     canAccess r (rq_URLParam r "collection") = Err (writeError 403 "collection not allowed") -> h r w = (writeError 403 "collection not allowed", w)) ->
  screens (mkRoute method pattern scope h).
Proof.
  intros Hh _ r p Hp. destruct (guard_refuses r p Hp) as [|(Ha & Hr & Hd)]; [by left|right]. exists (writeError 403 "collection not allowed").
  split; [cbn; lia|]. intros w. by apply Hh.
Qed.

Ltac guarded := apply guarded_screens; intros r w Hr Hd Ha;
  unfold reads, getConfig, putConfig, createRule, listRules, getRule, updateRule, delRule, listDLQ, redeliverDLQ; by rewrite ?Hr, ?Hd, ?Ha.

Lemma routes_screen : Forall screens apiRoutes.
Proof.
  unfold apiRoutes. rewrite !Forall_app. split_and!; [apply Forall_app; split|..]; apply given_all; rewrite ?Forall_cons, Forall_nil; split_and!; try done; try (by apply unmasked_screens).
  1-3: intros _ r p; apply ingest_screens.
  3-11: guarded.
  - intros _ r p. apply (read_screens (fun r collection entityID w => query <- bad (parseHistoryQuery r entityID); let '(f, format) := query in
      match svcHistory (rq_Context r) collection f w with Err _ => Err (writeError 500 "internal error") | Ok events => historyBody entityID events f format end)%go).
  - intros _ r p. apply (read_screens (fun r collection entityID w => query <- bad (parseStateQuery r);
      match query with
      | Some q => match svcStateAt (rq_Context r) collection entityID q w with Err e => Err (readError e) | Ok x => Ok (stateAtBody x) end
      | None => match svcCurrent (rq_Context r) collection entityID w with Err e => Err (readError e) | Ok st => Ok (currentBody st) end
      end)%go).
Qed.

Lemma routes_quiet : Forall quiet apiRoutes.
Proof.
  unfold apiRoutes. rewrite !Forall_app. split_and!; [apply Forall_app; split|..]; apply given_all; rewrite ?Forall_cons, Forall_nil; split_and!; try done; by intros [[=]|[=]].
Qed.

Lemma routes_named : Forall (fun rt => rt_Method rt <> "") apiRoutes.
Proof. unfold apiRoutes. rewrite !Forall_app. split_and!; [apply Forall_app; split|..]; apply given_all; by rewrite ?Forall_cons, Forall_nil. Qed.

Lemma require_scope_ok scope (h : handler W) r p w : rq_Context r = Some p -> HasScope p scope = true -> RequireScope scope h r w = h r w.
Proof. intros Hp Hs. unfold RequireScope, FromContext. by rewrite Hp, Hs. Qed.

Lemma batch_masked p items mode reqID ip e : forall index, In e (fst (buildEntries p items index mode reqID ip)) -> CanAccess p (ic_Collection (be_Command e)) = true.
Proof.
  induction items as [|item items IH]; intros index; cbn [buildEntries]; [done|]. specialize (IH (index + 1)%Z).
  destruct (buildEntries p items (index + 1)%Z mode reqID ip) as [es rjs]. unfold buildBatchEntry.
  destruct (negb _); [done|]. destruct (CanAccess p (bi_Collection item)) eqn:Ha; cbn [negb]; [|done]. destruct (str_eqb _ ""); [done|]. destruct (batchKinds _) as [kind|]; [|done].
  destruct (bi_Payload item) as [t|]; [|done]. destruct (Unmarshal _ _ _) as [req|]; [|done]. destruct (buildBatchCommand _ _ _ _ _ _) as [cmd|] eqn:Hc; [|done].
  intros [<-|Hin]; [|by apply IH]. cbn [be_Command]. enough (ic_Collection cmd = bi_Collection item) as -> by done. clear -Hc. unfold buildBatchCommand in Hc.
  repeat case_match; simplify_eq/=; done.
Qed.

(** How a request under [/api/v1] is answered: refused on its own, or by the handler of a
    route whose demands the key meets. *)
Record passed (method path : string) (r : request) (rt : route W) (params : string -> string) (p : Principal) : Prop := {
  ps_key : resolve (bearerToken r) = Ok p;
  ps_route : exists i, chi (registered apiRoutes) method path = Matched i params /\ apiRoutes !! i = Some rt;
  ps_scope : HasScope p (rt_Scope rt) = true;
  ps_mask : masked rt = true -> CanAccess p (params "collection") = true }.

Lemma api_cases method path r : (400 <= rs_Status notFound)%Z -> (400 <= rs_Status notAllowed)%Z ->
  refused (apiRouter method path) r \/
  exists rt params p, passed method path r rt params p /\ forall w, apiRouter method path r w = rt_Handler rt (WithContext (WithParams r params) (Some p)) w.
Proof.
  intros Hnf Hna. unfold apiRouter, RequireAuth. unfold refused at 1. destruct (resolve (bearerToken r)) as [p|e] eqn:Hk.
  2: { left. destruct e; (eexists; split; [|intros w; reflexivity]); cbn; lia. }
  destruct (chi (registered apiRoutes) method path) as [i params| |] eqn:Hc; [|left; by exists notFound|left; by exists notAllowed].
  destruct (apiRoutes !! i) as [rt|] eqn:Hi; [|left; by exists notFound].
  change (NewContext (rq_Context r) p) with (Some p). set (r' := WithParams _ params).
  assert (rq_Context r' = Some p) as Hp by done. assert (rq_URLParam r' "collection" = params "collection") as Hq by done.
  destruct (HasScope p (rt_Scope rt)) eqn:Hs.
  2: { left. exists (writeError 403 "insufficient scope"). split; [cbn; lia|]. intros w. unfold RequireScope, FromContext. by rewrite Hp, Hs. }
  pose proof (proj1 (Forall_lookup _ _) routes_screen i rt Hi) as Hscr.
  assert ((masked rt = true -> CanAccess p (params "collection") = true) \/ refused (rt_Handler rt) r') as [Hm|(rs & Hst & Hrs)].
  { destruct (masked rt) eqn:Hm; [|by left]. destruct (Hscr Hm r' p Hp) as [Ha|]; [left; by rewrite <- Hq|by right]. }
  - right. exists rt, params, p. split; [split; [done|by exists i|done|done]|]. intros w. by rewrite (require_scope_ok _ _ r' p w Hp Hs).
  - left. exists rs. split; [done|]. intros w. by rewrite (require_scope_ok _ _ r' p w Hp Hs).
Qed.

End Router.

(** ** Readiness and scopes *)

Lemma run_checks_spec {W : Type} (l : list (string * Check W)) w : forall failures : list (string * string),
  fold_left (fun failures nc => match snd nc w with Some e => mset (fst nc) e failures | None => failures end) l failures = [] <->
  failures = [] /\ forall name c, In (name, c) l -> c w = None.
Proof.
  induction l as [|[n c] l IH]; intros failures; cbn [fold_left fst snd]; [split; [by intros ->|by intros [-> _]]|]. rewrite IH. destruct (c w) as [e|] eqn:Hc.
  - split.
    + intros [Hm _]. assert (mget n (mset n e failures) = Some e) as Hg by apply mget_mset_eq. by rewrite Hm in Hg.
    + intros [-> Hl]. specialize (Hl n c (or_introl eq_refl)). congruence.
  - split; intros [-> Hl]; (split; [done|]).
    + intros name c' [[= <- <-]|Hin]; [done|by eapply Hl].
    + intros name c' Hin. apply (Hl name). by right.
Qed.

(** Ready means that every registered check passes. *)
Theorem readyz_spec {W : Type} (checks : Registry W) (w : W) :
  rs_Status (handleReadyz checks w) = 200%Z <-> forall name c, In (name, c) (rg_checks checks) -> c w = None.
Proof.
  unfold handleReadyz, runChecks. pose proof (run_checks_spec (rg_checks checks) w []) as Hs. destruct (fold_left _ _ _) as [|x l].
  - split; [|done]. intros _. by apply Hs.
  - split; [done|]. intros Hl. by assert (x :: l = []) as [=] by (by apply Hs).
Qed.

(** Both transports report the same readiness. *)
Theorem transports_agree {W : Type} (checks : Registry W) (w : W) : servingStatus checks w = true <-> rs_Status (handleReadyz checks w) = 200%Z.
Proof. unfold servingStatus, handleReadyz. by destruct (runChecks checks w). Qed.

(** A ready instance reaches the cluster of every tenant it has served. *)
Theorem ready_reaches {W : Type} (checks : Registry W) (pings : W -> string -> option string) (conn : W -> ConnManager) (Connect : string -> bool) (m : ConnManager) (c : ctx) (db : database) (w : W) :
  rs_Status (handleReadyz (Register checks "mongo" (mongoCheck pings conn)) w) = 200%Z ->
  DBFor Connect m c = (Ok db, conn w) -> pings w (db_uri db) = None.
Proof.
  intros Hr Hdb. pose proof (proj1 (readyz_spec _ _) Hr "mongo" (mongoCheck pings conn)) as Hm. cbn [Register rg_checks] in Hm.
  assert (mongoCheck pings conn w = None) as Hc by (apply Hm; apply mget_in, mget_mset_eq). clear Hm. unfold mongoCheck in Hc.
  destruct (Ping (pings w) (conn w)) as [|e es] eqn:Hp; [|done]. clear Hc. unfold DBFor in Hdb. destruct (FromContext c) as [p|]; [|done]. cbv zeta in Hdb.
  destruct (client Connect m _) as [[cl|]] eqn:Hcl; [|done]. injection Hdb as <- ->. cbn [db_uri].
  assert (In cl (cm_clients (conn w))) as Hin.
  { unfold client in Hcl. destruct (existsb _ (cm_clients m)) eqn:E; [|destruct (Connect _); [|done]]; injection Hcl as <- <-; [|by left]. apply existsb_exists in E as (u & Hu & ->%str_eqb_eq). done. }
  destruct (pings w cl) as [e|] eqn:E; [|done]. exfalso. assert (In (cl +:+ ": " +:+ e) (Ping (pings w) (conn w))) as Hbad by (apply in_flat_map; exists cl; split; [done|]; rewrite E; by left).
  by rewrite Hp in Hbad.
Qed.

(** The scopes are independent: a key that holds only the admin scope is refused on every
    read and write route. *)
Lemma admin_scope_alone (t : Tenant) (mask : list string) (W : Type) (h : handler W) (r : request) (w : W) (scope : string) :
  scope = ScopeRead \/ scope = ScopeWrite -> rq_Context r = Some (mkPrincipal t (mkAPIKey [ScopeAdmin] mask)) ->
  RequireScope scope h r w = (writeError 403 "insufficient scope", w).
Proof. intros [-> | ->] Hr; unfold RequireScope, FromContext; by rewrite Hr. Qed.

(** ** A matcher and services *)

(** A matcher that takes the first route whose segments fit. *)
Fixpoint fitSegments (pattern segments : list string) : option (list (string * string)) :=
  match pattern, segments with
  | [], [] => Some []
  | [p], _ :: _ =>
      if str_eqb p "*" then Some [("*", joinWith "/" segments)]
      else match segments with
           | [s] => if has_prefix "{" p then Some [(String.substring 1 (String.length p - 2) p, s)] else if str_eqb p s then Some [] else None
           | _ => None
           end
  | p :: pattern', s :: segments' =>
      rest ← fitSegments pattern' segments';
      if has_prefix "{" p then Some ((String.substring 1 (String.length p - 2) p, s) :: rest) else if str_eqb p s then Some rest else None
  | _, _ => None
  end.

Definition fitRoute (m pattern method : string) (segments : list string) : option (list (string * string)) :=
  if str_eqb m method || str_eqb m "" then fitSegments (split_on "/" pattern) segments else None.

Fixpoint firstFit (routes : list (string * string)) (method : string) (segments : list string) : option (nat * list (string * string)) :=
  match routes with
  | [] => None
  | (m, pattern) :: routes' =>
      match fitRoute m pattern method segments with
      | Some params => Some (0, params)
      | None => '(i, params) ← firstFit routes' method segments; Some (S i, params)
      end
  end.

Definition segmentMatcher (routes : list (string * string)) (method path : string) : matched :=
  match firstFit routes method (split_on "/" path) with
  | Some (i, params) => Matched i (ex_headers params)
  | None => NoRoute
  end.

Lemma first_fit_method method segments : forall routes i params, firstFit routes method segments = Some (i, params) ->
  exists m pattern, routes !! i = Some (m, pattern) /\ (m = method \/ m = "").
Proof.
  induction routes as [|[m pattern] routes IH]; intros i params; cbn [firstFit]; [done|].
  destruct (fitRoute m pattern method segments) as [ps|] eqn:E; unfold fitRoute in E.
  - intros [= <- <-]. exists m, pattern. split; [done|]. destruct (str_eqb m method) eqn:E1; [apply str_eqb_eq in E1; by left|].
    destruct (str_eqb m "") eqn:E2; [apply str_eqb_eq in E2; by right|done].
  - destruct (firstFit routes method segments) as [[j ps]|]; [|done]. cbn. intros [= <- <-]. by apply (IH j ps).
Qed.

Lemma segment_matcher_method method : forall routes path i params, segmentMatcher routes method path = Matched i params ->
  exists m pattern, routes !! i = Some (m, pattern) /\ (m = method \/ m = "").
Proof. intros routes path i params. unfold segmentMatcher. destruct (firstFit _ _ _) as [[j ps]|] eqn:E; [|done]. intros [= <- _]. by eapply first_fit_method. Qed.

(** Services that count the writes. *)
Module CountingServices.
#[export] Instance c_ingest : IngestService nat := {
  svcConfig _ n w := (Ok (bareConfig n), w);
  svcWrite _ _ cmd w := (Ok (asyncResult (ic_EntityID cmd) "t1" false), S w) }.
#[export] Instance c_read : ReadService nat := {
  svcHistory _ _ _ _ := Ok []; svcCurrent _ _ _ _ := Err ErrNotFound; svcStateAt _ _ _ _ _ := Err ErrNotFound }.
#[export] Instance c_activity : ActivityService nat := {
  svcRecord _ _ w := (Ok (mkRecordResult "a1" "f1"), S w); svcFlow _ _ _ _ _ := Err ErrNotFound }.
#[export] Instance c_admin : AdminServices nat := {
  svcGetStored _ _ _ := Err ErrNotFound; svcUpdateConfig _ cfg w := (Ok cfg, S w); svcListCollections _ _ := Ok []; svcTicket _ _ _ := Err ErrTicketNotFound }.
#[export] Instance c_batch : BatchService nat := { svcBatch _ es rjs _ w := (Ok (mkBatchResult "t1" (Z.of_nat (length es)) rjs), S w) }.
#[export] Instance c_rules : RuleAPI nat := {
  apiCreate _ _ rule w := (Ok rule, S w); apiGet _ _ _ _ := Err (RuleRepoErr ErrNotFound); apiList _ _ _ := Ok [];
  apiUpdate _ _ _ rule w := (Ok rule, S w); apiDelete _ _ _ w := (Ok tt, S w) }.
#[export] Instance c_dlq : DLQService nat := { svcDLQList _ _ _ _ _ := Ok []; svcRedeliver _ _ _ w := (0%Z, None, S w) }.
End CountingServices.

Section Runs.
Import CountingServices.

Definition ex_serve (method path key body : string) (w : nat) : response * nat :=
  newRouter (fun _ => "") (fun _ => "") (Resolve ex_resolver) NewRegistry segmentMatcher (noContent 404) (noContent 405) (fun _ _ => noContent 200) "v" "c" "d"
    (mkServices true true true true true true true true true) method path (ex_request [("Authorization", "Bearer " +:+ key)] [] "" (jtext body)) w.

Definition ex_status (x : response * nat) : Z * nat := (rs_Status (fst x), snd x).

(** The key of [acme] may read and write below [crm]; the one of [globex] is admin only. *)
Example router_runs :
  ex_status (ex_serve "GET" "/healthz" "" "" 7) = (200%Z, 7) /\
  ex_status (ex_serve "POST" "/api/v1/collections/crm.deals/entities/e1/state" "hm_dev_plaintext" "{'state':{'a':1}}" 7) = (202%Z, 8) /\
  ex_status (ex_serve "POST" "/api/v1/collections/hr.people/entities/e1/state" "hm_dev_plaintext" "{'state':{'a':1}}" 7) = (403%Z, 7) /\
  ex_status (ex_serve "POST" "/api/v1/collections/crm.deals/entities/e1/state" "nobody" "{'state':{'a':1}}" 7) = (401%Z, 7) /\
  ex_status (ex_serve "GET" "/api/v1/nothing" "nobody" "" 7) = (401%Z, 7) /\
  ex_status (ex_serve "GET" "/api/v1/collections" "other" "" 7) = (403%Z, 7) /\
  ex_status (ex_serve "DELETE" "/api/v1/collections/crm.deals/rules/r1" "other" "" 7) = (204%Z, 8).
Proof. vm_compute. done. Qed.

End Runs.
