(* ===== verification/Dispatch.v ===== *)
(** * The webhook dispatcher (internal/delivery/dispatcher.go) and its tasks on the queue (delivery.go: EncodeTask, DecodeTask)

    A task as JSON, its body as [base64.StdEncoding], the way [encoding/json] writes a
    byte slice, and that a task comes back as it was sent (an empty body stands for both a
    nil and an empty slice); then the dispatchers over the Redis queue as a step
    relation. *)

From stdpp Require Import base list strings.
From Stdlib Require Import ZArith Lia Ascii Permutation.
From S2P Require Import Prelude GoMap Json Paths Diff DiffSound Domain Tenant Config Names Ingest Numbers Canonical Worker JsonText TimeText JsonSound Http Pipeline Queue Delivery WireSound TaskWire TaskSound RedisQueue RedisSound.

(** ** [base64.StdEncoding], over the unpadded URL alphabet *)

Definition stdChar (c : ascii) : ascii := if (byteOf c =? 45)%Z then byteAt 43 else if (byteOf c =? 95)%Z then byteAt 47 else c.
Definition urlChar (c : ascii) : option ascii :=
  if (byteOf c =? 43)%Z then Some (byteAt 45) else if (byteOf c =? 47)%Z then Some (byteAt 95)
  else if ((byteOf c =? 45) || (byteOf c =? 95))%Z then None else Some c.

Fixpoint mapString (f : ascii -> ascii) (s : string) : string := match s with EmptyString => EmptyString | String c s' => String (f c) (mapString f s') end.
Fixpoint mapStringE (f : ascii -> option ascii) (s : string) : option string :=
  match s with EmptyString => Some EmptyString | String c s' => match f c, mapStringE f s' with Some d, Some t => Some (String d t) | _, _ => None end end.

(** The padding to a multiple of four characters. *)
Definition padding (n : nat) : string := match (n mod 4)%nat with 2 => "==" | 3 => "=" | _ => "" end.

Definition stdEncode (s : string) : string := let e := EncodeToString s in mapString stdChar e +:+ padding (String.length e).

(** Line breaks are skipped, the length must be a multiple of four, and at most two [=]
    may end the text. *)
Fixpoint dropBreaks (s : string) : string :=
  match s with EmptyString => EmptyString | String c s' => if ((byteOf c =? 10) || (byteOf c =? 13))%Z then dropBreaks s' else String c (dropBreaks s') end.

(** The text before the first [=]. *)
Definition beforePad (s : string) : string := match cut "=" s with Some (a, _) => a | None => s end.

Definition stdDecode (s : string) : option string :=
  let t := dropBreaks s in
  let a := beforePad t in
  if (String.length t mod 4 =? 0)%nat && str_eqb t (a +:+ padding (String.length a)) then u ← mapStringE urlChar a; DecodeString u else None.

(** ** The task *)

Definition omitZero (k : string) (z : Z) : list (string * gvalue) := if (z =? 0)%Z then [] else [(k, GInt z)].

Definition tenantRefValue (t : Delivery.TenantRef) : gvalue :=
  GObj (("id", GStr (tr_ID t)) :: omitEmpty "db_uri" (tr_DBURI t) ++ omitEmpty "db_name" (tr_DBName t)).

Definition deliveryValue (t : Delivery.Task) : gvalue :=
  GObj ([("tenant", tenantRefValue (tk_Tenant t)); ("delivery_id", GStr (tk_DeliveryID t)); ("rule_id", GStr (tk_RuleID t))] ++
        omitEmpty "rule_name" (tk_RuleName t) ++ [("collection", GStr (tk_Collection t)); ("url", GStr (tk_URL t))] ++
        omitEmpty "secret_ref" (tk_SecretRef t) ++ omitZero "timeout_ms" (tk_TimeoutMS t) ++ omitZero "max_attempts" (tk_MaxAttempts t) ++
        [("attempt", GInt (tk_Attempt t)); ("body", GStr (stdEncode (tk_Body t)))]).

Definition EncodeTask (t : Delivery.Task) : option string := marshal (deliveryValue t).

(** A byte slice: base64 text, or an array of small numbers. *)
Definition decByte : decoder Z := fun cur t => v ← decInt cur t; if ((0 <=? v) && (v <=? 255))%Z then Some v else None.
Definition bytesText (l : list Z) : string := fold_right (fun b s => String (byteAt b) s) "" l.
Definition textBytes (s : string) : list Z := map byteOf (String.list_ascii_of_string s).

Definition decBytes : decoder string := fun cur t =>
  match t with
  | TStr raw => stdDecode (unquote raw)
  | TArr _ _ | TNull => option_map (fun l => bytesText (default [] l)) (decSlice 0%Z decByte (Some (textBytes cur)) t)
  | _ => None
  end.

Definition decDeliveryTenant : decoder Delivery.TenantRef :=
  decStruct false ["id"; "db_uri"; "db_name"] (fun f t v =>
    let '(Delivery.mkTenantRef i u n) := v in
    if str_eqb f "id" then i ← decString i t; Some (Delivery.mkTenantRef i u n)
    else if str_eqb f "db_uri" then u ← decString u t; Some (Delivery.mkTenantRef i u n)
    else n ← decString n t; Some (Delivery.mkTenantRef i u n)).

Definition delivery0 : Delivery.Task := Delivery.mkTask (Delivery.mkTenantRef "" "" "") "" "" "" "" "" "" 0 0 0 "".

Definition decDelivery : decoder Delivery.Task :=
  decStruct false ["tenant"; "delivery_id"; "rule_id"; "rule_name"; "collection"; "url"; "secret_ref"; "timeout_ms"; "max_attempts"; "attempt"; "body"] (fun f t v =>
    let '(Delivery.mkTask tn d r rn c u s to mx a b) := v in
    if str_eqb f "tenant" then tn ← decDeliveryTenant tn t; Some (Delivery.mkTask tn d r rn c u s to mx a b)
    else if str_eqb f "delivery_id" then d ← decString d t; Some (Delivery.mkTask tn d r rn c u s to mx a b)
    else if str_eqb f "rule_id" then r ← decString r t; Some (Delivery.mkTask tn d r rn c u s to mx a b)
    else if str_eqb f "rule_name" then rn ← decString rn t; Some (Delivery.mkTask tn d r rn c u s to mx a b)
    else if str_eqb f "collection" then c ← decString c t; Some (Delivery.mkTask tn d r rn c u s to mx a b)
    else if str_eqb f "url" then u ← decString u t; Some (Delivery.mkTask tn d r rn c u s to mx a b)
    else if str_eqb f "secret_ref" then s ← decString s t; Some (Delivery.mkTask tn d r rn c u s to mx a b)
    else if str_eqb f "timeout_ms" then to ← decInt to t; Some (Delivery.mkTask tn d r rn c u s to mx a b)
    else if str_eqb f "max_attempts" then mx ← decInt mx t; Some (Delivery.mkTask tn d r rn c u s to mx a b)
    else if str_eqb f "attempt" then a ← decInt a t; Some (Delivery.mkTask tn d r rn c u s to mx a b)
    else b ← decBytes b t; Some (Delivery.mkTask tn d r rn c u s to mx a b)).

Definition DecodeTask (payload : string) : option Delivery.Task := Unmarshal decDelivery delivery0 payload.

Example std_runs : map stdEncode [""; "f"; "fo"; "foo"; "foob"; jtext "{'a':'?>'}"] = [""; "Zg=="; "Zm8="; "Zm9v"; "Zm9vYg=="; "eyJhIjoiPz4ifQ=="].
Proof. vm_compute. reflexivity. Qed.
Example std_refused : map stdDecode ["Zg"; "Zg="; "Z==="; "===="; "Zg==Zg=="; "Zm=v"; "Zm9_"; "Zg=="] = [None; None; None; None; None; None; None; Some "f"].
Proof. vm_compute. reflexivity. Qed.
Example task_runs : map (fun s => option_map tk_Body (DecodeTask (jtext s))) ["{'body':'Zm8='}"; "{'body':[102,111]}"; "{'body':null}"; "{'body':'Zm8'}"; "{'body':[256]}"; "{'BODY':'Zg=='}"]
  = [Some "fo"; Some "fo"; Some ""; None; None; Some "f"].
Proof. vm_compute. reflexivity. Qed.

(** ** Round trip *)

(** A character of the URL alphabet, as it travels in the standard one. *)
Definition stdByte (c : ascii) : bool :=
  match urlChar (stdChar c) with
  | Some d => Ascii.eqb d c && negb ((byteOf (stdChar c) =? 10) || (byteOf (stdChar c) =? 13))%Z && negb (Ascii.eqb "=" (stdChar c)) && (byteOf (stdChar c) <? 128)%Z
  | None => false
  end.

Lemma std_text s : all_bytes stdByte s = true ->
  mapStringE urlChar (mapString stdChar s) = Some s /\ has_byte "=" (mapString stdChar s) = false /\
  forall t, dropBreaks (mapString stdChar s +:+ t) = mapString stdChar s +:+ dropBreaks t /\ validFrom 0 (mapString stdChar s +:+ t) = validFrom 0 t.
Proof.
  induction s as [|c s IH]; [intros _; split_and!; try done; intros t; by rewrite app_nil_l_str|]. cbn [all_bytes]. intros [Hc Hs]%andb_true_iff. destruct (IH Hs) as (I1 & I2 & I3).
  unfold stdByte in Hc. cbn [mapString mapStringE has_byte]. destruct (urlChar (stdChar c)) as [d|]; [|done]. wire_facts. rewrite I1.
  match goal with H : Ascii.eqb d c = true |- _ => apply Ascii.eqb_eq in H as -> end.
  split_and!; [done|match goal with H : negb (Ascii.eqb _ _) = true |- _ => apply negb_true_iff in H; by rewrite H end|].
  intros t. rewrite app_cons_str. cbn [dropBreaks validFrom]. destruct (I3 t) as [-> ->].
  match goal with H : negb (_ || _) = true |- _ => apply negb_true_iff in H; rewrite H end. split; [done|]. by rewrite (proj2 (Z.ltb_lt _ _)).
Qed.

Lemma length_mapString f s : String.length (mapString f s) = String.length s.
Proof. induction s as [|c s IH]; [done|]. cbn. by rewrite IH. Qed.

Lemma padding_cases n : (n mod 4 <> 1)%nat -> ((n + String.length (padding n)) mod 4 = 0)%nat /\ (padding n = "" \/ exists t, padding n = String "=" t) /\ dropBreaks (padding n) = padding n /\ validFrom 0 (padding n) = true.
Proof.
  intros Hn. unfold padding. rewrite Nat.Div0.add_mod. pose proof (Nat.mod_upper_bound n 4 ltac:(lia)) as Hb.
  destruct (n mod 4)%nat as [|[|[|[|k]]]]; try lia; cbn; split_and!; auto; right; by eexists.
Qed.

Lemma std_roundtrip s : stdDecode (stdEncode s) = Some s /\ ValidString (stdEncode s) = true.
Proof.
  pose proof (encode_all stdByte s ltac:(vm_compute; reflexivity)) as Ha. destruct (std_text _ Ha) as (Hm & Hno & Ht). destruct (padding_cases _ (encode_length s)) as (Hl & Hp & Hd & Hv).
  unfold stdEncode, stdDecode, ValidString. destruct (Ht (padding (String.length (EncodeToString s)))) as [-> ->]. rewrite Hd, Hv. split; [|done].
  assert (beforePad (mapString stdChar (EncodeToString s) +:+ padding (String.length (EncodeToString s))) = mapString stdChar (EncodeToString s)) as ->.
  { unfold beforePad. destruct Hp as [->|[t ->]]; [rewrite app_nil_r_str; by rewrite cut_none|by rewrite cut_app]. }
  rewrite length_app_str, length_mapString, Hl, str_eqb_refl. cbn. rewrite Hm. cbn. apply decode_encode.
Qed.

Definition wireDelivery (t : Delivery.Task) : bool :=
  forallb ValidString [tr_ID (tk_Tenant t); tr_DBURI (tk_Tenant t); tr_DBName (tk_Tenant t); tk_DeliveryID t; tk_RuleID t; tk_RuleName t; tk_Collection t; tk_URL t; tk_SecretRef t] &&
  (int64 (tk_TimeoutMS t) && (int64 (tk_MaxAttempts t) && int64 (tk_Attempt t))).

Lemma tenant_ref_read t cur : ValidString (tr_ID t) = true -> ValidString (tr_DBURI t) = true -> ValidString (tr_DBName t) = true ->
  tr_DBURI cur = "" -> tr_DBName cur = "" -> decDeliveryTenant cur (treeOf (tenantRefValue t)) = Some t.
Proof.
  destruct t as [i u n], cur as [i0 u0 n0]. cbn [tr_ID tr_DBURI tr_DBName]. intros Hi Hu Hn -> ->. unfold decDeliveryTenant, tenantRefValue, omitEmpty. cbn [tr_ID tr_DBURI tr_DBName].
  destruct (str_eqb u "") eqn:Eu, (str_eqb n "") eqn:En; rewrite decStruct_tree by reflexivity; cbn [app]; read_fields; cbn [setFields];
    try apply str_eqb_eq in Eu; try apply str_eqb_eq in En; by subst.
Qed.

Lemma decBytes_tree cur s : decBytes cur (treeOf (GStr (stdEncode s))) = Some s.
Proof. destruct (std_roundtrip s) as [Hd Hv]. cbn. by rewrite unquote_inner. Qed.

Lemma delivery_read t : wireDelivery t = true -> decDelivery delivery0 (treeOf (deliveryValue t)) = Some t.
Proof.
  destruct t as [tn d r rn c u s to mx a b]. unfold wireDelivery. cbn [tk_Tenant tk_DeliveryID tk_RuleID tk_RuleName tk_Collection tk_URL tk_SecretRef tk_TimeoutMS tk_MaxAttempts tk_Attempt tk_Body].
  intros Hw. wire_facts. unfold decDelivery, deliveryValue, omitEmpty, omitZero, delivery0.
  cbn [tk_Tenant tk_DeliveryID tk_RuleID tk_RuleName tk_Collection tk_URL tk_SecretRef tk_TimeoutMS tk_MaxAttempts tk_Attempt tk_Body].
  destruct (str_eqb rn "") eqn:E1, (str_eqb s "") eqn:E2, (to =? 0)%Z eqn:E3, (mx =? 0)%Z eqn:E4; rewrite decStruct_tree by reflexivity; cbn [app]; set_field;
    rewrite tenant_ref_read by done; cbn [mbind option_bind]; read_fields; set_field; rewrite decBytes_tree; cbn [mbind option_bind setFields];
    try apply str_eqb_eq in E1; try apply str_eqb_eq in E2; try apply Z.eqb_eq in E3; try apply Z.eqb_eq in E4; by subst.
Qed.

Lemma wire_delivery t : wireOK (deliveryValue t) = true /\ (height (treeOf (deliveryValue t)) <= 2)%Z.
Proof.
  unfold deliveryValue, tenantRefValue, omitEmpty, omitZero.
  destruct (str_eqb (tk_RuleName t) ""), (str_eqb (tk_SecretRef t) ""), (tk_TimeoutMS t =? 0)%Z, (tk_MaxAttempts t =? 0)%Z, (str_eqb (tr_DBURI (tk_Tenant t)) ""), (str_eqb (tr_DBName (tk_Tenant t)) ""); cbn; split; (done || lia).
Qed.

(** Any task can be encoded, and one with valid strings comes back as it was. *)
Lemma delivery_roundtrip t : exists s, EncodeTask t = Some s /\ (wireDelivery t = true -> DecodeTask s = Some t).
Proof.
  destruct (wire_delivery t) as [Ho Hh]. destruct (marshal_tree _ Ho) as [Hm _]. exists (rawOf (treeOf (deliveryValue t))). split; [exact Hm|]. intros Hw.
  unfold DecodeTask. rewrite (Unmarshal_marshal _ _ _ _ Ho ltac:(unfold maxNestingDepth; lia) Hm). by apply delivery_read.
Qed.

(** ** The webhook dispatcher on its queue (internal/delivery/dispatcher.go)

    [handle] takes a task off the delivery stream, makes one attempt and acknowledges the
    message; a retry waits in a goroutine of the process and is published again after its
    delay.  Any number of dispatchers share the stream; their loops, the retries and the
    publishers are the steps of [dstep], and so is the death of a process, which takes
    with it the messages in hand and the retries that wait. *)

(** ** The dispatcher *)

(** The receivers and the dead-letter sink. *)
Class Receivers (W : Type) := {
  receive : Task -> string -> Z -> W -> Delivery.response * W;
  park : ctx -> DeadLetter -> W -> res err unit * W }.

(** The message a task travels in. *)
Definition deliveryMessage (t : Task) : Message string := mkMessage (tk_RuleID t) (default "" (EncodeTask t)) [].

Section Dispatcher.
Context {W : Type} `{RedisStreams W} `{Receivers W}.
Variables (secrets : list (string * string)) (cfg : Config) (sink : bool) (jitter : Z -> Z)
  (statusText : Z -> string) (errorText : err -> string) (dlqID : string) (now : time).

(** The world of [process] and [publish] over a queue; encoding cannot fail. *)
Definition dispatcherWorld (q : redisQueue) : DeliveryWorld W := {|
  PostWebhook := receive;
  SaveDeadLetter := park;
  Requeue key t w := RPublish q (mkMessage key (default "" (EncodeTask t)) []) w |}.

Definition processOn (q : redisQueue) : Task -> W -> verdict * W :=
  @process W (dispatcherWorld q) secrets cfg sink jitter statusText dlqID now.
Definition publishOn (q : redisQueue) : Task -> W -> option string * W :=
  @publish W (dispatcherWorld q) sink errorText dlqID now.

(** What became of the task, [None] for a payload that does not decode; the message is
    acknowledged in every case, and a failed acknowledgement only logged. *)
Definition handle (q : redisQueue) (d : Delivery string) (w : W) : option verdict * W :=
  match DecodeTask (msg_Payload (d_Message d)) with
  | None => (None, snd (RAck q d w))
  | Some task => let '(v, w1) := processOn q task w in (Some v, snd (RAck q d w1))
  end.

(** The retry [process] schedules. *)
Definition scheduled (v : option verdict) : list Task := match v with Some (Retry _ next) => [next] | _ => [] end.

(** ** Runs *)

(** What a run shows: the commands to the queue, the end of a task, and the retries that
    died with their process. *)
Inductive dending := Accepted | GivenUp (reason : string).
Inductive devent := DRedis (e : revent) | DSettled (t : Task) (how : dending) | DLost (t : Task).

Definition redisEvents (tr : list devent) : list revent := flat_map (fun e => match e with DRedis e => [e] | _ => [] end) tr.

Definition endingOf (t : Task) (v : verdict) : list devent :=
  match v with Delivered => [DSettled t Accepted] | Parked t' reason => [DSettled t' (GivenUp reason)] | Retry _ _ => [] end.

(** The deliveries the loops hold, and the retries that wait. *)
Record dstate := mkDState { ds_world : W; ds_hand : list (Delivery string); ds_waiting : list Task }.

Variables (shards : Z) (prefix group : string).
Context `{StreamView W}.
Abbreviation worker c := (NewRedisQueue shards prefix group c).

Inductive dstep : dstate -> list devent -> dstate -> Prop :=
| d_publish c t r w w' hand waiting :          (* a fired rule, or a redelivered dead letter *)
    wireDelivery t = true -> RPublish (worker c) (deliveryMessage t) w = (r, w') ->
    dstep (mkDState w hand waiting) [DRedis (match r with Ok _ => EvPublished (deliveryMessage t) | Err _ => EvFailed (deliveryMessage t) end)] (mkDState w' hand waiting)
| d_subscribe c sh r w w' hand waiting :
    RSubscribe (worker c) sh w = (r, w') -> dstep (mkDState w hand waiting) [DRedis EvOther] (mkDState w' hand waiting)
| d_read c sh d w w' hand waiting :
    ourShard shards prefix group sh -> RNext (worker c) sh w = (Some d, w') ->
    dstep (mkDState w hand waiting) [DRedis (EvRead d)] (mkDState w' (d :: hand) waiting)
| d_idle c sh w w' hand waiting :
    ourShard shards prefix group sh -> RNext (worker c) sh w = (None, w') ->
    dstep (mkDState w hand waiting) [DRedis EvOther] (mkDState w' hand waiting)
| d_reclaim c sh r w w' hand waiting :
    ourShard shards prefix group sh -> RReclaim (worker c) sh (dc_ReclaimMinIdle cfg) w = (r, w') ->
    dstep (mkDState w hand waiting) [DRedis (EvReclaimed sh (match r with Ok ds => ds | Err _ => [] end))]
      (mkDState w' (match r with Ok ds => ds ++ hand | Err _ => hand end) waiting)
| d_handle c d v w w' hand1 hand2 waiting :
    handle (worker c) d w = (v, w') ->
    dstep (mkDState w (hand1 ++ d :: hand2) waiting)
      (match DecodeTask (msg_Payload (d_Message d)), v with Some t, Some v => endingOf t v | _, _ => [] end ++ [DRedis EvOther; DRedis (EvAck d)])
      (mkDState w' (hand1 ++ hand2) (scheduled v ++ waiting))
| d_killed c d t v w w' hand1 hand2 waiting :  (* the process dies between the attempt and the acknowledgement *)
    DecodeTask (msg_Payload (d_Message d)) = Some t -> processOn (worker c) t w = (v, w') ->
    dstep (mkDState w (hand1 ++ d :: hand2) waiting) [DRedis EvOther] (mkDState w' (hand1 ++ hand2) waiting)
| d_retry c t r w w' hand waiting1 waiting2 :  (* the timer fired, or the process shuts down *)
    publishOn (worker c) t w = (r, w') ->
    dstep (mkDState w hand (waiting1 ++ t :: waiting2))
      (match r with
       | None => [DRedis (EvPublished (deliveryMessage t))]
       | Some reason => [DRedis (EvFailed (deliveryMessage t)); DRedis EvOther; DSettled t (GivenUp reason)]
       end) (mkDState w' hand (waiting1 ++ waiting2))
| d_crash w hand hand' waiting waiting' lost : (* a process dies *)
    (forall d, In d hand' -> In d hand) -> waiting ≡ₚ lost ++ waiting' ->
    dstep (mkDState w hand waiting) (map DLost lost) (mkDState w hand' waiting')
| d_others w w' hand waiting :
    foreign shards prefix group w w' -> dstep (mkDState w hand waiting) [DRedis EvOther] (mkDState w' hand waiting).

Inductive drun (w0 : W) : list devent -> dstate -> Prop :=
| drun_nil : drun w0 [] (mkDState w0 [] [])
| drun_step tr s es s' : drun w0 tr s -> dstep s es s' -> drun w0 (tr ++ es) s'.
End Dispatcher.
