(* ===== verification/DispatchSound.v ===== *)
(** * No webhook delivery disappears

    Every task that entered the delivery stream is still on its way, was settled, or
    waited for its retry in a process that died. *)

From stdpp Require Import base list strings.
From Stdlib Require Import ZArith Lia Ascii Permutation.
From S2P Require Import Prelude GoMap Json Paths Diff DiffSound Domain Tenant Config Pipeline Queue Delivery WireSound RedisQueue RedisMem RedisSound Dispatch.

(** ** Tasks and messages *)

Definition taskOf (e : XMessage) : option Task := DecodeTask (msg_Payload (decodeValues (x_Values e))).

Lemma delivery_payload t : wireDelivery t = true -> DecodeTask (msg_Payload (deliveryMessage t)) = Some t.
Proof. intros Hw. destruct (delivery_roundtrip t) as (s & E & Hd). unfold deliveryMessage. cbn [msg_Payload]. rewrite E. by apply Hd. Qed.

Lemma delivery_attrs t : goAttrs (deliveryMessage t).
Proof. unfold goAttrs. apply msorted_nil. Qed.

Lemma sameDelivery_refl t : sameDelivery t t.
Proof. by split_and!. Qed.

Lemma wire_attempt n t : wireDelivery t = true -> int64 n = true -> wireDelivery (setAttempt n t) = true.
Proof. unfold wireDelivery, setAttempt. cbn. rewrite !andb_true_iff. tauto. Qed.

Lemma int64_wrap z : int64 (wrap64 z) = true.
Proof. unfold int64, wrap64. pose proof (Z.mod_pos_bound (z + 2 ^ 63) (2 ^ 64) ltac:(lia)). apply andb_true_iff. split; [apply Z.leb_le|apply Z.ltb_lt]; lia. Qed.

(** ** The attempt *)

Section Sound.
Context {W : Type} {RS : RedisStreams W} {SV : StreamView W} {SL : StreamLaws W} {RC : Receivers W}.
Variables (secrets : list (string * string)) (cfg : Config) (sink : bool) (jitter : Z -> Z)
  (statusText : Z -> string) (errorText : err -> string) (dlqID : string) (now : time).
Variables (shards : Z) (prefix group : string).
Abbreviation worker c := (NewRedisQueue shards prefix group c).
Abbreviation stream sh := (StreamName prefix sh).
Abbreviation our sh := (ourShard shards prefix group sh).
Abbreviation apart := (foreign shards prefix group).
Abbreviation grown := (RedisSound.grown shards prefix group).
Abbreviation step := (dstep secrets cfg sink jitter statusText errorText dlqID now shards prefix group).
Abbreviation run := (drun secrets cfg sink jitter statusText errorText dlqID now shards prefix group).

(** The receivers and the sink have nothing to do with the delivery streams. *)
Hypothesis receive_apart : forall t sig timeout w, apart w (snd (receive t sig timeout w)).
Hypothesis park_apart : forall c dl w, apart w (snd (park c dl w)).

Lemma dlq_apart q t reason w : apart w (@toDLQ W (dispatcherWorld q) sink dlqID now t reason w).
Proof. unfold toDLQ. destruct sink; [apply park_apart|apply apart_refl]. Qed.

Lemma process_apart q t w v w' : processOn secrets cfg sink jitter statusText dlqID now q t w = (v, w') -> apart w w'.
Proof.
  unfold processOn, process. destruct (mget (tk_SecretRef t) secrets) as [secret|]; [|intros [= _ <-]; apply dlq_apart].
  assert (apart w (snd (@deliver W (dispatcherWorld q) cfg statusText t secret w))) as Hd.
  { unfold deliver. cbn [PostWebhook dispatcherWorld]. pose proof (receive_apart t (Sign secret (tk_Body t)) (if (0 <? tk_TimeoutMS t)%Z then wrap64 (tk_TimeoutMS t * 1000000) else dc_DefaultTimeout cfg) w) as Hr.
    by destruct (receive _ _ _ w) as [[]]. }
  destruct (deliver _ _ _ _ w) as [[[m|m]|] w1]; cbn [snd] in Hd.
  - intros [= _ <-]. eapply apart_trans; [exact Hd|apply dlq_apart].
  - destruct (_ <=? _)%Z; intros [= _ <-]; [|done]. eapply apart_trans; [exact Hd|apply dlq_apart].
  - by intros [= _ <-].
Qed.

(** A copy of the task, whatever its attempt number was. *)
Lemma process_copies q t w v w' : wireDelivery t = true -> processOn secrets cfg sink jitter statusText dlqID now q t w = (v, w') ->
  match v with
  | Delivered => True
  | Parked t' _ => sameDelivery t t'
  | Retry _ next => sameDelivery t next /\ wireDelivery next = true /\ (tk_Attempt next < capOf cfg next)%Z
  end.
Proof.
  intros Hw. unfold processOn, process. destruct (mget _ secrets) as [secret|]; [|by intros [= <- _]; split_and!].
  destruct (deliver _ _ _ _ w) as [[[m|m]|] w1]; [by intros [= <- _]; split_and!| |by intros [= <- _]]. fold (capOf cfg t).
  destruct (Z.leb_spec (capOf cfg t) (wrap64 (tk_Attempt t + 1))) as [|Hlt]; intros [= <- _]; [by split_and!|].
  split_and!; [by split_and!|apply wire_attempt; [done|apply int64_wrap]|exact Hlt].
Qed.

(** ** Where a task is *)

(** In the stream and not acknowledged. *)
Definition held (tr : list devent) (w : W) (t : Task) : Prop :=
  exists sh e, our sh /\ In e (logOf w (stream sh)) /\ taskOf e = Some t /\ ~ ackedOn sh (x_ID e) (redisEvents tr).

Definition fate (tr : list devent) (s : dstate (W := W)) (t : Task) : Prop :=
  exists t', sameDelivery t t' /\
    (held tr (ds_world s) t' \/ In t' (ds_waiting s) \/ (exists how, In (DSettled t' how) tr) \/ In (DLost t') tr).

Record dinv (w0 : W) (tr : list devent) (s : dstate (W := W)) : Prop := {
  di_run : rrun shards prefix group w0 (redisEvents tr) (ds_world s);
  di_hand : forall d, In d (ds_hand s) -> our (d_Shard d) /\
    exists e, In e (logOf (ds_world s) (stream (d_Shard d))) /\ d_ID d = x_ID e /\ d_Message d = decodeValues (x_Values e);
  di_sent : forall m, offered m (redisEvents tr) -> exists t, wireDelivery t = true /\ m = deliveryMessage t;
  di_acks : forall d, In (EvAck d) (redisEvents tr) -> our (d_Shard d) /\ In (d_ID d) (map x_ID (logOf (ds_world s) (stream (d_Shard d))));
  di_waiting : forall t, In t (ds_waiting s) -> wireDelivery t = true /\ (tk_Attempt t < capOf cfg t)%Z;
  di_fate : forall sh e t, our sh -> In e (logOf (ds_world s) (stream sh)) -> taskOf e = Some t -> fate tr s t }.

Lemma redis_app tr es : redisEvents (tr ++ es) = redisEvents tr ++ redisEvents es.
Proof. apply flat_map_app. Qed.

Lemma fate_same tr s t t' : sameDelivery t t' -> fate tr s t' -> fate tr s t.
Proof. intros Hs (t'' & Hs' & Hf). exists t''. split; [by eapply sameDelivery_trans|done]. Qed.

Lemma fate_now tr s t : (held tr (ds_world s) t \/ In t (ds_waiting s) \/ (exists how, In (DSettled t how) tr) \/ In (DLost t) tr) -> fate tr s t.
Proof. intros Hf. exists t. split; [apply sameDelivery_refl|done]. Qed.

Lemma held_stays tr es (w w' : W) t : grown (redisEvents es) w w' -> (forall d, ~ In (EvAck d) (redisEvents es)) -> held tr w t -> held (tr ++ es) w' t.
Proof.
  intros Hg Hno (sh & e & Ho & He & Ht & Ha). exists sh, e. split_and!; [done|by apply (Hg sh Ho)|done|]. rewrite redis_app. intros [|(d & Hd & _)]%acked_app; [done|by eapply Hno].
Qed.

(** One step of the dispatchers, given what it does to the queue. *)
Lemma dinv_next w0 tr es s s' : dinv w0 tr s -> rrun shards prefix group (ds_world s) (redisEvents es) (ds_world s') ->
  (forall m, offered m (redisEvents es) -> exists t, wireDelivery t = true /\ m = deliveryMessage t) ->
  (forall d, In d (ds_hand s') -> In d (ds_hand s) \/ our (d_Shard d) /\
     exists e, In e (logOf (ds_world s') (stream (d_Shard d))) /\ d_ID d = x_ID e /\ d_Message d = decodeValues (x_Values e)) ->
  (forall t, In t (ds_waiting s') -> In t (ds_waiting s) \/ wireDelivery t = true /\ (tk_Attempt t < capOf cfg t)%Z) ->
  (forall d, In (EvAck d) (redisEvents es) -> In d (ds_hand s)) ->
  (forall d, ~ In (EvAck d) (redisEvents es)) \/ (forall m, ~ offered m (redisEvents es)) ->
  (forall t, held tr (ds_world s) t -> fate (tr ++ es) s' t) -> (forall t, In t (ds_waiting s) -> fate (tr ++ es) s' t) -> dinv w0 (tr ++ es) s'.
Proof.
  intros [Hr Hh Hs Ha Hw Hf] Hseg Hsent Hhand Hwait Hacks Hone Hheld Hwaits. pose proof (run_grown _ _ _ Hseg) as Hg. split.
  - rewrite redis_app. by eapply run_app.
  - intros d Hd. destruct (Hhand d Hd) as [Hin|]; [|done]. destruct (Hh d Hin) as (Ho & e & He & E). split; [done|]. exists e. split; [by apply (Hg _ Ho)|done].
  - intros m. rewrite redis_app, offered_app. intros [|]; [by apply Hs|by apply Hsent].
  - intros d. rewrite redis_app, in_app_iff. intros [Hd|Hd].
    + destruct (Ha d Hd) as (Ho & (x & E & Hx)%in_map_iff). split; [done|]. apply in_map_iff. exists x. split; [done|by apply (Hg _ Ho)].
    + destruct (Hh d (Hacks d Hd)) as (Ho & e & He & -> & _). split; [done|]. by apply in_map, (Hg _ Ho).
  - intros t Ht. destruct (Hwait t Ht); [by apply Hw|done].
  - intros sh e t Ho He Ht. destruct (proj2 (Hg sh Ho) e He) as [Hin|(Hid & m & Hm & _)].
    + destruct (Hf sh e t Ho Hin Ht) as (t' & Hsame & Hcase). apply (fate_same _ _ t t' Hsame).
      destruct Hcase as [?|[?|[[how ?]|?]]]; [by apply Hheld|by apply Hwaits|apply fate_now; right; right; left; exists how; apply in_app_iff; by left|apply fate_now; right; right; right; apply in_app_iff; by left].
    + apply fate_now. left. exists sh, e. split_and!; [done..|]. rewrite redis_app. intros [(d & Hd & E1 & E2)|(d & Hd & _)]%acked_app.
      * destruct (Ha d Hd) as [_ Hin]. rewrite E1, E2 in Hin. done.
      * destruct Hone as [Hno|Hno]; [by eapply Hno|by eapply Hno].
Qed.

(** A step that acknowledges nothing and lets no retry go. *)
Lemma dinv_plain w0 tr es s s' : dinv w0 tr s -> rrun shards prefix group (ds_world s) (redisEvents es) (ds_world s') ->
  (forall m, offered m (redisEvents es) -> exists t, wireDelivery t = true /\ m = deliveryMessage t) ->
  (forall d, In d (ds_hand s') -> In d (ds_hand s) \/ our (d_Shard d) /\
     exists e, In e (logOf (ds_world s') (stream (d_Shard d))) /\ d_ID d = x_ID e /\ d_Message d = decodeValues (x_Values e)) ->
  ds_waiting s' = ds_waiting s -> (forall d, ~ In (EvAck d) (redisEvents es)) -> dinv w0 (tr ++ es) s'.
Proof.
  intros Hi Hseg Hsent Hhand Hwait Hno. eapply dinv_next; try done.
  - rewrite Hwait. by left.
  - intros d Hd. by destruct (Hno d).
  - by left.
  - intros t Ht. apply fate_now. left. by eapply held_stays; [apply run_grown|..].
  - intros t Ht. apply fate_now. right. left. by rewrite Hwait.
Qed.

(** ** The steps *)

Variable w0 : W.
Hypothesis fresh : freshStreams shards prefix group w0.

Lemma entry_wire tr s sh e : dinv w0 tr s -> our sh -> In e (logOf (ds_world s) (stream sh)) ->
  exists t, wireDelivery t = true /\ decodeValues (x_Values e) = deliveryMessage t /\ taskOf e = Some t.
Proof.
  intros Hi Ho He. pose proof (inv_run shards prefix group w0 _ _ sh fresh Ho (di_run _ _ _ Hi)) as Hinv.
  destruct (li_origin _ _ _ _ _ _ _ _ Hinv (decodeValues (x_Values e))) as [Hoff _]; [by apply (in_map (fun e => decodeValues (x_Values e)))|].
  destruct (di_sent _ _ _ Hi _ Hoff) as (t & Hw & E). exists t. split_and!; [done|done|]. unfold taskOf. rewrite E. by apply delivery_payload.
Qed.

Lemma handle_segment c d v (w w' : W) : our (d_Shard d) -> handle secrets cfg sink jitter statusText dlqID now (worker c) d w = (v, w') ->
  rrun shards prefix group w [EvOther; EvAck d] w' /\
  match DecodeTask (msg_Payload (d_Message d)) with
  | Some t => exists v0 w1, v = Some v0 /\ processOn secrets cfg sink jitter statusText dlqID now (worker c) t w = (v0, w1)
  | None => v = None
  end.
Proof.
  intros Ho. unfold handle. assert (forall w1, apart w w1 -> rrun shards prefix group w [EvOther; EvAck d] (snd (RAck (worker c) d w1))) as Hseg.
  { intros w1 Ha. change [EvOther; EvAck d] with ([EvOther] ++ [EvAck d]). eapply rrun_snoc; [apply run_one; by eapply rs_others|]. destruct (RAck (worker c) d w1) as [r w2] eqn:E. by eapply rs_ack. }
  destruct (DecodeTask _) as [t|].
  - destruct (processOn _ _ _ _ _ _ _ _ t w) as [v0 w1] eqn:E. intros [= <- <-]. split; [apply Hseg; by eapply process_apart|by exists v0, w1].
  - intros [= <- <-]. split; [apply Hseg, apart_refl|done].
Qed.

Lemma dinv_handle tr c d v w w' hand1 hand2 waiting : dinv w0 tr (mkDState w (hand1 ++ d :: hand2) waiting) ->
  handle secrets cfg sink jitter statusText dlqID now (worker c) d w = (v, w') ->
  dinv w0 (tr ++ (match DecodeTask (msg_Payload (d_Message d)), v with Some t, Some v => endingOf t v | _, _ => [] end ++ [DRedis EvOther; DRedis (EvAck d)]))
    (mkDState w' (hand1 ++ hand2) (scheduled v ++ waiting)).
Proof.
  intros Hi Hrun. destruct (di_hand _ _ _ Hi d) as (Ho & e & He & Hid & Hm); [apply in_app_iff; right; by left|]. cbn [ds_world] in He.
  destruct (entry_wire _ _ _ _ Hi Ho He) as (t & Hw & Hd & Ht). unfold taskOf in Ht. rewrite <- Hm in Ht. destruct (handle_segment _ _ _ _ _ Ho Hrun) as [Hseg Hv]. rewrite Ht in *.
  destruct Hv as (v0 & w1 & -> & Hp). pose proof (process_copies _ _ _ _ _ Hw Hp) as Hc.
  assert (redisEvents (endingOf t v0 ++ [DRedis EvOther; DRedis (EvAck d)]) = [EvOther; EvAck d]) as Hev by (by destruct v0).
  assert (fate (tr ++ endingOf t v0 ++ [DRedis EvOther; DRedis (EvAck d)]) (mkDState w' (hand1 ++ hand2) (scheduled (Some v0) ++ waiting)) t) as Hnow.
  { destruct v0 as [|t' reason|delay next]; cbn [endingOf scheduled].
    - apply fate_now. right. right. left. exists Accepted. rewrite !in_app_iff. right. left. by left.
    - apply (fate_same _ _ t t' Hc), fate_now. right. right. left. exists (GivenUp reason). rewrite !in_app_iff. right. left. by left.
    - apply (fate_same _ _ t next (proj1 Hc)), fate_now. right. left. by left. }
  eapply dinv_next; [exact Hi|by rewrite Hev|rewrite Hev|..].
  - intros m [Hx|Hx]; by repeat destruct Hx as [[=]|Hx].
  - intros d' Hd'. left. cbn [ds_hand] in *. rewrite !in_app_iff in *. cbn. tauto.
  - intros t' Ht'. cbn [ds_waiting] in Ht'. apply in_app_iff in Ht' as [Ht'|Ht']; [right|by left]. destruct v0; cbn in Ht'; try done. destruct Ht' as [<-|[]]. tauto.
  - rewrite Hev. intros d' Hx. destruct Hx as [[=]|[[= <-]|[]]]. apply in_app_iff. right. by left.
  - right. rewrite Hev. intros m [Hx|Hx]; by repeat destruct Hx as [[=]|Hx].
  - intros t' (sh & e' & Ho' & He' & Ht' & Hna). destruct (decide (sh = d_Shard d /\ x_ID e' = d_ID d)) as [[-> Ex]|Hne].
    + assert (e' = e) as -> by (eapply entry_unique; [exact fresh|exact (di_run _ _ _ Hi)|done..|congruence]). unfold taskOf in Ht'. rewrite <- Hm, Ht in Ht'. injection Ht' as <-. exact Hnow.
    + apply fate_now. left. exists sh, e'. split_and!; [done| |done|].
      * apply (run_grown _ _ _ Hseg sh Ho'). exact He'.
      * rewrite redis_app, Hev. intros [|(d' & Hx & E1 & E2)]%acked_app; [done|]. destruct Hx as [[=]|[[= <-]|[]]]. by destruct Hne.
  - intros t' Ht'. apply fate_now. right. left. apply in_app_iff. by right.
Qed.

Lemma publish_held tr c t w w' hand waiting : dinv w0 tr (mkDState w hand waiting) -> wireDelivery t = true -> RPublish (worker c) (deliveryMessage t) w = (Ok tt, w') ->
  forall es, redisEvents es = [EvPublished (deliveryMessage t)] -> held (tr ++ es) w' t.
Proof.
  intros Hi Hw Hp es Hes. unfold RPublish in Hp. destruct (XAdd _ _ w) as [[id|x] w1] eqn:E; [|done]. injection Hp as <-.
  destruct (xadd_ok _ _ _ _ _ E) as (Hid & Hl & _). set (sh := Shard (msg_Key (deliveryMessage t)) (rq_shards (worker c))) in *.
  assert (our sh) as Ho by (apply shard_range; cbn; destruct (Z.ltb_spec shards 1); lia).
  exists sh, (mkXMessage id (entryValues (deliveryMessage t))). split_and!; [done|unfold streamOf in Hl; cbn [rq_prefix NewRedisQueue] in Hl; rewrite Hl; apply in_app_iff; right; by left| |].
  - unfold taskOf. cbn [x_Values]. rewrite entry_roundtrip by apply delivery_attrs. by apply delivery_payload.
  - rewrite redis_app, Hes. cbn [x_ID]. intros [(d & Hd & E1 & E2)|(d & [[=]|[]] & _)]%acked_app. destruct (di_acks _ _ _ Hi d Hd) as [_ Hin]. rewrite E1, E2 in Hin. by apply Hid.
Qed.

Lemma dinv_retry tr c t r w w' hand waiting1 waiting2 : dinv w0 tr (mkDState w hand (waiting1 ++ t :: waiting2)) ->
  publishOn sink errorText dlqID now (worker c) t w = (r, w') ->
  dinv w0 (tr ++ match r with
                 | None => [DRedis (EvPublished (deliveryMessage t))]
                 | Some reason => [DRedis (EvFailed (deliveryMessage t)); DRedis EvOther; DSettled t (GivenUp reason)]
                 end) (mkDState w' hand (waiting1 ++ waiting2)).
Proof.
  intros Hi. destruct (di_waiting _ _ _ Hi t) as [Hw _]; [apply in_app_iff; right; by left|]. unfold publishOn, publish. cbn [Requeue dispatcherWorld]. fold (deliveryMessage t).
  assert (forall es s', (forall m, offered m (redisEvents es) -> m = deliveryMessage t) -> (forall d, ~ In (EvAck d) (redisEvents es)) ->
    rrun shards prefix group w (redisEvents es) (ds_world s') -> ds_hand s' = hand -> ds_waiting s' = waiting1 ++ waiting2 -> fate (tr ++ es) s' t -> dinv w0 (tr ++ es) s') as Hnext.
  { intros es s' Hof Hno Hseg Hh Hwt Hft. eapply dinv_next; [exact Hi|exact Hseg|..].
    - intros m Hm. exists t. split; [done|by apply Hof].
    - rewrite Hh. by left.
    - rewrite Hwt. intros t' Ht'. left. cbn [ds_waiting]. rewrite !in_app_iff in *. cbn. tauto.
    - intros d Hd. by destruct (Hno d).
    - by left.
    - intros t' Ht'. apply fate_now. left. by eapply held_stays; [apply run_grown|..].
    - intros t' Ht'. cbn [ds_waiting] in Ht'. apply in_app_iff in Ht' as [Ht'|[<-|Ht']]; [apply fate_now; right; left; rewrite Hwt; apply in_app_iff; by left|done|].
      apply fate_now. right. left. rewrite Hwt. apply in_app_iff. by right. }
  destruct (RPublish (worker c) (deliveryMessage t) w) as [[[]|x] w1] eqn:E; intros [= <- <-].
  - apply Hnext; try done; [intros m [[[= <-]|[]]|[[=]|[]]]; done|intros d [[=]|[]]|apply run_one; by eapply rs_publish; [apply delivery_attrs|]|].
    apply fate_now. left. by eapply publish_held.
  - apply Hnext; try done; [intros m [[[=]|[[=]|[]]]|[[= <-]|[[=]|[]]]]; done|intros d [[=]|[[=]|[]]]| |apply fate_now; right; right; left; eexists; apply in_app_iff; right; right; right; by left].
    change (redisEvents _) with ([EvFailed (deliveryMessage t)] ++ [EvOther]). eapply rrun_snoc; [apply run_one; by eapply rs_failed; [apply delivery_attrs|]|]. apply rs_others, dlq_apart.
Qed.

Lemma dinv_step tr s es s' : dinv w0 tr s -> step s es s' -> dinv w0 (tr ++ es) s'.
Proof.
  intros Hi Hs. destruct Hs as [c t r w w' hand waiting Hw E|c sh r w w' hand waiting E|c sh d w w' hand waiting Ho E|c sh w w' hand waiting Ho E|c sh r w w' hand waiting Ho E
    |c d v w w' hand1 hand2 waiting E|c d t v w w' hand1 hand2 waiting Ht E|c t r w w' hand waiting1 waiting2 E|w hand hand' waiting waiting' lost Hh Hl|w w' hand waiting Hf].
  - eapply dinv_plain; [exact Hi| | |by left|done|by destruct r; intros d [[=]|[]]].
    + apply run_one. cbn [ds_world]. destruct r as [[]|x]; [eapply rs_publish|eapply rs_failed]; try apply delivery_attrs; exact E.
    + intros m Hm. exists t. split; [done|]. by destruct r, Hm as [Hm|Hm], Hm as [[= <-]|[]].
  - eapply dinv_plain; [exact Hi|apply run_one; by eapply rs_subscribe|by intros m [[[=]|[]]|[[=]|[]]]|by left|done|by intros d [[=]|[]]].
  - eapply dinv_plain; [exact Hi|apply run_one; by eapply rs_read|by intros m [[[=]|[]]|[[=]|[]]]| |done|by intros d' [[=]|[]]].
    intros d' [<-|Hd]; [right|by left]. destruct (read_entry _ _ _ _ _ E) as [<- He]. done.
  - eapply dinv_plain; [exact Hi|apply run_one; by eapply rs_idle|by intros m [[[=]|[]]|[[=]|[]]]|by left|done|by intros d [[=]|[]]].
  - eapply dinv_plain; [exact Hi|apply run_one; by eapply rs_reclaim|by intros m [[[=]|[]]|[[=]|[]]]| |done|by intros d [[=]|[]]].
    destruct r as [ds|x]; [|by left]. intros d [Hd|Hd]%in_app_iff; [right|by left]. destruct (reclaim_entry _ _ _ _ _ _ _ E Hd) as [<- He]. done.
  - by eapply dinv_handle.
  - eapply dinv_plain; [exact Hi|apply run_one, rs_others; by eapply process_apart|by intros m [[[=]|[]]|[[=]|[]]]| |done|by intros d' [[=]|[]]].
    intros d' Hd'. left. cbn [ds_hand] in *. rewrite !in_app_iff in *. cbn. tauto.
  - by eapply dinv_retry.
  - assert (redisEvents (map DLost lost) = []) as Hev by (clear; by induction lost). eapply dinv_next; [exact Hi|rewrite Hev; apply rrun_nil|rewrite Hev; by intros m [[]|[]]|intros d Hd; left; by apply Hh| |rewrite Hev; by intros d []|left; rewrite Hev; by intros d []| |].
    + intros t Ht. left. cbn [ds_waiting] in *. rewrite Hl. apply in_app_iff. by right.
    + intros t Ht. apply fate_now. left. eapply held_stays; [rewrite Hev; by apply grown_same|rewrite Hev; by intros d []|exact Ht].
    + intros t Ht. cbn [ds_waiting] in Ht. rewrite Hl in Ht. apply in_app_iff in Ht as [Ht|Ht]; apply fate_now; right; [right; right; apply in_app_iff; right; by apply in_map|by left].
  - eapply dinv_plain; [exact Hi|apply run_one; by eapply rs_others|by intros m [[[=]|[]]|[[=]|[]]]|by left|done|by intros d [[=]|[]]].
Qed.

Lemma dinv_run tr s : run w0 tr s -> dinv w0 tr s.
Proof.
  induction 1 as [|tr s es s' _ IH Hs]; [|by eapply dinv_step]. split; cbn; try done; [constructor|by intros m [[]|[]]|]. intros sh e t Ho. destruct (fresh sh Ho) as [-> _]. done.
Qed.

(** ** What an ending means *)

(** The receiver answered 2xx to this task, signed with the secret of its rule. *)
Definition answered (t : Task) : Prop :=
  exists secret timeout w code, mget (tk_SecretRef t) secrets = Some secret /\ fst (receive t (Sign secret (tk_Body t)) timeout w) = Status code /\ (200 <= code < 300)%Z.

Lemma process_answered q t w w' : processOn secrets cfg sink jitter statusText dlqID now q t w = (Delivered, w') -> answered t.
Proof.
  unfold processOn, process. destruct (mget (tk_SecretRef t) secrets) as [secret|] eqn:Es; [|done].
  destruct (deliver _ _ _ _ w) as [[[m|m]|] w1] eqn:E; [done|by destruct (_ <=? _)%Z|]. intros _. unfold deliver in E. cbn [PostWebhook dispatcherWorld] in E.
  destruct (receive _ _ _ w) as [[code|m|m] w2] eqn:Er; [|done..]. destruct (_ && _) eqn:Ec; [|done]. apply andb_true_iff in Ec as [Hl%Z.leb_le Hh%Z.ltb_lt].
  exists secret. eexists. exists w, code. rewrite Er. done.
Qed.

Lemma settled_answered tr s t : run w0 tr s -> In (DSettled t Accepted) tr -> answered t.
Proof.
  induction 1 as [|tr s es s' _ IH Hs]; [done|]. intros [Hin|Hin]%in_app_iff; [by apply IH|].
  destruct Hs as [| | | | |c d v w w' hand1 hand2 waiting E| |c x r w w' hand waiting1 waiting2 E|w hand hand' waiting waiting' lost _ _|]; try (by destruct Hin as [[=]|[]]).
  - apply in_app_iff in Hin as [Hin|Hin]; [|by destruct Hin as [[=]|[[=]|[]]]]. unfold handle in E. destruct (DecodeTask _) as [t0|]; [|done].
    destruct (processOn _ _ _ _ _ _ _ _ t0 w) as [v0 w1] eqn:Ep. injection E as <- _. destruct v0; cbn in Hin; [|by destruct Hin as [[=]|[]]|done].
    destruct Hin as [[= <-]|[]]. by eapply process_answered.
  - destruct r; by repeat destruct Hin as [[=]|Hin].
  - by apply in_map_iff in Hin as (y & [=] & _).
Qed.

End Sound.

(** ** A delivery that is lost

    A run of the dispatcher on the Redis of [RedisMem.v], with a receiver that answers
    500: the message is acknowledged, and the process dies during the backoff. *)

#[local] Instance failing : Receivers redis := { receive _ _ _ w := (Status 500, w); park _ _ w := (Ok tt, w) }.

Definition hook : Task := mkTask (mkTenantRef "acme" "" "") "dlv_1" "rule_1" "" "crm.deals" "https://hooks.example" "s1" 0 0 0 "{}".

Abbreviation lostRun := (drun [("s1", "k")] (withDefaults ex_dcfg) true id (fun _ => "Internal Server Error") (fun _ => "down") "dlq_1" 7 1 "letopis:deliveries" "workers").
Abbreviation node := (NewRedisQueue 1 "letopis:deliveries" "workers" "node-1").

Definition hookRead : option (Delivery string) * redis :=
  Eval vm_compute in RNext node 0 (snd (RPublish node (deliveryMessage hook) (snd (RSubscribe node 0 redis0)))).
Definition hookDelivery : Delivery string := Eval vm_compute in default (mkDelivery (mkMessage "" "" []) "" 0 0) (fst hookRead).
Definition hookAfter : redis := Eval vm_compute in snd (RAck node hookDelivery (snd hookRead)).

Lemma one_shard sh : ourShard 1 "letopis:deliveries" "workers" sh -> sh = 0%Z.
Proof. unfold ourShard. cbn. lia. Qed.

Lemma lost_run : lostRun redis0
    ([DRedis EvOther; DRedis (EvPublished (deliveryMessage hook)); DRedis (EvRead hookDelivery); DRedis EvOther; DRedis (EvAck hookDelivery); DLost (setAttempt 1 hook)])
    (mkDState hookAfter [] []).
Proof.
  assert (ourShard 1 "letopis:deliveries" "workers" 0) as Ho by (unfold ourShard; cbn; lia).
  change ([DRedis EvOther; DRedis (EvPublished (deliveryMessage hook)); DRedis (EvRead hookDelivery); DRedis EvOther; DRedis (EvAck hookDelivery); DLost (setAttempt 1 hook)])
    with ((((([] ++ [DRedis EvOther]) ++ [DRedis (EvPublished (deliveryMessage hook))]) ++ [DRedis (EvRead hookDelivery)]) ++ ([] ++ [DRedis EvOther; DRedis (EvAck hookDelivery)])) ++ map DLost [setAttempt 1 hook]).
  eapply drun_step; [eapply drun_step; [eapply drun_step; [eapply drun_step; [eapply drun_step; [apply drun_nil|]|]|]|]|].
  - apply (d_subscribe _ _ _ _ _ _ _ _ _ _ _ "node-1" 0 (Ok tt)). reflexivity.
  - apply (d_publish _ _ _ _ _ _ _ _ _ _ _ "node-1" hook (Ok tt)); vm_compute; reflexivity.
  - apply (d_read _ _ _ _ _ _ _ _ _ _ _ "node-1" 0 hookDelivery); [exact Ho|vm_compute; reflexivity].
  - apply (d_handle _ _ _ _ _ _ _ _ _ _ _ "node-1" hookDelivery (Some (Retry 500000000 (setAttempt 1 hook))) _ hookAfter [] [] []). vm_compute. reflexivity.
  - by apply d_crash.
Qed.

