(* ===== verification/WriteFate.v ===== *)
(** * Queued writes from the API to the worker (internal/service/pipeline.go, internal/worker/worker.go over internal/queue/redisstreams)

    The API processes accept writes and publish them to the durable stream; the workers
    take them off the stream, apply them and acknowledge what they settled.  Any number of
    both share the streams; the death of a process is a step too.  The invariant of a run
    says where every accepted write is, and the last part evaluates a run on a Redis and a
    store in memory. *)

From stdpp Require Import base list strings gmap.
From Stdlib Require Import ZArith Lia Ascii.
From S2P Require Import Prelude GoMap Json Paths Diff DiffSound Domain Tenant Config Alias Repo Plugin Ingest MemStore Pipeline AsyncMem Numbers Queue Worker WorkerSound JsonText JsonSound WireSound TaskWire TaskSound RedisQueue RedisMem RedisSound.

(** ** The worker on its Redis queue *)

Section OnRedis.
Context {W : Type} `{RedisStreams W} `{TicketStore W}.
Context `{EventRepository W} `{CurrentRepository W} `{SnapshotRepository W} `{CollectionRepository W}.
Variables grow dcap : nat -> nat.
Variable errorText : err -> string.

(** [Worker.handle]: a failed acknowledgement is only logged. *)
Definition handleOn (q : redisQueue) (wk : Worker (W := W)) (cr : ConfigResolver) (now nowNano : Z) (c : ctx) (d : Delivery string) (w : W) : outcome * ConfigResolver * W :=
  match process grow dcap errorText wk cr now c d w with
  | (Processed, cr', w') => (Processed, cr', snd (RAck q d (recordLag wk nowNano d w')))
  | (Poison e, cr', w') => (Poison e, cr', snd (RAck q d w'))
  | (Retryable e, cr', w') => (Retryable e, cr', w')
  end.
End OnRedis.

(** ** Runs *)

(** What a run shows: the receipts the API gave, and how a task ended. *)
Inductive wevent := WAccepted (t : Task) | WDone (t : Task) (failure : option err).

Section Runs.
Context {W : Type} `{RedisStreams W} `{StreamView W} `{TicketStore W} `{IdempotencyStore W}.
Context `{EventRepository W} `{CurrentRepository W} `{SnapshotRepository W} `{CollectionRepository W}.
Variables grow dcap : nat -> nat.
Variable errorText : err -> string.
Variables (shards : Z) (prefix group : string).
Abbreviation queueOf c := (NewRedisQueue shards prefix group c).
Abbreviation apart := (foreign shards prefix group).
Abbreviation async := (AsyncIngester (W := W) (P := string)).

(** An API process: the stream is its durable queue, and nothing else of it uses the
    stream. *)
Record apiProcess (c : string) (a : async) : Prop := {
  api_durable : pl_durable (as_pipe a) = RPublish (queueOf c);
  api_fast : forall q, pl_fast (as_pipe a) = Some q -> forall m w, apart w (snd (q m w));
  api_hooks : hooksIn apart (as_sync a) }.

Record workerProcess (wk : Worker (W := W)) : Prop := {
  wp_hooks : hooksIn apart (wk_ing wk);
  wp_metrics : forall set, wk_metrics wk = Some set -> forall q s w, apart w (set q s w) }.

(** Whether [Publish] takes the durable queue. *)
Definition durably (a : async) (mode : string) : bool :=
  match pl_fast (as_pipe a) with Some _ => negb (str_eqb mode ReliabilityFast) | None => true end.

(** The receipt of a write: answered as queued and not as a duplicate. *)
Definition receipts (a : async) (ticketID : string) (now : time) (cr : ConfigResolver) (x : ctx) (kind : string) (cmd : IngestCommand) (w : W) (r : res err IngestResult) : list wevent :=
  match EnsureCollection cr now x (ic_Collection cmd) w with
  | (Ok cfg, _, _) =>
      let mode := effectiveMode (ic_Mode cmd) (Some cfg) in
      match r, x with
      | Ok res, Some p => if ir_Async res && negb (ir_Deduplicated res) && durably a mode then [WAccepted (mkTask (tenantRef p) kind mode ticketID cmd)] else []
      | _, _ => []
      end
  | _ => []
  end.

(** The receipt of an entry of a batch. *)
Definition itemReceipts (a : async) (x : ctx) (kind mode : string) (cmd : IngestCommand) (r : res err bool) : list wevent :=
  match r, x with
  | Ok false, Some p => if durably a mode then [WAccepted (mkTask (tenantRef p) kind mode "" cmd)] else []
  | _, _ => []
  end.

Definition endings (d : Delivery string) (o : outcome) : list wevent :=
  match Decode (msg_Payload (d_Message d)), o with
  | Some t, Processed => [WDone t None]
  | Some t, Poison (Some e) => [WDone t (Some e)]
  | _, _ => []
  end.

(** The deliveries the loops hold. *)
Record wstate := mkWState { ws_world : W; ws_hand : list (Delivery string) }.

(** The last two steps cover a process that dies: in the middle of its storage commands,
    and with deliveries in hand. *)
Inductive wstep : wstate -> list wevent -> wstate -> Prop :=
| w_write c a ticketID now nowNano cr x kind cmd r cr' w w' hand :   (* [State], [Diff], [Delete] *)
    apiProcess c a -> dispatch grow dcap a ticketID now nowNano cr x kind cmd w = (r, cr', w') ->
    wstep (mkWState w hand) (receipts a ticketID now cr x kind cmd w r) (mkWState w' hand)
| w_item c a receiptID nowNano x kind mode cmd r w w' hand :
    apiProcess c a -> acceptBatchItem a receiptID nowNano x kind mode cmd w = (r, w') ->
    wstep (mkWState w hand) (itemReceipts a x kind mode cmd r) (mkWState w' hand)
| w_publish c m r w w' hand :                                        (* the API dies before it answers *)
    goAttrs m -> RPublish (queueOf c) m w = (r, w') -> wstep (mkWState w hand) [] (mkWState w' hand)
| w_subscribe c sh r w w' hand : RSubscribe (queueOf c) sh w = (r, w') -> wstep (mkWState w hand) [] (mkWState w' hand)
| w_read c sh d w w' hand :
    ourShard shards prefix group sh -> RNext (queueOf c) sh w = (Some d, w') -> wstep (mkWState w hand) [] (mkWState w' (d :: hand))
| w_idle c sh w w' hand :
    ourShard shards prefix group sh -> RNext (queueOf c) sh w = (None, w') -> wstep (mkWState w hand) [] (mkWState w' hand)
| w_reclaim c sh minIdle r w w' hand :
    ourShard shards prefix group sh -> RReclaim (queueOf c) sh minIdle w = (r, w') ->
    wstep (mkWState w hand) [] (mkWState w' (match r with Ok ds => ds ++ hand | Err _ => hand end))
| w_handle c wk cr now nowNano x d o cr' w w' hand1 hand2 :
    workerProcess wk -> handleOn grow dcap errorText (queueOf c) wk cr now nowNano x d w = (o, cr', w') ->
    wstep (mkWState w (hand1 ++ d :: hand2)) (endings d o) (mkWState w' (hand1 ++ hand2))
| w_others w w' hand : apart w w' -> wstep (mkWState w hand) [] (mkWState w' hand)
| w_crash w hand hand' : (forall d, In d hand' -> In d hand) -> wstep (mkWState w hand) [] (mkWState w hand').

Inductive wrun (w0 : W) : list wevent -> wstate -> Prop :=
| wrun_nil : wrun w0 [] (mkWState w0 [])
| wrun_step tr s es s' : wrun w0 tr s -> wstep s es s' -> wrun w0 (tr ++ es) s'.
End Runs.

(** ** No accepted write disappears

    Every write the API answered with a receipt is in the stream until a worker settled
    it: stored, or failed for good. *)

Create HintDb writes.

(** Tickets and reservations stay in a relation too. *)
Class SideEffects {W : Type} `{TicketStore W} `{IdempotencyStore W} (R : W -> W -> Prop) := {
  se_create : forall c t w, R w (snd (TicketCreate c t w));
  se_save : forall c t w, R w (snd (TicketSave c t w));
  se_reserve : forall c k r w, R w (snd (Reserve c k r w));
  se_release : forall c k w, R w (snd (Release c k w)) }.

Section Fate.
Context {W : Type} {RS : RedisStreams W} {SV : StreamView W} {SL : StreamLaws W} {TS : TicketStore W} {IS : IdempotencyStore W}.
Context {ER : EventRepository W} {CR : CurrentRepository W} {SR : SnapshotRepository W} {CO : CollectionRepository W}.
Variables grow dcap : nat -> nat.
Variable errorText : err -> string.
Variables (shards : Z) (prefix group : string).
Abbreviation queueOf c := (NewRedisQueue shards prefix group c).
Abbreviation stream sh := (StreamName prefix sh).
Abbreviation our sh := (ourShard shards prefix group sh).
Abbreviation apart := (foreign shards prefix group).
Abbreviation qrun := (rrun shards prefix group).
Abbreviation api := (apiProcess shards prefix group).
Abbreviation step := (wstep grow dcap errorText shards prefix group).
Abbreviation run := (wrun grow dcap errorText shards prefix group).
Abbreviation async := (AsyncIngester (W := W) (P := string)).

(** The storage, the tickets and the reservations are not in our streams. *)
Context {EF : Effects (W := W) apart} {SE : SideEffects (W := W) apart}.
Implicit Types (w : W) (t : Task) (a : async).

(** ** What a process does to the queue *)

Definition calm (es : list revent) : Prop := forall d, ~ In (EvAck d) es.
Definition taskKey t : string := ShardKey (ref_ID (task_Tenant t)) (ic_Collection (task_Command t)) (ic_EntityID (task_Command t)).
Definition published t (es : list revent) : Prop := exists m, In (EvPublished m) es /\ msg_Key m = taskKey t /\ Encode t = Some (msg_Payload m).

(** Without acknowledgements; [sends]: with a publication of the task. *)
Definition silent w w' : Prop := exists es, qrun w es w' /\ calm es.
Definition sends t w w' : Prop := exists es, qrun w es w' /\ calm es /\ published t es.

Lemma calm_app es es' : calm es -> calm es' -> calm (es ++ es').
Proof. intros H1 H2 d [Hd|Hd]%in_app_iff; [by eapply H1|by eapply H2]. Qed.

Lemma published_app t es es' : published t es \/ published t es' -> published t (es ++ es').
Proof. intros [(m & Hm & E)|(m & Hm & E)]; exists m; rewrite in_app_iff; tauto. Qed.

Lemma silent_apart w w' : apart w w' -> silent w w'.
Proof. intros Ha. exists [EvOther]. split; [by apply run_one, rs_others|]. by intros d [[=]|[]]. Qed.

Lemma silent_trans w1 w2 w3 : silent w1 w2 -> silent w2 w3 -> silent w1 w3.
Proof. intros (es & Hr & Hc) (es' & Hr' & Hc'). exists (es ++ es'). split; [by eapply run_app|by apply calm_app]. Qed.

Lemma sends_l t w1 w2 w3 : silent w1 w2 -> sends t w2 w3 -> sends t w1 w3.
Proof. intros (es & Hr & Hc) (es' & Hr' & Hc' & Hp). exists (es ++ es'). split_and!; [by eapply run_app|by apply calm_app|apply published_app; by right]. Qed.

Lemma sends_silent t w w' : sends t w w' -> silent w w'.
Proof. intros (es & Hr & Hc & _). by exists es. Qed.
Hint Resolve silent_apart sends_silent apart_refl : writes.

(** A synchronous write gives no receipt. *)
Lemma applyOne_sync ing cr now x kind cmd w v : fst (fst (applyOne grow dcap ing cr now x kind cmd w)) = Ok v -> ir_Async v = false.
Proof. unfold applyOne. repeat case_match; cbn; intros; simplify_eq; done. Qed.

Lemma task_attrs_sorted t nano : msorted (let attrs := mset AttrEnqueuedAt (itoa nano) [] in
  if negb (str_eqb (ic_EventID (task_Command t)) "") then mset AttrEventID (ic_EventID (task_Command t)) attrs else attrs).
Proof. cbv zeta. destruct (negb _); repeat apply msorted_mset; apply msorted_nil. Qed.

Lemma publish_sends c a nano mode t r w w' : api c a -> Publish (as_pipe a) nano mode t w = (r, w') ->
  silent w w' /\ forall used, r = Ok used -> durably a mode = true -> sends t w w'.
Proof.
  intros [Hd Hf _]. unfold Publish, durably. destruct (Encode t) as [s|] eqn:Ee; [|intros [= <- <-]; split; [auto with writes|done]].
  set (m := mkMessage _ s _). assert (goAttrs m) as Hm by apply task_attrs_sorted. rewrite Hd.
  assert (forall r0 w1 used, RPublish (queueOf c) m w = (r0, w1) ->
    match r0 with Err e => (Err (A := string) e, w1) | Ok _ => (Ok (E := err) used, w1) end = (r, w') -> silent w w' /\ forall used, r = Ok used -> sends t w w') as Hdur.
  { intros [[]|e] w1 used E [= <- <-]; cycle 1.
    { split; [|done]. exists [EvFailed m]. split; [apply run_one; by eapply rs_failed|by intros d [[=]|[]]]. }
    assert (sends t w w1); [|split; [by eauto with writes|done]]. exists [EvPublished m].
    split_and!; [apply run_one; by eapply rs_publish|by intros d [[=]|[]]|]. exists m. split; [by left|done]. }
  destruct (pl_fast (as_pipe a)) as [f|] eqn:Ef.
  - destruct (str_eqb mode ReliabilityFast); cbn [negb].
    + pose proof (Hf f eq_refl m w) as Ha. destruct (f m w) as [[x|e] w1]; intros [= <- <-]; (split; [by apply silent_apart|done]).
    + destruct (RPublish (queueOf c) m w) as [r0 w1] eqn:E. intros Hx. destruct (Hdur r0 w1 ReliabilityDurable eq_refl) as [H1 H2]; [by destruct r0|]. split; [done|]. intros used Hu _. by eapply H2.
  - destruct (RPublish (queueOf c) m w) as [r0 w1] eqn:E. intros Hx. destruct (Hdur r0 w1 ReliabilityDurable eq_refl) as [H1 H2]; [by destruct r0|]. split; [done|]. intros used Hu _. by eapply H2.
Qed.

Lemma open_sends c a now nano x ticketID kind mode p cmd r w w' : api c a -> openAndPublish a now nano x ticketID kind mode p cmd w = (r, w') ->
  silent w w' /\ (r = Ok tt -> durably a mode = true -> sends (mkTask (tenantRef p) kind mode ticketID cmd) w w').
Proof.
  intros Ha. unfold openAndPublish. set (t := mkTask _ _ _ _ _).
  assert (forall w1, silent w w1 -> match Publish (as_pipe a) nano mode t w1 with (Err e, w2) => (Err (A := unit) e, w2) | (Ok _, w2) => (Ok (E := err) tt, w2) end = (r, w') ->
    silent w w' /\ (r = Ok tt -> durably a mode = true -> sends t w w')) as Hgo.
  { intros w1 Hs. destruct (Publish (as_pipe a) nano mode t w1) as [r1 w2] eqn:E. destruct (publish_sends _ _ _ _ _ _ _ _ Ha E) as [H1 H2].
    destruct r1 as [used|e]; intros [= <- <-]; (split; [by eapply silent_trans|]); [|done]. intros _ Hd. eapply sends_l; [exact Hs|by eapply H2]. }
  destruct (as_tickets a); [|apply Hgo; auto with writes]. unfold Open.
  pose proof (se_create x (mkTicket ticketID TicketAccepted (ic_Collection cmd) (ic_EntityID cmd) "" now now) w) as Hc.
  destruct (TicketCreate x _ w) as [[[]|e] w1]; cbn [snd] in Hc; [apply Hgo; auto with writes|]. intros [= <- <-]. split; [auto with writes|done].
Qed.

(** A publication behind a reservation, which is released when it fails. *)
Lemma reserved_sends {A : Type} a x key rec t (ok : A) (dup : IdempotencyRecord -> A) (ship : W -> res err unit * W) r w w' :
  (forall r1 w1 w2, ship w1 = (r1, w2) -> silent w1 w2 /\ (r1 = Ok tt -> durably a (task_Mode t) = true -> sends t w1 w2)) ->
  let deliver (k : option string) w1 := match ship w1 with (Ok _, w2) => (Ok ok, w2) | (Err e, w2) => (Err e, match k with Some k => snd (Release x k w2) | None => w2 end) end in
  match key with
  | None => deliver None w
  | Some k => match Reserve x k rec w with (Err _, w1) => deliver None w1 | (Ok (Some e), w1) => (Ok (dup e), w1) | (Ok None, w1) => deliver (Some k) w1 end
  end = (r, w') -> silent w w' /\ forall v, r = Ok v -> (forall e, v <> dup e) -> durably a (task_Mode t) = true -> sends t w w'.
Proof.
  intros Hship deliver.
  assert (forall k w1, silent w w1 -> deliver k w1 = (r, w') -> silent w w' /\ forall v, r = Ok v -> (forall e, v <> dup e) -> durably a (task_Mode t) = true -> sends t w w') as Hd.
  { intros k w1 Hs. unfold deliver. destruct (ship w1) as [r1 w2] eqn:E. destruct (Hship _ _ _ E) as [H1 H2]. destruct r1 as [[]|e]; intros [= <- <-].
    - split; [by eapply silent_trans|]. intros _ _ _ Hdu. eapply sends_l; [exact Hs|by apply H2].
    - split; [|done]. assert (silent w w2) by (by eapply silent_trans). destruct k; [|done]. eapply silent_trans; [done|]. apply silent_apart, se_release. }
  destruct key as [k|]; [|apply (Hd None w); auto with writes]. pose proof (se_reserve x k rec w) as Hr.
  destruct (Reserve x k rec w) as [[[e|]|e] w1]; cbn [snd] in Hr; [|apply Hd; auto with writes..]. intros [= <- <-].
  split; [auto with writes|]. intros v [= <-] Hne. by destruct (Hne e).
Qed.

Lemma enqueue_sends c a ticketID now nano x kind mode cmd r w w' : api c a -> enqueue a ticketID now nano x kind mode cmd w = (r, w') ->
  silent w w' /\ forall v p, r = Ok v -> x = Some p -> ir_Deduplicated v = false -> durably a mode = true -> sends (mkTask (tenantRef p) kind mode ticketID cmd) w w'.
Proof.
  intros Ha. unfold enqueue. destruct x as [p|]; cbn [FromContext]; [|intros [= <- <-]; split; [auto with writes|done]].
  destruct (match as_limiter a with Some l => l mode w | None => _ end) as [[] ra]; cbn [negb]; [|intros [= <- <-]; split; [auto with writes|done]].
  intros Hx. set (t := mkTask (tenantRef p) kind mode ticketID cmd).
  destruct (reserved_sends a (Some p) (idempKey a cmd) (mkIdemp ticketID 202) t (asyncResult (ic_EntityID cmd) ticketID false)
    (fun e => asyncResult (ic_EntityID cmd) (id_TicketID e) true) (openAndPublish a now nano (Some p) ticketID kind mode p cmd) r w w') as [H1 H2]; [|exact Hx|].
  - intros r1 w1 w2 E. exact (open_sends c a now nano (Some p) ticketID kind mode p cmd r1 w1 w2 Ha E).
  - split; [exact H1|]. intros v p' Hv [= <-] Hdd Hdu. apply (H2 v Hv); [|exact Hdu]. by intros e ->.
Qed.

Lemma item_sends c a receiptID nano x kind mode cmd r w w' : api c a -> acceptBatchItem a receiptID nano x kind mode cmd w = (r, w') ->
  silent w w' /\ forall p, r = Ok false -> x = Some p -> durably a mode = true -> sends (mkTask (tenantRef p) kind mode "" cmd) w w'.
Proof.
  intros Ha. unfold acceptBatchItem. destruct x as [p|]; cbn [FromContext]; [|intros [= <- <-]; split; [auto with writes|done]].
  intros Hx. set (t := mkTask (tenantRef p) kind mode "" cmd).
  destruct (reserved_sends a (Some p) (idempKey a cmd) (mkIdemp receiptID 202) t false (fun _ => true)
    (fun w1 => match Publish (as_pipe a) nano mode t w1 with (Ok _, w2) => (Ok tt, w2) | (Err e, w2) => (Err e, w2) end) r w w') as [H1 H2].
  - intros r1 w1 w2. destruct (Publish _ _ _ _ w1) as [r0 w3] eqn:E. destruct (publish_sends _ _ _ _ _ _ _ _ Ha E) as [H1 H2].
    destruct r0 as [used|e]; intros [= <- <-]; (split; [done|]); [|done]. intros _ Hd. by eapply H2.
  - rewrite <- Hx. destruct (idempKey a cmd) as [k|]; [|by destruct (Publish _ _ _ _ w) as [[]]].
    destruct (Reserve (Some p) k _ w) as [[[e|]|e] w1]; try done; by destruct (Publish _ _ _ _ w1) as [[]].
  - split; [exact H1|]. intros p' -> [= <-] Hdu. by apply (H2 false).
Qed.

Lemma dispatch_sends c a ticketID now nano cr x kind cmd r cr' w w' : api c a -> dispatch grow dcap a ticketID now nano cr x kind cmd w = (r, cr', w') ->
  silent w w' /\ forall t, In (WAccepted t) (receipts a ticketID now cr x kind cmd w r) -> sends t w w'.
Proof.
  intros Ha. unfold dispatch, receipts. pose proof (ensure_effects apart cr now x (ic_Collection cmd) w) as He.
  destruct (EnsureCollection cr now x (ic_Collection cmd) w) as [[[cfg|e] cr1] w1]; cbn [snd] in He.
  2: { intros [= <- <- <-]. split; [auto with writes|done]. }
  set (mode := effectiveMode (ic_Mode cmd) (Some cfg)). destruct (str_eqb mode ReliabilityStrict).
  - pose proof (applyOne_effects apart grow dcap (as_sync a) cr1 now x kind cmd w1 (api_hooks _ _ _ _ _ Ha)) as Ho. pose proof (applyOne_sync (as_sync a) cr1 now x kind cmd w1) as Hs.
    destruct (applyOne _ _ _ cr1 now x kind cmd w1) as [[r0 cr2] w2]. cbn [fst snd] in *. intros [= <- <- <-]. split; [apply silent_apart; by eapply apart_trans|].
    intros t. destruct r0 as [v|]; [|done]. destruct x as [p|]; [|done]. rewrite (Hs v eq_refl). by intros [].
  - destruct (enqueue a ticketID now nano x kind mode cmd w1) as [r0 w2] eqn:E. destruct (enqueue_sends _ _ _ _ _ _ _ _ _ _ _ _ Ha E) as [H1 H2].
    intros [= <- <- <-]. split; [eapply silent_trans; [by apply silent_apart|done]|]. intros t. destruct r0 as [v|]; [|done]. destruct x as [p|]; [|done].
    destruct (ir_Async v && negb (ir_Deduplicated v) && durably a mode) eqn:Eb; [|done]. apply andb_true_iff in Eb as [[_ Hn%negb_true_iff]%andb_true_iff Hdu].
    intros [[= <-]|[]]. eapply sends_l; [by apply silent_apart|]. by eapply H2.
Qed.
(** ** The worker's turn *)

Lemma mark_foreign wk now x id status reason w : apart w (markTicket wk now x id status reason w).
Proof.
  unfold markTicket, Mark. destruct (_ || _); [apply apart_refl|]. destruct (str_eqb id ""); [apply apart_refl|].
  destruct (TicketGet x id w) as [t|e]; [|destruct e; apply apart_refl]. destruct (_ || _); [apply apart_refl|apply se_save].
Qed.

Lemma lag_apart wk nano (d : Delivery string) w : workerProcess shards prefix group wk -> apart w (recordLag wk nano d w).
Proof. intros [_ Hm]. unfold recordLag. destruct (wk_metrics wk) as [set|]; [|apply apart_refl]. destruct (lagDuration _ _); [by apply Hm|apply apart_refl]. Qed.

Lemma work_apart wk cr now x (d : Delivery string) o cr' w w' : workerProcess shards prefix group wk -> process grow dcap errorText wk cr now x d w = (o, cr', w') -> apart w w'.
Proof.
  intros Hw. unfold process. destruct (Decode (msg_Payload (d_Message d))) as [t|]; [|intros [= _ _ <-]; apply apart_refl].
  set (x' := NewContext x (taskPrincipal t)). set (w1 := markTicket _ _ _ _ _ _ w). assert (apart w w1) as H1 by apply mark_foreign.
  pose proof (runTask_effects grow dcap wk apart cr now x' t w1 (wp_hooks _ _ _ _ Hw)) as H2.
  destruct (runTask grow dcap wk cr now x' t w1) as [[[v|e] cr2] w2]; cbn [snd] in H2; [|destruct (isPermanent e)]; intros [= _ _ <-];
    repeat (eapply apart_trans; [eassumption|]); apply mark_foreign || apply apart_refl.
Qed.

(** What the ending of a task says of the run. *)
Definition attempted wk cr now x t w : res err IngestResult :=
  let x' := NewContext x (taskPrincipal t) in fst (fst (runTask grow dcap wk cr now x' t (markTicket wk now x' (task_TicketID t) TicketProcessing "" w))).

Lemma process_outcome wk cr now x (d : Delivery string) o cr' w w' : process grow dcap errorText wk cr now x d w = (o, cr', w') ->
  match Decode (msg_Payload (d_Message d)) with
  | None => o = Poison None
  | Some t => match attempted wk cr now x t w with
              | Ok _ => o = Processed
              | Err e => o = if isPermanent e then Poison (Some e) else Retryable e
              end
  end.
Proof.
  unfold process, attempted. destruct (Decode (msg_Payload (d_Message d))) as [t|]; [|by intros [= <- _ _]]. cbv zeta.
  destruct (runTask _ _ _ _ _ _ _ _) as [[[v|e] cr2] w2]; cbn [fst]; [by intros [= <- _ _]|]. by destruct (isPermanent e); intros [= <- _ _].
Qed.

Lemma work_segment c wk cr now nano x d o cr' w w' : workerProcess shards prefix group wk -> our (d_Shard d) ->
  handleOn grow dcap errorText (queueOf c) wk cr now nano x d w = (o, cr', w') ->
  exists w1, process grow dcap errorText wk cr now x d w = (o, cr', w1) /\
    qrun w (match o with Retryable _ => [EvOther] | _ => [EvOther; EvAck d] end) w'.
Proof.
  intros Hw Ho. unfold handleOn. destruct (process _ _ _ wk cr now x d w) as [[o1 cr1] w1] eqn:E. pose proof (work_apart _ _ _ _ _ _ _ _ _ Hw E) as Ha.
  assert (forall w2, apart w w2 -> qrun w [EvOther; EvAck d] (snd (RAck (queueOf c) d w2))) as Hack.
  { intros w2 Hp. change [EvOther; EvAck d] with ([EvOther] ++ [EvAck d]). eapply rrun_snoc; [apply run_one; by eapply rs_others|]. destruct (RAck (queueOf c) d w2) as [r w3] eqn:Er. by eapply rs_ack. }
  destruct o1 as [|e|e]; intros [= <- <- <-]; exists w1; (split; [done|]).
  - apply Hack. eapply apart_trans; [exact Ha|by apply lag_apart].
  - by apply Hack.
  - by apply run_one, rs_others.
Qed.

(** ** The invariant *)

Definition entryTask (e : XMessage) : option Task := Decode (msg_Payload (decodeValues (x_Values e))).
Definition ended (tr : list wevent) t : Prop := exists failure, In (WDone t failure) tr.
Definition entryOf w (d : Delivery string) : Prop := our (d_Shard d) /\
  exists e, In e (logOf w (stream (d_Shard d))) /\ d_ID d = x_ID e /\ d_Message d = decodeValues (x_Values e).

Record winv (w0 : W) (tr : list wevent) (q : list revent) (s : wstate (W := W)) : Prop := {
  wi_run : qrun w0 q (ws_world s);
  wi_hand : forall d, In d (ws_hand s) -> entryOf (ws_world s) d;
  wi_acks : forall d, In (EvAck d) q -> our (d_Shard d) /\ In (d_ID d) (map x_ID (logOf (ws_world s) (stream (d_Shard d))));
  wi_accepted : forall t, In (WAccepted t) tr -> published t q;
  wi_fate : forall sh e t, our sh -> In e (logOf (ws_world s) (stream sh)) -> entryTask e = Some t -> ~ ackedOn sh (x_ID e) q \/ ended tr t }.

Lemma ended_app tr es t : ended tr t -> ended (tr ++ es) t.
Proof. intros [f Hf]. exists f. apply in_app_iff. by left. Qed.

(** One step, given the commands it sends. *)
Lemma winv_next w0 tr q s es qs s' : winv w0 tr q s -> qrun (ws_world s) qs (ws_world s') ->
  (forall d, In d (ws_hand s') -> In d (ws_hand s) \/ entryOf (ws_world s') d) ->
  (forall t, In (WAccepted t) es -> published t qs) ->
  (forall d, In (EvAck d) qs -> In d (ws_hand s)) -> calm qs \/ (forall m, ~ offered m qs) ->
  (forall d t e, In (EvAck d) qs -> our (d_Shard d) -> In e (logOf (ws_world s) (stream (d_Shard d))) -> x_ID e = d_ID d -> entryTask e = Some t -> ended es t) ->
  winv w0 (tr ++ es) (q ++ qs) s'.
Proof.
  intros [Hr Hh Ha Hac Hf] Hseg Hhand Hacc Hacks Hone Hend. pose proof (run_grown _ _ _ Hseg) as Hg.
  assert (forall d, entryOf (ws_world s) d -> entryOf (ws_world s') d) as Hkeep.
  { intros d (Ho & e & He & E). split; [done|]. exists e. split; [by apply (Hg _ Ho)|done]. }
  split.
  - by eapply run_app.
  - intros d Hd. destruct (Hhand d Hd) as [Hin|]; [by apply Hkeep, Hh|done].
  - intros d [Hd|Hd]%in_app_iff.
    + destruct (Ha d Hd) as (Ho & (y & E & Hy)%in_map_iff). split; [done|]. apply in_map_iff. exists y. split; [done|by apply (Hg _ Ho)].
    + destruct (Hkeep d (Hh d (Hacks d Hd))) as (Ho & e & He & -> & _). split; [done|by apply in_map].
  - intros t [Ht|Ht]%in_app_iff; apply published_app; [left; by apply Hac|right; by apply Hacc].
  - intros sh e t Ho He Ht. destruct (proj2 (Hg sh Ho) e He) as [Hin|(Hid & m & Hm & _)].
    + destruct (Hf sh e t Ho Hin Ht) as [Hn|Hd]; [|right; by apply ended_app].
      destruct (existsb (fun ev => match ev with EvAck d => str_eqb (d_ID d) (x_ID e) && (d_Shard d =? sh)%Z | _ => false end) qs) eqn:Ex.
      * apply existsb_exists in Ex as ([] & Hd & Hb); try done. apply andb_true_iff in Hb as [Hb1%str_eqb_eq Hb2%Z.eqb_eq]. subst sh.
        right. destruct (Hend d t e Hd) as [f Hfin]; [done..|]. exists f. apply in_app_iff. by right.
      * left. intros [|(d & Hd & E1 & E2)]%acked_app; [done|]. apply not_true_iff_false in Ex. apply Ex, existsb_exists. exists (EvAck d). split; [done|].
        apply andb_true_iff. split; [by apply str_eqb_eq|by apply Z.eqb_eq].
    + left. intros [(d & Hd & E1 & E2)|(d & Hd & _)]%acked_app.
      * destruct (Ha d Hd) as [_ Hin]. rewrite E1, E2 in Hin. done.
      * destruct Hone as [Hno|Hno]; [by eapply Hno|by eapply Hno].
Qed.

Lemma winv_calm w0 tr q s es qs s' : winv w0 tr q s -> qrun (ws_world s) qs (ws_world s') -> calm qs ->
  (forall d, In d (ws_hand s') -> In d (ws_hand s) \/ entryOf (ws_world s') d) -> (forall t, In (WAccepted t) es -> published t qs) -> winv w0 (tr ++ es) (q ++ qs) s'.
Proof. intros Hi Hseg Hc Hh Ha. eapply winv_next; try done; [by intros d Hd; destruct (Hc d)|by left|by intros d t e Hd; destruct (Hc d)]. Qed.
(** ** The steps *)

Variable w0 : W.
Hypothesis fresh : freshStreams shards prefix group w0.

Lemma winv_handle tr q c wk cr now nano x d o cr' w w' hand1 hand2 : winv w0 tr q (mkWState w (hand1 ++ d :: hand2)) -> workerProcess shards prefix group wk ->
  handleOn grow dcap errorText (queueOf c) wk cr now nano x d w = (o, cr', w') ->
  exists qs, winv w0 (tr ++ endings d o) (q ++ qs) (mkWState w' (hand1 ++ hand2)).
Proof.
  intros Hi Hw Hrun. destruct (wi_hand _ _ _ _ Hi d) as (Ho & e & He & Hid & Hm); [apply in_app_iff; right; by left|]. cbn [ws_world] in He.
  destruct (work_segment _ _ _ _ _ _ _ _ _ _ _ Hw Ho Hrun) as (w1 & Hp & Hseg). pose proof (process_outcome _ _ _ _ _ _ _ _ _ Hp) as Hout.
  assert (forall d', In d' (hand1 ++ hand2) -> In d' (hand1 ++ d :: hand2)) as Hsub by (intros d'; rewrite !in_app_iff; cbn; tauto).
  assert (forall t, ~ In (WAccepted t) (endings d o)) as Hna by (intros t; unfold endings; destruct (Decode _), o as [|[]|]; cbn; intuition congruence).
  exists (match o with Retryable _ => [EvOther] | _ => [EvOther; EvAck d] end). eapply winv_next; [exact Hi|exact Hseg|left; by apply Hsub|by intros t Ht; destruct (Hna t)|..].
  - intros d' Hd'. assert (d' = d) as -> by (destruct o; cbn in Hd'; intuition congruence). apply in_app_iff. right. by left.
  - right. intros m [Hx|Hx]; destruct o; cbn in Hx; intuition congruence.
  - intros d' t e' Hd' Ho' He' E Ht. assert (d' = d) as -> by (destruct o; cbn in Hd'; intuition congruence).
    assert (e' = e) as -> by (eapply entry_unique; [exact fresh|exact (wi_run _ _ _ _ Hi)|done..|congruence]).
    unfold entryTask in Ht. rewrite <- Hm in Ht. rewrite Ht in Hout. unfold ended, endings. rewrite Ht.
    destruct (attempted wk cr now x t w) as [v|er]; [subst o; exists None; by left|]. destruct (isPermanent er); subst o; [exists (Some er); by left|]. by destruct Hd' as [[=]|[]].
Qed.

Lemma winv_sent tr q w w' hand es : winv w0 tr q (mkWState w hand) -> silent w w' -> (forall t, In (WAccepted t) es -> sends t w w') -> (length es <= 1)%nat ->
  exists qs, winv w0 (tr ++ es) (q ++ qs) (mkWState w' hand).
Proof.
  intros Hi (qs & Hr & Hc) Hs Hl. destruct es as [|[t|t f] [|]]; cbn in Hl; try lia.
  - exists qs. eapply winv_calm; [done..|by left|done].
  - destruct (Hs t) as (qs' & Hr' & Hc' & Hp'); [by left|]. exists qs'. eapply winv_calm; [done..|by left|]. by intros t' [[= <-]|[]].
  - exists qs. eapply winv_calm; [done..|by left|]. by intros t' [[=]|[]].
Qed.

Lemma winv_step tr q s es s' : winv w0 tr q s -> step s es s' -> exists qs, winv w0 (tr ++ es) (q ++ qs) s'.
Proof.
  intros Hi Hs. destruct Hs as [c a ticketID now nano cr x kind cmd r cr' w w' hand Ha E|c a receiptID nano x kind mode cmd r w w' hand Ha E|c m r w w' hand Hm E
    |c sh r w w' hand E|c sh d w w' hand Ho E|c sh w w' hand Ho E|c sh mi r w w' hand Ho E|c wk cr now nano x d o cr' w w' hand1 hand2 Hw E|w w' hand Hf|w hand hand' Hh].
  - destruct (dispatch_sends _ _ _ _ _ _ _ _ _ _ _ _ _ Ha E) as [H1 H2]. apply (winv_sent _ _ w w'); [done..|].
    unfold receipts. repeat case_match; cbn; lia.
  - destruct (item_sends _ _ _ _ _ _ _ _ _ _ _ Ha E) as [H1 H2]. apply (winv_sent _ _ w w'); [done..| |unfold itemReceipts; repeat case_match; cbn; lia].
    unfold itemReceipts. destruct r as [[]|]; [done| |done]. destruct x as [p|]; [|done]. destruct (durably a mode) eqn:Ed; [|done]. intros t [[= <-]|[]]. by apply H2.
  - exists [match r with Ok _ => EvPublished m | Err _ => EvFailed m end]. eapply winv_calm; [exact Hi| |by destruct r; intros d [[=]|[]]|by left|done].
    apply run_one. destruct r as [[]|]; [by eapply rs_publish|by eapply rs_failed].
  - exists [EvOther]. eapply winv_calm; [exact Hi|apply run_one; by eapply rs_subscribe|by intros d [[=]|[]]|by left|done].
  - exists [EvRead d]. eapply winv_calm; [exact Hi|apply run_one; by eapply rs_read|by intros d' [[=]|[]]| |done].
    intros d' [<-|Hd]; [right|by left]. destruct (read_entry _ _ _ _ _ E) as [<- He]. done.
  - exists [EvOther]. eapply winv_calm; [exact Hi|apply run_one; by eapply rs_idle|by intros d [[=]|[]]|by left|done].
  - exists [EvReclaimed sh (match r with Ok ds => ds | Err _ => [] end)]. eapply winv_calm; [exact Hi|apply run_one; by eapply rs_reclaim|by intros d [[=]|[]]| |done].
    destruct r as [ds|e]; [|by left]. intros d [Hd|Hd]%in_app_iff; [right|by left]. destruct (reclaim_entry _ _ _ _ _ _ _ E Hd) as [<- He]. done.
  - by eapply winv_handle.
  - exists [EvOther]. eapply winv_calm; [exact Hi|apply run_one; by eapply rs_others|by intros d [[=]|[]]|by left|done].
  - exists []. eapply winv_calm; [exact Hi|apply rrun_nil|by intros d []|intros d Hd; left; by apply Hh|done].
Qed.

Lemma winv_run tr s : run w0 tr s -> exists q, winv w0 tr q s.
Proof.
  induction 1 as [|tr s es s' _ [q IH] Hs]; [|by destruct (winv_step _ _ _ _ _ IH Hs) as [qs Hq]; exists (q ++ qs)].
  exists []. split; cbn; try done; [constructor|]. intros sh e t Ho. destruct (fresh sh Ho) as [-> _]. done.
Qed.

(** An ending was the answer of the ingester to the task, at some point of the run. *)
Definition endedBy (tr : list wevent) t (failure : option err) : Prop :=
  exists tr1 s1 wk cr now x, run w0 tr1 s1 /\ tr1 `prefix_of` tr /\
    match failure with
    | None => exists v, attempted wk cr now x t (ws_world s1) = Ok v
    | Some e => attempted wk cr now x t (ws_world s1) = Err e /\ isPermanent e = true
    end.

Lemma ended_by tr s t failure : run w0 tr s -> In (WDone t failure) tr -> endedBy tr t failure.
Proof.
  induction 1 as [|tr s es s' Hrun IH Hs]; [done|]. intros [Hin|Hin]%in_app_iff.
  { destruct (IH Hin) as (tr1 & s1 & wk & cr & now & x & H1 & H2 & H3). exists tr1, s1, wk, cr, now, x. split_and!; [done|by apply prefix_app_r|done]. }
  destruct Hs; try done.
  - unfold receipts in Hin. repeat case_match; cbn in Hin; intuition congruence.
  - unfold itemReceipts in Hin. repeat case_match; cbn in Hin; intuition congruence.
  - exists tr, (mkWState w (hand1 ++ d :: hand2)), wk, cr, now, x. split_and!; [done|by apply prefix_app_r|]. cbn [ws_world].
    match goal with H : handleOn _ _ _ _ _ _ _ _ _ _ _ = _ |- _ => unfold handleOn in H end.
    destruct (process grow dcap errorText wk cr now x d w) as [[o1 cr1] w1] eqn:E. pose proof (process_outcome _ _ _ _ _ _ _ _ _ E) as Hout.
    assert (o1 = o) as -> by (by destruct o1; simplify_eq). unfold endings in Hin. destruct (Decode _) as [t0|]; [|done].
    destruct (attempted wk cr now x t0 w) as [v|e] eqn:Ea; [subst o; destruct Hin as [[= <- <-]|[]]; by exists v|].
    destruct (isPermanent e) eqn:Ep; subst o; [|done]. by destruct Hin as [[= <- <-]|[]].
Qed.
End Fate.

(** C9: No accepted write disappears.  Any number of API processes and workers share the
    durable streams, with queue commands, storage, tickets and acknowledgements that fail,
    deliveries handed out twice, and processes that die at any point.  Every write, single
    or of a batch, that the API answered as queued on the durable path and that JSON can
    carry is in the stream of its entity, unread or pending, or a worker ended it; and an
    ending was the ingester's answer to that very task at that point of the run: stored,
    or an error that no retry can cure. *)
Theorem write_fate {W : Type} `{StreamLaws W} `{TicketStore W} `{IdempotencyStore W} `{EventRepository W} `{CurrentRepository W} `{SnapshotRepository W} `{CollectionRepository W}
    (grow dcap : nat -> nat) (errorText : err -> string) (shards : Z) (prefix group : string) {EF : Effects (W := W) (foreign shards prefix group)} {SE : SideEffects (W := W) (foreign shards prefix group)}
    (w0 : W) (tr : list wevent) (s : wstate (W := W)) :
  freshStreams shards prefix group w0 -> wrun grow dcap errorText shards prefix group w0 tr s ->
  (forall t, wireTask t = true -> (height (treeOf (taskValue t)) <= maxNestingDepth)%Z -> In (WAccepted t) tr ->
    let sh := Shard (taskKey t) (rq_shards (NewRedisQueue shards prefix group "")) in
    (exists i e, logOf (ws_world s) (StreamName prefix sh) !! i = Some e /\ entryTask e = Some t /\
       ((default 0%nat (nextOf (ws_world s) (StreamName prefix sh) group) <= i)%nat \/ In (x_ID e) (pelOf (ws_world s) (StreamName prefix sh) group))) \/
    (exists failure, In (WDone t failure) tr)) /\
  (forall t failure, In (WDone t failure) tr -> endedBy grow dcap errorText shards prefix group w0 tr t failure).
Proof.
  intros fresh Hrun. destruct (winv_run grow dcap errorText shards prefix group w0 fresh tr s Hrun) as [q Hi]. split; [|intros t failure; by eapply ended_by].
  intros t Hw Hh Ht sh. assert (ourShard shards prefix group sh) as Ho by (apply shard_range; cbn; destruct (Z.ltb_spec shards 1); lia).
  destruct (wi_accepted _ _ _ _ _ _ _ Hi t Ht) as (m & Hm & Hk & He). destruct (task_roundtrip t Hw Hh) as (y & Hy & Hd). rewrite He in Hy. injection Hy as <-.
  pose proof (inv_run shards prefix group w0 _ _ sh fresh Ho (wi_run _ _ _ _ _ _ _ Hi)) as Hinv.
  assert (In m (messages (logOf (ws_world s) (StreamName prefix sh)))) as Hin.
  { apply list_elem_of_In. eapply elem_of_sublist; [|apply Hinv]. apply list_elem_of_In, in_flat_map. eexists. split; [exact Hm|]. cbn [rq_shards]. rewrite Hk. fold sh. rewrite Z.eqb_refl. by left. }
  apply in_map_iff in Hin as (e & Hdv & Hlog). assert (entryTask e = Some t) as Het by (unfold entryTask; by rewrite Hdv).
  destruct (wi_fate _ _ _ _ _ _ _ Hi sh e t Ho Hlog Het) as [Hna|Hend]; [left|by right].
  apply list_elem_of_In, list_elem_of_lookup in Hlog as [i Hlk]. exists i, e. split_and!; [done..|].
  destruct (Nat.le_gt_cases (default 0%nat (nextOf (ws_world s) (StreamName prefix sh) group)) i) as [|Hlt]; [by left|right].
  destruct (li_held _ _ _ _ _ _ _ _ Hinv e) as [|]; [|done|done]. apply list_elem_of_In, (list_elem_of_lookup_2 _ i). by rewrite lookup_take_lt.
Qed.

(** ** A queued write on a Redis and a store in memory

    The Redis of [RedisMem.v] beside the stores of [AsyncMem.v], and a run in which two
    writes are accepted and one is applied. *)

Definition site : Type := redis * asyncMem.

Definition onRedis {A : Type} (f : redis -> A * redis) (w : site) : A * site := let '(r, x) := f (fst w) in (r, (x, snd w)).
Definition onStores {A : Type} (f : asyncMem -> A * asyncMem) (w : site) : A * site := let '(r, x) := f (snd w) in (r, (fst w, x)).

#[export] Instance site_streams : RedisStreams site := {
  XAdd s vs := onRedis (XAdd s vs);
  XGroupCreateMkStream s g := onRedis (XGroupCreateMkStream s g);
  XReadGroup g c s := onRedis (XReadGroup g c s);
  XAck s g id := onRedis (XAck s g id);
  XAutoClaim s g c m n := onRedis (XAutoClaim s g c m n);
  XInfoGroups s w := XInfoGroups s (fst w) }.

#[export] Instance site_view : StreamView site := {
  logOf w := logOf (fst w); nextOf w := nextOf (fst w); pelOf w := pelOf (fst w); idleOf w := idleOf (fst w) }.

Lemma on_redis {A : Type} (f : redis -> A * redis) (w w' : site) r : onRedis f w = (r, w') -> f (fst w) = (r, fst w').
Proof. unfold onRedis. destruct (f (fst w)) as [x y] eqn:E. by intros [= <- <-]. Qed.

#[export] Instance site_laws : StreamLaws site.
Proof.
  split; intros *.
  - apply (no_group_no_pel (W := redis)).
  - intros E%on_redis. by apply (xadd_ok (W := redis)).
  - intros E%on_redis. by apply (xadd_err (W := redis)) in E.
  - intros E%on_redis. by apply (xgroup_any (W := redis)) in E.
  - intros E%on_redis. by apply (xgroup_ok (W := redis)) in E.
  - intros E%on_redis. by apply (xread_some (W := redis)) in E.
  - intros E%on_redis. by apply (xread_none (W := redis)) in E.
  - intros E%on_redis. exact (xread_waiting (W := redis) _ _ _ _ _ _ E).
  - intros E%on_redis. by apply (xread_err (W := redis)) in E.
  - intros E%on_redis. by apply (xack_ok (W := redis)) in E.
  - intros E%on_redis. by apply (xack_err (W := redis)) in E.
  - intros E%on_redis. by apply (xclaim_quiet (W := redis)) in E.
  - intros E%on_redis. exact (xclaim_nogroup (W := redis) _ _ _ _ _ _ _ _ E).
  - intros E%on_redis. by apply (xclaim_ok (W := redis)) in E.
  - apply (xinfo_ok (W := redis)).
Qed.

#[export] Instance site_events : EventRepository site := {
  AppendEvent c coll now ev := onStores (AppendEvent c coll now ev);
  AppendEvents c coll now evs := onStores (AppendEvents c coll now evs);
  LastEvent c coll eid w := LastEvent c coll eid (snd w);
  ListEvents c coll f w := ListEvents c coll f (snd w) }.
#[export] Instance site_current : CurrentRepository site := { CurGet c coll eid w := CurGet c coll eid (snd w); CurUpsert c coll st := onStores (CurUpsert c coll st) }.
#[export] Instance site_snaps : SnapshotRepository site := { SnapSave c coll sn := onStores (SnapSave c coll sn); SnapNearest c coll eid v w := SnapNearest c coll eid v (snd w) }.
#[export] Instance site_configs : CollectionRepository site := {
  GetConfig c n w := GetConfig c n (snd w); SaveConfig c cfg := onStores (SaveConfig c cfg); EnsurePhysical c n := onStores (EnsurePhysical c n) }.
#[export] Instance site_tickets : TicketStore site := {
  TicketCreate c t := onStores (TicketCreate c t); TicketGet c id w := TicketGet c id (snd w); TicketSave c t := onStores (TicketSave c t) }.
#[export] Instance site_receipts : IdempotencyStore site := { Reserve c k r := onStores (Reserve c k r); Release c k := onStores (Release c k) }.

Lemma stores_apart {A : Type} shards prefix group (f : asyncMem -> A * asyncMem) (w : site) : foreign shards prefix group w (snd (onStores f w)).
Proof. unfold onStores. destruct (f (snd w)). by intros sh _. Qed.

#[export] Instance site_effects shards prefix group : Effects (W := site) (foreign shards prefix group).
Proof. split; intros *; try apply stores_apart; [apply apart_refl|apply apart_trans]. Qed.
#[export] Instance site_side shards prefix group : SideEffects (W := site) (foreign shards prefix group).
Proof. split; intros *; apply stores_apart. Qed.

(** ** The run *)

Abbreviation durable := (NewRedisQueue 1 "letopis" "workers").
Definition siteIngester : Ingester site := mkIngester site true None None.
Definition siteApi : AsyncIngester (W := site) (P := string) := mkAsync siteIngester (mkPipeline (RPublish (durable "api")) None) true true None.
Definition siteWorker : Worker (W := site) := mkWorker siteIngester true None (Worker.withDefaults (mkOptions 0 0 "")).

Definition deal (eid event_id : string) : IngestCommand :=
  mkCommand "crm.deals" eid "" "" None "u1" "crm" (719162 * 86400 * 1000000000) event_id "" "" None (Some [("stage", JStr "new")]) None None.
Definition dealTask (eid event_id ticket : string) : Task := mkTask (tenantRef ex_principal) KindState ReliabilityDurable ticket (deal eid event_id).

Abbreviation accept w ticket cmd := (dispatch ex_grow id siteApi ticket 5 5 (NewConfigResolver true 0) ex_ctx KindState cmd w).
Definition answer1 := Eval vm_compute in accept (redis0, am0) "tkt_1" (deal "deal-1" "e1").
Definition site1 : site := Eval vm_compute in snd answer1.
Definition answer2 := Eval vm_compute in accept site1 "tkt_2" (deal "deal-2" "e2").
Definition site2 : site := Eval vm_compute in snd answer2.
Definition site3 : site := Eval vm_compute in snd (RSubscribe (durable "w1") 0 site2).
Definition site4 : option (Delivery string) * site := Eval vm_compute in RNext (durable "w1") 0 site3.
Definition siteDelivery : Delivery string := Eval vm_compute in default (mkDelivery (mkMessage "" "" []) "" 0 0) (fst site4).
Definition settled5 := Eval vm_compute in handleOn ex_grow id ex_text (durable "w1") siteWorker (NewConfigResolver true 0) 7 7 None siteDelivery (snd site4).
Definition site5 : site := Eval vm_compute in snd settled5.

Abbreviation siteRun := (wrun ex_grow id ex_text 1 "letopis" "workers").
Definition siteTrace : list wevent := [WAccepted (dealTask "deal-1" "e1" "tkt_1"); WAccepted (dealTask "deal-2" "e2" "tkt_2"); WDone (dealTask "deal-1" "e1" "tkt_1") None].

Lemma site_api : apiProcess 1 "letopis" "workers" "api" siteApi.
Proof. split; [done|done|]. split; intros x Hx; discriminate Hx. Qed.

Lemma site_worker : workerProcess 1 "letopis" "workers" siteWorker.
Proof. split; [|done]. split; intros x Hx; discriminate Hx. Qed.

Lemma site_step s s' es es' : es = es' -> wstep ex_grow id ex_text 1 "letopis" "workers" s es s' -> wstep (W := site) ex_grow id ex_text 1 "letopis" "workers" s es' s'.
Proof. by intros <-. Qed.

Lemma site_run : siteRun (redis0, am0) siteTrace (mkWState site5 []).
Proof.
  assert (ourShard 1 "letopis" "workers" 0) as Ho by (unfold ourShard; cbn; lia).
  change siteTrace with ((((([] ++ [WAccepted (dealTask "deal-1" "e1" "tkt_1")]) ++ [WAccepted (dealTask "deal-2" "e2" "tkt_2")]) ++ []) ++ []) ++ [WDone (dealTask "deal-1" "e1" "tkt_1") None]).
  eapply (wrun_step _ _ _ _ _ _ _ _ (mkWState (snd site4) [siteDelivery])); [eapply (wrun_step _ _ _ _ _ _ _ _ (mkWState site3 [])); [eapply (wrun_step _ _ _ _ _ _ _ _ (mkWState site2 []));
    [eapply (wrun_step _ _ _ _ _ _ _ _ (mkWState site1 [])); [eapply (wrun_step _ _ _ _ _ _ _ _ (mkWState (redis0, am0) [])); [apply wrun_nil|]|]|]|]|].
  - eapply site_step; [|apply (w_write _ _ _ _ _ _ "api" siteApi "tkt_1" 5 5 (NewConfigResolver true 0) ex_ctx KindState (deal "deal-1" "e1") (fst (fst answer1)) (snd (fst answer1)) _ _ _ site_api)]; vm_compute; reflexivity.
  - eapply site_step; [|apply (w_write _ _ _ _ _ _ "api" siteApi "tkt_2" 5 5 (NewConfigResolver true 0) ex_ctx KindState (deal "deal-2" "e2") (fst (fst answer2)) (snd (fst answer2)) _ _ _ site_api)]; vm_compute; reflexivity.
  - apply (w_subscribe _ _ _ _ _ _ "w1" 0 (Ok tt) site2 site3). vm_compute. reflexivity.
  - apply (w_read _ _ _ _ _ _ "w1" 0 siteDelivery site3 (snd site4)); [exact Ho|vm_compute; reflexivity].
  - eapply site_step; [|apply (w_handle _ _ _ _ _ _ "w1" siteWorker (NewConfigResolver true 0) 7 7 None siteDelivery (fst (fst settled5)) (snd (fst settled5)) (snd site4) site5 [] [] site_worker)]; vm_compute; reflexivity.
Qed.

(** The first deal is stored and its ticket says so; the second waits in the stream. *)
Lemma write_fate_witness :
  endedBy ex_grow id ex_text 1 "letopis" "workers" (redis0, am0) siteTrace (dealTask "deal-1" "e1" "tkt_1") None /\
  match TicketGet ex_ctx "tkt_1" site5 with Ok t => tck_Status t = TicketStored | Err _ => False end /\
  (exists i e, logOf site5 "letopis:0" !! i = Some e /\ entryTask e = Some (dealTask "deal-2" "e2" "tkt_2")).
Proof.
  destruct (write_fate ex_grow id ex_text 1 "letopis" "workers" (redis0, am0) siteTrace (mkWState site5 [])) as [Hw Hd].
  - intros sh _. split; reflexivity.
  - exact site_run.
  - split; [apply Hd; right; right; left; reflexivity|]. split; [vm_compute; reflexivity|].
    destruct (Hw (dealTask "deal-2" "e2" "tkt_2")) as [(i & e & Hl & He & _)|[failure Hf]].
    + vm_compute. reflexivity.
    + vm_compute. discriminate.
    + right. left. reflexivity.
    + exists i, e. split; [exact Hl|exact He].
    + exfalso. repeat destruct Hf as [[=]|Hf]. exact Hf.
Defined.
