(* ===== verification/NetAddr.v ===== *)
(** * Addresses (packages net and net/netip)

    The text forms of IP addresses, CIDR blocks and host:port pairs, as the SSRF guard
    uses them; a zone is recognised and, as in [net.ParseIP], refused.  Then the meaning
    of a CIDR block: the addresses that share its leading bits. *)

From stdpp Require Import base list strings.
From Stdlib Require Import ZArith Lia Ascii.
From S2P Require Import Prelude GoMap Json Paths Diff DiffSound Domain Tenant Config Numbers Canonical Worker JsonText TimeText.

(** A [net.IP]: 4 or 16 bytes. *)
Abbreviation IP := (list Z).
Record IPNet := mkIPNet { net_IP : IP; net_Mask : list Z }.

Definition colon : ascii := ":".
Definition period : ascii := ".".

(** ** IPv4 *)

(** [parseIPv4Fields]: [fresh] says that no digit of the field has been read, [zero] that
    its only digit is 0; [pos] counts the fields that are complete. *)
Fixpoint ipv4Fields (fields : list Z) (val : Z) (fresh zero : bool) (pos : nat) (s : string) : option IP :=
  match s with
  | EmptyString => if fresh || negb (pos =? 3)%nat then None else Some (fields ++ [val])
  | String c s' =>
      if is_digit c then
        if zero then None
        else
          let v := (val * 10 + (byteOf c - 48))%Z in
          if (255 <? v)%Z then None else ipv4Fields fields v false (fresh && (v =? 0)%Z) pos s'
      else if Ascii.eqb c period then
        if fresh || (pos =? 3)%nat then None else ipv4Fields (fields ++ [val]) 0 true false (S pos) s'
      else None
  end.

Definition parseIPv4 (s : string) : option IP := ipv4Fields [] 0 true false 0 s.

Definition v4InV6Prefix : list Z := [0; 0; 0; 0; 0; 0; 0; 0; 0; 0; 255; 255]%Z.

(** ** IPv6 *)

(** The leading hex digits of a group, at most four: their value, how many, the rest. *)
Fixpoint hexGroup (acc : Z) (n : nat) (s : string) : option (Z * nat * string) :=
  match s with
  | String c s' =>
      match hexVal c with
      | None => Some (acc, n, s)
      | Some d => if (3 <? n)%nat then None else hexGroup (acc * 16 + d) (S n) s'
      end
  | EmptyString => Some (acc, n, s)
  end.

(** The loop over the groups: the bytes read, where the ellipsis stands. *)
Fixpoint ipv6Groups (fuel : nat) (bytes : list Z) (ellipsis : option nat) (s : string) : option (list Z * option nat) :=
  match fuel with
  | O => if str_eqb s "" then Some (bytes, ellipsis) else None          (* 16 bytes: trailing garbage *)
  | S fuel' =>
      match hexGroup 0 0 s with
      | None | Some (_, O, _) => None
      | Some (acc, _, rest) =>
          match rest with
          | String "."%char _ =>
              if (match ellipsis with None => negb (length bytes =? 12)%nat | Some _ => false end) || (16 <? length bytes + 4)%nat then None
              else match parseIPv4 s with Some q => Some (bytes ++ q, ellipsis) | None => None end
          | EmptyString => Some (bytes ++ [Z.shiftr acc 8; Z.land acc 255], ellipsis)
          | String c rest' =>
              let bytes' := bytes ++ [Z.shiftr acc 8; Z.land acc 255] in
              if negb (Ascii.eqb c colon) then None
              else
                match rest' with
                | EmptyString => None
                | String ":"%char rest'' =>
                    match ellipsis with
                    | Some _ => None
                    | None => if str_eqb rest'' "" then Some (bytes', Some (length bytes')) else ipv6Groups fuel' bytes' (Some (length bytes')) rest''
                    end
                | _ => ipv6Groups fuel' bytes' ellipsis rest'
                end
          end
      end
  end.

Definition expandEllipsis (bytes : list Z) (ellipsis : option nat) : option IP :=
  match ellipsis with
  | None => if (length bytes =? 16)%nat then Some bytes else None
  | Some e => if (length bytes <? 16)%nat then Some (take e bytes ++ repeat 0%Z (16 - length bytes) ++ drop e bytes) else None
  end.

Definition leadingEllipsis (s : string) : option string := drop_prefix "::" s.

Definition parseIPv6 (s : string) : option IP :=
  if has_byte "%" s then None                                           (* a zone *)
  else
    let finish p := match p with Some (b, e) => expandEllipsis b e | None => None end in
    match leadingEllipsis s with
    | Some s' => if str_eqb s' "" then Some (repeat 0%Z 16) else finish (ipv6Groups 8 [] (Some 0%nat) s')
    | None => finish (ipv6Groups 8 [] None s)
    end.

(** [netip.ParseAddr]: the first of . : % decides; [inl] is an IPv4 address. *)
Fixpoint firstMark (s : string) : option ascii :=
  match s with
  | EmptyString => None
  | String c s' => if Ascii.eqb c period || Ascii.eqb c colon || Ascii.eqb c "%" then Some c else firstMark s'
  end.

Definition ParseAddr (s : string) : option (IP + IP) :=
  match firstMark s with
  | Some c => if Ascii.eqb c period then option_map inl (parseIPv4 s) else if Ascii.eqb c colon then option_map inr (parseIPv6 s) else None
  | None => None
  end.

(** [Addr.As16]. *)
Definition As16 (a : IP + IP) : IP := match a with inl q => v4InV6Prefix ++ q | inr ip => ip end.

Definition ParseIP (s : string) : option IP := option_map As16 (ParseAddr s).

(** ** CIDR blocks *)

(** [dtoi] on the whole of a text: digits, below 0xFFFFFF. *)
Fixpoint dtoiFrom (n : Z) (s : string) : option Z :=
  match s with
  | EmptyString => Some n
  | String c s' => if is_digit c then let n' := (n * 10 + (byteOf c - 48))%Z in if (16777215 <=? n')%Z then None else dtoiFrom n' s' else None
  end.
Definition dtoi (s : string) : option Z := match s with EmptyString => None | _ => dtoiFrom 0 s end.

(** [CIDRMask] of [l] bytes. *)
Fixpoint CIDRMask (ones : Z) (l : nat) : list Z :=
  match l with
  | O => []
  | S l' => if (8 <=? ones)%Z then 255%Z :: CIDRMask (ones - 8) l' else Z.lxor 255 (Z.shiftr 255 ones) :: CIDRMask 0 l'
  end.

Definition andBytes (a m : list Z) : list Z := map (fun p => Z.land p.1 p.2) (zip a m).

Fixpoint cutSlash (s : string) : option (string * string) :=
  match s with
  | EmptyString => None
  | String c s' => if Ascii.eqb c "/" then Some ("", s') else option_map (fun p => (String c (fst p), snd p)) (cutSlash s')
  end.

(** The network of a block: an IPv4 one has 4 bytes, and so has its mask. *)
Definition ParseCIDR (s : string) : option IPNet :=
  match cutSlash s with
  | None => None
  | Some (addr, mask) =>
      match ParseAddr addr, dtoi mask with
      | Some (inl q), Some n => if (n <=? 32)%Z then let m := CIDRMask n 4 in Some (mkIPNet (andBytes q m) m) else None
      | Some (inr ip), Some n => if (n <=? 128)%Z then let m := CIDRMask n 16 in Some (mkIPNet (andBytes ip m) m) else None
      | _, _ => None
      end
  end.

Definition To4 (ip : IP) : option IP :=
  if (length ip =? 4)%nat then Some ip
  else if (length ip =? 16)%nat && bool_decide (take 12 ip = v4InV6Prefix) then Some (drop 12 ip) else None.

(** [networkNumberAndMask] and [IPNet.Contains]: an IPv4-mapped network is an IPv4 one. *)
Definition networkNumberAndMask (n : IPNet) : option (IP * list Z) :=
  let number := match To4 (net_IP n) with Some q => Some q | None => if (length (net_IP n) =? 16)%nat then Some (net_IP n) else None end in
  match number with
  | None => None
  | Some ip =>
      if (length (net_Mask n) =? 4)%nat then if (length ip =? 4)%nat then Some (ip, net_Mask n) else None
      else if (length (net_Mask n) =? 16)%nat then Some (ip, if (length ip =? 4)%nat then drop 12 (net_Mask n) else net_Mask n)
      else None
  end.

Definition Contains (n : IPNet) (ip : IP) : bool :=
  match networkNumberAndMask n with
  | None => (length (default ip (To4 ip)) =? 0)%nat
  | Some (nn, m) =>
      let x := default ip (To4 ip) in
      (length x =? length nn)%nat && forallb (fun p => let '(a, (b, m)) := p in (Z.land a m =? Z.land b m)%Z) (zip nn (zip x m))
  end.

(** ** Classes of addresses *)

Definition ipEqual (a b : IP) : bool := bool_decide (a = b).
Definition octet (ip : IP) (i : nat) : Z := nth i ip 0%Z.
Definition is16 (ip : IP) : bool := (length ip =? 16)%nat.

Definition IsLoopback (ip : IP) : bool :=
  match To4 ip with Some v => (octet v 0 =? 127)%Z | None => ipEqual ip [0;0;0;0;0;0;0;0;0;0;0;0;0;0;0;1]%Z end.

Definition IsPrivate (ip : IP) : bool :=
  match To4 ip with
  | Some v => ((octet v 0 =? 10) || ((octet v 0 =? 172) && (Z.land (octet v 1) 240 =? 16)) || ((octet v 0 =? 192) && (octet v 1 =? 168)))%Z
  | None => is16 ip && (Z.land (octet ip 0) 254 =? 252)%Z
  end.

Definition IsLinkLocalUnicast (ip : IP) : bool :=
  match To4 ip with
  | Some v => ((octet v 0 =? 169) && (octet v 1 =? 254))%Z
  | None => is16 ip && ((octet ip 0 =? 254) && (Z.land (octet ip 1) 192 =? 128))%Z
  end.

Definition IsLinkLocalMulticast (ip : IP) : bool :=
  match To4 ip with
  | Some v => ((octet v 0 =? 224) && (octet v 1 =? 0) && (octet v 2 =? 0))%Z
  | None => is16 ip && ((octet ip 0 =? 255) && (Z.land (octet ip 1) 15 =? 2))%Z
  end.

Definition IsMulticast (ip : IP) : bool :=
  match To4 ip with
  | Some v => (Z.land (octet v 0) 240 =? 224)%Z
  | None => is16 ip && (octet ip 0 =? 255)%Z
  end.

Definition IsUnspecified (ip : IP) : bool :=
  match To4 ip with Some v => ipEqual v [0; 0; 0; 0]%Z | None => ipEqual ip (repeat 0%Z 16) end.

(** ** Printing *)

Definition dotted (q : IP) : string := joinWith "." (map itoa q).

(** A group in hexadecimal without leading zeros. *)
Definition hexText (n : Z) : string :=
  let d k := String (hexd (Z.land (Z.shiftr n k) 15)) "" in
  if (n <? 16)%Z then d 0%Z else if (n <? 256)%Z then d 4%Z +:+ d 0%Z else if (n <? 4096)%Z then d 8%Z +:+ d 4%Z +:+ d 0%Z else d 12%Z +:+ d 8%Z +:+ d 4%Z +:+ d 0%Z.

Fixpoint groups (ip : IP) : list Z := match ip with a :: b :: ip' => (a * 256 + b)%Z :: groups ip' | _ => [] end.

Fixpoint zeroRun (gs : list Z) : nat := match gs with g :: gs' => if (g =? 0)%Z then S (zeroRun gs') else O | [] => O end.

(** The first of the longest runs of at least two zero groups: where it starts, its length. *)
Fixpoint longestRun (at_ : nat) (gs : list Z) (best : option (nat * nat)) : option (nat * nat) :=
  match gs with
  | [] => best
  | _ :: gs' =>
      let l := zeroRun gs in
      longestRun (S at_) gs' (if (2 <=? l)%nat && (match best with Some (_, b) => b <? l | None => true end)%nat then Some (at_, l) else best)
  end.

Definition ipv6Text (ip : IP) : string :=
  let gs := groups ip in
  match longestRun 0 gs None with
  | None => joinWith ":" (map hexText gs)
  | Some (start, l) => joinWith ":" (map hexText (take start gs)) +:+ "::" +:+ joinWith ":" (map hexText (drop (start + l) gs))
  end.

(** [IP.String] on an address of 4 or 16 bytes. *)
Definition IPString (ip : IP) : string := match To4 ip with Some q => dotted q | None => ipv6Text ip end.

(** ** Host and port *)

Fixpoint lastColon (s : string) : option (string * string) :=
  match s with
  | EmptyString => None
  | String c s' =>
      match lastColon s' with
      | Some (a, b) => Some (String c a, b)
      | None => if Ascii.eqb c colon then Some ("", s') else None
      end
  end.

Fixpoint cutAt (d : ascii) (s : string) : option (string * string) :=
  match s with
  | EmptyString => None
  | String c s' => if Ascii.eqb c d then Some ("", s') else option_map (fun p => (String c (fst p), snd p)) (cutAt d s')
  end.

Definition missingPort : string := "missing port in address".
Definition tooManyColons : string := "too many colons in address".

(** The port is behind the last colon; an IPv6 host is in brackets. *)
Definition SplitHostPort (hostport : string) : res string (string * string) :=
  match lastColon hostport with
  | None => Err missingPort
  | Some (before, port) =>
      match hostport with
      | String "["%char inner =>
          match cutAt "]" inner with
          | None => Err "missing ']' in address"
          | Some (host, after) =>
              match after with
              | EmptyString => Err missingPort
              | String c rest =>
                  if negb (Ascii.eqb c colon) then Err missingPort
                  else if negb (str_eqb rest port && negb (has_byte colon rest)) then Err tooManyColons
                  else if has_byte "[" inner then Err "unexpected '[' in address"
                  else if has_byte "]" rest then Err "unexpected ']' in address"
                  else Ok (host, port)
              end
          end
      | _ =>
          if has_byte colon before then Err tooManyColons
          else if has_byte "[" hostport then Err "unexpected '[' in address"
          else if has_byte "]" hostport then Err "unexpected ']' in address"
          else Ok (before, port)
      end
  end.

Definition JoinHostPort (host port : string) : string :=
  if has_byte colon host then "[" +:+ host +:+ "]:" +:+ port else host +:+ ":" +:+ port.

Example parse_runs :
  ParseIP "10.0.0.7" = Some (v4InV6Prefix ++ [10; 0; 0; 7])%Z /\ ParseIP "10.0.0.07" = None /\ ParseIP "1.2.3" = None /\ ParseIP "256.1.1.1" = None /\ ParseIP "1.2.3.4." = None /\
  ParseIP "::1" = Some [0;0;0;0;0;0;0;0;0;0;0;0;0;0;0;1]%Z /\ ParseIP "fe80::1%eth0" = None /\ ParseIP "::ffff:10.0.0.7" = ParseIP "10.0.0.7" /\
  ParseIP "2001:db8::a:0:0:1" = Some [32;1;13;184;0;0;0;0;0;10;0;0;0;0;0;1]%Z /\ ParseIP "1:2:3:4:5:6:7::" = Some [0;1;0;2;0;3;0;4;0;5;0;6;0;7;0;0]%Z /\
  ParseIP "1:2:3:4:5:6:7:8::" = None /\ ParseIP "1::2::3" = None /\ ParseIP "12345::" = None /\ ParseIP "1:2" = None /\ ParseIP "" = None.
Proof. by vm_compute. Qed.

Example cidr_runs :
  ParseCIDR "10.1.2.3/9" = Some (mkIPNet [10; 0; 0; 0] [255; 128; 0; 0])%Z /\ ParseCIDR "10.0.0.0/33" = None /\ ParseCIDR "10.0.0.0" = None /\ ParseCIDR "10.0.0.0/+8" = None /\
  option_map (fun n => (Contains n [10; 127; 0; 1], Contains n (v4InV6Prefix ++ [10; 128; 0; 1])))%Z (ParseCIDR "10.1.2.3/9") = Some (true, false) /\
  option_map (fun n => (Contains n [10; 127; 0; 1], Contains n [11; 0; 0; 1]))%Z (ParseCIDR "::ffff:10.0.0.0/104") = Some (true, false).
Proof. by vm_compute. Qed.

Example text_runs :
  IPString [10; 0; 0; 7]%Z = "10.0.0.7" /\ option_map IPString (ParseIP "2001:db8:0:0:1::1") = Some "2001:db8::1:0:0:1" /\ option_map IPString (ParseIP "0:0:0:0:0:0:0:1") = Some "::1" /\
  SplitHostPort "[::1]:443" = Ok ("::1", "443") /\ SplitHostPort "::1:443" = Err tooManyColons /\ SplitHostPort "h:80" = Ok ("h", "80") /\ SplitHostPort "h" = Err missingPort /\
  SplitHostPort "[::1]" = Err missingPort /\ SplitHostPort "[::1]:" = Ok ("::1", "").
Proof. by vm_compute. Qed.

(** ** CIDR blocks are prefixes

    [inBlock] compares the leading bits of two addresses as numbers; a parsed CIDR block
    contains exactly the addresses it says. *)

(** ** The reference *)

Definition isByte (b : Z) : bool := ((0 <=? b) && (b <? 256))%Z.
Definition wfIP (ip : IP) : bool := forallb isByte ip && ((length ip =? 4)%nat || (length ip =? 16)%nat).

(** An address as a number, most significant byte first. *)
Fixpoint ipNumber (ip : IP) : Z := match ip with [] => 0 | b :: ip' => b * 256 ^ Z.of_nat (length ip') + ipNumber ip' end%Z.

Definition samePrefix (k : Z) (a b : IP) : bool :=
  let shift := (8 * Z.of_nat (length a) - k)%Z in (Z.shiftr (ipNumber a) shift =? Z.shiftr (ipNumber b) shift)%Z.

(** The address in its own family: an IPv4-mapped one is an IPv4 address. *)
Definition family (ip : IP) : IP := default ip (To4 ip).
Definition inBlock (base : IP) (k : Z) (ip : IP) : bool := (length (family ip) =? length base)%nat && samePrefix k base (family ip).

Definition maskedEq (m a b : list Z) : bool := forallb (fun p => let '(a, (b, m)) := p in (Z.land a m =? Z.land b m)%Z) (zip a (zip b m)).

(** ** Bytes *)

Definition byteMask (k : Z) : Z := Z.lxor 255 (Z.shiftr 255 k).

(** Checked for every byte and every length of a partial mask. *)
Lemma mask_byte_all : forallb (fun k => forallb (fun a => (Z.land (Z.of_nat a) (byteMask (Z.of_nat k)) =? Z.shiftl (Z.shiftr (Z.of_nat a) (8 - Z.of_nat k)) (8 - Z.of_nat k))%Z) (seq 0 256)) (seq 0 8) = true.
Proof. vm_compute. reflexivity. Qed.

Lemma mask_byte k a : (0 <= k < 8)%Z -> isByte a = true -> Z.land a (byteMask k) = Z.shiftl (Z.shiftr a (8 - k)) (8 - k).
Proof.
  intros Hk [Ha1%Z.leb_le Ha2%Z.ltb_lt]%andb_true_iff. pose proof mask_byte_all as H. rewrite forallb_forall in H.
  specialize (H (Z.to_nat k) ltac:(apply in_seq; lia)). rewrite forallb_forall in H. specialize (H (Z.to_nat a) ltac:(apply in_seq; lia)).
  rewrite !Z2Nat.id in H by lia. by apply Z.eqb_eq in H.
Qed.

Lemma mask_byte_eq k a b : (0 <= k < 8)%Z -> isByte a = true -> isByte b = true -> (Z.land a (byteMask k) =? Z.land b (byteMask k))%Z = (Z.shiftr a (8 - k) =? Z.shiftr b (8 - k))%Z.
Proof.
  intros Hk Ha Hb. rewrite !mask_byte by done. rewrite !Z.shiftl_mul_pow2 by lia. apply eq_true_iff_eq. rewrite !Z.eqb_eq.
  split; [|by intros ->]. apply Z.mul_cancel_r. pose proof (Z.pow_pos_nonneg 2 (8 - k)). lia.
Qed.

Lemma mask_full a : isByte a = true -> Z.land a 255 = a.
Proof. intros [H1%Z.leb_le H2%Z.ltb_lt]%andb_true_iff. change 255%Z with (Z.ones 8). rewrite Z.land_ones by lia. apply Z.mod_small. lia. Qed.

Lemma number_bound ip : forallb isByte ip = true -> (0 <= ipNumber ip < 256 ^ Z.of_nat (length ip))%Z.
Proof.
  induction ip as [|a ip IH]; [cbn; lia|]. cbn [forallb ipNumber length]. intros [Ha Hb]%andb_true_iff. specialize (IH Hb). apply andb_true_iff in Ha as [H1%Z.leb_le H2%Z.ltb_lt].
  rewrite Nat2Z.inj_succ, Z.pow_succ_r by lia. nia.
Qed.

Lemma pow_bytes n : (256 ^ Z.of_nat n = 2 ^ (8 * Z.of_nat n))%Z.
Proof. rewrite Z.pow_mul_r by lia. done. Qed.

(** ** Masks are prefixes *)

Lemma mask_zero a b : length a = length b -> maskedEq (CIDRMask 0 (length a)) a b = true.
Proof.
  revert b. induction a as [|x a IH]; intros [|y b] Hl; try done. injection Hl as Hl. cbn [length]. change (CIDRMask 0 (S (length a))) with (0%Z :: CIDRMask 0 (length a)).
  unfold maskedEq in *. cbn [zip zip_with forallb]. rewrite !Z.land_0_r, IH; done.
Qed.

Lemma shiftr_split a n s : (0 <= s <= 8 * Z.of_nat n)%Z -> forall x, (Z.shiftr (a * 256 ^ Z.of_nat n + x) s = a * 2 ^ (8 * Z.of_nat n - s) + Z.shiftr x s)%Z.
Proof.
  intros Hs x. rewrite !Z.shiftr_div_pow2, pow_bytes by lia. replace (2 ^ (8 * Z.of_nat n))%Z with (2 ^ (8 * Z.of_nat n - s) * 2 ^ s)%Z by (rewrite <- Z.pow_add_r by lia; f_equal; lia).
  rewrite Z.mul_assoc, Z.div_add_l; [done|]. apply Z.pow_nonzero; lia.
Qed.

Lemma shiftr_small x n s : (0 <= x < 256 ^ Z.of_nat n)%Z -> (0 <= s <= 8 * Z.of_nat n)%Z -> (0 <= Z.shiftr x s < 2 ^ (8 * Z.of_nat n - s))%Z.
Proof.
  intros Hx Hs. rewrite pow_bytes in Hx. rewrite Z.shiftr_div_pow2 by lia. split; [apply Z.div_pos; [lia|apply Z.pow_pos_nonneg; lia]|].
  apply Z.div_lt_upper_bound; [apply Z.pow_pos_nonneg; lia|]. rewrite <- Z.pow_add_r by lia. replace (s + (8 * Z.of_nat n - s))%Z with (8 * Z.of_nat n)%Z by lia. lia.
Qed.

Lemma shiftr_high a x n s : (0 <= x < 256 ^ Z.of_nat n)%Z -> (8 * Z.of_nat n <= s)%Z -> Z.shiftr (a * 256 ^ Z.of_nat n + x) s = Z.shiftr a (s - 8 * Z.of_nat n).
Proof.
  intros Hx Hs. replace s with (8 * Z.of_nat n + (s - 8 * Z.of_nat n))%Z at 1 by lia. rewrite <- Z.shiftr_shiftr by lia. f_equal.
  rewrite shiftr_split by lia. rewrite Z.sub_diag, Z.pow_0_r, Z.mul_1_r. pose proof (shiftr_small x n (8 * Z.of_nat n) Hx ltac:(lia)). rewrite Z.sub_diag in *. lia.
Qed.

Lemma mask_prefix a : forall b k, length a = length b -> forallb isByte a = true -> forallb isByte b = true -> (0 <= k <= 8 * Z.of_nat (length a))%Z ->
  maskedEq (CIDRMask k (length a)) a b = samePrefix k a b.
Proof.
  induction a as [|x a IH]; intros [|y b] k Hl Ha Hb Hk; try done; [unfold samePrefix; by rewrite Z.eqb_refl|]. injection Hl as Hl. cbn [forallb] in Ha, Hb. apply andb_true_iff in Ha as [Hx Ha], Hb as [Hy Hb].
  pose proof (number_bound a Ha) as Na. pose proof (number_bound b Hb) as Nb. rewrite <- Hl in Nb. cbn [length] in Hk. rewrite Nat2Z.inj_succ in Hk.
  unfold samePrefix. cbn [ipNumber length CIDRMask]. rewrite <- Hl, Nat2Z.inj_succ. destruct (Z.leb_spec 8 k) as [Hk8|Hk8].
  - specialize (IH b (k - 8)%Z Hl Ha Hb ltac:(lia)). unfold maskedEq in *. cbn [zip zip_with forallb]. rewrite IH, !mask_full by done. unfold samePrefix.
    replace (8 * Z.succ (Z.of_nat (length a)) - k)%Z with (8 * Z.of_nat (length a) - (k - 8))%Z by lia. rewrite !shiftr_split by lia.
    set (s := (8 * Z.of_nat (length a) - (k - 8))%Z). pose proof (shiftr_small _ _ s Na ltac:(lia)). pose proof (shiftr_small _ _ s Nb ltac:(lia)).
    set (P := (2 ^ (8 * Z.of_nat (length a) - s))%Z) in *. apply eq_true_iff_eq. rewrite andb_true_iff, !Z.eqb_eq. split; [by intros [-> ->]|]. intros E. assert (x = y) by nia. subst y. split; [done|lia].
  - change (Z.lxor 255 (Z.shiftr 255 k)) with (byteMask k). pose proof (mask_zero a b Hl) as Hz. unfold maskedEq in *. cbn [zip zip_with forallb]. rewrite Hz, andb_true_r, mask_byte_eq by (done || lia).
    rewrite !shiftr_high by lia. by replace (8 * Z.succ (Z.of_nat (length a)) - k - 8 * Z.of_nat (length a))%Z with (8 - k)%Z by lia.
Qed.

(** ** Parsed addresses are well formed *)

Lemma ipv4_wf s : forall fields val fresh zero pos q, forallb isByte fields = true -> isByte val = true -> length fields = pos -> ipv4Fields fields val fresh zero pos s = Some q ->
  length q = 4%nat /\ forallb isByte q = true.
Proof.
  induction s as [|c s IH]; intros fields val fresh zero pos q Hf Hv Hp; cbn [ipv4Fields].
  - destruct (fresh || negb (pos =? 3)%nat) eqn:E; [done|]. apply orb_false_iff in E as [_ E%negb_false_iff%Nat.eqb_eq]. intros [= <-].
    rewrite length_app, forallb_app, Hf. cbn. rewrite Hv. split; [lia|done].
  - destruct (is_digit c) eqn:Ed.
    + destruct zero; [done|]. destruct (Z.ltb_spec 255 (val * 10 + (byteOf c - 48))) as [|Hle]; [done|]. apply IH; try done. pose proof (proj1 (is_digit_byte c) Ed). unfold isByte in *. lia.
    + destruct (Ascii.eqb c period); [|done]. destruct (_ || _); [done|]. apply IH; [|done|rewrite length_app; cbn; lia]. rewrite forallb_app, Hf. cbn. by rewrite Hv.
Qed.

Lemma hexVal_range c d : hexVal c = Some d -> (0 <= d < 16)%Z.
Proof. unfold hexVal. repeat case_match; intros [= <-]; lia. Qed.

Lemma hexGroup_range s : forall acc n v m rest, (0 <= acc < 16 ^ Z.of_nat n)%Z -> (n <= 4)%nat -> hexGroup acc n s = Some (v, m, rest) -> (0 <= v < 65536)%Z.
Proof.
  induction s as [|c s IH]; intros acc n v m rest Ha Hn; cbn [hexGroup].
  - intros [= <- _ _]. assert (16 ^ Z.of_nat n <= 16 ^ 4)%Z by (apply Z.pow_le_mono_r; lia). lia.
  - destruct (hexVal c) as [d|] eqn:E.
    + destruct (Nat.ltb_spec 3 n); [done|]. pose proof (hexVal_range c d E). apply IH; [|lia]. rewrite Nat2Z.inj_succ, Z.pow_succ_r by lia. lia.
    + intros [= <- _ _]. assert (16 ^ Z.of_nat n <= 16 ^ 4)%Z by (apply Z.pow_le_mono_r; lia). lia.
Qed.

Lemma group_bytes acc : (0 <= acc < 65536)%Z -> forallb isByte [Z.shiftr acc 8; Z.land acc 255] = true.
Proof.
  intros Ha. change 255%Z with (Z.ones 8). rewrite Z.land_ones, Z.shiftr_div_pow2 by lia. change (2 ^ 8)%Z with 256%Z. cbn. unfold isByte.
  assert (0 <= acc / 256 < 256)%Z by (split; [apply Z.div_pos; lia|apply Z.div_lt_upper_bound; lia]). pose proof (Z.mod_pos_bound acc 256). lia.
Qed.

(** The ellipsis is within the bytes read. *)
Definition groupsOK (bytes : list Z) (ellipsis : option nat) : Prop := forallb isByte bytes = true /\ match ellipsis with Some e => (e <= length bytes)%nat | None => True end.

Lemma ipv6_groups_ok fuel : forall bytes ellipsis s b e, groupsOK bytes ellipsis -> ipv6Groups fuel bytes ellipsis s = Some (b, e) -> groupsOK b e.
Proof.
  induction fuel as [|fuel IH]; intros bytes ellipsis s b e Hok; cbn [ipv6Groups]; [destruct (str_eqb s ""); [by intros [= <- <-]|done]|].
  destruct (hexGroup 0 0 s) as [[[acc [|n]] rest]|] eqn:Eh; [done| |done]. apply hexGroup_range in Eh; [|cbn; lia|lia].
  assert (forall ell, (ell = ellipsis \/ ell = Some (length (bytes ++ [Z.shiftr acc 8; Z.land acc 255]))) -> groupsOK (bytes ++ [Z.shiftr acc 8; Z.land acc 255]) ell) as Hext.
  { intros ell Hell. destruct Hok as [Hb He]. split; [by rewrite forallb_app, Hb, group_bytes|]. destruct Hell as [-> | ->]; [|done]. destruct ellipsis; [|done]. rewrite length_app. lia. }
  assert (forall ell, (ell = ellipsis \/ ell = Some (length (bytes ++ [Z.shiftr acc 8; Z.land acc 255]))) -> forall s', ipv6Groups fuel (bytes ++ [Z.shiftr acc 8; Z.land acc 255]) ell s' = Some (b, e) -> groupsOK b e) as Hrec
    by (intros ell Hell s'; by apply IH, Hext).
  assert (match parseIPv4 s with Some q => Some (bytes ++ q, ellipsis) | None => None end = Some (b, e) -> groupsOK b e) as Hv4.
  { destruct (parseIPv4 s) as [q|] eqn:Eq; [|done]. intros [= <- <-]. apply ipv4_wf in Eq as [_ Hq]; [|done..]. destruct Hok as [Hb He]. split; [by rewrite forallb_app, Hb|]. destruct ellipsis; [|done]. rewrite length_app. lia. }
  clear IH Eh. destruct rest as [|c rest']; [intros [= <- <-]; apply Hext; by left|].
  repeat case_match; try done; try (intros [= <- <-]; apply Hext; by (left + right)); try (apply Hrec; by (left + right)); exact Hv4.
Qed.

Lemma forallb_take_drop {A} (f : A -> bool) n l : forallb f l = true -> forallb f (take n l) = true /\ forallb f (drop n l) = true.
Proof. intros Hl. rewrite <- (take_drop n l), forallb_app in Hl. by apply andb_true_iff in Hl. Qed.

Lemma expand_wf b e ip : groupsOK b e -> expandEllipsis b e = Some ip -> length ip = 16%nat /\ forallb isByte ip = true.
Proof.
  intros [Hb He]. unfold expandEllipsis. destruct e as [e|].
  - destruct (Nat.ltb_spec (length b) 16) as [Hl|]; [|done]. intros [= <-]. destruct (forallb_take_drop isByte e b Hb) as [H1 H2].
    assert (forallb isByte (repeat 0%Z (16 - length b)) = true) as Hz by (apply forallb_forall; by intros x ->%repeat_spec).
    rewrite !length_app, length_take, length_drop, repeat_length, !forallb_app, H1, H2, Hz. split; [lia|done].
  - destruct (Nat.eqb_spec (length b) 16); [|done]. by intros [= <-].
Qed.

Lemma parse_wf s a : ParseAddr s = Some a -> match a with inl q => length q = 4%nat /\ forallb isByte q = true | inr ip => length ip = 16%nat /\ forallb isByte ip = true end.
Proof.
  unfold ParseAddr. destruct (firstMark s) as [c|]; [|done]. destruct (Ascii.eqb c period).
  - destruct (parseIPv4 s) as [q|] eqn:E; [|done]. intros [= <-]. by apply ipv4_wf in E.
  - destruct (Ascii.eqb c colon); [|done]. destruct (parseIPv6 s) as [ip|] eqn:E; [|done]. intros [= <-]. unfold parseIPv6 in E. destruct (has_byte "%" s); [done|].
    assert (forall e s', match e with Some e => e = 0%nat | None => True end -> match ipv6Groups 8 [] e s' with Some (b, e) => expandEllipsis b e | None => None end = Some ip -> length ip = 16%nat /\ forallb isByte ip = true) as Hg.
    { intros e s' He. destruct (ipv6Groups 8 [] e s') as [[b e']|] eqn:Eg; [|done]. apply expand_wf. eapply ipv6_groups_ok; [|exact Eg]. split; [done|]. by destruct e as [e|]; [subst|]. }
    destruct (leadingEllipsis s) as [s'|]; [|by apply (Hg None s)]. destruct (str_eqb s' ""); [by injection E as <-|by apply (Hg (Some 0%nat) s')].
Qed.

(** ** Networks *)

Lemma and_and a m : andBytes (andBytes a m) m = andBytes a m.
Proof. revert m. induction a as [|x a IH]; intros [|y m]; try done. unfold andBytes in *. cbn. by rewrite IH, <- Z.land_assoc, Z.land_diag. Qed.

Lemma masked_and m a b : length a = length m -> maskedEq m (andBytes a m) b = maskedEq m a b.
Proof.
  revert a b. induction m as [|y m IH]; intros [|x a] [|z b] Hl; try done. injection Hl as Hl. unfold maskedEq, andBytes in *. cbn. by rewrite IH, <- Z.land_assoc, Z.land_diag.
Qed.

Lemma mask_length k l : length (CIDRMask k l) = l.
Proof. revert k. induction l as [|l IH]; intros k; [done|]. cbn [CIDRMask]. destruct (_ <=? _)%Z; cbn; by rewrite IH. Qed.

Lemma and_length a m : length a = length m -> length (andBytes a m) = length a.
Proof. intros Hl. unfold andBytes. rewrite length_map, length_zip_with. lia. Qed.

Lemma mask_long k n l : (8 * Z.of_nat n <= k)%Z -> CIDRMask k (n + l) = repeat 255%Z n ++ CIDRMask (k - 8 * Z.of_nat n) l.
Proof.
  revert k. induction n as [|n IH]; intros k Hk; [cbn [Nat.add repeat app]; f_equal; lia|]. cbn [Nat.add CIDRMask repeat app]. destruct (Z.leb_spec 8 k); [|lia].
  rewrite IH by lia. do 3 f_equal. lia.
Qed.

Lemma mask_partial i : forall k l, (0 <= k < 8 * Z.of_nat i + 8)%Z -> (0 <= nth i (CIDRMask k l) 0 < 255)%Z.
Proof.
  induction i as [|i IH]; intros k [|l] Hk; cbn [CIDRMask]; try (cbn; lia); destruct (Z.leb_spec 8 k); cbn [nth]; try lia; [|apply IH; lia..].
  assert (k = 0 \/ k = 1 \/ k = 2 \/ k = 3 \/ k = 4 \/ k = 5 \/ k = 6 \/ k = 7)%Z as Hc by lia. repeat destruct Hc as [->|Hc]; subst; vm_compute; split; congruence.
Qed.

Lemma and_full a : forallb isByte a = true -> andBytes a (repeat 255%Z (length a)) = a.
Proof. induction a as [|x a IH]; [done|]. cbn [forallb length repeat]. intros [Hx Ha]%andb_true_iff. unfold andBytes in *. cbn. by rewrite mask_full, IH. Qed.

Lemma and_app a b m n : length a = length m -> andBytes (a ++ b) (m ++ n) = andBytes a m ++ andBytes b n.
Proof. revert m. induction a as [|x a IH]; intros [|y m] Hl; try done. injection Hl as Hl. unfold andBytes in *. cbn. by rewrite IH. Qed.

Lemma to4_length ip q : wfIP ip = true -> To4 ip = Some q -> length q = 4%nat /\ forallb isByte q = true.
Proof.
  intros [Hb Hl]%andb_true_iff. unfold To4. destruct (Nat.eqb_spec (length ip) 4); [by intros [= <-]|]. destruct (Nat.eqb_spec (length ip) 16); [|done]. cbn [andb].
  destruct (bool_decide _); [|done]. intros [= <-]. rewrite length_drop. split; [lia|by apply forallb_take_drop].
Qed.

Lemma family_wf ip : wfIP ip = true -> forallb isByte (family ip) = true.
Proof. intros Hw. unfold family. destruct (To4 ip) as [q|] eqn:E; [by apply (to4_length ip)|]. by apply andb_true_iff in Hw as [? _]. Qed.

(** The block a parsed text stands for: an IPv4-mapped network of 96 bits or more is an
    IPv4 network. *)
Definition blockOf (a : IP + IP) (k : Z) : IP * Z :=
  match a with
  | inl q => (q, k)
  | inr ip => match To4 ip with Some q => if (96 <=? k)%Z then (q, (k - 96)%Z) else (ip, k) | None => (ip, k) end
  end.

Lemma contains_plain base k n ip : forallb isByte base = true -> (0 <= k <= 8 * Z.of_nat (length base))%Z -> wfIP ip = true ->
  networkNumberAndMask n = Some (andBytes base (CIDRMask k (length base)), CIDRMask k (length base)) -> Contains n ip = inBlock base k ip.
Proof.
  intros Hb Hk Hw Hn. unfold Contains, inBlock. rewrite Hn. fold (family ip). rewrite and_length by (by rewrite mask_length).
  destruct (Nat.eqb_spec (length (family ip)) (length base)) as [E|]; [|done]. cbn [andb].
  change (maskedEq (CIDRMask k (length base)) (andBytes base (CIDRMask k (length base))) (family ip) = samePrefix k base (family ip)).
  rewrite masked_and by (by rewrite mask_length). apply mask_prefix; [done|done|by apply family_wf|done].
Qed.

Lemma dtoi_nonneg s n : dtoi s = Some n -> (0 <= n)%Z.
Proof.
  assert (forall s acc n, (0 <= acc)%Z -> dtoiFrom acc s = Some n -> (0 <= n)%Z) as Hd.
  { clear. induction s as [|c s IH]; intros acc n Ha; cbn [dtoiFrom]; [by intros [= <-]|]. destruct (is_digit c) eqn:E; [|done]. apply is_digit_byte in E.
    destruct (_ <=? _)%Z; [done|]. apply IH. lia. }
  unfold dtoi. destruct s; [done|]. by apply Hd.
Qed.

Lemma contains_mapped (ip : IP) k x : length ip = 16%nat -> forallb isByte ip = true -> (0 <= k <= 128)%Z -> wfIP x = true ->
  Contains (mkIPNet (andBytes ip (CIDRMask k 16)) (CIDRMask k 16)) x = inBlock (fst (blockOf (inr ip) k)) (snd (blockOf (inr ip) k)) x.
Proof.
  intros Hl Hb Hk Hx. set (m := CIDRMask k 16). assert (length m = 16%nat) as Hm by apply mask_length. assert (length (andBytes ip m) = 16%nat) as Ha by (rewrite and_length; lia).
  assert (networkNumberAndMask (mkIPNet (andBytes ip m) m) =
    if bool_decide (take 12 (andBytes ip m) = v4InV6Prefix) then Some (drop 12 (andBytes ip m), drop 12 m) else Some (andBytes ip m, m)) as En.
  { unfold networkNumberAndMask, To4. cbn [net_IP net_Mask]. rewrite Ha, Hm. cbn [Nat.eqb andb]. destruct (bool_decide _); [by rewrite length_drop, Ha|by rewrite Ha]. }
  cbn [blockOf]. assert (To4 ip = if bool_decide (take 12 ip = v4InV6Prefix) then Some (drop 12 ip) else None) as -> by (unfold To4; by rewrite Hl).
  destruct (Z.leb_spec 96 k) as [Hk96|Hk96].
  - assert (m = repeat 255%Z 12 ++ CIDRMask (k - 96) 4) as Em by (apply (mask_long k 12 4); lia).
    assert (andBytes ip m = take 12 ip ++ andBytes (drop 12 ip) (CIDRMask (k - 96) 4)) as Ei.
    { rewrite Em, <- (take_drop 12 ip) at 1. assert (length (take 12 ip) = 12%nat) as Ht by (rewrite length_take; lia). rewrite and_app by (by rewrite Ht). f_equal.
      rewrite <- Ht at 2. apply and_full. by apply forallb_take_drop. }
    assert (length (take 12 ip) = 12%nat) as Ht by (rewrite length_take; lia).
    assert (take 12 (andBytes ip m) = take 12 ip) as E1 by (rewrite Ei; by apply take_app_length').
    assert (drop 12 (andBytes ip m) = andBytes (drop 12 ip) (CIDRMask (k - 96) 4)) as E2 by (rewrite Ei; by apply drop_app_length').
    assert (drop 12 m = CIDRMask (k - 96) 4) as E3 by (rewrite Em; by apply drop_app_length').
    rewrite E1, E2, E3 in En. destruct (bool_decide _); cbn [fst snd].
    + apply contains_plain; [by apply forallb_take_drop|rewrite length_drop; lia|done|]. by rewrite length_drop, Hl, En.
    + apply contains_plain; [done|lia|done|]. by rewrite Hl, En.
  - rewrite bool_decide_eq_false_2 in En.
    + destruct (bool_decide _); cbn [fst snd]; (apply contains_plain; [done|lia|done|]); rewrite Hl; by fold m.
    + intros E. pose proof (mask_partial 11 k 16 ltac:(lia)) as Hp. assert (nth 11 (take 12 (andBytes ip m)) 0%Z = 255%Z) as E1 by (by rewrite E).
      assert (nth 11 (andBytes ip m) 0%Z = Z.land (nth 11 ip 0%Z) (nth 11 m 0%Z)) as E2.
      { clear - Hl Hm. destruct ip as [|? [|? [|? [|? [|? [|? [|? [|? [|? [|? [|? [|? ip]]]]]]]]]]]]; try done. by destruct m as [|? [|? [|? [|? [|? [|? [|? [|? [|? [|? [|? [|? m]]]]]]]]]]]]. }
      assert (nth 11 (take 12 (andBytes ip m)) 0%Z = nth 11 (andBytes ip m) 0%Z) as E3 by (rewrite <- (take_drop 12 (andBytes ip m)) at 2; rewrite app_nth1; [done|rewrite length_take; lia]).
      rewrite E3, E2 in E1. fold m in Hp. assert (Z.land 255 (nth 11 m 0%Z) = 255%Z) as E4 by (rewrite <- E1, <- Z.land_assoc, Z.land_diag; done).
      rewrite Z.land_comm, mask_full in E4; [lia|unfold isByte; lia].
Qed.

(** The block of a text. *)
Definition textBlock (s : string) : option (IP * Z) :=
  match cutSlash s with
  | Some (addr, mask) => match ParseAddr addr, dtoi mask with Some a, Some k => Some (blockOf a k) | _, _ => None end
  | None => None
  end.

Lemma cidr_block s n : ParseCIDR s = Some n -> exists b, textBlock s = Some b /\ forall ip, wfIP ip = true -> Contains n ip = inBlock b.1 b.2 ip.
Proof.
  unfold ParseCIDR, textBlock. destruct (cutSlash s) as [[addr mask]|]; [|done]. destruct (ParseAddr addr) as [a|] eqn:Ea; [|done]. apply parse_wf in Ea.
  destruct (dtoi mask) as [k|] eqn:Ek; [apply dtoi_nonneg in Ek|by destruct a]. destruct a as [q|x]; destruct Ea as [Hl Hb].
  - destruct (Z.leb_spec k 32); [|done]. intros E. assert (n = mkIPNet (andBytes q (CIDRMask k 4)) (CIDRMask k 4)) as -> by congruence. clear E. eexists. split; [done|]. intros ip Hw. cbn [blockOf fst snd]. apply contains_plain; [done|rewrite Hl; lia|done|].
    assert (length (CIDRMask k 4) = 4%nat) as Hm by apply mask_length. assert (length (andBytes q (CIDRMask k 4)) = 4%nat) as Hn by (rewrite and_length; lia).
    unfold networkNumberAndMask, To4. cbn [net_IP net_Mask]. rewrite Hl, Hn, Hm. cbn [Nat.eqb]. by rewrite Hn.
  - destruct (Z.leb_spec k 128); [|done]. intros E. assert (n = mkIPNet (andBytes x (CIDRMask k 16)) (CIDRMask k 16)) as -> by congruence. clear E. eexists. split; [done|]. intros ip Hw. by apply contains_mapped.
Qed.

Lemma parseIP_wf s ip : ParseIP s = Some ip -> wfIP ip = true.
Proof.
  unfold ParseIP. destruct (ParseAddr s) as [a|] eqn:E; [|done]. apply parse_wf in E. intros [= <-]. unfold wfIP. destruct a as [q|x]; destruct E as [Hl Hb]; cbn [As16].
  - by rewrite forallb_app, length_app, Hl, Hb.
  - by rewrite Hl, Hb.
Qed.
