(* ===== verification/Ssrf.v ===== *)
(** * The SSRF guard (internal/delivery/ssrf.go)

    The policy on resolved addresses, the guarded transport and the guarded dialer, then
    what they let through.  The resolver is part of the world [W]: two queries for one
    name may answer differently. *)

From stdpp Require Import base list strings.
From Stdlib Require Import ZArith Lia Ascii.
From S2P Require Import Prelude GoMap Json Paths Diff DiffSound Domain Tenant Config Numbers Canonical Worker JsonText NetAddr.

(** ** The policy *)

Record SSRFPolicy := mkPolicy { Allow : list string; Deny : list string; AllowPrivate : bool; AllowHTTP : bool }.
Record compiledPolicy := mkCompiledPolicy { cp_allow : list IPNet; cp_deny : list IPNet; cp_allowPrivate : bool }.

Fixpoint parseNets (cidrs : list string) : option (list IPNet) :=
  match cidrs with
  | [] => Some []
  | c :: cidrs' => match ParseCIDR c with None => None | Some n => option_map (cons n) (parseNets cidrs') end
  end.

Definition compilePolicy (p : SSRFPolicy) : option compiledPolicy :=
  match parseNets (Allow p), parseNets (Deny p) with
  | Some a, Some d => Some (mkCompiledPolicy a d (AllowPrivate p))
  | _, _ => None
  end.

Definition isPrivateOrReserved (ip : IP) : bool :=
  IsLoopback ip || IsPrivate ip || IsLinkLocalUnicast ip || IsLinkLocalMulticast ip.

Definition isBlockedCompiled (ip : IP) (p : compiledPolicy) : bool :=
  if existsb (fun n => Contains n ip) (cp_allow p) then false
  else if existsb (fun n => Contains n ip) (cp_deny p) then true
  else if negb (cp_allowPrivate p) && isPrivateOrReserved ip then true
  else IsMulticast ip || IsUnspecified ip.

Definition isBlocked (ip : IP) (p : SSRFPolicy) : bool :=
  match compilePolicy p with None => true | Some cp => isBlockedCompiled ip cp end.

(** The loop over the resolved addresses. *)
Fixpoint firstBlocked (ips : list string) (p : compiledPolicy) : option IP :=
  match ips with
  | [] => None
  | raw :: ips' =>
      match ParseIP raw with
      | None => firstBlocked ips' p
      | Some ip => if isBlockedCompiled ip p then Some ip else firstBlocked ips' p
      end
  end.

(** ** Errors *)

(** An error and what it wraps; [Unwrap] may answer nil. *)
Inductive netError :=
| ErrSSRFBlocked (ip : IP) (host : string)
| WrappedError (msg : string) (inner : option netError)
| OtherError (msg : string).

Definition blockedText (ip : IP) (host : string) : string := "ssrf: blocked connection to " +:+ host +:+ " (resolved " +:+ IPString ip +:+ ")".

Fixpoint errorAs (e : netError) : option (IP * string) :=
  match e with
  | ErrSSRFBlocked ip host => Some (ip, host)
  | WrappedError _ (Some inner) => errorAs inner
  | WrappedError _ None => None
  | OtherError _ => None
  end.

Definition IsSSRFBlocked (e : option netError) : bool := match e with None => false | Some e => match errorAs e with Some _ => true | None => false end end.

(** ** The guarded transport and dialer *)

Class HostResolver (W : Type) := { LookupHost : string -> W -> option (list string) * W }.

Section Guard.
Context {W : Type} `{HostResolver W}.

(** The base transport or dialer resolves the host itself and dials one of the answers
    (the literal host when the lookup fails). *)
Definition dialBase (host : string) (w : W) : res netError (list string) * W :=
  let '(ans, w') := LookupHost host w in (Ok (default [host] ans), w').

Definition RoundTrip (p : compiledPolicy) (host : string) (w : W) : res netError (list string) * W :=
  let '(ans, w1) := LookupHost host w in
  match firstBlocked (default [host] ans) p with
  | Some ip => (Err (ErrSSRFBlocked ip host), w1)
  | None => dialBase host w1
  end.

(** [None] leaves the default transport in place. *)
Definition NewGuardedTransport (policy : option SSRFPolicy) : res string (option compiledPolicy) :=
  match policy with
  | None => Ok None
  | Some p => match compilePolicy p with None => Err "ssrf CIDR" | Some cp => Ok (Some cp) end
  end.

(** A request through the transport [NewGuardedTransport] built. *)
Definition roundTripWith (t : option compiledPolicy) (host : string) (w : W) : res netError (list string) * W :=
  match t with None => dialBase host w | Some cp => RoundTrip cp host w end.

Definition guardDial (p : compiledPolicy) (addr : string) (w : W) : res netError (list string) * W :=
  match SplitHostPort addr with
  | Err e => (Err (OtherError e), w)
  | Ok (host, port) =>
      let '(ans, w1) := LookupHost host w in
      match firstBlocked (default [host] ans) p with
      | Some ip => (Err (ErrSSRFBlocked ip host), w1)
      | None => match SplitHostPort (JoinHostPort host port) with Ok (h, _) => dialBase h w1 | Err e => (Err (OtherError e), w1) end
      end
  end.

Definition dialPlain (addr : string) (w : W) : res netError (list string) * W :=
  match SplitHostPort addr with Ok (h, _) => dialBase h w | Err e => (Err (OtherError e), w) end.

Definition NewGuardDialer (policy : option SSRFPolicy) : res string (string -> W -> res netError (list string) * W) :=
  match policy with
  | None => Ok dialPlain
  | Some p => match compilePolicy p with None => Err "ssrf CIDR" | Some cp => Ok (guardDial cp) end
  end.
End Guard.

(** ** What the SSRF guard lets through

    The policy in terms of CIDR blocks, and the addresses a guarded request can reach. *)

(** ** The policy, by blocks *)

Definition v6 (l : list Z) (last : Z) : IP := l ++ repeat 0%Z (15 - length l) ++ [last].

(** Loopback, private and link-local; and multicast and unspecified. *)
Definition privateBlocks : list (IP * Z) :=
  [([127; 0; 0; 0], 8); ([10; 0; 0; 0], 8); ([172; 16; 0; 0], 12); ([192; 168; 0; 0], 16); ([169; 254; 0; 0], 16);
   (v6 [] 1, 128); (v6 [252] 0, 7); (v6 [254; 128] 0, 10)]%Z.
Definition alwaysBlocks : list (IP * Z) := [([224; 0; 0; 0], 4); ([0; 0; 0; 0], 32); (v6 [255] 0, 8); (v6 [] 0, 128)]%Z.

Definition inAny (bs : list (IP * Z)) (ip : IP) : bool := existsb (fun b => inBlock b.1 b.2 ip) bs.
Definition inTexts (ss : list string) (ip : IP) : bool := existsb (fun s => match textBlock s with Some b => inBlock b.1 b.2 ip | None => false end) ss.

Definition policySays (p : SSRFPolicy) (ip : IP) : bool :=
  if inTexts (Allow p) ip then false
  else inTexts (Deny p) ip || (negb (AllowPrivate p) && inAny privateBlocks ip) || inAny alwaysBlocks ip.

(** ** The classes are blocks *)

Lemma block_masked base k ip : forallb isByte base = true -> (0 <= k <= 8 * Z.of_nat (length base))%Z -> wfIP ip = true ->
  inBlock base k ip = (length (family ip) =? length base)%nat && maskedEq (CIDRMask k (length base)) base (family ip).
Proof.
  intros Hb Hk Hw. unfold inBlock. destruct (Nat.eqb_spec (length (family ip)) (length base)) as [E|]; [|done]. cbn [andb]. symmetry. apply mask_prefix; [done|done|by apply family_wf|done].
Qed.

Lemma full_eq a b : length a = length b -> forallb isByte a = true -> forallb isByte b = true -> maskedEq (repeat 255%Z (length a)) a b = bool_decide (b = a).
Proof.
  revert b. induction a as [|x a IH]; intros [|y b] Hl Ha Hb; try done. injection Hl as Hl. cbn [forallb] in Ha, Hb. apply andb_true_iff in Ha as [Hx Ha], Hb as [Hy Hb].
  unfold maskedEq in *. cbn [length repeat zip zip_with forallb]. rewrite IH, !mask_full by done. apply eq_true_iff_eq. rewrite andb_true_iff, Z.eqb_eq, !bool_decide_eq_true. naive_solver.
Qed.

(** A block whose bytes after the first are not compared. *)
Lemma first_byte m x a y b : length a = length b -> maskedEq (m :: CIDRMask 0 (length a)) (x :: a) (y :: b) = (Z.land x m =? Z.land y m)%Z.
Proof. intros Hl. pose proof (mask_zero a b Hl) as Hz. unfold maskedEq in *. cbn [zip zip_with forallb]. by rewrite Hz, andb_true_r. Qed.

Lemma two_bytes m m' x x' a y y' b : length a = length b ->
  maskedEq (m :: m' :: CIDRMask 0 (length a)) (x :: x' :: a) (y :: y' :: b) = ((Z.land x m =? Z.land y m) && (Z.land x' m' =? Z.land y' m'))%Z.
Proof. intros Hl. pose proof (mask_zero a b Hl) as Hz. unfold maskedEq in *. cbn [zip zip_with forallb]. by rewrite Hz, andb_true_r. Qed.

Section Classes.
Variable ip : IP.
Hypothesis wf : wfIP ip = true.

Lemma family_cases : (exists q, To4 ip = Some q /\ family ip = q /\ length q = 4%nat) \/ (To4 ip = None /\ family ip = ip /\ length ip = 16%nat).
Proof.
  unfold family. destruct (To4 ip) as [q|] eqn:E; [left; exists q; split_and!; [done|done|by apply (to4_length ip)]|right].
  split_and!; [done|done|]. apply andb_true_iff in wf as [_ Hl]. unfold To4 in E. destruct (Nat.eqb_spec (length ip) 4); [done|]. by destruct (Nat.eqb_spec (length ip) 16).
Qed.

(** A block of the other family holds no address of ours. *)
Lemma block_other base k : forallb isByte base = true -> (0 <= k <= 8 * Z.of_nat (length base))%Z -> length (family ip) <> length base -> inBlock base k ip = false.
Proof. intros Hb Hk Hl. rewrite block_masked by done. apply Nat.eqb_neq in Hl. by rewrite Hl. Qed.

(** The first byte, and the first two. *)
Lemma block_one x m a y b k : family ip = y :: b -> length a = length b -> forallb isByte (x :: a) = true -> (0 <= k <= 8)%Z -> CIDRMask k (S (length a)) = m :: CIDRMask 0 (length a) ->
  inBlock (x :: a) k ip = (Z.land x m =? Z.land y m)%Z.
Proof.
  intros Hf Hl Hb Hk Hm. rewrite block_masked by (done || (cbn [length]; lia)). cbn [length]. rewrite Hf, Hm, first_byte by done. cbn [length]. by rewrite Hl, Nat.eqb_refl.
Qed.

Lemma block_two x x' m m' a y y' b k : family ip = y :: y' :: b -> length a = length b -> forallb isByte (x :: x' :: a) = true -> (0 <= k <= 16)%Z ->
  CIDRMask k (S (S (length a))) = m :: m' :: CIDRMask 0 (length a) -> inBlock (x :: x' :: a) k ip = ((Z.land x m =? Z.land y m) && (Z.land x' m' =? Z.land y' m'))%Z.
Proof.
  intros Hf Hl Hb Hk Hm. rewrite block_masked by (done || (cbn [length]; lia)). cbn [length]. rewrite Hf, Hm, two_bytes by done. cbn [length]. by rewrite Hl, Nat.eqb_refl.
Qed.

Lemma block_full base : forallb isByte base = true -> length (family ip) = length base -> CIDRMask (8 * Z.of_nat (length base)) (length base) = repeat 255%Z (length base) ->
  inBlock base (8 * Z.of_nat (length base)) ip = bool_decide (family ip = base).
Proof.
  intros Hb Hl Hm. rewrite block_masked by (done || lia). rewrite Hl, Nat.eqb_refl, Hm. cbn [andb]. apply full_eq; [done|done|by apply family_wf].
Qed.
End Classes.

Ltac eval_blocks := repeat match goal with
  | |- context [Z.land (Zpos ?p) (Zpos ?q)] => let v := eval vm_compute in (Z.land (Zpos p) (Zpos q)) in change (Z.land (Zpos p) (Zpos q)) with v
  | |- context [Z.land 0%Z ?q] => rewrite (Z.land_0_l q)
  end.

Lemma always_blocks ip : wfIP ip = true -> inAny alwaysBlocks ip = IsMulticast ip || IsUnspecified ip.
Proof.
  intros Hw. unfold inAny, alwaysBlocks, IsMulticast, IsUnspecified. cbn [existsb fst snd]. rewrite !orb_false_r.
  destruct (family_cases ip Hw) as [(q & E & Hf & Hl)|(E & Hf & Hl)]; rewrite E.
  - rewrite (block_other ip Hw (v6 [255%Z] 0)), (block_other ip Hw (v6 [] 0)) by (done || (rewrite Hf, Hl; done)). rewrite !orb_false_r.
    destruct q as [|a [|b [|c [|d [|]]]]]; try done. rewrite (block_one ip Hw 224 240 [0; 0; 0]%Z a [b; c; d] 4) by done.
    change 32%Z with (8 * Z.of_nat (length [0; 0; 0; 0]%Z))%Z. rewrite (block_full ip Hw [0; 0; 0; 0]%Z) by (done || by rewrite Hf).
    eval_blocks. rewrite Hf, Z.eqb_sym. cbn [octet nth]. done.
  - rewrite (block_other ip Hw [224; 0; 0; 0]%Z), (block_other ip Hw [0; 0; 0; 0]%Z) by (done || (rewrite Hf, Hl; done)). cbn [orb].
    destruct ip as [|a ip']; [done|]. unfold is16. cbn [length] in Hl. assert (length ip' = 15%nat) as Hl' by lia.
    change (v6 [255%Z] 0) with (255%Z :: repeat 0%Z 15). change (v6 [] 0) with (repeat 0%Z 16).
    rewrite (block_one _ Hw 255 255 (repeat 0%Z 15) a ip' 8) by done. change 128%Z with (8 * Z.of_nat (length (repeat 0%Z 16)))%Z.
    rewrite (block_full _ Hw (repeat 0%Z 16)) by (done || (rewrite Hf; cbn [length]; rewrite Hl'; done)). rewrite Hf. cbn [length octet nth]. rewrite Hl'. eval_blocks.
    assert (isByte a = true) as Ha by (apply andb_true_iff in Hw as [Hb _]; cbn in Hb; by apply andb_true_iff in Hb as [? _]). rewrite mask_full, Z.eqb_sym by done. done.
Qed.

(** A link-local multicast address is a multicast one. *)
Lemma linklocal_multicast ip : IsLinkLocalMulticast ip = true -> IsMulticast ip = true.
Proof.
  unfold IsLinkLocalMulticast, IsMulticast. destruct (To4 ip) as [q|].
  - intros [[Ha%Z.eqb_eq _]%andb_true_iff _]%andb_true_iff. by rewrite Ha.
  - intros [H16 [H255 _]%andb_true_iff]%andb_true_iff. by rewrite H16, H255.
Qed.

Lemma private_blocks ip : wfIP ip = true -> inAny privateBlocks ip = IsLoopback ip || IsPrivate ip || IsLinkLocalUnicast ip.
Proof.
  intros Hw. assert (forall x, In x ip -> isByte x = true) as Hb by (apply andb_true_iff in Hw as [Hb _]; by rewrite forallb_forall in Hb).
  unfold inAny, privateBlocks, IsLoopback, IsPrivate, IsLinkLocalUnicast. cbn [existsb fst snd]. rewrite !orb_false_r.
  destruct (family_cases ip Hw) as [(q & E & Hf & Hl)|(E & Hf & Hl)]; rewrite E.
  - rewrite (block_other ip Hw (v6 [] 1)), (block_other ip Hw (v6 [252%Z] 0)), (block_other ip Hw (v6 [254; 128]%Z 0)) by (done || (rewrite Hf, Hl; done)). rewrite !orb_false_r.
    destruct (to4_length ip q Hw E) as [_ Hq]. rewrite forallb_forall in Hq.
    destruct q as [|a [|b [|c [|d [|]]]]]; try done.
    rewrite (block_one ip Hw 127 255 [0; 0; 0]%Z a [b; c; d] 8), (block_one ip Hw 10 255 [0; 0; 0]%Z a [b; c; d] 8) by done.
    rewrite (block_two ip Hw 172 16 255 240 [0; 0]%Z a b [c; d] 12), (block_two ip Hw 192 168 255 255 [0; 0]%Z a b [c; d] 16), (block_two ip Hw 169 254 255 255 [0; 0]%Z a b [c; d] 16) by done.
    eval_blocks. rewrite !(mask_full a), !(mask_full b) by (apply Hq; cbn; tauto). cbn [octet nth]. rewrite !(Z.eqb_sym _ a), !(Z.eqb_sym _ b), (Z.eqb_sym 16). by rewrite !orb_assoc.
  - rewrite (block_other ip Hw [127; 0; 0; 0]%Z), (block_other ip Hw [10; 0; 0; 0]%Z), (block_other ip Hw [172; 16; 0; 0]%Z), (block_other ip Hw [192; 168; 0; 0]%Z), (block_other ip Hw [169; 254; 0; 0]%Z)
      by (done || (rewrite Hf, Hl; done)). cbn [orb].
    destruct ip as [|a [|b ip']]; [done..|]. unfold is16. rewrite Hl. cbn [length] in Hl. assert (length ip' = 14%nat) as Hl' by lia. cbn [Nat.eqb andb].
    change (v6 [252%Z] 0) with (252%Z :: repeat 0%Z 15). change (v6 [254; 128]%Z 0) with (254%Z :: 128%Z :: repeat 0%Z 14).
    rewrite (block_one _ Hw 252 254 (repeat 0%Z 15) a (b :: ip') 7) by (done || (cbn [length]; rewrite Hl'; done)).
    rewrite (block_two _ Hw 254 128 255 192 (repeat 0%Z 14) a b ip' 10) by done.
    change 128%Z with (8 * Z.of_nat (length (v6 [] 1)))%Z at 1. rewrite (block_full _ Hw (v6 [] 1)) by (done || (rewrite Hf; cbn [length]; rewrite Hl'; done)). rewrite Hf.
    eval_blocks. rewrite !(mask_full a) by (apply Hb; by left). cbn [octet nth]. rewrite !(Z.eqb_sym _ a), (Z.eqb_sym 252), (Z.eqb_sym _ (Z.land b 192)). by rewrite !orb_assoc.
Qed.

Lemma nets_texts ss ns ip : wfIP ip = true -> parseNets ss = Some ns -> existsb (fun n => Contains n ip) ns = inTexts ss ip.
Proof.
  intros Hw. revert ns. induction ss as [|s ss IH]; intros ns; cbn [parseNets]; [by intros [= <-]|]. destruct (ParseCIDR s) as [n|] eqn:E; [|done].
  destruct (parseNets ss) as [ns'|]; [|done]. intros [= <-]. destruct (cidr_block s n E) as (b & Eb & Hc). unfold inTexts in *. cbn [existsb]. by rewrite Eb, Hc, (IH ns').
Qed.

Lemma policy_blocks p cp ip : compilePolicy p = Some cp -> wfIP ip = true -> isBlockedCompiled ip cp = policySays p ip.
Proof.
  unfold compilePolicy. destruct (parseNets (Allow p)) as [na|] eqn:Ea; [|done]. destruct (parseNets (Deny p)) as [nd|] eqn:Ed; [|done]. intros [= <-] Hw.
  unfold isBlockedCompiled, policySays. cbn [cp_allow cp_deny cp_allowPrivate]. rewrite (nets_texts _ _ ip Hw Ea), (nets_texts _ _ ip Hw Ed), always_blocks, private_blocks by done.
  destruct (inTexts (Allow p) ip); [done|]. destruct (inTexts (Deny p) ip); [done|]. cbn [orb]. destruct (AllowPrivate p); cbn [negb andb orb]; [done|].
  unfold isPrivateOrReserved. destruct (IsLoopback ip || IsPrivate ip || IsLinkLocalUnicast ip); [done|]. cbn [orb].
  destruct (IsLinkLocalMulticast ip) eqn:El; [|done]. by rewrite linklocal_multicast.
Qed.

(** ** The dialer and the transport agree *)

Lemma no_colon p : lastColon p = None <-> has_byte colon p = false.
Proof.
  induction p as [|c p IH]; [done|]. cbn [lastColon has_byte]. rewrite (Ascii.eqb_sym colon c). destruct (lastColon p) as [[a b]|] eqn:E, (Ascii.eqb c colon); (split; intros Hp; [try done; by apply IH|try done; by apply IH in Hp]).
Qed.

Lemma last_colon h p : has_byte colon p = false -> lastColon (h +:+ String colon p) = Some (h, p).
Proof.
  intros Hp%no_colon. induction h as [|c h IH]; [|rewrite app_cons_str; cbn [lastColon]; by rewrite IH].
  change ("" +:+ String colon p) with (String colon p). cbn [lastColon]. by rewrite Hp, Ascii.eqb_refl.
Qed.

Lemma last_inv s a b : lastColon s = Some (a, b) -> s = a +:+ String colon b /\ has_byte colon b = false.
Proof.
  revert a. induction s as [|c s IH]; intros a; [done|]. cbn [lastColon]. destruct (lastColon s) as [[x y]|] eqn:E.
  - intros [= <- <-]. destruct (IH x eq_refl) as [-> Hb]. by rewrite app_cons_str.
  - destruct (Ascii.eqb c colon) eqn:Ec; [|done]. apply Ascii.eqb_eq in Ec as ->. intros [= <- <-]. split; [done|by apply no_colon].
Qed.

Lemma cut_inv d s a b : cutAt d s = Some (a, b) -> s = a +:+ String d b /\ has_byte d a = false.
Proof.
  revert a. induction s as [|c s IH]; intros a; [done|]. cbn [cutAt]. destruct (Ascii.eqb c d) eqn:Ec; [apply Ascii.eqb_eq in Ec as ->; by intros [= <- <-]|].
  destruct (cutAt d s) as [[x y]|]; [|done]. intros [= <- <-]. destruct (IH x eq_refl) as [-> Hb]. cbn [fst has_byte]. by rewrite app_cons_str, Ascii.eqb_sym, Ec.
Qed.

Lemma split_plain host port : has_byte colon host = false -> has_byte "[" host = false -> has_byte "]" host = false ->
  has_byte colon port = false -> has_byte "[" port = false -> has_byte "]" port = false -> SplitHostPort (host +:+ String colon port) = Ok (host, port).
Proof.
  intros H1 H2 H3 P1 P2 P3. unfold SplitHostPort. rewrite last_colon by done. rewrite !has_byte_app, H1, H2, H3. cbn [has_byte orb]. rewrite P2, P3.
  destruct host as [|c host]; [done|]. rewrite app_cons_str in *. cbn [has_byte] in H2. destruct (Ascii.eqb "[" c) eqn:E; [done|]. apply Ascii.eqb_neq in E. destruct c as [[] [] [] [] [] [] [] []]; done.
Qed.

(** In brackets or not, the parts of an address do not contain what would split them again. *)
Lemma split_inv addr host port : SplitHostPort addr = Ok (host, port) ->
  has_byte "[" host = false /\ has_byte "]" host = false /\ has_byte colon port = false /\ has_byte "[" port = false /\ has_byte "]" port = false /\
  (has_byte colon host = true -> addr = "[" +:+ host +:+ "]:" +:+ port).
Proof.
  unfold SplitHostPort. destruct (lastColon addr) as [[before p]|] eqn:El; [|done]. apply last_inv in El as [Ea Hp].
  assert ((if has_byte colon before then Err tooManyColons else if has_byte "[" addr then Err "unexpected '[' in address" else if has_byte "]" addr then Err "unexpected ']' in address" else Ok (before, p)) = Ok (host, port) ->
    has_byte "[" host = false /\ has_byte "]" host = false /\ has_byte colon port = false /\ has_byte "[" port = false /\ has_byte "]" port = false /\
    (has_byte colon host = true -> addr = "[" +:+ host +:+ "]:" +:+ port)) as Hplain.
  { destruct (has_byte colon before) eqn:H1; [done|]. destruct (has_byte "[" addr) eqn:H2; [done|]. destruct (has_byte "]" addr) eqn:H3; [done|]. intros [= <- <-].
    rewrite Ea, has_byte_app in H2, H3. apply orb_false_iff in H2 as [H2 H2'], H3 as [H3 H3']. cbn [has_byte] in H2', H3'. split_and!; try done. by rewrite H1. }
  destruct (drop_prefix "[" addr) as [inn|] eqn:Ed.
  - apply drop_prefix_inv in Ed. subst addr. rewrite Ed. change ("[" +:+ inn) with (String "[" inn). cbv iota.
    destruct (cutAt "]" inn) as [[h after]|] eqn:Ec; [|done]. apply cut_inv in Ec as [-> Hh]. destruct after as [|c rest]; [done|]. destruct (Ascii.eqb c colon) eqn:E; [|done]. apply Ascii.eqb_eq in E as ->. cbn [negb].
    destruct (str_eqb rest p && negb (has_byte colon rest)) eqn:Er; [|done]. apply andb_true_iff in Er as [->%str_eqb_eq Hc]. cbn [negb].
    rewrite !has_byte_app. cbn [has_byte]. change ("[" =? "]")%char with false. change ("[" =? colon)%char with false. cbv iota. destruct (has_byte "[" h || has_byte "[" p) eqn:Eb; [done|]. apply orb_false_iff in Eb as [Hb1 Hb2].
    destruct (has_byte "]" p) eqn:Ep; [done|]. intros [= <- <-]. split_and!; done.
  - intros Hx. apply Hplain. rewrite <- Hx. clear - Ed. destruct addr as [|c addr]; [done|]. cbn in Ed. destruct c as [[] [] [] [] [] [] [] []]; done.
Qed.

Lemma split_join addr host port : SplitHostPort addr = Ok (host, port) -> SplitHostPort (JoinHostPort host port) = Ok (host, port).
Proof.
  intros Hs. destruct (split_inv addr host port Hs) as (H1 & H2 & H3 & H4 & H5 & H6). unfold JoinHostPort. destruct (has_byte colon host) eqn:E; [by rewrite <- (H6 eq_refl)|]. by apply split_plain.
Qed.

(** ** What passes *)

Lemma first_none ips cp : firstBlocked ips cp = None -> forall raw ip, In raw ips -> ParseIP raw = Some ip -> isBlockedCompiled ip cp = false.
Proof.
  induction ips as [|s ips IH]; [done|]. cbn [firstBlocked]. intros Hf raw ip [->|Hin] Hp.
  - rewrite Hp in Hf. by destruct (isBlockedCompiled ip cp).
  - apply (IH) with raw; [|done..]. destruct (ParseIP s) as [ip'|]; [|done]. by destruct (isBlockedCompiled ip' cp).
Qed.

Lemma first_some ips cp ip : firstBlocked ips cp = Some ip -> exists raw, In raw ips /\ ParseIP raw = Some ip /\ isBlockedCompiled ip cp = true.
Proof.
  induction ips as [|s ips IH]; [done|]. cbn [firstBlocked]. destruct (ParseIP s) as [ip'|] eqn:Ep.
  - destruct (isBlockedCompiled ip' cp) eqn:Eb; [intros [= ->]; exists s; split_and!; [by left|done|done]|]. intros (raw & ? & ?)%IH. exists raw. split; [by right|done].
  - intros (raw & ? & ?)%IH. exists raw. split; [by right|done].
Qed.

(** No parsed address of the list is blocked. *)
Definition allPass (p : SSRFPolicy) (ips : list string) : Prop := forall raw ip, In raw ips -> ParseIP raw = Some ip -> policySays p ip = false.

Lemma first_pass p cp ips : compilePolicy p = Some cp -> firstBlocked ips cp = None <-> allPass p ips.
Proof.
  intros Hc. split.
  - intros Hf raw ip Hin Hp. rewrite <- (policy_blocks p cp ip Hc (parseIP_wf _ _ Hp)). by apply (first_none ips cp Hf raw).
  - intros Ha. destruct (firstBlocked ips cp) as [ip|] eqn:E; [|done]. apply first_some in E as (raw & Hin & Hp & Hb).
    rewrite (policy_blocks p cp ip Hc (parseIP_wf _ _ Hp)), (Ha raw ip Hin Hp) in Hb. done.
Qed.

Section Guarded.
Context {W : Type} `{HostResolver W}.

(** What a lookup answers: the name itself when it fails. *)
Definition resolved (host : string) (w : W) : list string := default [host] (fst (LookupHost host w)).
Definition looked (host : string) (w : W) : W := snd (LookupHost host w).

Lemma dial_base host w : dialBase host w = (Ok (resolved host w), looked host w).
Proof. unfold dialBase, resolved, looked. by destruct (LookupHost host w). Qed.

Lemma round_trip cp host w : RoundTrip cp host w =
  match firstBlocked (resolved host w) cp with
  | Some ip => (Err (ErrSSRFBlocked ip host), looked host w)
  | None => (Ok (resolved host (looked host w)), looked host (looked host w))
  end.
Proof. unfold RoundTrip, resolved, looked. destruct (LookupHost host w) as [ans w1]. cbn [fst snd]. destruct (firstBlocked (default [host] ans) cp); [done|]. apply dial_base. Qed.

Lemma guard_dial cp addr host port w : SplitHostPort addr = Ok (host, port) -> guardDial cp addr w = RoundTrip cp host w.
Proof.
  intros Hs. unfold guardDial, RoundTrip. rewrite Hs. destruct (LookupHost host w) as [ans w1]. destruct (firstBlocked (default [host] ans) cp); [done|]. by rewrite (split_join addr host port Hs).
Qed.

End Guarded.

(** A name server that answers a public address first and the loopback afterwards. *)
#[local] Instance rebinding : HostResolver nat := {| LookupHost host n := (Some [if (n =? 0)%nat then "93.184.216.34" else "127.0.0.1"], S n) |}.

Definition strictPolicy : SSRFPolicy := mkPolicy [] [] false false.


Lemma nets_parse ss : parseNets ss = None <-> forallb (fun c => bool_decide (is_Some (ParseCIDR c))) ss = false.
Proof.
  induction ss as [|c ss IH]; [done|]. cbn [parseNets forallb]. destruct (ParseCIDR c) as [n|].
  - rewrite bool_decide_true by done. cbn [andb]. rewrite <- IH. by destruct (parseNets ss).
  - by rewrite bool_decide_false by (by intros [? ?]).
Qed.

(** C32: The guard's verdict is the policy read as address blocks.  On every address that
    parses, in either of its forms (IPv4, or IPv6 with the IPv4-mapped prefix), the
    verdict of the compiled networks, which goes by masks and by the address classes of
    package net, is that of the leading bits: refused when the policy has a text that is
    no CIDR, and otherwise exactly when the address is in no allowed block and in a
    denied, an always refused, or (unless private ones are permitted) a private one. *)
Theorem policy_exact (p : SSRFPolicy) (raw : string) (ip : IP) : ParseIP raw = Some ip ->
  isBlocked ip p = negb (forallb (fun c => bool_decide (is_Some (ParseCIDR c))) (Allow p ++ Deny p)) || policySays p ip.
Proof.
  intros Hp%parseIP_wf. unfold isBlocked. destruct (compilePolicy p) as [cp|] eqn:Hc; rewrite forallb_app.
  - rewrite (policy_blocks p cp ip Hc Hp). unfold compilePolicy in Hc. destruct (parseNets (Allow p)) eqn:Ea, (parseNets (Deny p)) eqn:Ed; try done.
    destruct (forallb _ (Allow p)) eqn:Fa; [|apply nets_parse in Fa; congruence]. destruct (forallb _ (Deny p)) eqn:Fd; [done|apply nets_parse in Fd; congruence].
  - unfold compilePolicy in Hc. destruct (parseNets (Allow p)) eqn:Ea; [destruct (parseNets (Deny p)) eqn:Ed; [done|]|].
    + apply nets_parse in Ed. by rewrite Ed, andb_false_r.
    + apply nets_parse in Ea. by rewrite Ea.
Qed.

(** The cloud metadata address in its IPv6-mapped form, refused; a permitted block inside a
    denied one; a mapped block. *)
Lemma policy_exact_witness :
  option_map (fun ip => isBlocked ip strictPolicy) (ParseIP "::ffff:169.254.169.254") = Some true /\
  option_map (fun ip => isBlocked ip (mkPolicy ["10.1.0.0/16"] ["10.0.0.0/8"] true false)) (ParseIP "10.1.2.3") = Some false /\
  option_map (fun ip => isBlocked ip (mkPolicy [] ["::ffff:198.51.100.0/120"] true false)) (ParseIP "198.51.100.7") = Some true.
Proof.
  assert (forall p raw ip, ParseIP raw = Some ip -> forallb (fun c => bool_decide (is_Some (ParseCIDR c))) (Allow p ++ Deny p) = true -> option_map (fun ip => isBlocked ip p) (ParseIP raw) = Some (policySays p ip)) as Hw.
  { intros p raw ip Hp Hf. rewrite Hp. cbn [option_map]. by rewrite (policy_exact p raw ip Hp), Hf. }
  split_and!; (erewrite Hw; [|vm_compute; reflexivity..]); vm_compute; reflexivity.
Defined.

(** An address with a zone does not parse, so the guard does not look at it. *)
Example zoned_unchecked : firstBlocked ["fe80::1%eth0"] (mkCompiledPolicy [] [] false) = None /\ option_map (fun ip => isBlocked ip strictPolicy) (ParseIP "fe80::1") = Some true.
Proof. split; vm_compute; reflexivity. Qed.
