(* ===== verification/Instance.v ===== *)
(** * The instance: configuration, wiring and collectors (internal/config, internal/app/app.go, internal/metrics)

    The configuration of a process with its defaults, overrides and validation; which
    queues [Run] builds from it, under which names; the depth sampler that decides on
    backpressure; and the collectors with what the samplers publish to them.  The YAML
    decoder and the files are parameters.  An error is the name of the setting it
    complains about. *)

From stdpp Require Import base list strings gmap.
From Stdlib Require Import ZArith Lia Ascii Permutation.
From S2P Require Import Prelude GoMap Json Paths Diff DiffSound Domain Tenant Config Alias Repo Plugin Ingest Pipeline Numbers Queue Delivery NetAddr Ssrf Worker RedisQueue.

(** ** The configuration *)

Definition RoleAPI : string := "api".
Definition RoleWorker : string := "worker".
Definition RoleAll : string := "all".
Definition ServesAPI (r : string) : bool := str_eqb r RoleAPI || str_eqb r RoleAll.
Definition RunsWorker (r : string) : bool := str_eqb r RoleWorker || str_eqb r RoleAll.

Record TLS := mkTLS { tls_Enabled : bool; tls_CertFile : string; tls_KeyFile : string }.
Record Listen := mkListen { ln_Addr : string; ln_TLS : TLS }.
Record RedisConf := mkRedisConf { rc_Addr : string; rc_Password : string; rc_DB : Z }.
Record QueueConf := mkQueueConf {
  qc_Driver : string; qc_Shards : Z; qc_StreamPrefix : string; qc_ConsumerGroup : string; qc_BatchSize : Z; qc_BatchLingerMS : Z; qc_MaxDepth : Z; qc_RetryAfterSeconds : Z }.
Record WebhooksConf := mkWebhooksConf {
  wc_DefaultTimeoutMS : Z; wc_MaxAttempts : Z; wc_BaseMS : Z; wc_MaxMS : Z; wc_Secrets : list (string * string); wc_DeliveryShards : Z; wc_SSRF : SSRFPolicy }.
Record TenantKey := mkTenantKey { key_KeyHash : string; key_Key : string; key_Scopes : list string; key_Collections : list string }.
Record TenantConf := mkTenantConf { tc_ID : string; tc_URI : string; tc_Name : string; tc_Keys : list TenantKey }.

Record InstanceConfig := mkInstance {
  in_Role : string; in_HTTP : Listen; in_GRPC : Listen; in_MongoURI : string; in_Redis : RedisConf; in_Queue : QueueConf;
  in_TicketTTLHours : Z; in_IdempotencyTTLHours : Z; in_CacheTTLSeconds : Z; in_Webhooks : WebhooksConf;
  in_LogLevel : string; in_LogFormat : string; in_AutoCreate : bool; in_Tenants : list TenantConf }.

Definition Default : InstanceConfig :=
  mkInstance RoleAll (mkListen ":8080" (mkTLS false "" "")) (mkListen ":9090" (mkTLS false "" "")) "mongodb://localhost:27017" (mkRedisConf "localhost:6379" "" 0)
    (mkQueueConf "redis-streams" 16 "letopis:ingest" "workers" 0 0 0 0) 0 0 0 (mkWebhooksConf 0 0 0 0 [] 0 (mkPolicy [] [] false false)) "info" "json" true [].

Definition TenantSpecs (c : InstanceConfig) : list Spec :=
  map (fun t => mkSpec (tc_ID t) (tc_URI t) (tc_Name t) (map (fun k => mkKeySpec (key_KeyHash k) (key_Key k) (key_Scopes k) (key_Collections k)) (tc_Keys t))) (in_Tenants c).

(** ** Validation *)

Section Validate.
(** The order in which a Go map is ranged over. *)
Variable rangeOrder : forall {V : Type}, list (string * V) -> list (string * V).

Definition negative (settings : list (string * Z)) : res string unit :=
  match List.find (fun kv => (snd kv <? 0)%Z) (rangeOrder settings) with Some kv => Err (fst kv) | None => Ok tt end.

Definition validateWebhooks (w : WebhooksConf) : res string unit :=
  negative [("webhooks.backoff.base_ms", wc_BaseMS w); ("webhooks.backoff.max_ms", wc_MaxMS w); ("webhooks.default_timeout_ms", wc_DefaultTimeoutMS w);
            ("webhooks.delivery_shards", wc_DeliveryShards w); ("webhooks.max_attempts", wc_MaxAttempts w)].

Definition validateQueue (q : QueueConf) (role : string) (redis : RedisConf) : res string unit :=
  if (qc_Shards q <? 1)%Z then Err "queue.shards"
  else if (qc_BatchSize q <? 0)%Z then Err "queue.batch_size"
  else if (qc_BatchLingerMS q <? 0)%Z then Err "queue.batch_linger_ms"
  else if (qc_MaxDepth q <? 0)%Z then Err "queue.max_depth"
  else if (qc_RetryAfterSeconds q <? 0)%Z then Err "queue.retry_after_seconds"
  else if str_eqb (qc_Driver q) "memory" then if negb (str_eqb role RoleAll) then Err "queue.driver" else Ok tt
  else if str_eqb (qc_Driver q) "redis-streams" then
    if str_eqb (rc_Addr redis) "" then Err "queue.driver"
    else if str_eqb (qc_StreamPrefix q) "" || str_eqb (qc_ConsumerGroup q) "" then Err "queue"
    else Ok tt
  else Err "queue.driver".

Definition listenFails (nl : string * Listen) : option string :=
  let '(name, l) := nl in
  if str_eqb (ln_Addr l) "" then Some (name +:+ ".addr")
  else if tls_Enabled (ln_TLS l) && (str_eqb (tls_CertFile (ln_TLS l)) "" || str_eqb (tls_KeyFile (ln_TLS l)) "") then Some (name +:+ ".tls")
  else None.

Fixpoint firstFailure (l : list (string * Listen)) : res string unit :=
  match l with
  | [] => Ok tt
  | nl :: l' => match listenFails nl with Some e => Err e | None => firstFailure l' end
  end.

Definition Validate (c : InstanceConfig) : res string unit :=
  if negb (str_eqb (in_Role c) RoleAPI || str_eqb (in_Role c) RoleWorker || str_eqb (in_Role c) RoleAll) then Err "role"
  else if negb (existsb (str_eqb (in_LogLevel c)) ["debug"; "info"; "warn"; "error"]) then Err "log.level"
  else if negb (existsb (str_eqb (in_LogFormat c)) ["json"; "text"]) then Err "log.format"
  else
    (_ <- (if ServesAPI (in_Role c) then firstFailure (rangeOrder [("server.grpc", in_GRPC c); ("server.http", in_HTTP c)]) else Ok tt);
     if (in_CacheTTLSeconds c <? 0)%Z then Err "rules.cache_ttl_seconds"
     else
       _ <- validateWebhooks (in_Webhooks c);
       validateQueue (in_Queue c) (in_Role c) (in_Redis c))%go.

(** ** Loading *)

(** Which file is used: [exists_] is [os.Stat], [beside] the path next to the binary when
    the binary's own path is known. *)
Definition FileName : string := "config.yaml".
Definition ResolveFile (exists_ : string -> bool) (beside : option string) (explicit : string) : res string string :=
  if negb (str_eqb explicit "") then (if exists_ explicit then Ok explicit else Err "config file")
  else match List.find exists_ (FileName :: match beside with Some p => [p] | None => [] end) with Some p => Ok p | None => Err "no config file found" end.

(** The environment, [os.ReadFile], and the YAML decoder over a value that holds the
    defaults. *)
Variable env : string -> option string.
Variable readFile : string -> option string.
Variable yamlDecode : InstanceConfig -> string -> option InstanceConfig.

Definition envOr (key old : string) : string := default old (env key).

Definition applyEnv (c : InstanceConfig) : res string InstanceConfig :=
  let redis db := mkRedisConf (envOr "LETOPIS_REDIS_ADDR" (rc_Addr (in_Redis c))) (envOr "LETOPIS_REDIS_PASSWORD" (rc_Password (in_Redis c))) db in
  let over db :=
    mkInstance (envOr "LETOPIS_ROLE" (in_Role c)) (mkListen (envOr "LETOPIS_HTTP_ADDR" (ln_Addr (in_HTTP c))) (ln_TLS (in_HTTP c)))
      (mkListen (envOr "LETOPIS_GRPC_ADDR" (ln_Addr (in_GRPC c))) (ln_TLS (in_GRPC c))) (envOr "LETOPIS_MONGODB_URI" (in_MongoURI c)) (redis db) (in_Queue c)
      (in_TicketTTLHours c) (in_IdempotencyTTLHours c) (in_CacheTTLSeconds c) (in_Webhooks c) (envOr "LETOPIS_LOG_LEVEL" (in_LogLevel c)) (in_LogFormat c) (in_AutoCreate c) (in_Tenants c) in
  match env "LETOPIS_REDIS_DB" with
  | None => Ok (over (rc_DB (in_Redis c)))
  | Some v => match ParseInt v with None => Err "LETOPIS_REDIS_DB" | Some n => Ok (over n) end
  end.

Definition Load (path : string) : res string InstanceConfig :=
  match readFile path with
  | None => Err "read"
  | Some raw =>
      match yamlDecode Default raw with
      | None => Err "parse"
      | Some cfg => (cfg <- applyEnv cfg; _ <- Validate cfg; Ok cfg)%go
      end
  end.
End Validate.

(** ** Queues *)

(** What [queue.New] builds: the memory queue with its shards, or a Redis Streams queue. *)
Record Settings := mkSettings { qs_Driver : string; qs_Shards : Z; qs_StreamPrefix : string; qs_ConsumerGroup : string }.
Inductive builtQueue := MemoryQueue (shards : Z) | StreamsQueue (q : redisQueue).

(** [rdb]: whether there is a Redis client; [consumer] the name of this process. *)
Definition NewQueue (s : Settings) (rdb : bool) (consumer : string) : res string builtQueue :=
  if str_eqb (qs_Driver s) "memory" then Ok (MemoryQueue (qs_Shards s))
  else if str_eqb (qs_Driver s) "redis-streams" then
    if rdb then Ok (StreamsQueue (NewRedisQueue (qs_Shards s) (qs_StreamPrefix s) (qs_ConsumerGroup s) consumer)) else Err "queue: redis-streams driver requires a redis client"
  else Err "queue: unknown or unregistered driver".

Definition buildQueues (c : InstanceConfig) (rdb : bool) (consumer : string) : res string (builtQueue * option builtQueue) :=
  let q := in_Queue c in
  (durable <- NewQueue (mkSettings (qc_Driver q) (qc_Shards q) (qc_StreamPrefix q) (qc_ConsumerGroup q)) rdb consumer;
   if str_eqb (in_Role c) RoleAll then
     fast <- NewQueue (mkSettings "memory" (qc_Shards q) "" "") false consumer; Ok (durable, Some fast)
   else Ok (durable, None))%go.

(** [strings.TrimSuffix]. *)
Fixpoint trimSuffix (suffix s : string) : string :=
  if str_eqb s suffix then ""
  else match s with EmptyString => EmptyString | String c s' => String c (trimSuffix suffix s') end.

Definition deliveryStreamPrefix (ingestPrefix : string) : string := trimSuffix ":ingest" ingestPrefix +:+ ":delivery".

Definition buildDeliveryQueue (c : InstanceConfig) (rdb : bool) (consumer : string) : res string builtQueue :=
  let q := in_Queue c in
  let shards := if (wc_DeliveryShards (in_Webhooks c) <=? 0)%Z then qc_Shards q else wc_DeliveryShards (in_Webhooks c) in
  if str_eqb (qc_Driver q) "memory" then NewQueue (mkSettings "memory" shards "" "") false consumer
  else NewQueue (mkSettings (qc_Driver q) shards (deliveryStreamPrefix (qc_StreamPrefix q)) (qc_ConsumerGroup q)) rdb consumer.

Definition deliveryConfig (c : InstanceConfig) : Delivery.Config :=
  let w := in_Webhooks c in
  mkDeliveryConfig (wrap64 (wc_DefaultTimeoutMS w * 1000000)) (wc_MaxAttempts w) (mkBackoff (wrap64 (wc_BaseMS w * 1000000)) (wrap64 (wc_MaxMS w * 1000000))) 0 0.

Definition tenantsFromSpecs (specs : list Spec) : list Tenant := map (fun s => mkTenant (s_ID s) (mkDatabase (s_DBURI s) (s_DBName s))) specs.

(** ** The sampler *)

(** One observed queue with its last sample. *)
Record source := mkSource { src_name : string; src_obs : builtQueue; src_maxDepth : Z; src_retryAfter : Z; src_depth : Z }.
Definition Sampler : Type := list (string * source).

Definition Add (mode name : string) (obs : builtQueue) (maxDepth retryAfter : Z) (s : Sampler) : Sampler := mset mode (mkSource name obs maxDepth retryAfter 0) s.

(** A depth read; a failed one keeps the last sample. *)
Definition sampled (d : option Z) (src : source) : source :=
  match d with Some d => mkSource (src_name src) (src_obs src) (src_maxDepth src) (src_retryAfter src) d | None => src end.

(** [depthOf]: what the depth side-channel of a queue answers when its source is read. *)
Definition sampleAll (depthOf : string -> builtQueue -> option Z) (s : Sampler) : Sampler :=
  map (fun ms => (fst ms, sampled (depthOf (fst ms) (src_obs (snd ms))) (snd ms))) s.

Definition Allow (s : Sampler) (mode : string) : bool * Z :=
  match mget mode s with
  | None => (true, 0%Z)
  | Some src => if (src_maxDepth src <=? 0)%Z then (true, 0%Z) else if (src_maxDepth src <=? src_depth src)%Z then (false, src_retryAfter src) else (true, 0%Z)
  end.

Definition defaultRetryAfter : Z := 5000000000.

(** Both kinds of queue are observable. *)
Definition retryAfterOf (c : InstanceConfig) : Z :=
  let d := wrap64 (qc_RetryAfterSeconds (in_Queue c) * 1000000000) in if (d <=? 0)%Z then defaultRetryAfter else d.

Definition buildSampler (c : InstanceConfig) (durable : builtQueue) (fast : option builtQueue) : Sampler :=
  let retryAfter := retryAfterOf c in
  Add ReliabilityFast "fast" (default durable fast) (qc_MaxDepth (in_Queue c)) retryAfter
    (Add ReliabilityDurable "durable" durable (qc_MaxDepth (in_Queue c)) retryAfter []).

(** The dead-letter gauge: the sum over the tenants whose count succeeds. *)
Definition sampleDLQ (count : ctx -> string -> option Z) (tenants : list Tenant) : Z :=
  fold_left (fun total t => match count (Some (mkPrincipal t (mkAPIKey [] []))) "" with Some n => wrap64 (total + n) | None => total end) tenants 0%Z.

(** The queue [Pipeline.Publish] sends a mode to. *)
Definition routeOf (durable : builtQueue) (fast : option builtQueue) (mode : string) : builtQueue :=
  match fast with Some f => if str_eqb mode ReliabilityFast then f else durable | None => durable end.

Example default_valid : Validate (fun V l => l) Default = Ok tt. Proof. vm_compute. reflexivity. Qed.
Example prefixes : map deliveryStreamPrefix ["letopis:ingest"; "x"; ":ingest"; "ingest"] = ["letopis:delivery"; "x:delivery"; ":delivery"; "ingest:delivery"].
Proof. vm_compute. reflexivity. Qed.

(** ** Lemmas *)

(** What a valid configuration is. *)
Definition listenOK (l : Listen) : Prop := ln_Addr l <> "" /\ (tls_Enabled (ln_TLS l) = true -> tls_CertFile (ln_TLS l) <> "" /\ tls_KeyFile (ln_TLS l) <> "").

Record wellFormed (c : InstanceConfig) : Prop := {
  wf_role : In (in_Role c) [RoleAPI; RoleWorker; RoleAll];
  wf_log : In (in_LogLevel c) ["debug"; "info"; "warn"; "error"] /\ In (in_LogFormat c) ["json"; "text"];
  wf_listen : ServesAPI (in_Role c) = true -> listenOK (in_HTTP c) /\ listenOK (in_GRPC c);
  wf_knobs : Forall (fun z => 0 <= z)%Z [in_CacheTTLSeconds c; wc_DefaultTimeoutMS (in_Webhooks c); wc_MaxAttempts (in_Webhooks c); wc_BaseMS (in_Webhooks c); wc_MaxMS (in_Webhooks c);
    wc_DeliveryShards (in_Webhooks c); qc_BatchSize (in_Queue c); qc_BatchLingerMS (in_Queue c); qc_MaxDepth (in_Queue c); qc_RetryAfterSeconds (in_Queue c)];
  wf_shards : (1 <= qc_Shards (in_Queue c))%Z;
  wf_driver : qc_Driver (in_Queue c) = "memory" /\ in_Role c = RoleAll \/
    qc_Driver (in_Queue c) = "redis-streams" /\ rc_Addr (in_Redis c) <> "" /\ qc_StreamPrefix (in_Queue c) <> "" /\ qc_ConsumerGroup (in_Queue c) <> "" }.

Lemma in_existsb s l : existsb (str_eqb s) l = true <-> In s l.
Proof. rewrite existsb_exists. split; [intros (x & Hx & ->%str_eqb_eq); done|intros Hs; exists s; by rewrite str_eqb_refl]. Qed.

Lemma role_known r : str_eqb r RoleAPI || str_eqb r RoleWorker || str_eqb r RoleAll = existsb (str_eqb r) [RoleAPI; RoleWorker; RoleAll].
Proof. cbn. by rewrite orb_false_r, orb_assoc. Qed.

Lemma listen_fails nl : listenFails nl = None <-> listenOK (snd nl).
Proof.
  destruct nl as [n l]. unfold listenFails, listenOK. cbn [snd]. destruct (str_eqb (ln_Addr l) "") eqn:Ea; [apply str_eqb_eq in Ea; split; [done|by intros [? _]]|]. apply str_eqb_neq in Ea.
  destruct (tls_Enabled (ln_TLS l)); cbn [andb]; [|done]. destruct (str_eqb (tls_CertFile (ln_TLS l)) "") eqn:Ec; cbn [orb].
  { apply str_eqb_eq in Ec. split; [done|]. intros [_ Ht]. by destruct (Ht eq_refl). }
  apply str_eqb_neq in Ec. destruct (str_eqb (tls_KeyFile (ln_TLS l)) "") eqn:Ek.
  - apply str_eqb_eq in Ek. split; [done|]. intros [_ Ht]. by destruct (Ht eq_refl).
  - apply str_eqb_neq in Ek. done.
Qed.

Lemma first_failure l : firstFailure l = Ok tt <-> Forall (fun nl => listenOK (snd nl)) l.
Proof.
  induction l as [|nl l IH]; cbn [firstFailure]; [split; [constructor|done]|]. pose proof (listen_fails nl) as Hn. rewrite Forall_cons, <- IH. destruct (listenFails nl); [|tauto].
  split; [done|]. intros [Hl _]. apply Hn in Hl. done.
Qed.

Section Order.
Variable rangeOrder : forall {V : Type}, list (string * V) -> list (string * V).
Hypothesis range_all : forall V (l : list (string * V)), rangeOrder l ≡ₚ l.

Lemma negative_spec settings : negative (@rangeOrder) settings = Ok tt <-> Forall (fun kv => 0 <= snd kv)%Z settings.
Proof.
  unfold negative. rewrite <- (range_all _ settings) at 2. induction (rangeOrder settings) as [|kv l IH]; [done|]. cbn [List.find]. rewrite Forall_cons, <- IH.
  destruct (Z.ltb_spec (snd kv) 0) as [Hlt|Hge]; [split; [done|intros [? _]; lia]|tauto].
Qed.

Lemma validate_queue q role redis : validateQueue q role redis = Ok tt <->
  (1 <= qc_Shards q)%Z /\ Forall (fun z => 0 <= z)%Z [qc_BatchSize q; qc_BatchLingerMS q; qc_MaxDepth q; qc_RetryAfterSeconds q] /\
  (qc_Driver q = "memory" /\ role = RoleAll \/ qc_Driver q = "redis-streams" /\ rc_Addr redis <> "" /\ qc_StreamPrefix q <> "" /\ qc_ConsumerGroup q <> "").
Proof.
  unfold validateQueue. rewrite !Forall_cons, Forall_nil. destruct (Z.ltb_spec (qc_Shards q) 1); [split; [done|lia]|]. destruct (Z.ltb_spec (qc_BatchSize q) 0); [split; [done|lia]|].
  destruct (Z.ltb_spec (qc_BatchLingerMS q) 0); [split; [done|lia]|]. destruct (Z.ltb_spec (qc_MaxDepth q) 0); [split; [done|lia]|]. destruct (Z.ltb_spec (qc_RetryAfterSeconds q) 0); [split; [done|lia]|].
  destruct (str_eqb (qc_Driver q) "memory") eqn:Em.
  { apply str_eqb_eq in Em. rewrite Em. destruct (str_eqb role RoleAll) eqn:Er; cbn [negb]; [apply str_eqb_eq in Er as ->|apply str_eqb_neq in Er]; naive_solver. }
  apply str_eqb_neq in Em. destruct (str_eqb (qc_Driver q) "redis-streams") eqn:Es; [|apply str_eqb_neq in Es; naive_solver]. apply str_eqb_eq in Es.
  destruct (str_eqb (rc_Addr redis) "") eqn:Ea; [apply str_eqb_eq in Ea; naive_solver|]. apply str_eqb_neq in Ea.
  destruct (str_eqb (qc_StreamPrefix q) "") eqn:Ep; cbn [orb]; [apply str_eqb_eq in Ep; naive_solver|]. apply str_eqb_neq in Ep.
  destruct (str_eqb (qc_ConsumerGroup q) "") eqn:Eg; [apply str_eqb_eq in Eg|apply str_eqb_neq in Eg]; naive_solver.
Qed.

Lemma validate_spec c : Validate (@rangeOrder) c = Ok tt <-> wellFormed c.
Proof.
  unfold Validate. rewrite role_known. pose proof (in_existsb (in_Role c) [RoleAPI; RoleWorker; RoleAll]) as Hrole. pose proof (in_existsb (in_LogLevel c) ["debug"; "info"; "warn"; "error"]) as Hlev.
  pose proof (in_existsb (in_LogFormat c) ["json"; "text"]) as Hfmt.
  destruct (existsb _ [RoleAPI; RoleWorker; RoleAll]); [|split; [done|intros [Hr _ _ _ _ _]; by apply Hrole in Hr]]. cbn [negb].
  destruct (existsb _ ["debug"; "info"; "warn"; "error"]); [|split; [done|intros [_ [Hl _] _ _ _ _]; by apply Hlev in Hl]]. cbn [negb].
  destruct (existsb _ ["json"; "text"]); [|split; [done|intros [_ [_ Hl] _ _ _ _]; by apply Hfmt in Hl]]. cbn [negb].
  assert ((if ServesAPI (in_Role c) then firstFailure (rangeOrder [("server.grpc", in_GRPC c); ("server.http", in_HTTP c)]) else Ok tt) = Ok tt <->
    (ServesAPI (in_Role c) = true -> listenOK (in_HTTP c) /\ listenOK (in_GRPC c))) as Hlisten.
  { destruct (ServesAPI (in_Role c)); [|done]. rewrite first_failure, range_all, !Forall_cons, Forall_nil. cbn [snd]. tauto. }
  destruct (if ServesAPI (in_Role c) then _ else _) as [[]|e]; [|split; [done|]; intros [_ _ Hl _ _ _]; by apply Hlisten in Hl].
  destruct (Z.ltb_spec (in_CacheTTLSeconds c) 0) as [Hneg|Hcache]; [split; [done|]; intros [_ _ _ Hk _ _]; apply Forall_inv in Hk; lia|].
  pose proof (negative_spec [("webhooks.backoff.base_ms", wc_BaseMS (in_Webhooks c)); ("webhooks.backoff.max_ms", wc_MaxMS (in_Webhooks c)); ("webhooks.default_timeout_ms", wc_DefaultTimeoutMS (in_Webhooks c));
    ("webhooks.delivery_shards", wc_DeliveryShards (in_Webhooks c)); ("webhooks.max_attempts", wc_MaxAttempts (in_Webhooks c))]) as Hhooks. fold (validateWebhooks (@rangeOrder) (in_Webhooks c)) in Hhooks.
  rewrite !Forall_cons, Forall_nil in Hhooks. cbn [snd] in Hhooks.
  destruct (validateWebhooks _ _) as [[]|e]; [|split; [done|]; intros [_ _ _ Hk _ _]; rewrite !Forall_cons in Hk; by assert (Err e = Ok tt) by (apply Hhooks; tauto)].
  rewrite validate_queue, !Forall_cons, Forall_nil. split.
  - intros (Hs & Hq & Hd). split; try tauto. rewrite !Forall_cons, Forall_nil. tauto.
  - intros [_ _ _ Hk Hs Hd]. rewrite !Forall_cons in Hk. tauto.
Qed.
End Order.

Lemma trim_cases suffix s : trimSuffix suffix s = s \/ s = trimSuffix suffix s +:+ suffix.
Proof.
  induction s as [|c s IH]; cbn [trimSuffix]; destruct (str_eqb _ suffix) eqn:E; try (apply str_eqb_eq in E as <-); [by right; rewrite app_nil_l_str|by left|by right; rewrite app_nil_l_str|].
  destruct IH as [-> | IH]; [by left|right]. rewrite app_cons_str. by f_equal.
Qed.

(** The streams of the two pipelines have different names. *)
Lemma streams_apart prefix i j : StreamName prefix i <> StreamName (deliveryStreamPrefix prefix) j.
Proof.
  unfold StreamName. change (":" +:+ itoa i) with (String ":" (itoa i)). change (":" +:+ itoa j) with (String ":" (itoa j)). intros [E _]%last_sep; [|by apply itoa_no_byte..]. unfold deliveryStreamPrefix in E.
  destruct (trim_cases ":ingest" prefix) as [Ht|Ht].
  - rewrite Ht in E. apply (f_equal String.length) in E. rewrite length_app_str in E. cbn in E. lia.
  - rewrite Ht in E at 1. apply app_str_inj_l in E. discriminate E.
Qed.

(** ** The limiter *)

Definition shardsOf (q : builtQueue) : Z := match q with MemoryQueue n => n | StreamsQueue q => rq_shards q end.

(** The last sample of a queue that succeeded, zero before the first. *)
Definition lastDepth (samples : list (string -> builtQueue -> option Z)) (mode : string) (q : builtQueue) : Z :=
  fold_left (fun acc depthOf => default acc (depthOf mode q)) samples 0%Z.

Lemma mget_sampleAll d s mode : mget mode (sampleAll d s) = option_map (fun src => sampled (d mode (src_obs src)) src) (mget mode s).
Proof.
  induction s as [|[m src] s IH]; [done|]. cbn [sampleAll map fst snd mget]. fold (sampleAll d s). destruct (str_eqb mode m) eqn:E; [apply str_eqb_eq in E as ->; done|exact IH].
Qed.

Lemma sampled_source samples : forall s mode src, mget mode s = Some src ->
  mget mode (fold_left (fun s d => sampleAll d s) samples s) =
  Some (mkSource (src_name src) (src_obs src) (src_maxDepth src) (src_retryAfter src) (fold_left (fun acc depthOf => default acc (depthOf mode (src_obs src))) samples (src_depth src))).
Proof.
  induction samples as [|d samples IH]; intros s mode src Hs; cbn [fold_left]; [rewrite Hs; by destruct src|].
  rewrite (IH (sampleAll d s) mode (sampled (d mode (src_obs src)) src)) by (by rewrite mget_sampleAll, Hs). by destruct (d mode (src_obs src)).
Qed.

Lemma unsampled samples : forall s mode, mget mode s = None -> mget mode (fold_left (fun s d => sampleAll d s) samples s) = None.
Proof. induction samples as [|d samples IH]; intros s mode Hs; [done|]. cbn [fold_left]. apply IH. by rewrite mget_sampleAll, Hs. Qed.

Definition gated (mode : string) : bool := str_eqb mode ReliabilityDurable || str_eqb mode ReliabilityFast.

(** Backpressure looks at the queue the write would land on. *)
Lemma allow_spec c durable fast samples mode :
  Allow (fold_left (fun s d => sampleAll d s) samples (buildSampler c durable fast)) mode =
  if gated mode && (0 <? qc_MaxDepth (in_Queue c))%Z && (qc_MaxDepth (in_Queue c) <=? lastDepth samples mode (routeOf durable fast mode))%Z then (false, retryAfterOf c) else (true, 0%Z).
Proof.
  set (s0 := buildSampler c durable fast).
  assert (mget mode s0 = if gated mode then Some (mkSource (if str_eqb mode ReliabilityFast then "fast" else "durable") (routeOf durable fast mode) (qc_MaxDepth (in_Queue c)) (retryAfterOf c) 0) else None) as Hs.
  { unfold s0, buildSampler, Add, gated, routeOf. destruct (str_eqb mode ReliabilityFast) eqn:Ef.
    - apply str_eqb_eq in Ef as ->. rewrite mget_mset_eq. cbn. by destruct fast.
    - pose proof (proj1 (str_eqb_neq _ _) Ef). rewrite mget_mset_ne by congruence. destruct (str_eqb mode ReliabilityDurable) eqn:Ed; cbn [orb].
      + apply str_eqb_eq in Ed as ->. rewrite mget_mset_eq. by destruct fast.
      + pose proof (proj1 (str_eqb_neq _ _) Ed). by rewrite mget_mset_ne by congruence. }
  unfold Allow. destruct (gated mode); [|by rewrite unsampled]. rewrite (sampled_source _ _ _ _ Hs). cbn [src_obs src_maxDepth src_retryAfter src_depth andb]. fold (lastDepth samples mode (routeOf durable fast mode)).
  destruct (Z.leb_spec (qc_MaxDepth (in_Queue c)) 0), (Z.ltb_spec 0 (qc_MaxDepth (in_Queue c))); try lia; done.
Qed.

(** C38: A configuration that passes validation starts, and wires what it says.
    Validation accepts exactly the well-formed configurations, whatever the order in
    which its maps are ranged over.  From a well-formed one the queues are built without
    error: at least one shard each, the configured number for ingest, the memory queue
    for fast writes exactly when one process plays both roles; the streams of the
    delivery queue never share a name with those of the ingest queue; and after any
    sampling, failed reads included, a write is refused with a positive Retry-After
    exactly when its mode is queued, a limit is set and the last good sample of the very
    queue its mode is routed to has reached the limit. *)
Theorem validated_start (rangeOrder : forall V : Type, list (string * V) -> list (string * V)) (c : InstanceConfig) (consumer : string) :
  (forall V (l : list (string * V)), rangeOrder V l ≡ₚ l) ->
  (Validate rangeOrder c = Ok tt <-> wellFormed c) /\
  (wellFormed c ->
    let rdb := negb (str_eqb (rc_Addr (in_Redis c)) "") in
    exists durable fast delivery, buildQueues c rdb consumer = Ok (durable, fast) /\ buildDeliveryQueue c rdb consumer = Ok delivery /\
      (shardsOf durable = qc_Shards (in_Queue c) /\ (1 <= shardsOf durable)%Z /\ (1 <= shardsOf delivery)%Z) /\
      fast = (if str_eqb (in_Role c) RoleAll then Some (MemoryQueue (qc_Shards (in_Queue c))) else None) /\
      (forall q q' i j, durable = StreamsQueue q -> delivery = StreamsQueue q' -> StreamName (rq_prefix q) i <> StreamName (rq_prefix q') j) /\
      (forall samples mode, Allow (fold_left (fun s d => sampleAll d s) samples (buildSampler c durable fast)) mode =
         if gated mode && (0 <? qc_MaxDepth (in_Queue c))%Z && (qc_MaxDepth (in_Queue c) <=? lastDepth samples mode (routeOf durable fast mode))%Z
         then (false, retryAfterOf c) else (true, 0%Z)) /\ (0 < retryAfterOf c)%Z).
Proof.
  intros Hr. split; [by apply validate_spec|]. intros [_ _ _ Hk Hs Hd] rdb.
  assert (0 < retryAfterOf c)%Z as Hra by (unfold retryAfterOf; cbv zeta; destruct (Z.leb_spec (wrap64 (qc_RetryAfterSeconds (in_Queue c) * 1000000000)) 0); [by vm_compute|lia]).
  set (shards := if (wc_DeliveryShards (in_Webhooks c) <=? 0)%Z then qc_Shards (in_Queue c) else wc_DeliveryShards (in_Webhooks c)).
  assert (1 <= shards)%Z as Hsh by (unfold shards; destruct (Z.leb_spec (wc_DeliveryShards (in_Webhooks c)) 0); lia).
  unfold buildQueues, buildDeliveryQueue, NewQueue. cbn [qs_Driver qs_Shards qs_StreamPrefix qs_ConsumerGroup]. change (str_eqb "memory" "memory") with true. cbv iota. fold shards.
  destruct Hd as [[-> Hall]|(-> & Ha & _ & _)].
  - change (str_eqb "memory" "memory") with true. cbv iota. rewrite Hall. change (str_eqb RoleAll RoleAll) with true. cbv iota.
    eexists _, _, _. split_and!; try reflexivity; try done. intros samples mode. apply allow_spec.
  - change (str_eqb "redis-streams" "memory") with false. change (str_eqb "redis-streams" "redis-streams") with true. cbv iota.
    assert (rdb = true) as -> by (unfold rdb; by rewrite (proj2 (str_eqb_neq _ _) Ha)). cbv iota.
    assert (forall n p, (1 <= n)%Z -> rq_shards (NewRedisQueue n p (qc_ConsumerGroup (in_Queue c)) consumer) = n) as Hn by (intros n p Hn; cbn; destruct (Z.ltb_spec n 1); lia).
    exists (StreamsQueue (NewRedisQueue (qc_Shards (in_Queue c)) (qc_StreamPrefix (in_Queue c)) (qc_ConsumerGroup (in_Queue c)) consumer)).
    exists (if str_eqb (in_Role c) RoleAll then Some (MemoryQueue (qc_Shards (in_Queue c))) else None).
    exists (StreamsQueue (NewRedisQueue shards (deliveryStreamPrefix (qc_StreamPrefix (in_Queue c))) (qc_ConsumerGroup (in_Queue c)) consumer)).
    cbn [shardsOf]. rewrite !Hn by done. split_and!; try done; [by destruct (str_eqb (in_Role c) RoleAll)| |intros samples mode; apply allow_spec].
    intros q q' i j [= <-] [= <-]. apply streams_apart.
Qed.

Lemma validated_start_witness : Validate (fun V l => rev l) Default = Ok tt /\ exists durable fast delivery,
  buildQueues Default true "n1" = Ok (durable, fast) /\ buildDeliveryQueue Default true "n1" = Ok delivery /\ shardsOf delivery = 16%Z.
Proof.
  destruct (validated_start (fun V l => rev l) Default "n1") as [Hv Hb]; [intros V l; symmetry; apply Permutation_rev|].
  assert (wellFormed Default) as Hw by (apply Hv; vm_compute; reflexivity). split; [by apply Hv|].
  destruct (Hb Hw) as (durable & fast & delivery & H1 & H2 & _). exists durable, fast, delivery. split_and!; [exact H1|exact H2|]. vm_compute in H2. injection H2 as <-. reflexivity.
Defined.

(** ** The collectors (internal/metrics)

    The Prometheus collectors as maps from a name and label values to a value, the
    operations the components call, the queue sampler and the dead-letter sampler with
    what they publish.  A gauge holds a float, of which only the conversion of an integer
    is used: a parameter.  Counters are exact up to 2^53 increments. *)

Definition namespace : string := "letopis".

(** The collectors with their labels, in the order they are registered. *)
Definition collectors : list (string * list string) :=
  [("queue_depth", ["queue"]); ("consumer_lag_seconds", ["queue"]); ("queue_publish_errors_total", ["queue"]); ("ingest_backpressure_total", ["queue"]); ("ingest_events_total", ["tenant"; "mode"]);
   ("rule_matches_total", ["tenant"; "action"]); ("plugin_errors_total", ["plugin"; "hook"]); ("webhook_deliveries_total", ["result"]); ("webhook_delivery_duration_seconds", ["result"]);
   ("webhook_retries_total", []); ("webhook_dlq_size", [])].

(** [MustRegister] on a registry with the given names: [None] is a panic. *)
Definition mustRegister (reg names : list string) : option (list string) :=
  fold_left (fun r n => match r with Some r => if existsb (str_eqb n) r then None else Some (n :: r) | None => None end) names (Some reg).

Section Metrics.
Context {F : Type}.
Variable ofInt : Z -> F.

Definition seriesKey : Type := string * list string.
Record Metrics := mkMetrics { mt_gauges : gmap seriesKey F; mt_counters : gmap seriesKey Z; mt_observed : list (seriesKey * F) }.

Definition NewMetrics (reg : list string) : option (Metrics * list string) :=
  option_map (fun r => (mkMetrics ∅ ∅ [], r)) (mustRegister reg (map (fun c => namespace +:+ "_" +:+ fst c) collectors)).

Definition setGauge (k : seriesKey) (v : F) (m : Metrics) : Metrics := mkMetrics (<[k := v]> (mt_gauges m)) (mt_counters m) (mt_observed m).
Definition incCounter (k : seriesKey) (m : Metrics) : Metrics := mkMetrics (mt_gauges m) (<[k := (default 0 (mt_counters m !! k) + 1)%Z]> (mt_counters m)) (mt_observed m).

Definition SetQueueDepth (queue : string) (depth : F) : Metrics -> Metrics := setGauge ("queue_depth", [queue]) depth.
Definition SetConsumerLag (queue : string) (seconds : F) : Metrics -> Metrics := setGauge ("consumer_lag_seconds", [queue]) seconds.
Definition IncPublishError (queue : string) : Metrics -> Metrics := incCounter ("queue_publish_errors_total", [queue]).
Definition IncBackpressure (queue : string) : Metrics -> Metrics := incCounter ("ingest_backpressure_total", [queue]).
Definition ObserveAccept (tenant mode : string) : Metrics -> Metrics := incCounter ("ingest_events_total", [tenant; mode]).
Definition IncRuleMatch (tenant action : string) : Metrics -> Metrics := incCounter ("rule_matches_total", [tenant; action]).
Definition IncPluginError (plugin hook : string) : Metrics -> Metrics := incCounter ("plugin_errors_total", [plugin; hook]).
Definition ObserveDelivery (result : string) (duration : F) (m : Metrics) : Metrics :=
  let m := incCounter ("webhook_deliveries_total", [result]) m in
  mkMetrics (mt_gauges m) (mt_counters m) (mt_observed m ++ [(("webhook_delivery_duration_seconds", [result]), duration)]).
Definition IncDeliveryRetry : Metrics -> Metrics := incCounter ("webhook_retries_total", []).
Definition SetDLQSize (size : F) : Metrics -> Metrics := setGauge ("webhook_dlq_size", []) size.

Definition counter (m : Metrics) (k : seriesKey) : Z := default 0%Z (mt_counters m !! k).
Definition gauge (m : Metrics) (k : seriesKey) : option F := mt_gauges m !! k.

(** ** The samplers *)

(** [NewSampler] and [NewDLQSampler]: their intervals. *)
Definition sampleInterval (interval : Z) : Z := if (interval <=? 0)%Z then 1000000000 else interval.
Definition defaultDLQSampleInterval : Z := 15000000000.

(** [sampleAll] with the gauges: a source whose depth cannot be read keeps its sample and
    its gauge. *)
Definition sampleGauges (depthOf : string -> builtQueue -> option Z) (s : Sampler) (m : Metrics) : Metrics :=
  fold_left (fun m ms => match depthOf (fst ms) (src_obs (snd ms)) with Some d => SetQueueDepth (src_name (snd ms)) (ofInt d) m | None => m end) s m.

(** [Run]: a sample at once and one per tick, until the context ends. *)
Definition samplerRun (samples : list (string -> builtQueue -> option Z)) (s : Sampler) (m : Metrics) : Sampler * Metrics :=
  fold_left (fun sm depthOf => (sampleAll depthOf (fst sm), sampleGauges depthOf (fst sm) (snd sm))) samples (s, m).

(** [Allow] with the counter of refusals. *)
Definition allowCounted (s : Sampler) (mode : string) (m : Metrics) : bool * Z * Metrics :=
  let r := Allow s mode in
  (r, match mget mode s with Some src => if fst r then m else IncBackpressure (src_name src) m | None => m end).

Definition dlqRun (counts : list (ctx -> string -> option Z)) (tenants : list Tenant) (m : Metrics) : Metrics :=
  fold_left (fun m count => SetDLQSize (ofInt (sampleDLQ count tenants)) m) counts m.

(** ** What is scraped *)

Lemma inc_counter k k' m : counter (incCounter k m) k' = (counter m k' + if decide (k = k') then 1 else 0)%Z.
Proof. unfold counter, incCounter. cbn. destruct (decide (k = k')) as [->|Hne]; [by rewrite lookup_insert_eq|]. rewrite lookup_insert_ne by done. lia. Qed.

Lemma set_gauge k k' v m : gauge (setGauge k v m) k' = if decide (k = k') then Some v else gauge m k'.
Proof. unfold gauge, setGauge. cbn. destruct (decide (k = k')) as [->|Hne]; [apply lookup_insert_eq|by apply lookup_insert_ne]. Qed.

(** The names of the sources are distinct, as in [buildSampler]. *)
Definition namedApart (s : Sampler) : Prop := List.NoDup (map (fun ms => src_name (snd ms)) s).

Lemma sample_gauge depthOf s m mode src : namedApart s -> In (mode, src) s ->
  gauge (sampleGauges depthOf s m) ("queue_depth", [src_name src]) = match depthOf mode (src_obs src) with Some d => Some (ofInt d) | None => gauge m ("queue_depth", [src_name src]) end.
Proof.
  assert (forall s m n, ~ In n (map (fun ms => src_name (snd ms)) s) -> gauge (sampleGauges depthOf s m) ("queue_depth", [n]) = gauge m ("queue_depth", [n])) as Hother.
  { clear. induction s as [|[k x] s IH]; intros m n Hn; [done|]. cbn [map In snd] in Hn. unfold sampleGauges in *. cbn [fold_left fst snd]. rewrite IH by tauto. destruct (depthOf k (src_obs x)); [|done].
    unfold SetQueueDepth. rewrite set_gauge, decide_False; [done|]. intros E. injection E. tauto. }
  unfold namedApart. revert m. induction s as [|[k x] s IH]; intros m; [done|]. cbn [map snd]. intros [Hni Hn]%List.NoDup_cons_iff [[= -> ->]|Hin].
  - unfold sampleGauges in *. cbn [fold_left fst snd]. rewrite Hother by done. destruct (depthOf mode (src_obs src)); [|done]. unfold SetQueueDepth. by rewrite set_gauge, decide_True.
  - unfold sampleGauges in *. cbn [fold_left fst snd]. rewrite IH by done. destruct (depthOf mode (src_obs src)); [done|]. destruct (depthOf k (src_obs x)); [|done].
    unfold SetQueueDepth. rewrite set_gauge, decide_False; [done|]. intros [= E]. apply Hni. rewrite E. by apply (in_map (fun ms => src_name (snd ms)) s (mode, src)).
Qed.

(** The gauge of a queue shows the very depth backpressure compares with the limit, once
    the queue has been read. *)
Lemma gauge_gates depthOf s m mode src : namedApart s -> In (mode, src) s -> (forall old, gauge m ("queue_depth", [src_name src]) = Some old -> old = ofInt (src_depth src)) ->
  let src' := sampled (depthOf mode (src_obs src)) src in
  In (mode, src') (sampleAll depthOf s) /\ src_name src' = src_name src /\ forall v, gauge (sampleGauges depthOf s m) ("queue_depth", [src_name src']) = Some v -> v = ofInt (src_depth src').
Proof.
  intros Hn Hin Hold. cbv zeta. assert (src_name (sampled (depthOf mode (src_obs src)) src) = src_name src) as En by (by destruct (depthOf mode (src_obs src))). split_and!; [|done|].
  - unfold sampleAll. apply in_map_iff. by exists (mode, src).
  - intros v. rewrite En, (sample_gauge _ _ _ mode src) by done. destruct (depthOf mode (src_obs src)); [by intros [= <-]|apply Hold].
Qed.

(** The refusals are counted, one each, and nothing else is. *)
Lemma allow_counted s mode m name : counter (snd (allowCounted s mode m)) ("ingest_backpressure_total", [name]) =
  (counter m ("ingest_backpressure_total", [name]) + match mget mode s with Some src => if negb (fst (Allow s mode)) && str_eqb (src_name src) name then 1 else 0 | None => 0 end)%Z.
Proof.
  unfold allowCounted. cbn [snd]. destruct (mget mode s) as [src|]; [|lia]. destruct (fst (Allow s mode)); cbn [negb andb]; [lia|]. unfold IncBackpressure. rewrite inc_counter.
  destruct (str_eqb (src_name src) name) eqn:E; [apply str_eqb_eq in E as ->; by rewrite decide_True|]. apply str_eqb_neq in E. rewrite decide_False; [done|]. intros [= ?]. done.
Qed.
End Metrics.

(** The collectors register once; a second registration panics. *)
Example register_once : option_map (fun mr => length (snd mr)) (NewMetrics (F := Z) []) = Some 11%nat /\ (r ← option_map snd (NewMetrics (F := Z) []); option_map snd (NewMetrics (F := Z) r)) = None.
Proof. split; vm_compute; reflexivity. Qed.
