(* ===== verification/SystemRepo.v ===== *)
(** * The audit log (internal/storage/mongo/system_repo.go)

    Administrative actions as documents of the tenant's [ev__system] collection: the
    store behind the [AuditStore] port of the configuration and rule administration. *)

From stdpp Require Import base list strings.
From Stdlib Require Import ZArith Lia Ascii.
From S2P Require Import Prelude GoMap Json Paths Diff DiffSound Domain Tenant Config Names Alias Repo Mapping Mongo.

Record auditDoc := mkAuditDoc { aud_ID : string; aud_Action : string; aud_Collection : string; aud_Actor : string; aud_TS : time; aud_Details : state }.

Definition toAuditDoc (e : AuditEvent) : auditDoc := mkAuditDoc (au_ID e) (au_Action e) (au_Collection e) (au_Actor e) (au_TS e) (au_Details e).

(** The index on collection and time. *)
Class MongoAudit (W : Type) := { CreateAuditIndex : database -> string -> W -> option driverErr * W }.

Section Repo.
Context {W : Type} `{MongoDriver W auditDoc} `{MongoAdmin W} `{MongoAudit W}.
Variable dbFor : ctx -> res err database.

(** Once per database name and process. *)
Definition ensureAudit (db : database) (provisioned : list string) (w : W) : res err unit * list string * W :=
  if existsb (str_eqb (db_name db)) provisioned then (Ok tt, provisioned, w)
  else
    let index w1 :=
      match CreateAuditIndex db SystemEvents w1 with
      | (Some e, w2) => (Err (internal e), provisioned, w2)
      | (None, w2) => (Ok tt, db_name db :: provisioned, w2)
      end in
    match CreateCollection db SystemEvents w with
    | (Some e, w1) => if isNamespaceExists e then index w1 else (Err (internal e), provisioned, w1)
    | (None, w1) => index w1
    end.

Definition stampAudit (now : time) (e : AuditEvent) : AuditEvent :=
  mkAuditEvent (au_ID e) (au_Action e) (au_Collection e) (au_Actor e) (if (au_TS e =? 0)%Z then now else au_TS e) (au_Details e).

Definition repoAuditRecord (c : ctx) (now : time) (e : AuditEvent) (pr : list string) (w : W) : res err unit * list string * W :=
  match dbFor c with
  | Err x => (Err x, pr, w)
  | Ok db =>
      match ensureAudit db pr w with
      | (Err x, pr', w1) => (Err x, pr', w1)
      | (Ok _, pr', w1) =>
          match InsertOne db SystemEvents (toAuditDoc (stampAudit now e)) w1 with
          | (None, w2) => (Ok tt, pr', w2)
          | (Some x, w2) => (Err (internal x), pr', w2)
          end
      end
  end.

(** A recorded action is one insert into the system collection of the tenant, whose name
    no user collection has. *)
Theorem audit_recorded (c : ctx) (now : time) (e : AuditEvent) (pr pr' : list string) (w w' : W) :
  repoAuditRecord c now e pr w = (Ok tt, pr', w') ->
  isUserEventCollection SystemEvents = false /\
  exists db w1, dbFor c = Ok db /\ In (db_name db) pr' /\ InsertOne db SystemEvents (toAuditDoc (stampAudit now e)) w1 = (None, w') /\ (now <> 0%Z -> aud_TS (toAuditDoc (stampAudit now e)) <> 0%Z).
Proof.
  unfold repoAuditRecord. destruct (dbFor c) as [db|]; [|done]. destruct (ensureAudit db pr w) as [[[[]|x] pr1] w1] eqn:E; [|done].
  destruct (InsertOne _ _ _ w1) as [[x|] w2] eqn:Ei; [done|]. intros [= <- <-]. split; [reflexivity|]. exists db, w1. split_and!; [done| |done|cbn; destruct (Z.eqb_spec (au_TS e) 0); done].
  unfold ensureAudit in E. destruct (existsb _ pr) eqn:Ep.
  - injection E as <- _. apply existsb_exists in Ep as (n & Hn & ->%str_eqb_eq). done.
  - assert (forall w0, (let '(x, w2) := CreateAuditIndex db SystemEvents w0 in match x with Some e0 => (Err (internal e0), pr, w2) | None => (Ok tt, db_name db :: pr, w2) end) = (Ok tt, pr1, w1) -> In (db_name db) pr1) as Hi.
    { intros w0. destruct (CreateAuditIndex _ _ w0) as [[x|] w3]; [done|]. intros [= <- _]. by left. }
    destruct (CreateCollection db SystemEvents w) as [[x|] w3]; [destruct (isNamespaceExists x); [|done]|]; apply (Hi w3); rewrite <- E; by destruct (CreateAuditIndex db SystemEvents w3) as [[?|] ?].
Qed.
End Repo.
