(* ===== verification/App.v ===== *)
(** * Starting a process (internal/app/app.go Run, pkg/ext, internal/cli, the constructors of internal/server/grpc.go)

    What a process opens, starts and closes.  [Run] is a program over the record of what
    has happened so far: the resources opened with their deferred closes, and the loops
    started on the error group.  The loops themselves are the subject of other files (the
    worker, the batch worker, the dispatcher, the sampler, the router); here they are
    values that carry what they were wired with.  The MongoDB driver, the loading of a
    certificate and the outcome of [g.Wait] are parameters. *)

From stdpp Require Import base list strings.
From Stdlib Require Import ZArith Lia Ascii Permutation.
From S2P Require Import Prelude GoMap Json Paths Diff DiffSound Domain Tenant Config Names Alias Repo Plugin Ingest Pipeline Numbers HashChain Queue Delivery NetAddr Ssrf Worker Batch RedisQueue RedisStores Router Instance.

(** ** The extension registry (pkg/ext) *)

Record extTenant := mkExtTenant { et_ID : string; et_MongoURI : string; et_Database : string }.
Definition ErrUnknownExtKey : string := "ext: unknown api key".

(** A nil interface is [None]. *)
Record extRegistry (W : Type) := mkExtRegistry {
  reg_Tenants : option (string -> res string extTenant);
  reg_Metering : option (string -> string -> Z -> W -> W);
  reg_PreStore : list PreStorePlugin; reg_PostStore : list (PostStorePlugin W); reg_Actions : list (ActionPlugin W) }.
Arguments mkExtRegistry {W}. Arguments reg_Tenants {W}. Arguments reg_Metering {W}. Arguments reg_PreStore {W}. Arguments reg_PostStore {W}. Arguments reg_Actions {W}.

Definition emptyTenants (keyHash : string) : res string extTenant := Err ErrUnknownExtKey.
Definition noopMetering {W : Type} (tenantID op : string) (n : Z) (w : W) : W := w.
Definition Defaults {W : Type} : extRegistry W := mkExtRegistry (Some emptyTenants) (Some noopMetering) [hashChain] [] [].

(** ** What a process is made of *)

(** A queue with the place it was built for: two memory queues are different queues. *)
Record queueRef := mkQueueRef { qr_name : string; qr_queue : builtQueue }.

Inductive resource := MongoClients | RedisClient | QueueHandle (q : queueRef).

(** What the rules engine is built with: the cache TTL, the action plugins, and the
    queue its webhooks are published to. *)
Record engineSetup (W : Type) := mkEngineSetup { es_ttl : Z; es_actions : Host W; es_publish : queueRef }.
Arguments mkEngineSetup {W}. Arguments es_ttl {W}. Arguments es_actions {W}. Arguments es_publish {W}.

(** What the API writes through: the queues of the pipeline, the lifetimes of the tickets
    and idempotency keys when Redis keeps them, the bus for rule invalidations, and the
    queue redeliveries go to. *)
Record apiWiring (W : Type) := mkApiWiring {
  api_ingester : Ingester W; api_durable : queueRef; api_fast : option queueRef; api_limiter : Sampler;
  api_ticketTTL : option Z; api_idempTTL : option Z; api_ruleBus : bool; api_redeliver : queueRef }.
Arguments mkApiWiring {W}. Arguments api_ingester {W}. Arguments api_durable {W}. Arguments api_fast {W}. Arguments api_limiter {W}. Arguments api_ticketTTL {W}. Arguments api_idempTTL {W}. Arguments api_ruleBus {W}. Arguments api_redeliver {W}.

Inductive loop (W : Type) :=
| LSampler (s : Sampler)
| LSubscribe
| LHTTP (l : Listen) (resolver : Tenant.Resolver) (sv : services) (api : apiWiring W)
| LGRPC (l : Listen) (creds : bool)
| LWorker (q : queueRef) (ing : Ingester W) (tickets : bool) (o : Worker.Options)
| LBatchWorker (q : queueRef) (ing : Ingester W) (tickets : bool) (o : BatchOptions)
| LDispatcher (q : queueRef) (secrets : list (string * string)) (cfg : Delivery.Config) (transport : option compiledPolicy)
| LDLQSampler (tenants : list Tenant).
Arguments LSampler {W}. Arguments LSubscribe {W}. Arguments LHTTP {W}. Arguments LGRPC {W}. Arguments LWorker {W}. Arguments LBatchWorker {W}. Arguments LDispatcher {W}. Arguments LDLQSampler {W}.

Inductive action (W : Type) := Opened (r : resource) | Started (l : loop W) | Waited | Closed (r : resource).
Arguments Opened {W}. Arguments Started {W}. Arguments Waited {W}. Arguments Closed {W}.

(** [errors.Is(err, context.Canceled)] is all that is asked of a loop's error. *)
Inductive loopErr := Canceled | LoopFailed (msg : string).
Inductive startErr := ErrNilRegistry | ErrTenants (e : tenantErr) | ErrMongo (e : err) | ErrQueues (msg : string) | ErrTLS (msg : string) | ErrSSRF (msg : string) | ErrLoop (e : loopErr).

(** ** A program that opens, starts and defers *)

Section Startup.
Context {W : Type}.

(** What has happened, latest first, and the deferred closes, latest first. *)
Record startup := mkStartup { up_log : list (action W); up_defers : list resource }.
Definition app (A : Type) : Type := startup -> res startErr A * startup.

Definition ret {A} (x : A) : app A := fun s => (Ok x, s).
Definition bind {A B} (m : app A) (f : A -> app B) : app B := fun s => match m s with (Ok x, s') => f x s' | (Err e, s') => (Err e, s') end.
Definition lift {A E} (wrap : E -> startErr) (r : res E A) : app A := fun s => (match r with Ok x => Ok x | Err e => Err (wrap e) end, s).
Definition open (r : resource) : app unit := fun s => (Ok tt, mkStartup (Opened r :: up_log s) (r :: up_defers s)).
Definition start (l : loop W) : app unit := fun s => (Ok tt, mkStartup (Started l :: up_log s) (up_defers s)).
Definition when (b : bool) (m : app unit) : app unit := if b then m else ret tt.

Definition startedLoops (tr : list (action W)) : list (loop W) := omap (fun a => match a with Started l => Some l | _ => None end) tr.

(** A function body: its deferred calls run when it returns. *)
Definition withDefers (m : app unit) : list (action W) * option startErr :=
  let '(r, s) := m (mkStartup [] []) in
  (rev (up_log s) ++ map Closed (up_defers s), match r with Ok _ => None | Err e => Some e end).
End Startup.
Arguments startup W : clear implicits. Arguments app W A : clear implicits.

Declare Scope app_scope.
Delimit Scope app_scope with app.
Notation "x <- m ; k" := (bind m (fun x => k)) (at level 60, m at next level, right associativity) : app_scope.

(** ** Run *)

Section Run.
Context {W : Type}.
(** [mongo.Connect]; [credentials.NewServerTLSFromFile] with the text of its error; the
    name this process consumes under; [RulesEngine.Evaluate] over what the engine was
    built with; the first error of the loops, or the end of them all. *)
Variable Connect : string -> bool.
Variable loadCreds : string -> string -> option string.
Variable consumer : string.
Variable evaluate : engineSetup W -> ctx -> string -> Event -> W -> W.
Variable waits : list (loop W) -> option loopErr.

Definition NewGRPC (l : Listen) : res string (loop W) :=
  if tls_Enabled (ln_TLS l) then
    match loadCreds (tls_CertFile (ln_TLS l)) (tls_KeyFile (ln_TLS l)) with Some e => Err e | None => Ok (LGRPC l true) end
  else Ok (LGRPC l false).

Definition buildSSRFTransport (c : InstanceConfig) : res string (option compiledPolicy) :=
  let s := wc_SSRF (in_Webhooks c) in
  NewGuardedTransport (Some (mkPolicy (Ssrf.Allow s) (Deny s) (AllowPrivate s) (AllowHTTP s))).

(** [worker.New] and [worker.NewBatchWorker]. *)
Definition newWorker (q : queueRef) (ing : Ingester W) (tickets : bool) (o : Worker.Options) : loop W := LWorker q ing tickets (Worker.withDefaults o).
Definition newBatchWorker (q : queueRef) (ing : Ingester W) (tickets : bool) (o : BatchOptions) : loop W := LBatchWorker q ing tickets (batchDefaults o).

(** [delivery.New]. *)
Definition newDispatcher (q : queueRef) (secrets : list (string * string)) (cfg : Delivery.Config) (transport : option compiledPolicy) : loop W :=
  LDispatcher q secrets (Delivery.withDefaults cfg) transport.

(** [ticketUpdater], [ruleCacheInvalidator] and [idempForAsync]: the port is nil exactly
    when the store behind it is. *)
Definition portOf {A : Type} (store : option A) : bool := match store with None => false | Some _ => true end.

(** A lifetime in hours, with the default of the stores. *)
Definition hours (n : Z) : Z := ttlOrDefault (wrap64 (n * 3600000000000)).

Definition completeRegistry (reg : option (extRegistry W)) : res startErr (extRegistry W) :=
  match reg with
  | None => Err ErrNilRegistry
  | Some r => match reg_Tenants r, reg_Metering r with Some _, Some _ => Ok r | _, _ => Err ErrNilRegistry end
  end.

(** The loops of a role that serves the API. *)
Definition startAPI (c : InstanceConfig) (resolver : Tenant.Resolver) (api : apiWiring W) : app W unit :=
  (_ <- start (LHTTP (in_HTTP c) resolver (mkServices true true true (portOf (api_ticketTTL api)) true true true true true) api);
   grpc <- lift ErrTLS (NewGRPC (in_GRPC c));
   start grpc)%app.

(** The loops of a role that runs the worker. *)
Definition startWorkers (c : InstanceConfig) (api : apiWiring W) (deliveryQ : queueRef) : app W unit :=
  (let tickets := portOf (api_ticketTTL api) in
   _ <- start (newWorker (api_durable api) (api_ingester api) tickets (Worker.mkOptions 0 0 "durable"));
   _ <- match api_fast api with
        | Some f => start (newBatchWorker f (api_ingester api) tickets (mkBatchOptions (qc_BatchSize (in_Queue c)) (wrap64 (qc_BatchLingerMS (in_Queue c) * 1000000)) "fast"))
        | None => ret tt
        end;
   guard <- lift ErrSSRF (buildSSRFTransport c);
   _ <- start (newDispatcher deliveryQ (wc_Secrets (in_Webhooks c)) (deliveryConfig c) guard);
   start (LDLQSampler (tenantsFromSpecs (TenantSpecs c))))%app.

Definition wait : app W unit := fun s =>
  let s' := mkStartup (Waited :: up_log s) (up_defers s) in
  match waits (startedLoops (rev (up_log s))) with None => (Ok tt, s') | Some e => (Err (ErrLoop e), s') end.

Definition runBody (c : InstanceConfig) (reg : option (extRegistry W)) : app W unit :=
  (reg <- lift id (completeRegistry reg);
   resolver <- lift ErrTenants (NewResolver (TenantSpecs c));
   _ <- lift ErrMongo (NewConnManager Connect (in_MongoURI c));
   _ <- open MongoClients;
   let host := NewHost (reg_PreStore reg) (reg_PostStore reg) (reg_Actions reg) in
   let rdb := negb (str_eqb (rc_Addr (in_Redis c)) "") in
   _ <- when rdb (open RedisClient);
   let whenRedis {A} (x : A) := if rdb then Some x else None in
   qs <- lift ErrQueues (buildQueues c rdb consumer);
   let '(durable, fast) := qs in
   let durableQ := mkQueueRef "durable" durable in
   let fastQ := option_map (mkQueueRef "fast") fast in
   _ <- open (QueueHandle durableQ);
   _ <- match fastQ with Some f => open (QueueHandle f) | None => ret tt end;
   delivery <- lift ErrQueues (buildDeliveryQueue c rdb consumer);
   let deliveryQ := mkQueueRef "delivery" delivery in
   _ <- open (QueueHandle deliveryQ);
   let ttl := wrap64 (in_CacheTTLSeconds c * 1000000000) in
   let engine := mkEngineSetup (if (0 <? ttl)%Z then ttl else RulesEngine.defaultRuleCacheTTL) host deliveryQ in
   let ingester := mkIngester W true (Some (evaluate engine)) (Some host) in
   let sampler := buildSampler c durable fast in
   let api := mkApiWiring ingester durableQ fastQ sampler (whenRedis (hours (in_TicketTTLHours c))) (whenRedis (hours (in_IdempotencyTTLHours c))) rdb deliveryQ in
   _ <- start (LSampler sampler);
   _ <- when rdb (start LSubscribe);
   _ <- when (ServesAPI (in_Role c)) (startAPI c resolver api);
   _ <- when (RunsWorker (in_Role c)) (startWorkers c api deliveryQ);
   wait)%app.

Definition Run (c : InstanceConfig) (reg : option (extRegistry W)) : list (action W) * option startErr := withDefers (runBody c reg).
End Run.

(** ** The command line (internal/cli/cli.go, cmd/letopis)

    The two commands, the flags of [serve] as package flag parses them, and the way from
    the arguments to [Run]: which file, which role, which errors. *)

(** ** Flags *)

(** A flag set with string flags: the values by name, defaults at first. *)
Inductive flagErr := ErrHelp | ErrBadSyntax (arg : string) | ErrNotDefined (name : string) | ErrNeedsArgument (name : string).

(** One argument of [FlagSet.Parse]: the end of the flags, or a name with the value after
    its first equals sign. *)
Inductive flagArg := EndOfFlags | BadFlag | Flag (name : string) (value : option string).

Definition nameValue (s : string) : flagArg :=
  match s with
  | EmptyString => BadFlag
  | String c s' =>
      if Ascii.eqb c "-" || Ascii.eqb c "=" then BadFlag
      else match cutAt "=" s' with Some (n, v) => Flag (String c n) (Some v) | None => Flag s None end
  end.

Definition flagOf (s : string) : flagArg :=
  match s with
  | String c (String c' s' as t) =>
      if negb (Ascii.eqb c "-") then EndOfFlags
      else if Ascii.eqb c' "-" then match s' with EmptyString => EndOfFlags | _ => nameValue s' end
      else nameValue t
  | _ => EndOfFlags
  end.

Definition setFlag (flags : list (string * string)) (name value : string) : res flagErr (list (string * string)) :=
  match mget name flags with
  | Some _ => Ok (mset name value flags)
  | None => if str_eqb name "help" || str_eqb name "h" then Err ErrHelp else Err (ErrNotDefined name)
  end.

Fixpoint parseFlags (args : list string) (flags : list (string * string)) : res flagErr (list (string * string)) :=
  match args with
  | [] => Ok flags
  | s :: args' =>
      match flagOf s with
      | EndOfFlags => Ok flags
      | BadFlag => Err (ErrBadSyntax s)
      | Flag name (Some v) => match setFlag flags name v with Ok flags' => parseFlags args' flags' | Err e => Err e end
      | Flag name None =>
          match args' with
          | v :: args'' => match setFlag flags name v with Ok flags' => parseFlags args'' flags' | Err e => Err e end
          | [] => match setFlag flags name "" with Ok _ => Err (ErrNeedsArgument name) | Err e => Err e end
          end
      end
  end.

(** The flags of [serve]: config and role. *)
Definition serveFlags (args : list string) : res flagErr (string * string) :=
  match parseFlags args [("config", ""); ("role", "")] with
  | Ok flags => Ok (default "" (mget "config" flags), default "" (mget "role" flags))
  | Err e => Err e
  end.

(** ** The logger *)

Inductive slogLevel := LevelDebug | LevelInfo | LevelWarn | LevelError.
Record loggerSetup := mkLogger { lg_level : slogLevel; lg_text : bool }.

Definition newLogger (level format : string) : loggerSetup :=
  mkLogger (if str_eqb level "debug" then LevelDebug else if str_eqb level "warn" then LevelWarn else if str_eqb level "error" then LevelError else LevelInfo) (str_eqb format "text").

(** ** The commands *)

Inductive cliErr := ErrCommandRequired | ErrUnknownCommand (c : string) | ErrFlags (e : flagErr) | ErrConfig (setting : string) | ErrStart (e : startErr).

Definition withRole (c : InstanceConfig) (role : string) : InstanceConfig :=
  mkInstance role (in_HTTP c) (in_GRPC c) (in_MongoURI c) (in_Redis c) (in_Queue c) (in_TicketTTLHours c) (in_IdempotencyTTLHours c) (in_CacheTTLSeconds c) (in_Webhooks c)
    (in_LogLevel c) (in_LogFormat c) (in_AutoCreate c) (in_Tenants c).

(** Where the command runs: the ranges of Go's maps, the files, the environment, the
    decoder, and what [Run] takes. *)
Record machine (W : Type) := mkMachine {
  mc_range : forall V : Type, list (string * V) -> list (string * V);
  mc_exists : string -> bool; mc_beside : option string; mc_env : string -> option string; mc_read : string -> option string;
  mc_yaml : InstanceConfig -> string -> option InstanceConfig;
  mc_Connect : string -> bool; mc_creds : string -> string -> option string; mc_consumer : string;
  mc_evaluate : engineSetup W -> ctx -> string -> Event -> W -> W; mc_waits : list (loop W) -> option loopErr;
  mc_version : string; mc_commit : string; mc_date : string }.
Arguments mkMachine {W}. Arguments mc_range {W}. Arguments mc_exists {W}. Arguments mc_beside {W}. Arguments mc_env {W}. Arguments mc_read {W}. Arguments mc_yaml {W}. Arguments mc_Connect {W}.
Arguments mc_creds {W}. Arguments mc_consumer {W}. Arguments mc_evaluate {W}. Arguments mc_waits {W}. Arguments mc_version {W}. Arguments mc_commit {W}. Arguments mc_date {W}.

Section Cli.
Context {W : Type}.
Variable mc : machine W.

Definition wrapErr {E A} (f : E -> cliErr) (r : res E A) : res cliErr A := match r with Ok x => Ok x | Err e => Err (f e) end.

(** [serve] up to the logger: the configuration that will run. *)
Definition configFor (args : list string) : res cliErr InstanceConfig :=
  (fl <- wrapErr ErrFlags (serveFlags args);
   path <- wrapErr ErrConfig (ResolveFile (mc_exists mc) (mc_beside mc) (fst fl));
   cfg <- wrapErr ErrConfig (Load (mc_range mc) (mc_env mc) (mc_read mc) (mc_yaml mc) path);
   if str_eqb (snd fl) "" then Ok cfg
   else
     let cfg := withRole cfg (snd fl) in
     _ <- wrapErr ErrConfig (Validate (mc_range mc) cfg); Ok cfg)%go.

Definition serve (args : list string) (reg : option (extRegistry W)) : list (action W) * option cliErr :=
  match configFor args with
  | Err e => ([], Some e)
  | Ok cfg =>
      let '(tr, e) := Run (mc_Connect mc) (mc_creds mc) (mc_consumer mc) (mc_evaluate mc) (mc_waits mc) cfg reg in
      (tr, match e with Some (ErrLoop Canceled) => None | Some e => Some (ErrStart e) | None => None end)
  end.

Definition versionLine : string := "letopis " +:+ mc_version mc +:+ " (commit " +:+ mc_commit mc +:+ ", built " +:+ mc_date mc +:+ ")".

(** What is printed to standard output, what is done, the error. *)
Definition Main (args : list string) (reg : option (extRegistry W)) : list string * list (action W) * option cliErr :=
  match args with
  | [] => ([], [], Some ErrCommandRequired)
  | cmd :: args' =>
      if str_eqb cmd "serve" then let '(tr, e) := serve args' reg in ([], tr, e)
      else if str_eqb cmd "version" then ([versionLine], [], None)
      else ([], [], Some (ErrUnknownCommand cmd))
  end.

(** [cmd/letopis]: the exit status. *)
Definition exitStatus (args : list string) : Z := match snd (Main args (Some Defaults)) with None => 0 | Some _ => 1 end.
End Cli.

Example flags_forms : map serveFlags [["-config"; "a.yaml"; "--role=api"]; ["--config=a=b"; "worker"; "-role"; "x"]; ["-role"; "-config"]; ["-"; "-role"]; ["--"; "-x"]] =
  [Ok ("a.yaml", "api"); Ok ("a=b", ""); Ok ("", "-config"); Ok ("", ""); Ok ("", "")].
Proof. vm_compute. reflexivity. Qed.
Example flags_errors : map serveFlags [["-h"]; ["-role"]; ["--=x"]; ["-verbose"]; ["---role"]] =
  [Err ErrHelp; Err (ErrNeedsArgument "role"); Err (ErrBadSyntax "--=x"); Err (ErrNotDefined "verbose"); Err (ErrBadSyntax "---role")].
Proof. vm_compute. reflexivity. Qed.
