(* ===== verification/AppSound.v ===== *)
(** * What a started process consists of

    On every path what a process opens it closes; a process comes to wait exactly when
    what it needs is there; and then every queue it may publish to has its consumer, in
    this process or in every worker that shares its streams. *)

From stdpp Require Import base list strings.
From Stdlib Require Import ZArith Lia Ascii Permutation.
From S2P Require Import Prelude GoMap Json Paths Diff DiffSound Domain Tenant Config Names Alias Repo Plugin Ingest Pipeline Numbers HashChain Queue Delivery NetAddr Ssrf Worker Batch RedisQueue RedisStores Router Instance App.

(** ** Closing *)

Section Tidy.
Context {W : Type}.

Definition openedIn (tr : list (action W)) : list resource := omap (fun a => match a with Opened r => Some r | _ => None end) tr.
Definition closedIn (tr : list (action W)) : list resource := omap (fun a => match a with Closed r => Some r | _ => None end) tr.
Definition waited (tr : list (action W)) : Prop := In Waited tr.

(** A step adds to the record, and defers the close of just what it opens. *)
Definition tidy {A} (m : app W A) : Prop := forall s, exists new,
  up_log (snd (m s)) = new ++ up_log s /\ up_defers (snd (m s)) = openedIn new ++ up_defers s /\ closedIn new = [].

Lemma tidy_ret {A} (x : A) : tidy (ret x). Proof. intros s. by exists []. Qed.
Lemma tidy_lift {A E} wrap (r : res E A) : tidy (lift wrap r). Proof. intros s. by exists []. Qed.
Lemma tidy_open r : tidy (open r). Proof. intros s. by exists [Opened r]. Qed.
Lemma tidy_start l : tidy (start l). Proof. intros s. by exists [Started l]. Qed.
Lemma tidy_wait waits : tidy (wait waits). Proof. intros s. exists [Waited]. unfold wait. by destruct (waits _). Qed.

Lemma tidy_bind {A B} (m : app W A) (f : A -> app W B) : tidy m -> (forall x, tidy (f x)) -> tidy (bind m f).
Proof.
  intros Hm Hf s. destruct (Hm s) as (n1 & L1 & D1 & C1). unfold bind. destruct (m s) as [[x|e] s1]; cbn [snd] in *; [|by exists n1].
  destruct (Hf x s1) as (n2 & L2 & D2 & C2). exists (n2 ++ n1). unfold openedIn, closedIn in *. rewrite L2, D2, L1, D1, !omap_app, C1, C2. by rewrite <- !app_assoc.
Qed.

Lemma tidy_when b m : tidy m -> tidy (when b m). Proof. destruct b; [done|]. intros _. apply tidy_ret. Qed.
End Tidy.

Create HintDb tidy.
#[export] Hint Resolve tidy_ret tidy_lift tidy_open tidy_start tidy_wait tidy_when : tidy.
Ltac tidy := repeat first [apply tidy_bind; [|intros ?] | apply tidy_when | solve [auto with tidy] | case_match].

Section Closing.
Context {W : Type}.
Variables (Connect : string -> bool) (loadCreds : string -> string -> option string) (consumer : string).
Variables (evaluate : engineSetup W -> ctx -> string -> Event -> W -> W) (waits : list (loop W) -> option loopErr).

Lemma tidy_body c reg : tidy (runBody Connect loadCreds consumer evaluate waits c reg).
Proof. unfold runBody, startAPI, startWorkers. cbv zeta. tidy. Qed.

Lemma omap_rev {A B} (f : A -> option B) l : omap f (rev l) = rev (omap f l).
Proof. induction l as [|x l IH]; [done|]. cbn [rev]. rewrite omap_app, IH. cbn. by destruct (f x); cbn; rewrite ?app_nil_r. Qed.

Lemma omap_closed (rs : list resource) : closedIn (map (@Closed W) rs) = rs /\ openedIn (map (@Closed W) rs) = [].
Proof. unfold closedIn, openedIn. induction rs as [|r rs [IH1 IH2]]; [done|]. cbn. by rewrite IH1, IH2. Qed.

(** Every resource is closed, last opened first, whatever the outcome. *)
Lemma run_closes c reg : closedIn (fst (Run Connect loadCreds consumer evaluate waits c reg)) = rev (openedIn (fst (Run Connect loadCreds consumer evaluate waits c reg))).
Proof.
  unfold Run, withDefers. destruct (tidy_body c reg (mkStartup [] [])) as (new & L & D & C). destruct (runBody _ _ _ _ _ c reg _) as [r s]. cbn [snd fst up_log up_defers] in *. rewrite app_nil_r in L, D.
  rewrite L, D. unfold openedIn, closedIn in *. rewrite !omap_app, !omap_rev. destruct (omap_closed (omap (fun a : action W => match a with Opened r => Some r | _ => None end) new)) as [E1 E2].
  unfold openedIn, closedIn in E1, E2. rewrite E1, E2, C. cbn. by rewrite app_nil_r, rev_involutive.
Qed.
End Closing.

(** ** Starting *)

Definition durableOf (c : InstanceConfig) (consumer : string) : builtQueue :=
  let q := in_Queue c in
  if str_eqb (qc_Driver q) "memory" then MemoryQueue (qc_Shards q) else StreamsQueue (NewRedisQueue (qc_Shards q) (qc_StreamPrefix q) (qc_ConsumerGroup q) consumer).
Definition fastOf (c : InstanceConfig) : option builtQueue := if str_eqb (in_Role c) RoleAll then Some (MemoryQueue (qc_Shards (in_Queue c))) else None.
Definition deliveryShards (c : InstanceConfig) : Z := if (wc_DeliveryShards (in_Webhooks c) <=? 0)%Z then qc_Shards (in_Queue c) else wc_DeliveryShards (in_Webhooks c).
Definition deliveryOf (c : InstanceConfig) (consumer : string) : builtQueue :=
  let q := in_Queue c in
  if str_eqb (qc_Driver q) "memory" then MemoryQueue (deliveryShards c) else StreamsQueue (NewRedisQueue (deliveryShards c) (deliveryStreamPrefix (qc_StreamPrefix q)) (qc_ConsumerGroup q) consumer).

Definition hasRedis (c : InstanceConfig) : bool := negb (str_eqb (rc_Addr (in_Redis c)) "").

Lemma build_ok c consumer : wellFormed c -> buildQueues c (hasRedis c) consumer = Ok (durableOf c consumer, fastOf c) /\ buildDeliveryQueue c (hasRedis c) consumer = Ok (deliveryOf c consumer).
Proof.
  intros [_ _ _ _ _ [[Hd Hr]|(Hd & Ha & _)]]; unfold buildQueues, buildDeliveryQueue, NewQueue, durableOf, deliveryOf, fastOf, hasRedis; cbn [qs_Driver qs_Shards qs_StreamPrefix qs_ConsumerGroup]; rewrite Hd.
  - rewrite Hr. done.
  - rewrite (proj2 (str_eqb_neq _ _) Ha). cbn. by destruct (str_eqb (in_Role c) RoleAll).
Qed.

Section Start.
Context {W : Type}.
Variables (Connect : string -> bool) (loadCreds : string -> string -> option string) (consumer : string).
Variables (evaluate : engineSetup W -> ctx -> string -> Event -> W -> W) (waits : list (loop W) -> option loopErr).
Abbreviation Run := (Run Connect loadCreds consumer evaluate waits).

Definition refOf (name : string) (q : builtQueue) : queueRef := mkQueueRef name q.
Definition queuesOf (c : InstanceConfig) : list queueRef :=
  refOf "durable" (durableOf c consumer) :: match fastOf c with Some f => [refOf "fast" f] | None => [] end ++ [refOf "delivery" (deliveryOf c consumer)].

Definition wiringOf (c : InstanceConfig) (reg : extRegistry W) : apiWiring W :=
  let host := NewHost (reg_PreStore reg) (reg_PostStore reg) (reg_Actions reg) in
  let ttl := wrap64 (in_CacheTTLSeconds c * 1000000000) in
  let engine := mkEngineSetup (if (0 <? ttl)%Z then ttl else RulesEngine.defaultRuleCacheTTL) host (refOf "delivery" (deliveryOf c consumer)) in
  let whenRedis (x : Z) := if hasRedis c then Some x else None in
  mkApiWiring (mkIngester W true (Some (evaluate engine)) (Some host)) (refOf "durable" (durableOf c consumer)) (option_map (refOf "fast") (fastOf c))
    (buildSampler c (durableOf c consumer) (fastOf c)) (whenRedis (hours (in_TicketTTLHours c))) (whenRedis (hours (in_IdempotencyTTLHours c))) (hasRedis c) (refOf "delivery" (deliveryOf c consumer)).

Definition credsOK (c : InstanceConfig) : bool :=
  negb (tls_Enabled (ln_TLS (in_GRPC c))) || match loadCreds (tls_CertFile (ln_TLS (in_GRPC c))) (tls_KeyFile (ln_TLS (in_GRPC c))) with None => true | Some _ => false end.
Definition cidrsOK (c : InstanceConfig) : bool := match compilePolicy (wc_SSRF (in_Webhooks c)) with Some _ => true | None => false end.

(** What a process with a valid configuration still needs. *)
Record canStart (c : InstanceConfig) (reg : option (extRegistry W)) : Prop := {
  cs_reg : exists r, reg = Some r /\ reg_Tenants r <> None /\ reg_Metering r <> None;
  cs_tenants : exists rs, NewResolver (TenantSpecs c) = Ok rs;
  cs_mongo : Connect (in_MongoURI c) = true;
  cs_tls : ServesAPI (in_Role c) = true -> credsOK c = true;
  cs_cidrs : RunsWorker (in_Role c) = true -> cidrsOK c = true }.

Definition apiLoops (c : InstanceConfig) (rs : Tenant.Resolver) (api : apiWiring W) : list (loop W) :=
  if ServesAPI (in_Role c) then [LHTTP (in_HTTP c) rs (mkServices true true true (hasRedis c) true true true true true) api; LGRPC (in_GRPC c) (tls_Enabled (ln_TLS (in_GRPC c)))] else [].

Definition workerLoops (c : InstanceConfig) (api : apiWiring W) : list (loop W) :=
  if RunsWorker (in_Role c) then
    newWorker (api_durable api) (api_ingester api) (hasRedis c) (Worker.mkOptions 0 0 "durable") ::
    match api_fast api with Some f => [newBatchWorker f (api_ingester api) (hasRedis c) (mkBatchOptions (qc_BatchSize (in_Queue c)) (wrap64 (qc_BatchLingerMS (in_Queue c) * 1000000)) "fast")] | None => [] end ++
    [newDispatcher (api_redeliver api) (wc_Secrets (in_Webhooks c)) (deliveryConfig c) (compilePolicy (wc_SSRF (in_Webhooks c))); LDLQSampler (tenantsFromSpecs (TenantSpecs c))]
  else [].

Definition loopsOf (c : InstanceConfig) (reg : extRegistry W) (rs : Tenant.Resolver) : list (loop W) :=
  LSampler (buildSampler c (durableOf c consumer) (fastOf c)) :: (if hasRedis c then [LSubscribe] else []) ++ apiLoops c rs (wiringOf c reg) ++ workerLoops c (wiringOf c reg).

Definition openedOf (c : InstanceConfig) : list resource := MongoClients :: (if hasRedis c then [RedisClient] else []) ++ map QueueHandle (queuesOf c).

Lemma run_form c reg rs : wellFormed c -> canStart c (Some reg) -> NewResolver (TenantSpecs c) = Ok rs ->
  Run c (Some reg) = (map Opened (openedOf c) ++ map Started (loopsOf c reg rs) ++ [Waited] ++ map Closed (rev (openedOf c)), option_map ErrLoop (waits (loopsOf c reg rs))).
Proof.
  intros Hw [(r & [= <-] & Ht & Hm) _ Hc Htls Hcidr] Hrs. destruct (build_ok c consumer Hw) as [Hq Hd].
  unfold App.Run, withDefers, runBody, completeRegistry, startAPI, startWorkers, NewGRPC, buildSSRFTransport, NewGuardedTransport, NewConnManager, client, loopsOf, apiLoops, workerLoops, openedOf, queuesOf, wiringOf, credsOK, cidrsOK in *.
  destruct (reg_Tenants reg), (reg_Metering reg); try done. fold (hasRedis c). rewrite Hrs, Hq, Hd, Hc. cbn [existsb cm_clients].
  replace (mkPolicy (Ssrf.Allow (wc_SSRF (in_Webhooks c))) (Deny (wc_SSRF (in_Webhooks c))) (AllowPrivate (wc_SSRF (in_Webhooks c))) (AllowHTTP (wc_SSRF (in_Webhooks c)))) with (wc_SSRF (in_Webhooks c)) by (by destruct (wc_SSRF (in_Webhooks c))).
  destruct (hasRedis c), (fastOf c) as [f|], (ServesAPI (in_Role c)) eqn:Ea, (RunsWorker (in_Role c)) eqn:Ew, (tls_Enabled (ln_TLS (in_GRPC c))) eqn:Et,
    (loadCreds (tls_CertFile (ln_TLS (in_GRPC c))) (tls_KeyFile (ln_TLS (in_GRPC c)))), (compilePolicy (wc_SSRF (in_Webhooks c))) as [cp|];
    try (specialize (Htls eq_refl); discriminate Htls); try (specialize (Hcidr eq_refl); discriminate Hcidr).
  all: cbn; unfold wait; cbn; rewrite ?Et; cbn; destruct (waits _); reflexivity.
Qed.

(** Whatever is missing, the process does not come to wait. *)
Lemma run_waits c reg : wellFormed c -> waited (fst (Run c reg)) -> canStart c reg.
Proof.
  intros Hw. destruct (build_ok c consumer Hw) as [Hq Hd]. unfold waited, App.Run, withDefers, runBody, completeRegistry.
  destruct reg as [reg|]; [|cbn; tauto]. destruct (reg_Tenants reg) eqn:Ert; [|cbn; tauto]. destruct (reg_Metering reg) eqn:Erm; [|cbn; tauto].
  destruct (NewResolver (TenantSpecs c)) as [rs|e] eqn:Hrs; [|cbn; tauto].
  unfold startAPI, startWorkers, NewGRPC, buildSSRFTransport, NewGuardedTransport, NewConnManager, client. fold (hasRedis c). rewrite Hq, Hd. cbn [existsb cm_clients].
  destruct (Connect (in_MongoURI c)) eqn:Hc; [|cbn; tauto].
  replace (mkPolicy (Ssrf.Allow (wc_SSRF (in_Webhooks c))) (Deny (wc_SSRF (in_Webhooks c))) (AllowPrivate (wc_SSRF (in_Webhooks c))) (AllowHTTP (wc_SSRF (in_Webhooks c)))) with (wc_SSRF (in_Webhooks c)) by (by destruct (wc_SSRF (in_Webhooks c))).
  intros Hin. split; [exists reg; by rewrite Ert, Erm|by exists rs|done|..]; revert Hin; unfold credsOK, cidrsOK.
  all: destruct (hasRedis c), (fastOf c) as [f|], (ServesAPI (in_Role c)) eqn:Ea, (RunsWorker (in_Role c)) eqn:Ew, (tls_Enabled (ln_TLS (in_GRPC c))) eqn:Et,
    (loadCreds (tls_CertFile (ln_TLS (in_GRPC c))) (tls_KeyFile (ln_TLS (in_GRPC c)))), (compilePolicy (wc_SSRF (in_Webhooks c))) as [cp|]; try done.
  all: cbn; intros Hin; repeat (destruct Hin as [Hin|Hin]; [discriminate Hin|]); done.
Qed.

(** ** Publishers and consumers *)

Definition consumes (l : loop W) : option queueRef :=
  match l with LWorker q _ _ _ => Some q | LBatchWorker q _ _ _ => Some q | LDispatcher q _ _ _ => Some q | _ => None end.

(** The queue a write of a mode is published to ([Pipeline.Publish]). *)
Definition publishTo (api : apiWiring W) (mode : string) : queueRef :=
  match api_fast api with Some f => if str_eqb mode ReliabilityFast then f else api_durable api | None => api_durable api end.

Lemma consumers c reg rs : wellFormed c -> omap consumes (loopsOf c reg rs) = if RunsWorker (in_Role c) then queuesOf c else [].
Proof.
  intros Hw. unfold loopsOf, apiLoops, workerLoops, queuesOf, wiringOf. destruct (hasRedis c), (ServesAPI (in_Role c)), (RunsWorker (in_Role c)), (fastOf c); reflexivity.
Qed.
End Start.

(** Two queues of two processes on the same streams, in the same group. *)
Definition sameStreams (a b : builtQueue) : Prop :=
  match a, b with
  | StreamsQueue q, StreamsQueue q' => rq_prefix q = rq_prefix q' /\ rq_group q = rq_group q' /\ rq_shards q = rq_shards q'
  | _, _ => False
  end.

Lemma role_split c : wellFormed c -> RunsWorker (in_Role c) = false -> in_Role c = RoleAPI.
Proof. intros [Hr _ _ _ _ _]. unfold RunsWorker. destruct Hr as [<-|[<-|[<-|[]]]]; done. Qed.

(** The queues of a process without a worker are those of every process that shares its
    queue settings. *)
Lemma shared_queues c c' k k' q : wellFormed c -> RunsWorker (in_Role c) = false -> in_Queue c' = in_Queue c -> wc_DeliveryShards (in_Webhooks c') = wc_DeliveryShards (in_Webhooks c) ->
  In q (queuesOf k c) -> exists q', In q' (queuesOf k' c') /\ qr_name q' = qr_name q /\ sameStreams (qr_queue q') (qr_queue q).
Proof.
  intros Hw Hr Hq Hs Hin. pose proof (role_split c Hw Hr) as Hrole. destruct Hw as [_ _ _ _ _ [[_ Hall]|(Hd & _)]]; [by rewrite Hall in Hr|].
  unfold queuesOf, fastOf in Hin. rewrite Hrole in Hin. change (str_eqb RoleAPI RoleAll) with false in Hin. cbn [app] in Hin. unfold queuesOf.
  destruct Hin as [<-|[<-|[]]].
  - exists (refOf "durable" (durableOf c' k')). split; [by left|]. split; [done|]. unfold refOf, durableOf. cbn [qr_queue]. rewrite Hq, Hd. done.
  - exists (refOf "delivery" (deliveryOf c' k')). split; [right; apply in_or_app; right; by left|]. split; [done|]. unfold refOf, deliveryOf, deliveryShards. cbn [qr_queue]. rewrite Hq, Hs, Hd. done.
Qed.

(** ** The process the command line starts *)

Section Views.
Context {W : Type}.
Implicit Types (os cs : list resource) (ls : list (loop W)).

Lemma trace_views os ls cs : let tr := map Opened os ++ map Started ls ++ [Waited] ++ map Closed cs in openedIn tr = os /\ startedLoops tr = ls /\ waited tr.
Proof.
  cbv zeta. unfold openedIn, startedLoops, waited. rewrite !omap_app. split_and!.
  - induction os as [|r os IH]; cbn; [|by f_equal]. induction ls as [|l ls IH]; [|done]. by destruct (omap_closed (W := W) cs).
  - induction os as [|r os IH]; [|done]. cbn. induction ls as [|l ls IH]; cbn; [|by f_equal]. by induction cs.
  - rewrite !in_app_iff. right; right; left. by left.
Qed.

Lemma handle_in c k q : In (QueueHandle q) (openedOf k c) <-> In q (queuesOf k c).
Proof.
  unfold openedOf. cbn [In]. rewrite in_app_iff, in_map_iff. split; [|intros Hq; right; right; by exists q].
  intros [?|[Hin|(q' & [= ->] & ?)]]; [done| |done]. by destruct (hasRedis c), Hin.
Qed.
End Views.

Lemma configFor_wf {W} (mc : machine W) args cfg : (forall V (l : list (string * V)), mc_range mc V l ≡ₚ l) -> configFor mc args = Ok cfg ->
  wellFormed cfg /\ exists path role file, serveFlags args = Ok (path, role) /\ ResolveFile (mc_exists mc) (mc_beside mc) path = Ok file /\
    exists loaded, Load (mc_range mc) (mc_env mc) (mc_read mc) (mc_yaml mc) file = Ok loaded /\ wellFormed loaded /\ cfg = (if str_eqb role "" then loaded else withRole loaded role).
Proof.
  intros Hr. unfold configFor. destruct (serveFlags args) as [[path role]|] eqn:Ef; [|done]. cbn [wrapErr fst snd].
  destruct (ResolveFile _ _ path) as [file|] eqn:Er; [|done]. cbn [wrapErr]. destruct (Load _ _ _ _ file) as [loaded|] eqn:El; [|done]. cbn [wrapErr].
  assert (wellFormed loaded) as Hl.
  { revert El. unfold Load. destruct (mc_read mc file) as [raw|]; [|done]. destruct (mc_yaml mc Default raw) as [c|]; [|done]. destruct (applyEnv (mc_env mc) c) as [c'|]; [|done].
    destruct (Validate (mc_range mc) c') as [[]|] eqn:Ev; [|done]. intros [= <-]. by apply (validate_spec (mc_range mc)). }
  intros Hc. assert (wellFormed cfg /\ cfg = (if str_eqb role "" then loaded else withRole loaded role)) as [Hw ->].
  { destruct (str_eqb role ""); [by injection Hc as <-|]. destruct (Validate (mc_range mc) (withRole loaded role)) as [[]|] eqn:Ev; [|done]. cbn in Hc. injection Hc as <-. split; [|done]. by apply (validate_spec (mc_range mc)). }
  split; [done|]. exists path, role, file. split_and!; [done..|]. by exists loaded.
Qed.

Lemma serve_run {W} (mc : machine W) args cfg reg : configFor mc args = Ok cfg ->
  let rn := Run (mc_Connect mc) (mc_creds mc) (mc_consumer mc) (mc_evaluate mc) (mc_waits mc) cfg reg in
  fst (serve mc args reg) = fst rn /\ snd (serve mc args reg) = match snd rn with Some (ErrLoop Canceled) => None | Some e => Some (ErrStart e) | None => None end.
Proof. intros Hp. cbv zeta. unfold serve. rewrite Hp. by destruct (Run _ _ _ _ _ cfg reg). Qed.

Lemma started {W} (mc : machine W) cfg reg : wellFormed cfg -> canStart (mc_Connect mc) (mc_creds mc) cfg reg -> exists r rs, reg = Some r /\
  Run (mc_Connect mc) (mc_creds mc) (mc_consumer mc) (mc_evaluate mc) (mc_waits mc) cfg (Some r) =
  (map Opened (openedOf (mc_consumer mc) cfg) ++ map Started (loopsOf (mc_consumer mc) (mc_evaluate mc) cfg r rs) ++ [Waited] ++ map Closed (rev (openedOf (mc_consumer mc) cfg)),
   option_map ErrLoop (mc_waits mc (loopsOf (mc_consumer mc) (mc_evaluate mc) cfg r rs))).
Proof. intros Hw Hcs. destruct (cs_reg _ _ _ _ Hcs) as (r & -> & _). destruct (cs_tenants _ _ _ _ Hcs) as [rs Hrs]. exists r, rs. split; [done|]. by apply run_form. Qed.

Lemma opened_queues k c : omap (fun r => match r with QueueHandle q => Some q | _ => None end) (openedOf k c) = queuesOf k c.
Proof. unfold openedOf, queuesOf. by destruct (hasRedis c), (fastOf c). Qed.

Lemma opened_nodup k c : NoDup (openedOf k c).
Proof. unfold openedOf, queuesOf, refOf. destruct (hasRedis c), (fastOf c); cbn; repeat (apply NoDup_cons; split; [rewrite ?elem_of_cons, ?elem_of_nil; naive_solver|]); apply NoDup_nil_2. Qed.

Section Loops.
Context {W : Type} (k : string) (evaluate : engineSetup W -> ctx -> string -> Event -> W -> W) (c : InstanceConfig) (reg : extRegistry W) (rs : Tenant.Resolver).

Lemma loop_cases l : In l (loopsOf k evaluate c reg rs) ->
  match l with LSampler _ => True | LSubscribe => True | _ => False end \/ In l (apiLoops c rs (wiringOf k evaluate c reg)) \/
  RunsWorker (in_Role c) = true /\ match l with
    | LWorker _ _ _ _ => True | LBatchWorker _ _ _ _ => True | LDLQSampler _ => True
    | LDispatcher _ _ _ guard => guard = compilePolicy (wc_SSRF (in_Webhooks c)) | _ => False end.
Proof.
  intros [<-|Hin]; [by left|]. apply in_app_or in Hin as [Hin|Hin]; [left; destruct (hasRedis c); [by destruct Hin as [<-|[]]|done]|].
  apply in_app_or in Hin as [Hin|Hin]; right; [by left|right]. unfold workerLoops in Hin. destruct (RunsWorker (in_Role c)); [|done]. split; [done|]. destruct Hin as [<-|Hin]; [done|].
  apply in_app_or in Hin as [Hin|Hin]; [destruct (api_fast _); [by destruct Hin as [<-|[]]|done]|]. by destruct Hin as [<-|[<-|[]]].
Qed.

Lemma http_loop l rs' sv api : In (LHTTP l rs' sv api) (loopsOf k evaluate c reg rs) -> ServesAPI (in_Role c) = true /\ api = wiringOf k evaluate c reg.
Proof.
  intros [Hin|[Hin|[_ []]]]%loop_cases; [done|]. unfold apiLoops in Hin. destruct (ServesAPI (in_Role c)); [|done]. by destruct Hin as [[= _ _ _ <-]|[?|[]]].
Qed.

Lemma dispatcher_loop q secrets dc guard : In (LDispatcher q secrets dc guard) (loopsOf k evaluate c reg rs) -> RunsWorker (in_Role c) = true /\ guard = compilePolicy (wc_SSRF (in_Webhooks c)).
Proof.
  intros [Hin|[Hin|(Hr & Hin)]]%loop_cases; [done|unfold apiLoops in Hin; destruct (ServesAPI (in_Role c)); [by destruct Hin as [?|[?|[]]]|done]|]. done.
Qed.

Lemma publish_in mode : In (publishTo (wiringOf k evaluate c reg) mode) (queuesOf k c).
Proof. unfold publishTo, wiringOf, queuesOf. cbn. destruct (fastOf c); cbn; [destruct (str_eqb mode ReliabilityFast)|]; naive_solver. Qed.

Lemma redeliver_in : In (api_redeliver (wiringOf k evaluate c reg)) (queuesOf k c).
Proof. unfold queuesOf. cbn. destruct (fastOf c); cbn; naive_solver. Qed.
End Loops.

(** C24: A process wires what its configuration says.  Whatever the arguments, the files
    and the environment, the configuration that runs is a well-formed one: the file's,
    with the role of the flag when there is one.  Everything the process opens it closes,
    last opened first, on every path.  It comes to wait for its loops exactly when the
    registry is complete, the tenants' keys resolve, the MongoDB URI is accepted, the
    certificate loads (when the API is served) and the SSRF blocks parse (when a worker
    runs); its result is then the loops' own, a cancellation being none.  In such a
    process a worker role consumes each of its queues, in one loop each, and the API role
    none; writes of every mode, and redeliveries, go to queues the process opened; every
    dispatcher sends through the guard the configuration describes; and for every queue
    of an API process, each worker process with the same queue settings has a loop on
    the same streams, in the same group, with the same shards. *)
Theorem served_process {W} (mc : machine W) (args : list string) (cfg : InstanceConfig) (reg : option (extRegistry W)) :
  (forall V (l : list (string * V)), mc_range mc V l ≡ₚ l) -> configFor mc args = Ok cfg ->
  let tr := fst (serve mc args reg) in
  (wellFormed cfg /\ exists path role file loaded, serveFlags args = Ok (path, role) /\ ResolveFile (mc_exists mc) (mc_beside mc) path = Ok file /\
     Load (mc_range mc) (mc_env mc) (mc_read mc) (mc_yaml mc) file = Ok loaded /\ wellFormed loaded /\ cfg = (if str_eqb role "" then loaded else withRole loaded role)) /\
  closedIn tr = rev (openedIn tr) /\
  (waited tr <-> canStart (mc_Connect mc) (mc_creds mc) cfg reg) /\
  (waited tr ->
     snd (serve mc args reg) = (match mc_waits mc (startedLoops tr) with Some (LoopFailed e) => Some (ErrStart (ErrLoop (LoopFailed e))) | _ => None end) /\
     NoDup (openedIn tr) /\ omap consumes (startedLoops tr) = (if RunsWorker (in_Role cfg) then omap (fun r => match r with QueueHandle q => Some q | _ => None end) (openedIn tr) else []) /\
     (forall l rs sv api, In (LHTTP l rs sv api) (startedLoops tr) -> In (QueueHandle (api_redeliver api)) (openedIn tr) /\ forall mode, In (QueueHandle (publishTo api mode)) (openedIn tr)) /\
     (forall q secrets dc guard, In (LDispatcher q secrets dc guard) (startedLoops tr) -> guard = compilePolicy (wc_SSRF (in_Webhooks cfg)) /\ guard <> None) /\
     (forall (mc' : machine W) args' cfg' reg', (forall V (l : list (string * V)), mc_range mc' V l ≡ₚ l) -> configFor mc' args' = Ok cfg' -> waited (fst (serve mc' args' reg')) ->
        RunsWorker (in_Role cfg) = false -> RunsWorker (in_Role cfg') = true -> in_Queue cfg' = in_Queue cfg -> wc_DeliveryShards (in_Webhooks cfg') = wc_DeliveryShards (in_Webhooks cfg) ->
        forall q, In (QueueHandle q) (openedIn tr) -> exists l q', In l (startedLoops (fst (serve mc' args' reg'))) /\ consumes l = Some q' /\ qr_name q' = qr_name q /\ sameStreams (qr_queue q') (qr_queue q))).
Proof.
  intros Hr Hp. cbv zeta. destruct (configFor_wf mc args cfg Hr Hp) as [Hw Hload]. split; [destruct Hload as (path & role & file & H1 & H2 & loaded & H3 & H4 & H5); split; [done|]; by exists path, role, file, loaded|].
  pose proof (serve_run mc args cfg reg Hp) as [Et Ee]. rewrite Et. split; [apply run_closes|].
  assert (waited (fst (Run (mc_Connect mc) (mc_creds mc) (mc_consumer mc) (mc_evaluate mc) (mc_waits mc) cfg reg)) <-> canStart (mc_Connect mc) (mc_creds mc) cfg reg) as Hiff.
  { split; [by apply run_waits|]. intros Hcs. destruct (started mc cfg reg Hw Hcs) as (r & rs & -> & Hf). rewrite Hf. apply trace_views. }
  split; [done|]. intros Hcs%Hiff. destruct (started mc cfg reg Hw Hcs) as (r & rs & -> & Hf). rewrite Ee, Hf. cbn [fst snd].
  destruct (trace_views (openedOf (mc_consumer mc) cfg) (loopsOf (mc_consumer mc) (mc_evaluate mc) cfg r rs) (rev (openedOf (mc_consumer mc) cfg))) as (-> & -> & _).
  split_and!.
  - by destruct (mc_waits mc _) as [[]|].
  - apply opened_nodup.
  - rewrite consumers by done. by rewrite opened_queues.
  - intros l rs' sv api Hin. apply http_loop in Hin as (_ & -> ). split; [apply handle_in|intros mode; apply handle_in]; [by apply redeliver_in|by apply publish_in].
  - intros q secrets dc guard Hin. apply dispatcher_loop in Hin as (Hrw & ->). split; [done|]. destruct Hcs as [_ _ _ _ Hci]. specialize (Hci Hrw). unfold cidrsOK in Hci. by destruct (compilePolicy _).
  - intros mc' args' cfg' reg' Hr' Hp' Hwait' Hno Hyes Hq Hs q Hin%handle_in. destruct (configFor_wf mc' args' cfg' Hr' Hp') as [Hw' _].
    pose proof (serve_run mc' args' cfg' reg' Hp') as [Et' _]. rewrite Et' in *. apply run_waits in Hwait'; [|done]. destruct (started mc' cfg' reg' Hw' Hwait') as (r' & rs' & -> & Hf'). rewrite Hf'. cbn [fst].
    destruct (trace_views (openedOf (mc_consumer mc') cfg') (loopsOf (mc_consumer mc') (mc_evaluate mc') cfg' r' rs') (rev (openedOf (mc_consumer mc') cfg'))) as (_ & -> & _).
    destruct (shared_queues cfg cfg' (mc_consumer mc) (mc_consumer mc') q Hw Hno Hq Hs Hin) as (q' & Hq' & Hn & Hss). pose proof (consumers (mc_consumer mc') (mc_evaluate mc') cfg' r' rs' Hw') as Hcon. rewrite Hyes in Hcon.
    rewrite <- Hcon in Hq'. apply list_elem_of_In, list_elem_of_omap in Hq' as (l & Hl & Hc). exists l, q'. split; [by apply list_elem_of_In|done].
Qed.

(** Two machines on one Redis: the API role from the environment, the worker role from the
    flag over the default of the file. *)
Definition exampleMachine (env : string -> option string) (name : string) : machine unit :=
  mkMachine (fun V l => l) (fun p => str_eqb p FileName) None env (fun _ => Some "") (fun c _ => Some c) (fun _ => true) (fun _ _ => None) name (fun _ _ _ _ w => w) (fun _ => Some Canceled) "dev" "none" "unknown".
Definition apiMachine : machine unit := exampleMachine (fun k => if str_eqb k "LETOPIS_ROLE" then Some "api" else None) "a".
Definition workerMachine : machine unit := exampleMachine (fun _ => None) "w".

Lemma served_process_witness :
  configFor apiMachine [] = Ok (withRole Default "api") /\ configFor workerMachine ["-role"; "worker"] = Ok (withRole Default "worker") /\
  closedIn (fst (serve apiMachine [] (Some Defaults))) = rev (openedIn (fst (serve apiMachine [] (Some Defaults)))) /\
  waited (fst (serve apiMachine [] (Some Defaults))) /\ snd (serve apiMachine [] (Some Defaults)) = None /\
  forall q, In (QueueHandle q) (openedIn (fst (serve apiMachine [] (Some Defaults)))) ->
    exists l q', In l (startedLoops (fst (serve workerMachine ["-role"; "worker"] (Some Defaults)))) /\ consumes l = Some q' /\ qr_name q' = qr_name q /\ sameStreams (qr_queue q') (qr_queue q).
Proof.
  assert (configFor apiMachine [] = Ok (withRole Default "api")) as Ha by (vm_compute; reflexivity).
  assert (configFor workerMachine ["-role"; "worker"] = Ok (withRole Default "worker")) as Hk by (vm_compute; reflexivity).
  assert (forall role, canStart (W := unit) (fun _ => true) (fun _ _ => None) (withRole Default role) (Some Defaults)) as Hcs.
  { intros role. split; [exists Defaults; done|exists (mkResolver []); reflexivity|done|done|intros _; vm_compute; reflexivity]. }
  destruct (served_process apiMachine [] (withRole Default "api") (Some Defaults) (fun V l => Permutation_refl l) Ha) as (_ & Hc & Hiff & Hall).
  destruct (served_process workerMachine ["-role"; "worker"] (withRole Default "worker") (Some Defaults) (fun V l => Permutation_refl l) Hk) as (_ & _ & Hiff' & _).
  pose proof (proj2 Hiff (Hcs _)) as Hwa. pose proof (proj2 Hiff' (Hcs _)) as Hww. destruct (Hall Hwa) as (He & _ & _ & _ & _ & Hx). split_and!; [exact Ha|exact Hk|exact Hc|exact Hwa|exact He|].
  intros q Hq. exact (Hx workerMachine ["-role"; "worker"] (withRole Default "worker") (Some Defaults) (fun V l => Permutation_refl l) Hk Hww eq_refl eq_refl eq_refl eq_refl q Hq).
Defined.

(** A block list that does not parse stops a worker after its loops have started, and is
    not noticed by the API role. *)
Definition badBlocks (role : string) : InstanceConfig :=
  mkInstance role (in_HTTP Default) (in_GRPC Default) (in_MongoURI Default) (in_Redis Default) (in_Queue Default) 0 0 0 (mkWebhooksConf 0 0 0 0 [] 0 (mkPolicy [] ["10.0.0.0"] false false)) "info" "json" true [].
Example late_blocks : let run role := Run (W := unit) (fun _ => true) (fun _ _ => None) "w" (fun _ _ _ _ w => w) (fun _ => None) (badBlocks role) (Some Defaults) in
  Validate (fun V l => l) (badBlocks "worker") = Ok tt /\ snd (run "worker") = Some (ErrSSRF "ssrf CIDR") /\ length (startedLoops (fst (run "worker"))) = 3%nat /\ snd (run "api") = None.
Proof. vm_compute. split_and!; reflexivity. Qed.
